(** * MintEDGE DAG replay: a shallow embedding of [src/mintedge/dag]

    The development follows the Python package module by module:
    [models.py] (the four records and their methods), [topology.py]
    (the NetworkX graph, the link lookup and the transfer-time model),
    [loaders.py] (the three loaders, from the parsed documents),
    [scheduler.py] (the SimPy replay), [metrics.py] (the collector and its
    summary) and [simulation.py] (the pipeline of [run_full]).  Reading
    and writing files and printing are left out; of [print_summary] only
    the look-ups in the summary are kept.

    Conventions of the embedding.
    - Python [float] values are idealised as exact rationals ([Q]); results
      about them are stated up to [Qeq] ([==]).  [float("inf")] appears only
      as an edge weight and is kept as a separate constructor.  The general
      theorems are proved on this idealisation and are stated in the form
      in which the program computes (a sum where the program adds).
    - Module [Binary64] repeats the models, the topology and the replay
      over IEEE 754 binary64 numbers, operation by operation; what depends
      on rounding is evaluated there.
    - The loaders start from the parsed documents.  A numeric value of a
      document is a number, on which [float()] is the identity; documents
      on which [float()] raises are outside the embedding, so the loaders
      are described by what they return and by the [KeyError]s they
      raise.
    - A Python [dict] is an association list in insertion order with unique
      keys ([dict_set] overwrites in place, as CPython does).
    - A raised exception is the [Raise] branch of [result]; messages that
      interpolate a float keep only their fixed prefix.
    - The two libraries the package calls, NetworkX ([nx.Graph],
      [nx.dijkstra_path]) and SimPy ([Environment], [Event], [Timeout],
      [AllOf], [Process]), are embedded from their published sources.
    - The two [while] loops ([_dijkstra_multisource] and
      [Environment.run]) recurse on fuel; [dijkstra_path_spec] and
      [replay_total] show that the fuel they are given is never used up. *)

From Stdlib Require Import List String Ascii Bool Arith ZArith QArith Lia Lqa.
From Stdlib Require Import Permutation.
From Stdlib Require Floats.
Import ListNotations.
Open Scope string_scope.
Open Scope list_scope.
Open Scope Q_scope.

Set Implicit Arguments.

(* ================================================================== *)
(** ** Exceptions and the error monad *)

Inductive exn : Type :=
| ValueError (msg : string)
| KeyError (key : string)
| RuntimeError (msg : string)
| NodeNotFound (msg : string)       (* networkx.NodeNotFound *)
| NetworkXNoPath (msg : string)     (* networkx.NetworkXNoPath *)
| Unreachable.   (* artefact of the embedding (fuel of a loop exhausted, an
                    object reference without its object); shown never to
                    be produced *)

Inductive result (A : Type) : Type :=
| Ok (a : A)
| Raise (e : exn).
Arguments Ok {A} a.
Arguments Raise {A} e.

Definition bind {A B} (r : result A) (k : A -> result B) : result B :=
  match r with
  | Ok a => k a
  | Raise e => Raise e
  end.

Notation "x <- r ;; k" := (bind r (fun x => k))
  (at level 61, r at next level, right associativity).

Definition is_ok {A} (r : result A) : bool :=
  match r with Ok _ => true | Raise _ => false end.

(* ================================================================== *)
(** ** Python dictionaries *)

Class EqbKey (K : Type) := {
  keqb : K -> K -> bool;
  keqb_spec : forall a b, reflect (a = b) (keqb a b)
}.

#[export] Instance EqbKey_string : EqbKey string :=
  {| keqb := String.eqb; keqb_spec := String.eqb_spec |}.

Lemma pair_eqb_spec {A B} `{EqbKey A} `{EqbKey B} (p q : A * B) :
  reflect (p = q) (keqb (fst p) (fst q) && keqb (snd p) (snd q)).
Proof.
  destruct p as [a b], q as [a' b']; simpl.
  destruct (keqb_spec a a'), (keqb_spec b b'); simpl; constructor; congruence.
Qed.

#[export] Instance EqbKey_pair {A B} `{EqbKey A} `{EqbKey B} : EqbKey (A * B) :=
  {| keqb := fun p q => keqb (fst p) (fst q) && keqb (snd p) (snd q);
     keqb_spec := pair_eqb_spec |}.

Section Dict.
Context {K V : Type} `{EqbKey K}.

Definition dict := list (K * V).

(** [d.get(k)] *)
Fixpoint dict_get (k : K) (d : dict) : option V :=
  match d with
  | [] => None
  | (k', v) :: r => if keqb k k' then Some v else dict_get k r
  end.

(** [k in d] *)
Definition dict_mem (k : K) (d : dict) : bool :=
  match dict_get k d with Some _ => true | None => false end.

(** [d[k] = v]: overwrite in place, else append (insertion order). *)
Fixpoint dict_set (k : K) (v : V) (d : dict) : dict :=
  match d with
  | [] => [(k, v)]
  | (k', v') :: r =>
      if keqb k k' then (k', v) :: r else (k', v') :: dict_set k v r
  end.

Definition keys (d : dict) : list K := map fst d.
Definition values (d : dict) : list V := map snd d.
End Dict.
Arguments dict K V : clear implicits.

(** [d[k]] on a string-keyed dictionary: [KeyError] when absent. *)
Definition dict_item {V} (k : string) (d : dict string V) : result V :=
  match dict_get k d with
  | Some v => Ok v
  | None => Raise (KeyError k)
  end.

(* ================================================================== *)
(** ** Rational helpers (Python float comparisons) *)

Definition Qltb (x y : Q) : bool := negb (Qle_bool y x).

(** [sum(xs)]: left fold starting from 0. *)
Definition py_sum (xs : list Q) : Q := fold_left Qplus xs 0.

(** [max(xs)] on a non-empty sequence: the first maximal element. *)
Definition py_max (x : Q) (xs : list Q) : Q :=
  fold_left (fun m y => if Qltb m y then y else m) xs x.

(* ================================================================== *)
(** ** models.py *)

Module TaskDefinition.
Record t := {
  task_id : string;
  compute_cost : Q;
  successors : list string;
  predecessors : list string;
  edge_weights : dict string Q
}.

Definition get_data_to_successor (self : t) (successor_id : string) : Q :=
  match dict_get successor_id (edge_weights self) with
  | Some w => w
  | None => 0
  end.
End TaskDefinition.

Module ScheduledTask.
Record t := {
  task_id : string;
  node_id : string;
  scheduled_start : Q;
  scheduled_end : Q;
  scheduled_duration : Q;
  actual_start : option Q;
  actual_end : option Q;
  uplink_time : Q;
  compute_time : Q;
  downlink_time : Q
}.

Definition actual_duration (self : t) : option Q :=
  match actual_start self, actual_end self with
  | Some s, Some e => Some (e - s)
  | _, _ => None
  end.

(** Attribute assignments of the replay. *)
Definition set_actual_start (v : Q) (self : t) : t :=
  {| task_id := task_id self; node_id := node_id self;
     scheduled_start := scheduled_start self;
     scheduled_end := scheduled_end self;
     scheduled_duration := scheduled_duration self;
     actual_start := Some v; actual_end := actual_end self;
     uplink_time := uplink_time self; compute_time := compute_time self;
     downlink_time := downlink_time self |}.

Definition set_actual_end (v : Q) (self : t) : t :=
  {| task_id := task_id self; node_id := node_id self;
     scheduled_start := scheduled_start self;
     scheduled_end := scheduled_end self;
     scheduled_duration := scheduled_duration self;
     actual_start := actual_start self; actual_end := Some v;
     uplink_time := uplink_time self; compute_time := compute_time self;
     downlink_time := downlink_time self |}.

Definition set_uplink_time (v : Q) (self : t) : t :=
  {| task_id := task_id self; node_id := node_id self;
     scheduled_start := scheduled_start self;
     scheduled_end := scheduled_end self;
     scheduled_duration := scheduled_duration self;
     actual_start := actual_start self; actual_end := actual_end self;
     uplink_time := v; compute_time := compute_time self;
     downlink_time := downlink_time self |}.

Definition set_compute_time (v : Q) (self : t) : t :=
  {| task_id := task_id self; node_id := node_id self;
     scheduled_start := scheduled_start self;
     scheduled_end := scheduled_end self;
     scheduled_duration := scheduled_duration self;
     actual_start := actual_start self; actual_end := actual_end self;
     uplink_time := uplink_time self; compute_time := v;
     downlink_time := downlink_time self |}.

(** The dataclass constructor with its defaults. *)
Definition make (tid nid : string) (s e d : Q) : t :=
  {| task_id := tid; node_id := nid;
     scheduled_start := s; scheduled_end := e; scheduled_duration := d;
     actual_start := None; actual_end := None;
     uplink_time := 0; compute_time := 0; downlink_time := 0 |}.
End ScheduledTask.

Module ComputeNode.
Record t := {
  node_id : string;
  speed_multiplier : Q;
  node_type : string
}.

Definition get_capacity (self : t) (base_speed : Q) : Q :=
  base_speed * speed_multiplier self.

Definition get_compute_time (self : t) (compute_cost base_speed : Q)
  : result Q :=
  let capacity := get_capacity self base_speed in
  if Qle_bool capacity 0
  then Raise (ValueError ("Node " ++ node_id self ++ " has invalid capacity")%string)
  else Ok (compute_cost / capacity).
End ComputeNode.

Module NetworkLink.
Record t := {
  source : string;
  target : string;
  bandwidth : Q;
  link_type : string
}.

(** [bytes_per_second = self.bandwidth * 1e6 / 8] *)
Definition bytes_per_second (self : t) : Q :=
  bandwidth self * (1000000 # 1) / (8 # 1).

Definition get_transfer_time (self : t) (data_size_bytes : Q) : result Q :=
  if Qle_bool (bandwidth self) 0
  then Raise (ValueError ("Link " ++ source self ++ "->" ++ target self
                            ++ " has invalid bandwidth")%string)
  else Ok (data_size_bytes / bytes_per_second self).
End NetworkLink.

(* ================================================================== *)
(** ** [heapq]: a binary heap seen as a bag with a minimum *)

Section Heap.
Context {E : Type} (ltb : E -> E -> bool).

Definition heappush (h : list E) (x : E) : list E := h ++ [x].

(** [heappop]: the least element and the remaining bag; [None] on the
    empty heap (Python raises [IndexError]). *)
Fixpoint heappop (h : list E) : option (E * list E) :=
  match h with
  | [] => None
  | x :: r =>
      match heappop r with
      | None => Some (x, [])
      | Some (m, r') =>
          if ltb m x then Some (m, x :: r') else Some (x, r)
      end
  end.
End Heap.

(* ================================================================== *)
(** ** NetworkX: [nx.Graph] and [nx.dijkstra_path] *)

(** An edge weight: [1.0 / bandwidth], or [float("inf")]. *)
Inductive weight : Type :=
| Fin (w : Q)
| Inf.

Definition wadd (a b : weight) : weight :=
  match a, b with
  | Fin x, Fin y => Fin (x + y)
  | _, _ => Inf
  end.

Definition wltb (a b : weight) : bool :=
  match a, b with
  | Fin x, Fin y => Qltb x y
  | Fin _, Inf => true
  | Inf, _ => false
  end.

Definition weqb (a b : weight) : bool :=
  match a, b with
  | Fin x, Fin y => Qeq_bool x y
  | Inf, Inf => true
  | _, _ => false
  end.

Module nx.
(** The attribute dictionary of an edge: [weight=...], [link=...]. *)
Record EdgeData := {
  ed_weight : weight;
  ed_link : NetworkLink.t
}.

(** [Graph._adj]: node -> (neighbour -> edge data).  Its keys are the
    nodes of the graph (the node attribute [compute_node] is never read
    and is left out). *)
Definition Graph := dict string (dict string EdgeData).

Definition empty : Graph := [].

Definition has_node (G : Graph) (n : string) : bool := dict_mem n G.

Definition add_node (n : string) (G : Graph) : Graph :=
  if dict_mem n G then G else G ++ [(n, [])].

Definition adj_update (u v : string) (d : EdgeData) (G : Graph) : Graph :=
  map (fun kv => if String.eqb u (fst kv)
                 then (fst kv, dict_set v d (snd kv)) else kv) G.

(** [G.add_edge(u, v, weight=w, link=l)] *)
Definition add_edge (u v : string) (d : EdgeData) (G : Graph) : Graph :=
  let G := add_node u G in
  let G := add_node v G in
  let G := adj_update u v d G in
  adj_update v u d G.

(** Heap entries [(distance, counter, node)], compared as tuples; the
    counter is unique, so nodes are never compared. *)
Definition entry := (weight * nat * string)%type.

Definition entry_ltb (a b : entry) : bool :=
  let '(da, ca, _) := a in
  let '(db, cb, _) := b in
  if weqb da db then Nat.ltb ca cb else wltb da db.

Record state := {
  dist : dict string weight;
  seen : dict string weight;
  paths : dict string (list string);
  fringe : list entry;
  c : nat
}.

(** One pass of [for u, e in G_succ[v].items()]. *)
Definition relax (v : string) (d : weight) (st : result state)
           (ue : string * EdgeData) : result state :=
  st <- st ;;
  let '(u, e) := ue in
  let vu_dist := wadd d (ed_weight e) in
  match dict_get u (dist st) with
  | Some u_dist =>
      if wltb vu_dist u_dist
      then Raise (ValueError "Contradictory paths found: negative weights?")
      else Ok st
  | None =>
      let better :=
        match dict_get u (seen st) with
        | None => true
        | Some su => wltb vu_dist su
        end in
      if better then
        pv <- dict_item v (paths st) ;;
        Ok {| dist := dist st;
              seen := dict_set u vu_dist (seen st);
              paths := dict_set u (pv ++ [u]) (paths st);
              fringe := heappush (fringe st) (vu_dist, c st, u);
              c := S (c st) |}
      else Ok st
  end.

(** The [while fringe:] loop of [_dijkstra_multisource]. *)
Fixpoint loop (fuel : nat) (G : Graph) (target : string) (st : state)
  : result state :=
  match fuel with
  | O => Raise Unreachable
  | S fuel =>
      match heappop entry_ltb (fringe st) with
      | None => Ok st
      | Some ((d, _, v), rest) =>
          if dict_mem v (dist st) then
            loop fuel G target
                 {| dist := dist st; seen := seen st; paths := paths st;
                    fringe := rest; c := c st |}
          else
            let st1 := {| dist := dict_set v d (dist st); seen := seen st;
                          paths := paths st; fringe := rest; c := c st |} in
            if String.eqb v target then Ok st1
            else
              succ <- dict_item v G ;;
              st2 <- fold_left (relax v d) succ (Ok st1) ;;
              loop fuel G target st2
      end
  end.

Definition degree_sum (G : Graph) : nat :=
  fold_right (fun kv n => (List.length (snd kv) + n)%nat) O G.

(** [_dijkstra_multisource(G, {source}, weight, paths=paths, target=target)] *)
Definition dijkstra_multisource (G : Graph) (source target : string)
  : result state :=
  loop (2 + degree_sum G) G target
       {| dist := []; seen := [(source, Fin 0)];
          paths := [(source, [source])];
          fringe := [(Fin 0, O, source)]; c := 1%nat |}.

(** [nx.dijkstra_path(G, source, target, weight="weight")] *)
Definition dijkstra_path (G : Graph) (source target : string)
  : result (list string) :=
  if negb (has_node G source)
  then Raise (NodeNotFound ("Node " ++ source ++ " not found in graph")%string)
  else if String.eqb target source then Ok [target]
  else
    st <- dijkstra_multisource G source target ;;
    match dict_get target (dist st), dict_get target (paths st) with
    | Some _, Some p => Ok p
    | _, _ => Raise (NetworkXNoPath ("No path to " ++ target ++ ".")%string)
    end.
End nx.

(* ================================================================== *)
(** ** topology.py *)

Module DAGTopology.
Record t := {
  nodes : dict string ComputeNode.t;
  links : list NetworkLink.t;
  graph : nx.Graph;
  _link_map : dict (string * string) NetworkLink.t
}.

(** The body of [for link in self.links:] in [_build_graph]. *)
Definition add_link (gm : nx.Graph * dict (string * string) NetworkLink.t)
           (link : NetworkLink.t)
  : nx.Graph * dict (string * string) NetworkLink.t :=
  let '(G, m) := gm in
  let s := NetworkLink.source link in
  let t := NetworkLink.target link in
  if String.eqb s t then (G, dict_set (s, t) link m)
  else
    let w := if Qltb 0 (NetworkLink.bandwidth link)
             then Fin (1 / NetworkLink.bandwidth link) else Inf in
    let G := nx.add_edge s t {| nx.ed_weight := w; nx.ed_link := link |} G in
    (G, dict_set (t, s) link (dict_set (s, t) link m)).

Definition _build_graph (nodes : dict string ComputeNode.t)
           (links : list NetworkLink.t)
  : nx.Graph * dict (string * string) NetworkLink.t :=
  let G := fold_left (fun G kv => nx.add_node (fst kv) G) nodes nx.empty in
  fold_left add_link links (G, []).

(** [DAGTopology(nodes, links)] *)
Definition init (nodes : dict string ComputeNode.t)
           (links : list NetworkLink.t) : t :=
  let gm := _build_graph nodes links in
  {| nodes := nodes; links := links; graph := fst gm; _link_map := snd gm |}.

Definition get_node (self : t) (node_id : string) : option ComputeNode.t :=
  dict_get node_id (nodes self).

Definition get_link (self : t) (source target : string)
  : option NetworkLink.t :=
  dict_get (source, target) (_link_map self).

Definition get_path (self : t) (source target : string)
  : result (list string) :=
  if String.eqb source target then Ok [source]
  else
    match nx.dijkstra_path (graph self) source target with
    | Raise (NetworkXNoPath _) =>
        Raise (ValueError ("No path exists between " ++ source
                             ++ " and " ++ target)%string)
    | Raise (NodeNotFound e) => Raise (ValueError ("Node not found: " ++ e)%string)
    | r => r
    end.

(** [for i in range(len(path) - 1)]: the consecutive pairs of a path. *)
Fixpoint hops (path : list string) : list (string * string) :=
  match path with
  | a :: (b :: _) as r => (a, b) :: hops r
  | _ => []
  end.

Definition get_path_links (self : t) (source target : string)
  : result (list NetworkLink.t) :=
  if String.eqb source target then
    match dict_get (source, target) (_link_map self) with
    | Some self_loop => Ok [self_loop]
    | None => Ok []
    end
  else
    path <- get_path self source target ;;
    Ok (fold_left
          (fun links e =>
             match dict_get e (_link_map self) with
             | Some link => links ++ [link]
             | None => links
             end)
          (hops path) []).

(** [sum(link.get_transfer_time(n) for link in links)]: the generator is
    consumed left to right and the first exception escapes. *)
Definition sum_transfer_times (links : list NetworkLink.t) (n : Q)
  : result Q :=
  fold_left
    (fun acc link =>
       a <- acc ;;
       x <- NetworkLink.get_transfer_time link n ;;
       Ok (a + x))
    links (Ok 0).

Definition get_transfer_time (self : t) (source target : string)
           (data_size_bytes : Q) : result Q :=
  if String.eqb source target then
    match dict_get (source, target) (_link_map self) with
    | Some self_loop => NetworkLink.get_transfer_time self_loop data_size_bytes
    | None => Ok 0
    end
  else
    links <- get_path_links self source target ;;
    match links with
    | [] => Raise (ValueError ("No path links found between " ++ source
                                 ++ " and " ++ target)%string)
    | _ => sum_transfer_times links data_size_bytes
    end.

Definition get_compute_time (self : t) (node_id : string)
           (compute_cost base_speed : Q) : result Q :=
  match dict_get node_id (nodes self) with
  | None => Raise (ValueError ("Unknown node: " ++ node_id)%string)
  | Some node => ComputeNode.get_compute_time node compute_cost base_speed
  end.
End DAGTopology.

(* ================================================================== *)
(** ** Python string methods used by the scheduler *)

(** [s.rsplit(sep, 1)] for a one-character separator: the text before and
    after the last occurrence of [sep], if any. *)
Fixpoint rsplit_last (sep : ascii) (s : string) : option (string * string) :=
  match s with
  | EmptyString => None
  | String ch r =>
      match rsplit_last sep r with
      | Some (a, b) => Some (String ch a, b)
      | None => if Ascii.eqb ch sep then Some (EmptyString, r) else None
      end
  end.

Definition rsplit1 (sep : ascii) (s : string) : list string :=
  match rsplit_last sep s with
  | Some (a, b) => [a; b]
  | None => [s]
  end.

Definition startswith (s p : string) : bool := String.prefix p s.

(* ================================================================== *)
(** ** SimPy: environment, events, conditions *)

Module simpy.
Definition URGENT : nat := 0.
Definition NORMAL : nat := 1.

(** The event objects the replay creates.  A process is named by the key
    of its task in [scheduled_tasks]. *)
Inductive event : Type :=
| Initialize (p : string)            (* starts the process [p] *)
| Completion (task_id : string)      (* [completion_events[task_id]] *)
| AllOf (p : string)                 (* the condition [p] waits on *)
| Timeout (p : string)               (* a timeout [p] waits on *)
| Process (p : string) (ok : result unit).   (* the end of process [p] *)

Definition entry := (Q * nat * nat * event)%type.

(** Tuple comparison of [(time, priority, eid, event)]; [eid] is unique. *)
Definition entry_ltb (a b : entry) : bool :=
  let '(ta, pa, ea, _) := a in
  let '(tb, pb, eb, _) := b in
  if Qeq_bool ta tb
  then (if Nat.eqb pa pb then Nat.ltb ea eb else Nat.ltb pa pb)
  else Qltb ta tb.

Record Environment := {
  now : Q;
  _eid : nat;
  _queue : list entry
}.

Definition new_environment : Environment :=
  {| now := 0; _eid := O; _queue := [] |}.

(** [env.schedule(event, priority, delay)] *)
Definition schedule (ev : event) (priority : nat) (delay : Q)
           (env : Environment) : Environment :=
  {| now := now env;
     _eid := S (_eid env);
     _queue := heappush (_queue env) (now env + delay, priority, _eid env, ev) |}.

(** A plain [Event]: [callbacks] lists the processes whose condition has
    registered [_check] on it and becomes [None] once the event has been
    processed; [triggered] says that a value has been set. *)
Record Event := {
  callbacks : option (list string);
  triggered : bool
}.

Definition new_event : Event := {| callbacks := Some []; triggered := false |}.

(** An [AllOf] condition: [len(self._events)], [self._count], and whether
    it has been triggered. *)
Record Condition := {
  n_events : nat;
  _count : nat;
  cond_triggered : bool
}.
End simpy.

(* ================================================================== *)
(** ** scheduler.py *)

Module DAGScheduler.

(** *** Task-id parsing *)

Definition parse_base_task_id (scheduled_task_id : string) : string :=
  match rsplit1 "_" scheduled_task_id with
  | [a; b] => if startswith b "c" then a else scheduled_task_id
  | _ => scheduled_task_id
  end.

(** [_get_base_task_id] with its memo table [_task_id_map] threaded. *)
Definition _get_base_task_id (_task_id_map : dict string string)
           (scheduled_task_id : string) : string * dict string string :=
  match dict_get scheduled_task_id _task_id_map with
  | Some b => (b, _task_id_map)
  | None =>
      let base_id := parse_base_task_id scheduled_task_id in
      (base_id, dict_set scheduled_task_id base_id _task_id_map)
  end.

(** [parts[1] if len(parts) == 2 and parts[1].startswith("c") else None] *)
Definition cell_suffix (scheduled_task_id : string) : option string :=
  match rsplit1 "_" scheduled_task_id with
  | [_; b] => if startswith b "c" then Some b else None
  | _ => None
  end.

(** Truth value of [cell_suffix]: [None] and the empty string are false. *)
Definition truthy (o : option string) : bool :=
  match o with
  | Some (String _ _) => true
  | _ => false
  end.

Section Replay.
(** The inputs that the replay only reads. *)
Variable topology : DAGTopology.t.
Variable task_definitions : dict string TaskDefinition.t.
Variable base_compute_speed : Q.

(** The memo table only ever holds [parse_base_task_id] (lemma
    [_get_base_task_id_memo]), so the replay calls the function. *)
Definition base_task_id := parse_base_task_id.

Definition _get_predecessors (scheduled_tasks : dict string ScheduledTask.t)
           (scheduled_task_id : string) : list string :=
  let base := base_task_id scheduled_task_id in
  match dict_get base task_definitions with
  | None => []
  | Some task_def =>
      match TaskDefinition.predecessors task_def with
      | [] => []
      | preds =>
          let suffix := cell_suffix scheduled_task_id in
          fold_left
            (fun predecessors pred_base_id =>
               if truthy suffix then
                 let pred_scheduled_id :=
                   (pred_base_id ++ "_" ++
                      match suffix with Some x => x | None => "" end)%string in
                 if dict_mem pred_scheduled_id scheduled_tasks
                 then predecessors ++ [pred_scheduled_id]
                 else predecessors
               else
                 if dict_mem pred_base_id scheduled_tasks
                 then predecessors ++ [pred_base_id]
                 else predecessors)
            preds []
      end
  end.

Definition _get_data_from_predecessor (pred_task_id current_task_id : string)
  : Q :=
  let pred_base_id := base_task_id pred_task_id in
  let current_base_id := base_task_id current_task_id in
  match dict_get pred_base_id task_definitions with
  | None => 0
  | Some task_def =>
      TaskDefinition.get_data_to_successor task_def current_base_id
  end.

(** *** The state the replay mutates *)

(** Where the generator of [_execute_task] is suspended, with the local
    variables that are still live there. *)
Inductive pc : Type :=
| Start          (* created, not yet started *)
| WaitPreds (task_id : string) (task_def : TaskDefinition.t)
            (predecessors : list string)
                 (* at [yield simpy.AllOf(...)] *)
| Uplink (task_id : string) (task_def : TaskDefinition.t)
                 (* at [yield self.env.timeout(uplink_time)] *)
| Compute (task_id : string)
                 (* at [yield self.env.timeout(compute_time)] *)
| Exhausted.     (* returned or raised *)

(** How a run of the generator up to its next suspension ends. *)
Inductive outcome : Type :=
| Suspended (at_pc : pc)
| Returned
| Raised (e : exn).

Record state := {
  env : simpy.Environment;
  scheduled_tasks : dict string ScheduledTask.t;
  completion_events : dict string simpy.Event;
  conditions : dict string simpy.Condition;
  procs : dict string pc;
  metrics : list ScheduledTask.t   (* records, in completion order *)
}.

Definition set_env (e : simpy.Environment) (st : state) : state :=
  {| env := e; scheduled_tasks := scheduled_tasks st;
     completion_events := completion_events st;
     conditions := conditions st; procs := procs st;
     metrics := metrics st |}.

Definition set_tasks (ts : dict string ScheduledTask.t) (st : state) : state :=
  {| env := env st; scheduled_tasks := ts;
     completion_events := completion_events st;
     conditions := conditions st; procs := procs st;
     metrics := metrics st |}.

Definition set_events (es : dict string simpy.Event) (st : state) : state :=
  {| env := env st; scheduled_tasks := scheduled_tasks st;
     completion_events := es;
     conditions := conditions st; procs := procs st;
     metrics := metrics st |}.

Definition set_conditions (cs : dict string simpy.Condition) (st : state)
  : state :=
  {| env := env st; scheduled_tasks := scheduled_tasks st;
     completion_events := completion_events st;
     conditions := cs; procs := procs st;
     metrics := metrics st |}.

Definition set_procs (ps : dict string pc) (st : state) : state :=
  {| env := env st; scheduled_tasks := scheduled_tasks st;
     completion_events := completion_events st;
     conditions := conditions st; procs := ps;
     metrics := metrics st |}.

Definition set_metrics (ms : list ScheduledTask.t) (st : state) : state :=
  {| env := env st; scheduled_tasks := scheduled_tasks st;
     completion_events := completion_events st;
     conditions := conditions st; procs := procs st;
     metrics := ms |}.

Definition now (st : state) : Q := simpy.now (env st).

Definition schedule (ev : simpy.event) (priority : nat) (delay : Q)
           (st : state) : state :=
  set_env (simpy.schedule ev priority delay (env st)) st.

(** An attribute assignment on the task object of process [p]. *)
Definition update_task (p : string) (f : ScheduledTask.t -> ScheduledTask.t)
           (st : state) : state :=
  set_tasks (map (fun kv => if String.eqb p (fst kv)
                            then (fst kv, f (snd kv)) else kv)
                 (scheduled_tasks st)) st.

(** The task object a process holds a reference to. *)
Definition the_task (p : string) (st : state) : result ScheduledTask.t :=
  match dict_get p (scheduled_tasks st) with
  | Some task => Ok task
  | None => Raise Unreachable
  end.

(** *** SimPy primitives on the replay state *)

(** [Condition._check] of the condition of process [p] (every event of
    the replay succeeds, so only the counting branch is live). *)
Definition _check (p : string) (st : state) : state :=
  match dict_get p (conditions st) with
  | None => st
  | Some cnd =>
      if simpy.cond_triggered cnd then st
      else
        let count := S (simpy._count cnd) in
        if Nat.eqb (simpy.n_events cnd) count then
          schedule (simpy.AllOf p) simpy.NORMAL 0
            (set_conditions
               (dict_set p {| simpy.n_events := simpy.n_events cnd;
                              simpy._count := count;
                              simpy.cond_triggered := true |}
                         (conditions st)) st)
        else
          set_conditions
            (dict_set p {| simpy.n_events := simpy.n_events cnd;
                           simpy._count := count;
                           simpy.cond_triggered := false |}
                      (conditions st)) st
  end.

(** [simpy.AllOf(self.env, pred_events)], created by process [p];
    [pred_ids] are the keys of the events in [pred_events]. *)
Definition new_AllOf (p : string) (pred_ids : list string) (st : state)
  : state :=
  let cnd := {| simpy.n_events := List.length pred_ids;
                simpy._count := O;
                simpy.cond_triggered := false |} in
  let st := set_conditions (dict_set p cnd (conditions st)) st in
  match pred_ids with
  | [] =>
      schedule (simpy.AllOf p) simpy.NORMAL 0
        (set_conditions
           (dict_set p {| simpy.n_events := O; simpy._count := O;
                          simpy.cond_triggered := true |}
                     (conditions st)) st)
  | _ =>
      fold_left
        (fun st q =>
           match dict_get q (completion_events st) with
           | None => st
           | Some ev =>
               match simpy.callbacks ev with
               | None => _check p st
               | Some cbs =>
                   set_events
                     (dict_set q {| simpy.callbacks := Some (cbs ++ [p]);
                                    simpy.triggered := simpy.triggered ev |}
                               (completion_events st)) st
               end
           end)
        pred_ids st
  end.

(** [self.env.timeout(delay)], waited on by process [p]. *)
Definition timeout (p : string) (delay : Q) (st : state) : result state :=
  if Qltb delay 0 then Raise (ValueError "Negative delay")
  else Ok (schedule (simpy.Timeout p) simpy.NORMAL delay st).

(** [self.completion_events[task_id].succeed()] *)
Definition succeed (task_id : string) (st : state) : result state :=
  ev <- dict_item task_id (completion_events st) ;;
  if simpy.triggered ev
  then Raise (RuntimeError "event has already been triggered")
  else Ok (schedule (simpy.Completion task_id) simpy.NORMAL 0
             (set_events
                (dict_set task_id
                   {| simpy.callbacks := simpy.callbacks ev;
                      simpy.triggered := true |}
                   (completion_events st)) st)).

(** *** [_execute_task], cut at its [yield] points *)

(** From [scheduled_task.actual_end = self.env.now] to the end. *)
Definition seg_finish (p task_id : string) (st : state) : state * outcome :=
  let st := update_task p (ScheduledTask.set_actual_end (now st)) st in
  match succeed task_id st with
  | Raise e => (st, Raised e)
  | Ok st =>
      match the_task p st with
      | Raise e => (st, Raised e)
      | Ok task => (set_metrics (metrics st ++ [task]) st, Returned)
      end
  end.

(** From the second [scheduled_task.actual_start = self.env.now] to
    [yield self.env.timeout(compute_time)]. *)
Definition seg_compute (p task_id : string) (task_def : TaskDefinition.t)
           (st : state) : state * outcome :=
  let st := update_task p (ScheduledTask.set_actual_start (now st)) st in
  match the_task p st with
  | Raise e => (st, Raised e)
  | Ok scheduled_task =>
      match DAGTopology.get_compute_time topology
              (ScheduledTask.node_id scheduled_task)
              (TaskDefinition.compute_cost task_def)
              base_compute_speed with
      | Raise e => (st, Raised e)
      | Ok compute_time =>
          let st :=
            update_task p (ScheduledTask.set_compute_time compute_time) st in
          match timeout p compute_time st with
          | Raise e => (st, Raised e)
          | Ok st => (st, Suspended (Compute task_id))
          end
      end
  end.

(** The loop [for pred_id in predecessors:] that fills [transfer_times]. *)
Definition transfer_times (p task_id : string) (predecessors : list string)
           (st : state) : result (list Q) :=
  fold_left
    (fun acc pred_id =>
       tts <- acc ;;
       match dict_get pred_id (scheduled_tasks st) with
       | None => Ok tts
       | Some pred_task =>
           let data_size := _get_data_from_predecessor pred_id task_id in
           if Qltb 0 data_size then
             scheduled_task <- the_task p st ;;
             transfer_time <-
               DAGTopology.get_transfer_time topology
                 (ScheduledTask.node_id pred_task)
                 (ScheduledTask.node_id scheduled_task)
                 data_size ;;
             Ok (tts ++ [transfer_time])
           else Ok tts
       end)
    predecessors (Ok []).

Definition uplink_of (p task_id : string) (predecessors : list string)
           (st : state) : result Q :=
  match predecessors with
  | [] => Ok 0
  | _ =>
      tts <- transfer_times p task_id predecessors st ;;
      match tts with
      | [] => Ok 0
      | x :: xs => Ok (py_max x xs)
      end
  end.

(** From the first [scheduled_task.actual_start = self.env.now] to
    [yield self.env.timeout(uplink_time)], or on into the compute
    segment when [uplink_time] is not positive. *)
Definition seg_uplink (p task_id : string) (task_def : TaskDefinition.t)
           (predecessors : list string) (st : state) : state * outcome :=
  let st := update_task p (ScheduledTask.set_actual_start (now st)) st in
  match uplink_of p task_id predecessors st with
  | Raise e => (st, Raised e)
  | Ok uplink_time =>
      let st :=
        update_task p (ScheduledTask.set_uplink_time uplink_time) st in
      if Qltb 0 uplink_time then
        match timeout p uplink_time st with
        | Raise e => (st, Raised e)
        | Ok st => (st, Suspended (Uplink task_id task_def))
        end
      else seg_compute p task_id task_def st
  end.

(** From the top of [_execute_task] to [yield simpy.AllOf(...)], or on
    into the uplink segment when there is nothing to wait for. *)
Definition seg_start (p : string) (st : state) : state * outcome :=
  match the_task p st with
  | Raise e => (st, Raised e)
  | Ok scheduled_task =>
      let task_id := ScheduledTask.task_id scheduled_task in
      let base := base_task_id task_id in
      match dict_get base task_definitions with
      | None =>
          (st, Raised (ValueError
                         ("No task definition found for " ++ base)%string))
      | Some task_def =>
          let predecessors :=
            _get_predecessors (scheduled_tasks st) task_id in
          let pred_events :=
            filter (fun q => dict_mem q (completion_events st))
                   predecessors in
          match pred_events with
          | [] => seg_uplink p task_id task_def predecessors st
          | _ => (new_AllOf p pred_events st,
                  Suspended (WaitPreds task_id task_def predecessors))
          end
      end
  end.

(** [Process._resume]: run the generator of [p] to its next suspension;
    when it ends, the process event is scheduled with its outcome. *)
Definition _resume (p : string) (st : state) : state :=
  let '(st', o) :=
    match dict_get p (procs st) with
    | None => (st, Raised Unreachable)
    | Some Start => seg_start p st
    | Some (WaitPreds task_id task_def predecessors) =>
        seg_uplink p task_id task_def predecessors st
    | Some (Uplink task_id task_def) => seg_compute p task_id task_def st
    | Some (Compute task_id) => seg_finish p task_id st
    | Some Exhausted => (st, Returned)
    end in
  match o with
  | Suspended at_pc => set_procs (dict_set p at_pc (procs st')) st'
  | Returned =>
      schedule (simpy.Process p (Ok tt)) simpy.NORMAL 0
               (set_procs (dict_set p Exhausted (procs st')) st')
  | Raised e =>
      schedule (simpy.Process p (Raise e)) simpy.NORMAL 0
               (set_procs (dict_set p Exhausted (procs st')) st')
  end.

(** The callbacks of one popped event; [Some e] when the event is a
    failed process, whose exception [Environment.step] re-raises. *)
Definition fire (ev : simpy.event) (st : state) : state * option exn :=
  match ev with
  | simpy.Initialize p => (_resume p st, None)
  | simpy.AllOf p => (_resume p st, None)
  | simpy.Timeout p => (_resume p st, None)
  | simpy.Completion task_id =>
      match dict_get task_id (completion_events st) with
      | None => (st, Some Unreachable)
      | Some e =>
          let st :=
            set_events
              (dict_set task_id {| simpy.callbacks := None;
                                   simpy.triggered := simpy.triggered e |}
                        (completion_events st)) st in
          match simpy.callbacks e with
          | None => (st, Some Unreachable)
          | Some cbs => (fold_left (fun st p => _check p st) cbs st, None)
          end
      end
  | simpy.Process _ (Ok _) => (st, None)
  | simpy.Process _ (Raise e) => (st, Some e)
  end.

(** [Environment.step]: [None] stands for [EmptySchedule]. *)
Definition step (st : state) : option (state * option exn) :=
  match heappop simpy.entry_ltb (simpy._queue (env st)) with
  | None => None
  | Some ((t, _, _, ev), rest) =>
      Some (fire ev (set_env {| simpy.now := t;
                                simpy._eid := simpy._eid (env st);
                                simpy._queue := rest |} st))
  end.

(** [Environment.run()] without [until]: step until the schedule is
    empty or a step raises. *)
Fixpoint env_run (fuel : nat) (st : state) : state * option exn :=
  match fuel with
  | O => (st, Some Unreachable)
  | S fuel =>
      match step st with
      | None => (st, None)
      | Some (st', Some e) => (st', Some e)
      | Some (st', None) => env_run fuel st'
      end
  end.

(** [DAGScheduler(env, ...)] followed by the two loops that open
    [run()]: one completion event and one process per scheduled task. *)
Definition start_all (env0 : simpy.Environment)
           (tasks : dict string ScheduledTask.t) : state :=
  let events :=
    fold_left (fun ce task_id => dict_set task_id simpy.new_event ce)
              (keys tasks) [] in
  let st := {| env := env0; scheduled_tasks := tasks;
               completion_events := events; conditions := [];
               procs := []; metrics := [] |} in
  fold_left
    (fun st kv =>
       schedule (simpy.Initialize (fst kv)) simpy.URGENT 0
                (set_procs (dict_set (fst kv) Start (procs st)) st))
    tasks st.

(** The state in which [self.env.run()] returns or raises. *)
Definition replay (tasks : dict string ScheduledTask.t)
  : state * option exn :=
  env_run (S (6 * List.length tasks))
          (start_all simpy.new_environment tasks).

(** [actual_end] of the tasks that have one, in dictionary order. *)
Definition recorded_ends (tasks : dict string ScheduledTask.t) : list Q :=
  flat_map (fun kv => match ScheduledTask.actual_end (snd kv) with
                      | Some e => [e]
                      | None => []
                      end) tasks.

(** [DAGScheduler.run()] on a fresh environment. *)
Definition run (tasks : dict string ScheduledTask.t) : result Q :=
  match replay tasks with
  | (_, Some e) => Raise e
  | (st, None) =>
      match recorded_ends (scheduled_tasks st) with
      | [] => Raise (ValueError "max() arg is an empty sequence")
      | x :: xs => Ok (py_max x xs)
      end
  end.
End Replay.
End DAGScheduler.

(* ================================================================== *)
(** ** loaders.py *)

Module loaders.
(** More string methods: [strip(chars)], [replace(ch, "")], [split(sep)]. *)
Fixpoint lstrip (chars : list ascii) (s : string) : string :=
  match s with
  | EmptyString => EmptyString
  | String ch r =>
      if existsb (Ascii.eqb ch) chars then lstrip chars r else s
  end.

Fixpoint rstrip (chars : list ascii) (s : string) : string :=
  match s with
  | EmptyString => EmptyString
  | String ch r =>
      match rstrip chars r with
      | EmptyString =>
          if existsb (Ascii.eqb ch) chars then EmptyString
          else String ch EmptyString
      | r' => String ch r'
      end
  end.

Definition strip (chars : list ascii) (s : string) : string :=
  rstrip chars (lstrip chars s).

Fixpoint remove_char (x : ascii) (s : string) : string :=
  match s with
  | EmptyString => EmptyString
  | String ch r =>
      if Ascii.eqb ch x then remove_char x r else String ch (remove_char x r)
  end.

Fixpoint split (sep : ascii) (s : string) : list string :=
  match s with
  | EmptyString => [EmptyString]
  | String ch r =>
      if Ascii.eqb ch sep then EmptyString :: split sep r
      else match split sep r with
           | h :: t => String ch h :: t
           | [] => [String ch EmptyString]
           end
  end.

(** The part of the parsed JSON document that [load_dag] reads:
    [data["node_weights"]], [data["dag_structure"]["edges"]] and
    [data["edge_weights"]] (absent keys are empty dictionaries). *)
Record dag_json := {
  node_weights : dict string Q;
  edges : dict string (list string);
  edge_weights_raw : dict string Q
}.

(** [for key, value in edge_weights_raw.items(): ...] *)
Definition parse_edge_weights (raw : dict string Q)
  : dict string (dict string Q) :=
  fold_left
    (fun edge_weights kv =>
       let key_clean :=
         remove_char " " (remove_char "'" (strip ["("; ")"]%char (fst kv))) in
       match split "," key_clean with
       | [src; dst] =>
           let inner := match dict_get src edge_weights with
                        | Some d => d
                        | None => []
                        end in
           dict_set src (dict_set dst (snd kv) inner) edge_weights
       | _ => edge_weights
       end)
    raw [].

(** [predecessors[dst].append(src)], after the membership test. *)
Definition add_pred (src : string) (predecessors : dict string (list string))
           (dst : string) : dict string (list string) :=
  match dict_get dst predecessors with
  | None => dict_set dst [src] predecessors
  | Some l => dict_set dst (l ++ [src]) predecessors
  end.

Definition build_predecessors (d : dag_json) : dict string (list string) :=
  let init :=
    fold_left (fun pm task_id => dict_set task_id [] pm)
              (keys (node_weights d)) [] in
  fold_left
    (fun pm kv => fold_left (add_pred (fst kv)) (snd kv) pm)
    (edges d) init.

Definition get_or {V} (k : string) (m : dict string V) (default : V) : V :=
  match dict_get k m with
  | Some v => v
  | None => default
  end.

(** [load_dag], from the parsed document to the task definitions. *)
Definition load_dag (d : dag_json) : dict string TaskDefinition.t :=
  let edge_weights := parse_edge_weights (edge_weights_raw d) in
  let predecessors := build_predecessors d in
  fold_left
    (fun tasks kv =>
       dict_set (fst kv)
         {| TaskDefinition.task_id := fst kv;
            TaskDefinition.compute_cost := snd kv;
            TaskDefinition.successors := get_or (fst kv) (edges d) [];
            TaskDefinition.predecessors := get_or (fst kv) predecessors [];
            TaskDefinition.edge_weights := get_or (fst kv) edge_weights [] |}
         tasks)
    (node_weights d) [].

(** [obj[key]] on a parsed JSON object whose key may be absent. *)
Definition item {V} (key : string) (o : option V) : result V :=
  match o with
  | Some v => Ok v
  | None => Raise (KeyError key)
  end.

(** [obj.get(key, default)] *)
Definition get_default {V} (o : option V) (default : V) : V :=
  match o with
  | Some v => v
  | None => default
  end.

(** One element of [data["nodes"]] and of [data["edges"]] in the topology
    document, by the keys that [load_topology] reads; [None] is an absent
    key. *)
Record node_json := {
  n_id : option string;
  n_weight : option Q;
  n_type : option string
}.

Record edge_json := {
  g_source : option string;
  g_target : option string;
  g_weight : option Q;
  g_type : option string
}.

Record topology_json := {
  t_nodes : list node_json;
  t_edges : list edge_json
}.

(** [load_topology], from the parsed document to the nodes and links. *)
Definition load_topology (data : topology_json)
  : result (dict string ComputeNode.t * list NetworkLink.t) :=
  nodes <-
    fold_left
      (fun acc node_data =>
         nodes <- acc ;;
         node_id <- item "id" (n_id node_data) ;;
         Ok (dict_set node_id
               {| ComputeNode.node_id := node_id;
                  ComputeNode.speed_multiplier :=
                    get_default (n_weight node_data) 1;
                  ComputeNode.node_type :=
                    get_default (n_type node_data) "unknown" |}
               nodes))
      (t_nodes data) (Ok []) ;;
  links <-
    fold_left
      (fun acc edge_data =>
         links <- acc ;;
         source <- item "source" (g_source edge_data) ;;
         target <- item "target" (g_target edge_data) ;;
         Ok (links ++
               [{| NetworkLink.source := source;
                   NetworkLink.target := target;
                   NetworkLink.bandwidth :=
                     get_default (g_weight edge_data) 1;
                   NetworkLink.link_type :=
                     get_default (g_type edge_data) "unknown" |}]))
      (t_edges data) (Ok []) ;;
  Ok (nodes, links).

(** One element of [data["schedule"]] in the schedule document. *)
Record entry_json := {
  e_task : option string;
  e_node : option string;
  e_start : option Q;
  e_end : option Q;
  e_duration : option Q
}.

(** The part of the schedule document that is read: [data["schedule"]],
    [data["task_to_node"]] and, of [data["metadata"]], the makespan. *)
Record schedule_json := {
  s_schedule : list entry_json;
  s_task_to_node : dict string string;
  s_makespan : option Q
}.

(** The loop of [load_schedule] over [data.get("schedule", [])]. *)
Definition load_entries (entries : list entry_json)
  : result (dict string ScheduledTask.t) :=
  fold_left
    (fun acc entry =>
       scheduled_tasks <- acc ;;
       task_id <- item "task" (e_task entry) ;;
       node <- item "node" (e_node entry) ;;
       start <- item "start" (e_start entry) ;;
       end_ <- item "end" (e_end entry) ;;
       duration <- item "duration" (e_duration entry) ;;
       Ok (dict_set task_id
             (ScheduledTask.make task_id node start end_ duration)
             scheduled_tasks))
    entries (Ok []).

(** [load_schedule]: the scheduled tasks, the task-to-node mapping and
    the metadata. *)
Definition load_schedule (data : schedule_json)
  : result (dict string ScheduledTask.t * dict string string * option Q) :=
  scheduled_tasks <- load_entries (s_schedule data) ;;
  Ok (scheduled_tasks, s_task_to_node data, s_makespan data).
End loaders.

(* ================================================================== *)
(** ** metrics.py *)

Module TaskMetrics.
Record t := {
  task_id : string;
  node_id : string;
  scheduled_start : Q;
  scheduled_end : Q;
  scheduled_duration : Q;
  actual_start : Q;
  actual_end : Q;
  actual_duration : Q;
  uplink_time : Q;
  compute_time : Q;
  downlink_time : Q;
  start_delta : Q;
  end_delta : Q;
  duration_delta : Q
}.
End TaskMetrics.

(** The dictionary that [get_summary] returns when it is not empty, its
    two nested dictionaries flattened. *)
Module Summary.
Record t := {
  num_tasks : nat;
  heft_makespan : Q;
  simulated_makespan : Q;
  makespan_difference : Q;
  makespan_difference_pct : Q;
  total_uplink_time : Q;
  total_compute_time : Q;
  total_downlink_time : Q;
  start_delta : Q;
  end_delta : Q;
  duration_delta : Q
}.
End Summary.

Module MetricsCollector.
Record t := {
  task_metrics : dict string TaskMetrics.t;
  _completion_order : list string
}.

(** [MetricsCollector()] *)
Definition init : t := {| task_metrics := []; _completion_order := [] |}.

(** [x or 0.0] on an optional float: [None] and zero are false. *)
Definition or_zero (x : option Q) : Q :=
  match x with
  | Some v => if Qeq_bool v 0 then 0 else v
  | None => 0
  end.

(** The [TaskMetrics(...)] that [record_task_completion] builds. *)
Definition measure (task : ScheduledTask.t) : TaskMetrics.t :=
  let actual_duration := or_zero (ScheduledTask.actual_duration task) in
  let actual_start := or_zero (ScheduledTask.actual_start task) in
  let actual_end := or_zero (ScheduledTask.actual_end task) in
  {| TaskMetrics.task_id := ScheduledTask.task_id task;
     TaskMetrics.node_id := ScheduledTask.node_id task;
     TaskMetrics.scheduled_start := ScheduledTask.scheduled_start task;
     TaskMetrics.scheduled_end := ScheduledTask.scheduled_end task;
     TaskMetrics.scheduled_duration := ScheduledTask.scheduled_duration task;
     TaskMetrics.actual_start := actual_start;
     TaskMetrics.actual_end := actual_end;
     TaskMetrics.actual_duration := actual_duration;
     TaskMetrics.uplink_time := ScheduledTask.uplink_time task;
     TaskMetrics.compute_time := ScheduledTask.compute_time task;
     TaskMetrics.downlink_time := ScheduledTask.downlink_time task;
     TaskMetrics.start_delta :=
       actual_start - ScheduledTask.scheduled_start task;
     TaskMetrics.end_delta := actual_end - ScheduledTask.scheduled_end task;
     TaskMetrics.duration_delta :=
       actual_duration - ScheduledTask.scheduled_duration task |}.

Definition record_task_completion (self : t) (task : ScheduledTask.t) : t :=
  let metrics := measure task in
  {| task_metrics :=
       dict_set (ScheduledTask.task_id task) metrics (task_metrics self);
     _completion_order :=
       _completion_order self ++ [ScheduledTask.task_id task] |}.

(** [len(all_metrics)] as the divisor of the averages. *)
Definition len_Q {A} (l : list A) : Q := inject_Z (Z.of_nat (List.length l)).

(** [get_summary]; [None] stands for the empty dictionary. *)
Definition get_summary (self : t) (heft_makespan simulated_makespan : Q)
  : option Summary.t :=
  match task_metrics self with
  | [] => None
  | _ =>
      let all_metrics := map snd (task_metrics self) in
      let total_uplink := py_sum (map TaskMetrics.uplink_time all_metrics) in
      let total_compute := py_sum (map TaskMetrics.compute_time all_metrics) in
      let total_downlink :=
        py_sum (map TaskMetrics.downlink_time all_metrics) in
      let avg_start_delta :=
        py_sum (map TaskMetrics.start_delta all_metrics)
        / len_Q all_metrics in
      let avg_end_delta :=
        py_sum (map TaskMetrics.end_delta all_metrics) / len_Q all_metrics in
      let avg_duration_delta :=
        py_sum (map TaskMetrics.duration_delta all_metrics)
        / len_Q all_metrics in
      let makespan_diff := simulated_makespan - heft_makespan in
      let makespan_diff_pct :=
        if Qltb 0 heft_makespan
        then (makespan_diff / heft_makespan) * 100 else 0 in
      Some {| Summary.num_tasks := List.length all_metrics;
              Summary.heft_makespan := heft_makespan;
              Summary.simulated_makespan := simulated_makespan;
              Summary.makespan_difference := makespan_diff;
              Summary.makespan_difference_pct := makespan_diff_pct;
              Summary.total_uplink_time := total_uplink;
              Summary.total_compute_time := total_compute;
              Summary.total_downlink_time := total_downlink;
              Summary.start_delta := avg_start_delta;
              Summary.end_delta := avg_end_delta;
              Summary.duration_delta := avg_duration_delta |}
  end.

(** [print_summary], as far as it can fail: the text it prints is not
    modelled, the look-ups in the summary are, the first being
    [summary['num_tasks']]. *)
Definition print_summary (self : t) (heft_makespan simulated_makespan : Q)
  : result unit :=
  match get_summary self heft_makespan simulated_makespan with
  | None => Raise (KeyError "num_tasks")
  | Some _ => Ok tt
  end.
End MetricsCollector.

(* ================================================================== *)
(** ** simulation.py *)

Module DAGSimulation.
(** What [load()] stores in the simulation object. *)
Record loaded := {
  task_definitions : dict string TaskDefinition.t;
  nodes : dict string ComputeNode.t;
  links : list NetworkLink.t;
  scheduled_tasks : dict string ScheduledTask.t;
  heft_makespan : Q
}.

(** [load()], from the three parsed documents. *)
Definition load (dag : loaders.dag_json) (topo : loaders.topology_json)
           (sched : loaders.schedule_json) : result loaded :=
  let task_definitions := loaders.load_dag dag in
  nl <- loaders.load_topology topo ;;
  sm <- loaders.load_schedule sched ;;
  Ok {| task_definitions := task_definitions;
        nodes := fst nl; links := snd nl;
        scheduled_tasks := fst (fst sm);
        heft_makespan := loaders.get_default (snd sm) 0 |}.

(** The collector after the calls that the replay has made on the one
    that [setup()] creates. *)
Definition collected (records : list ScheduledTask.t) : MetricsCollector.t :=
  fold_left MetricsCollector.record_task_completion records
            MetricsCollector.init.

(** [setup()] and [run()]: the outcome of [DAGScheduler.run()] and the
    collector as the replay leaves it. *)
Definition run (base_compute_speed : Q) (l : loaded)
  : result Q * MetricsCollector.t :=
  let topology := DAGTopology.init (nodes l) (links l) in
  (DAGScheduler.run topology (task_definitions l) base_compute_speed
                    (scheduled_tasks l),
   collected (DAGScheduler.metrics
                (fst (DAGScheduler.replay topology (task_definitions l)
                        base_compute_speed (scheduled_tasks l))))).

(** [run_full()] without an output directory. *)
Definition run_full (base_compute_speed : Q) (dag : loaders.dag_json)
           (topo : loaders.topology_json) (sched : loaders.schedule_json)
  : result (Q * Q) :=
  l <- load dag topo sched ;;
  simulated_makespan <- fst (run base_compute_speed l) ;;
  _ <- MetricsCollector.print_summary (snd (run base_compute_speed l))
         (heft_makespan l) simulated_makespan ;;
  Ok (heft_makespan l, simulated_makespan).
End DAGSimulation.

(* ================================================================== *)
(** ** The replay over binary64 floats *)

(** [models.py], [topology.py] and [scheduler.py] once more, definition
    by definition as above, with Python's [float] read as the kernel's
    IEEE 754 binary64 numbers instead of rationals: [+], [-], [*] and [/]
    round to nearest, ties to even, as the processor does, and [<?],
    [<=?], [=?] are Python's [<], [<=], [==].  This is the instance on
    which a statement that depends on rounding is evaluated.

    Python raises [ZeroDivisionError] where IEEE division gives an
    infinity; each division of the package is preceded by a test that
    excludes a zero divisor ([capacity <= 0], [bandwidth <= 0],
    [bandwidth > 0]), so the two agree here.  [sum] adds from the left,
    as CPython does up to version 3.11. *)

Module Binary64.
Import PrimFloat.
#[local] Open Scope float_scope.

(** [max(xs)] on a non-empty sequence: the first maximal element. *)
Definition py_max (x : float) (xs : list float) : float :=
  fold_left (fun m y => if m <? y then y else m) xs x.

(** *** models.py *)

Module TaskDefinition.
Record t := {
  task_id : string;
  compute_cost : float;
  successors : list string;
  predecessors : list string;
  edge_weights : dict string float
}.

Definition get_data_to_successor (self : t) (successor_id : string) : float :=
  match dict_get successor_id (edge_weights self) with
  | Some w => w
  | None => 0
  end.
End TaskDefinition.

Module ScheduledTask.
Record t := {
  task_id : string;
  node_id : string;
  scheduled_start : float;
  scheduled_end : float;
  scheduled_duration : float;
  actual_start : option float;
  actual_end : option float;
  uplink_time : float;
  compute_time : float;
  downlink_time : float
}.

Definition actual_duration (self : t) : option float :=
  match actual_start self, actual_end self with
  | Some s, Some e => Some (e - s)
  | _, _ => None
  end.

(** Attribute assignments of the replay. *)
Definition set_actual_start (v : float) (self : t) : t :=
  {| task_id := task_id self; node_id := node_id self;
     scheduled_start := scheduled_start self;
     scheduled_end := scheduled_end self;
     scheduled_duration := scheduled_duration self;
     actual_start := Some v; actual_end := actual_end self;
     uplink_time := uplink_time self; compute_time := compute_time self;
     downlink_time := downlink_time self |}.

Definition set_actual_end (v : float) (self : t) : t :=
  {| task_id := task_id self; node_id := node_id self;
     scheduled_start := scheduled_start self;
     scheduled_end := scheduled_end self;
     scheduled_duration := scheduled_duration self;
     actual_start := actual_start self; actual_end := Some v;
     uplink_time := uplink_time self; compute_time := compute_time self;
     downlink_time := downlink_time self |}.

Definition set_uplink_time (v : float) (self : t) : t :=
  {| task_id := task_id self; node_id := node_id self;
     scheduled_start := scheduled_start self;
     scheduled_end := scheduled_end self;
     scheduled_duration := scheduled_duration self;
     actual_start := actual_start self; actual_end := actual_end self;
     uplink_time := v; compute_time := compute_time self;
     downlink_time := downlink_time self |}.

Definition set_compute_time (v : float) (self : t) : t :=
  {| task_id := task_id self; node_id := node_id self;
     scheduled_start := scheduled_start self;
     scheduled_end := scheduled_end self;
     scheduled_duration := scheduled_duration self;
     actual_start := actual_start self; actual_end := actual_end self;
     uplink_time := uplink_time self; compute_time := v;
     downlink_time := downlink_time self |}.

(** The dataclass constructor with its defaults. *)
Definition make (tid nid : string) (s e d : float) : t :=
  {| task_id := tid; node_id := nid;
     scheduled_start := s; scheduled_end := e; scheduled_duration := d;
     actual_start := None; actual_end := None;
     uplink_time := 0; compute_time := 0; downlink_time := 0 |}.
End ScheduledTask.

Module ComputeNode.
Record t := {
  node_id : string;
  speed_multiplier : float;
  node_type : string
}.

Definition get_capacity (self : t) (base_speed : float) : float :=
  base_speed * speed_multiplier self.

Definition get_compute_time (self : t) (compute_cost base_speed : float)
  : result float :=
  let capacity := get_capacity self base_speed in
  if capacity <=? 0
  then Raise (ValueError ("Node " ++ node_id self ++ " has invalid capacity")%string)
  else Ok (compute_cost / capacity).
End ComputeNode.

Module NetworkLink.
Record t := {
  source : string;
  target : string;
  bandwidth : float;
  link_type : string
}.

(** [bytes_per_second = self.bandwidth * 1e6 / 8] *)
Definition bytes_per_second (self : t) : float :=
  bandwidth self * 1e6 / 8.

Definition get_transfer_time (self : t) (data_size_bytes : float) : result float :=
  if bandwidth self <=? 0
  then Raise (ValueError ("Link " ++ source self ++ "->" ++ target self
                            ++ " has invalid bandwidth")%string)
  else Ok (data_size_bytes / bytes_per_second self).
End NetworkLink.

(** *** NetworkX *)

Module nx.
(** The attribute dictionary of an edge: [weight=...], [link=...]. *)
Record EdgeData := {
  ed_weight : float;
  ed_link : NetworkLink.t
}.

(** [Graph._adj]: node -> (neighbour -> edge data).  Its keys are the
    nodes of the graph (the node attribute [compute_node] is never read
    and is left out). *)
Definition Graph := dict string (dict string EdgeData).

Definition empty : Graph := [].

Definition has_node (G : Graph) (n : string) : bool := dict_mem n G.

Definition add_node (n : string) (G : Graph) : Graph :=
  if dict_mem n G then G else G ++ [(n, [])].

Definition adj_update (u v : string) (d : EdgeData) (G : Graph) : Graph :=
  map (fun kv => if String.eqb u (fst kv)
                 then (fst kv, dict_set v d (snd kv)) else kv) G.

(** [G.add_edge(u, v, weight=w, link=l)] *)
Definition add_edge (u v : string) (d : EdgeData) (G : Graph) : Graph :=
  let G := add_node u G in
  let G := add_node v G in
  let G := adj_update u v d G in
  adj_update v u d G.

(** Heap entries [(distance, counter, node)], compared as tuples; the
    counter is unique, so nodes are never compared. *)
Definition entry := (float * nat * string)%type.

Definition entry_ltb (a b : entry) : bool :=
  let '(da, ca, _) := a in
  let '(db, cb, _) := b in
  if da =? db then Nat.ltb ca cb else da <? db.

Record state := {
  dist : dict string float;
  seen : dict string float;
  paths : dict string (list string);
  fringe : list entry;
  c : nat
}.

(** One pass of [for u, e in G_succ[v].items()]. *)
Definition relax (v : string) (d : float) (st : result state)
           (ue : string * EdgeData) : result state :=
  st <- st ;;
  let '(u, e) := ue in
  let vu_dist := d + ed_weight e in
  match dict_get u (dist st) with
  | Some u_dist =>
      if vu_dist <? u_dist
      then Raise (ValueError "Contradictory paths found: negative weights?")
      else Ok st
  | None =>
      let better :=
        match dict_get u (seen st) with
        | None => true
        | Some su => vu_dist <? su
        end in
      if better then
        pv <- dict_item v (paths st) ;;
        Ok {| dist := dist st;
              seen := dict_set u vu_dist (seen st);
              paths := dict_set u (pv ++ [u]) (paths st);
              fringe := heappush (fringe st) (vu_dist, c st, u);
              c := S (c st) |}
      else Ok st
  end.

(** The [while fringe:] loop of [_dijkstra_multisource]. *)
Fixpoint loop (fuel : nat) (G : Graph) (target : string) (st : state)
  : result state :=
  match fuel with
  | O => Raise Unreachable
  | S fuel =>
      match heappop entry_ltb (fringe st) with
      | None => Ok st
      | Some ((d, _, v), rest) =>
          if dict_mem v (dist st) then
            loop fuel G target
                 {| dist := dist st; seen := seen st; paths := paths st;
                    fringe := rest; c := c st |}
          else
            let st1 := {| dist := dict_set v d (dist st); seen := seen st;
                          paths := paths st; fringe := rest; c := c st |} in
            if String.eqb v target then Ok st1
            else
              succ <- dict_item v G ;;
              st2 <- fold_left (relax v d) succ (Ok st1) ;;
              loop fuel G target st2
      end
  end.

Definition degree_sum (G : Graph) : nat :=
  fold_right (fun kv n => (List.length (snd kv) + n)%nat) O G.

(** [_dijkstra_multisource(G, {source}, weight, paths=paths, target=target)] *)
Definition dijkstra_multisource (G : Graph) (source target : string)
  : result state :=
  loop (2 + degree_sum G) G target
       {| dist := []; seen := [(source, 0)];
          paths := [(source, [source])];
          fringe := [(0, O, source)]; c := 1%nat |}.

(** [nx.dijkstra_path(G, source, target, weight="weight")] *)
Definition dijkstra_path (G : Graph) (source target : string)
  : result (list string) :=
  if negb (has_node G source)
  then Raise (NodeNotFound ("Node " ++ source ++ " not found in graph")%string)
  else if String.eqb target source then Ok [target]
  else
    st <- dijkstra_multisource G source target ;;
    match dict_get target (dist st), dict_get target (paths st) with
    | Some _, Some p => Ok p
    | _, _ => Raise (NetworkXNoPath ("No path to " ++ target ++ ".")%string)
    end.
End nx.

(** *** topology.py *)

Module DAGTopology.
Record t := {
  nodes : dict string ComputeNode.t;
  links : list NetworkLink.t;
  graph : nx.Graph;
  _link_map : dict (string * string) NetworkLink.t
}.

(** The body of [for link in self.links:] in [_build_graph]. *)
Definition add_link (gm : nx.Graph * dict (string * string) NetworkLink.t)
           (link : NetworkLink.t)
  : nx.Graph * dict (string * string) NetworkLink.t :=
  let '(G, m) := gm in
  let s := NetworkLink.source link in
  let t := NetworkLink.target link in
  if String.eqb s t then (G, dict_set (s, t) link m)
  else
    let w := if 0 <? NetworkLink.bandwidth link
             then 1 / NetworkLink.bandwidth link else infinity in
    let G := nx.add_edge s t {| nx.ed_weight := w; nx.ed_link := link |} G in
    (G, dict_set (t, s) link (dict_set (s, t) link m)).

Definition _build_graph (nodes : dict string ComputeNode.t)
           (links : list NetworkLink.t)
  : nx.Graph * dict (string * string) NetworkLink.t :=
  let G := fold_left (fun G kv => nx.add_node (fst kv) G) nodes nx.empty in
  fold_left add_link links (G, []).

(** [DAGTopology(nodes, links)] *)
Definition init (nodes : dict string ComputeNode.t)
           (links : list NetworkLink.t) : t :=
  let gm := _build_graph nodes links in
  {| nodes := nodes; links := links; graph := fst gm; _link_map := snd gm |}.

Definition get_node (self : t) (node_id : string) : option ComputeNode.t :=
  dict_get node_id (nodes self).

Definition get_link (self : t) (source target : string)
  : option NetworkLink.t :=
  dict_get (source, target) (_link_map self).

Definition get_path (self : t) (source target : string)
  : result (list string) :=
  if String.eqb source target then Ok [source]
  else
    match nx.dijkstra_path (graph self) source target with
    | Raise (NetworkXNoPath _) =>
        Raise (ValueError ("No path exists between " ++ source
                             ++ " and " ++ target)%string)
    | Raise (NodeNotFound e) => Raise (ValueError ("Node not found: " ++ e)%string)
    | r => r
    end.

(** [for i in range(len(path) - 1)]: the consecutive pairs of a path. *)
Fixpoint hops (path : list string) : list (string * string) :=
  match path with
  | a :: (b :: _) as r => (a, b) :: hops r
  | _ => []
  end.

Definition get_path_links (self : t) (source target : string)
  : result (list NetworkLink.t) :=
  if String.eqb source target then
    match dict_get (source, target) (_link_map self) with
    | Some self_loop => Ok [self_loop]
    | None => Ok []
    end
  else
    path <- get_path self source target ;;
    Ok (fold_left
          (fun links e =>
             match dict_get e (_link_map self) with
             | Some link => links ++ [link]
             | None => links
             end)
          (hops path) []).

(** [sum(link.get_transfer_time(n) for link in links)]: the generator is
    consumed left to right and the first exception escapes. *)
Definition sum_transfer_times (links : list NetworkLink.t) (n : float)
  : result float :=
  fold_left
    (fun acc link =>
       a <- acc ;;
       x <- NetworkLink.get_transfer_time link n ;;
       Ok (a + x))
    links (Ok 0).

Definition get_transfer_time (self : t) (source target : string)
           (data_size_bytes : float) : result float :=
  if String.eqb source target then
    match dict_get (source, target) (_link_map self) with
    | Some self_loop => NetworkLink.get_transfer_time self_loop data_size_bytes
    | None => Ok 0
    end
  else
    links <- get_path_links self source target ;;
    match links with
    | [] => Raise (ValueError ("No path links found between " ++ source
                                 ++ " and " ++ target)%string)
    | _ => sum_transfer_times links data_size_bytes
    end.

Definition get_compute_time (self : t) (node_id : string)
           (compute_cost base_speed : float) : result float :=
  match dict_get node_id (nodes self) with
  | None => Raise (ValueError ("Unknown node: " ++ node_id)%string)
  | Some node => ComputeNode.get_compute_time node compute_cost base_speed
  end.
End DAGTopology.

(** *** SimPy *)

Module simpy.
Definition URGENT : nat := 0.
Definition NORMAL : nat := 1.

(** The event objects the replay creates.  A process is named by the key
    of its task in [scheduled_tasks]. *)
Inductive event : Type :=
| Initialize (p : string)            (* starts the process [p] *)
| Completion (task_id : string)      (* [completion_events[task_id]] *)
| AllOf (p : string)                 (* the condition [p] waits on *)
| Timeout (p : string)               (* a timeout [p] waits on *)
| Process (p : string) (ok : result unit).   (* the end of process [p] *)

Definition entry := (float * nat * nat * event)%type.

(** Tuple comparison of [(time, priority, eid, event)]; [eid] is unique. *)
Definition entry_ltb (a b : entry) : bool :=
  let '(ta, pa, ea, _) := a in
  let '(tb, pb, eb, _) := b in
  if ta =? tb
  then (if Nat.eqb pa pb then Nat.ltb ea eb else Nat.ltb pa pb)
  else ta <? tb.

Record Environment := {
  now : float;
  _eid : nat;
  _queue : list entry
}.

Definition new_environment : Environment :=
  {| now := 0; _eid := O; _queue := [] |}.

(** [env.schedule(event, priority, delay)] *)
Definition schedule (ev : event) (priority : nat) (delay : float)
           (env : Environment) : Environment :=
  {| now := now env;
     _eid := S (_eid env);
     _queue := heappush (_queue env) (now env + delay, priority, _eid env, ev) |}.

(** A plain [Event]: [callbacks] lists the processes whose condition has
    registered [_check] on it and becomes [None] once the event has been
    processed; [triggered] says that a value has been set. *)
Record Event := {
  callbacks : option (list string);
  triggered : bool
}.

Definition new_event : Event := {| callbacks := Some []; triggered := false |}.

(** An [AllOf] condition: [len(self._events)], [self._count], and whether
    it has been triggered. *)
Record Condition := {
  n_events : nat;
  _count : nat;
  cond_triggered : bool
}.
End simpy.

(** *** scheduler.py *)

Module DAGScheduler.

(** **** Task-id parsing *)

Definition parse_base_task_id (scheduled_task_id : string) : string :=
  match rsplit1 "_" scheduled_task_id with
  | [a; b] => if startswith b "c" then a else scheduled_task_id
  | _ => scheduled_task_id
  end.

(** [_get_base_task_id] with its memo table [_task_id_map] threaded. *)
Definition _get_base_task_id (_task_id_map : dict string string)
           (scheduled_task_id : string) : string * dict string string :=
  match dict_get scheduled_task_id _task_id_map with
  | Some b => (b, _task_id_map)
  | None =>
      let base_id := parse_base_task_id scheduled_task_id in
      (base_id, dict_set scheduled_task_id base_id _task_id_map)
  end.

(** [parts[1] if len(parts) == 2 and parts[1].startswith("c") else None] *)
Definition cell_suffix (scheduled_task_id : string) : option string :=
  match rsplit1 "_" scheduled_task_id with
  | [_; b] => if startswith b "c" then Some b else None
  | _ => None
  end.

(** Truth value of [cell_suffix]: [None] and the empty string are false. *)
Definition truthy (o : option string) : bool :=
  match o with
  | Some (String _ _) => true
  | _ => false
  end.

Section Replay.
(** The inputs that the replay only reads. *)
Variable topology : DAGTopology.t.
Variable task_definitions : dict string TaskDefinition.t.
Variable base_compute_speed : float.

(** The memo table only ever holds [parse_base_task_id] (lemma
    [_get_base_task_id_memo]), so the replay calls the function. *)
Definition base_task_id := parse_base_task_id.

Definition _get_predecessors (scheduled_tasks : dict string ScheduledTask.t)
           (scheduled_task_id : string) : list string :=
  let base := base_task_id scheduled_task_id in
  match dict_get base task_definitions with
  | None => []
  | Some task_def =>
      match TaskDefinition.predecessors task_def with
      | [] => []
      | preds =>
          let suffix := cell_suffix scheduled_task_id in
          fold_left
            (fun predecessors pred_base_id =>
               if truthy suffix then
                 let pred_scheduled_id :=
                   (pred_base_id ++ "_" ++
                      match suffix with Some x => x | None => "" end)%string in
                 if dict_mem pred_scheduled_id scheduled_tasks
                 then predecessors ++ [pred_scheduled_id]
                 else predecessors
               else
                 if dict_mem pred_base_id scheduled_tasks
                 then predecessors ++ [pred_base_id]
                 else predecessors)
            preds []
      end
  end.

Definition _get_data_from_predecessor (pred_task_id current_task_id : string)
  : float :=
  let pred_base_id := base_task_id pred_task_id in
  let current_base_id := base_task_id current_task_id in
  match dict_get pred_base_id task_definitions with
  | None => 0
  | Some task_def =>
      TaskDefinition.get_data_to_successor task_def current_base_id
  end.

(** **** The state the replay mutates *)

(** Where the generator of [_execute_task] is suspended, with the local
    variables that are still live there. *)
Inductive pc : Type :=
| Start          (* created, not yet started *)
| WaitPreds (task_id : string) (task_def : TaskDefinition.t)
            (predecessors : list string)
                 (* at [yield simpy.AllOf(...)] *)
| Uplink (task_id : string) (task_def : TaskDefinition.t)
                 (* at [yield self.env.timeout(uplink_time)] *)
| Compute (task_id : string)
                 (* at [yield self.env.timeout(compute_time)] *)
| Exhausted.     (* returned or raised *)

(** How a run of the generator up to its next suspension ends. *)
Inductive outcome : Type :=
| Suspended (at_pc : pc)
| Returned
| Raised (e : exn).

Record state := {
  env : simpy.Environment;
  scheduled_tasks : dict string ScheduledTask.t;
  completion_events : dict string simpy.Event;
  conditions : dict string simpy.Condition;
  procs : dict string pc;
  metrics : list ScheduledTask.t   (* records, in completion order *)
}.

Definition set_env (e : simpy.Environment) (st : state) : state :=
  {| env := e; scheduled_tasks := scheduled_tasks st;
     completion_events := completion_events st;
     conditions := conditions st; procs := procs st;
     metrics := metrics st |}.

Definition set_tasks (ts : dict string ScheduledTask.t) (st : state) : state :=
  {| env := env st; scheduled_tasks := ts;
     completion_events := completion_events st;
     conditions := conditions st; procs := procs st;
     metrics := metrics st |}.

Definition set_events (es : dict string simpy.Event) (st : state) : state :=
  {| env := env st; scheduled_tasks := scheduled_tasks st;
     completion_events := es;
     conditions := conditions st; procs := procs st;
     metrics := metrics st |}.

Definition set_conditions (cs : dict string simpy.Condition) (st : state)
  : state :=
  {| env := env st; scheduled_tasks := scheduled_tasks st;
     completion_events := completion_events st;
     conditions := cs; procs := procs st;
     metrics := metrics st |}.

Definition set_procs (ps : dict string pc) (st : state) : state :=
  {| env := env st; scheduled_tasks := scheduled_tasks st;
     completion_events := completion_events st;
     conditions := conditions st; procs := ps;
     metrics := metrics st |}.

Definition set_metrics (ms : list ScheduledTask.t) (st : state) : state :=
  {| env := env st; scheduled_tasks := scheduled_tasks st;
     completion_events := completion_events st;
     conditions := conditions st; procs := procs st;
     metrics := ms |}.

Definition now (st : state) : float := simpy.now (env st).

Definition schedule (ev : simpy.event) (priority : nat) (delay : float)
           (st : state) : state :=
  set_env (simpy.schedule ev priority delay (env st)) st.

(** An attribute assignment on the task object of process [p]. *)
Definition update_task (p : string) (f : ScheduledTask.t -> ScheduledTask.t)
           (st : state) : state :=
  set_tasks (map (fun kv => if String.eqb p (fst kv)
                            then (fst kv, f (snd kv)) else kv)
                 (scheduled_tasks st)) st.

(** The task object a process holds a reference to. *)
Definition the_task (p : string) (st : state) : result ScheduledTask.t :=
  match dict_get p (scheduled_tasks st) with
  | Some task => Ok task
  | None => Raise Unreachable
  end.

(** **** SimPy primitives on the replay state *)

(** [Condition._check] of the condition of process [p] (every event of
    the replay succeeds, so only the counting branch is live). *)
Definition _check (p : string) (st : state) : state :=
  match dict_get p (conditions st) with
  | None => st
  | Some cnd =>
      if simpy.cond_triggered cnd then st
      else
        let count := S (simpy._count cnd) in
        if Nat.eqb (simpy.n_events cnd) count then
          schedule (simpy.AllOf p) simpy.NORMAL 0
            (set_conditions
               (dict_set p {| simpy.n_events := simpy.n_events cnd;
                              simpy._count := count;
                              simpy.cond_triggered := true |}
                         (conditions st)) st)
        else
          set_conditions
            (dict_set p {| simpy.n_events := simpy.n_events cnd;
                           simpy._count := count;
                           simpy.cond_triggered := false |}
                      (conditions st)) st
  end.

(** [simpy.AllOf(self.env, pred_events)], created by process [p];
    [pred_ids] are the keys of the events in [pred_events]. *)
Definition new_AllOf (p : string) (pred_ids : list string) (st : state)
  : state :=
  let cnd := {| simpy.n_events := List.length pred_ids;
                simpy._count := O;
                simpy.cond_triggered := false |} in
  let st := set_conditions (dict_set p cnd (conditions st)) st in
  match pred_ids with
  | [] =>
      schedule (simpy.AllOf p) simpy.NORMAL 0
        (set_conditions
           (dict_set p {| simpy.n_events := O; simpy._count := O;
                          simpy.cond_triggered := true |}
                     (conditions st)) st)
  | _ =>
      fold_left
        (fun st q =>
           match dict_get q (completion_events st) with
           | None => st
           | Some ev =>
               match simpy.callbacks ev with
               | None => _check p st
               | Some cbs =>
                   set_events
                     (dict_set q {| simpy.callbacks := Some (cbs ++ [p]);
                                    simpy.triggered := simpy.triggered ev |}
                               (completion_events st)) st
               end
           end)
        pred_ids st
  end.

(** [self.env.timeout(delay)], waited on by process [p]. *)
Definition timeout (p : string) (delay : float) (st : state) : result state :=
  if delay <? 0 then Raise (ValueError "Negative delay")
  else Ok (schedule (simpy.Timeout p) simpy.NORMAL delay st).

(** [self.completion_events[task_id].succeed()] *)
Definition succeed (task_id : string) (st : state) : result state :=
  ev <- dict_item task_id (completion_events st) ;;
  if simpy.triggered ev
  then Raise (RuntimeError "event has already been triggered")
  else Ok (schedule (simpy.Completion task_id) simpy.NORMAL 0
             (set_events
                (dict_set task_id
                   {| simpy.callbacks := simpy.callbacks ev;
                      simpy.triggered := true |}
                   (completion_events st)) st)).

(** **** [_execute_task], cut at its [yield] points *)

(** From [scheduled_task.actual_end = self.env.now] to the end. *)
Definition seg_finish (p task_id : string) (st : state) : state * outcome :=
  let st := update_task p (ScheduledTask.set_actual_end (now st)) st in
  match succeed task_id st with
  | Raise e => (st, Raised e)
  | Ok st =>
      match the_task p st with
      | Raise e => (st, Raised e)
      | Ok task => (set_metrics (metrics st ++ [task]) st, Returned)
      end
  end.

(** From the second [scheduled_task.actual_start = self.env.now] to
    [yield self.env.timeout(compute_time)]. *)
Definition seg_compute (p task_id : string) (task_def : TaskDefinition.t)
           (st : state) : state * outcome :=
  let st := update_task p (ScheduledTask.set_actual_start (now st)) st in
  match the_task p st with
  | Raise e => (st, Raised e)
  | Ok scheduled_task =>
      match DAGTopology.get_compute_time topology
              (ScheduledTask.node_id scheduled_task)
              (TaskDefinition.compute_cost task_def)
              base_compute_speed with
      | Raise e => (st, Raised e)
      | Ok compute_time =>
          let st :=
            update_task p (ScheduledTask.set_compute_time compute_time) st in
          match timeout p compute_time st with
          | Raise e => (st, Raised e)
          | Ok st => (st, Suspended (Compute task_id))
          end
      end
  end.

(** The loop [for pred_id in predecessors:] that fills [transfer_times]. *)
Definition transfer_times (p task_id : string) (predecessors : list string)
           (st : state) : result (list float) :=
  fold_left
    (fun acc pred_id =>
       tts <- acc ;;
       match dict_get pred_id (scheduled_tasks st) with
       | None => Ok tts
       | Some pred_task =>
           let data_size := _get_data_from_predecessor pred_id task_id in
           if 0 <? data_size then
             scheduled_task <- the_task p st ;;
             transfer_time <-
               DAGTopology.get_transfer_time topology
                 (ScheduledTask.node_id pred_task)
                 (ScheduledTask.node_id scheduled_task)
                 data_size ;;
             Ok (tts ++ [transfer_time])
           else Ok tts
       end)
    predecessors (Ok []).

Definition uplink_of (p task_id : string) (predecessors : list string)
           (st : state) : result float :=
  match predecessors with
  | [] => Ok 0
  | _ =>
      tts <- transfer_times p task_id predecessors st ;;
      match tts with
      | [] => Ok 0
      | x :: xs => Ok (py_max x xs)
      end
  end.

(** From the first [scheduled_task.actual_start = self.env.now] to
    [yield self.env.timeout(uplink_time)], or on into the compute
    segment when [uplink_time] is not positive. *)
Definition seg_uplink (p task_id : string) (task_def : TaskDefinition.t)
           (predecessors : list string) (st : state) : state * outcome :=
  let st := update_task p (ScheduledTask.set_actual_start (now st)) st in
  match uplink_of p task_id predecessors st with
  | Raise e => (st, Raised e)
  | Ok uplink_time =>
      let st :=
        update_task p (ScheduledTask.set_uplink_time uplink_time) st in
      if 0 <? uplink_time then
        match timeout p uplink_time st with
        | Raise e => (st, Raised e)
        | Ok st => (st, Suspended (Uplink task_id task_def))
        end
      else seg_compute p task_id task_def st
  end.

(** From the top of [_execute_task] to [yield simpy.AllOf(...)], or on
    into the uplink segment when there is nothing to wait for. *)
Definition seg_start (p : string) (st : state) : state * outcome :=
  match the_task p st with
  | Raise e => (st, Raised e)
  | Ok scheduled_task =>
      let task_id := ScheduledTask.task_id scheduled_task in
      let base := base_task_id task_id in
      match dict_get base task_definitions with
      | None =>
          (st, Raised (ValueError
                         ("No task definition found for " ++ base)%string))
      | Some task_def =>
          let predecessors :=
            _get_predecessors (scheduled_tasks st) task_id in
          let pred_events :=
            filter (fun q => dict_mem q (completion_events st))
                   predecessors in
          match pred_events with
          | [] => seg_uplink p task_id task_def predecessors st
          | _ => (new_AllOf p pred_events st,
                  Suspended (WaitPreds task_id task_def predecessors))
          end
      end
  end.

(** [Process._resume]: run the generator of [p] to its next suspension;
    when it ends, the process event is scheduled with its outcome. *)
Definition _resume (p : string) (st : state) : state :=
  let '(st', o) :=
    match dict_get p (procs st) with
    | None => (st, Raised Unreachable)
    | Some Start => seg_start p st
    | Some (WaitPreds task_id task_def predecessors) =>
        seg_uplink p task_id task_def predecessors st
    | Some (Uplink task_id task_def) => seg_compute p task_id task_def st
    | Some (Compute task_id) => seg_finish p task_id st
    | Some Exhausted => (st, Returned)
    end in
  match o with
  | Suspended at_pc => set_procs (dict_set p at_pc (procs st')) st'
  | Returned =>
      schedule (simpy.Process p (Ok tt)) simpy.NORMAL 0
               (set_procs (dict_set p Exhausted (procs st')) st')
  | Raised e =>
      schedule (simpy.Process p (Raise e)) simpy.NORMAL 0
               (set_procs (dict_set p Exhausted (procs st')) st')
  end.

(** The callbacks of one popped event; [Some e] when the event is a
    failed process, whose exception [Environment.step] re-raises. *)
Definition fire (ev : simpy.event) (st : state) : state * option exn :=
  match ev with
  | simpy.Initialize p => (_resume p st, None)
  | simpy.AllOf p => (_resume p st, None)
  | simpy.Timeout p => (_resume p st, None)
  | simpy.Completion task_id =>
      match dict_get task_id (completion_events st) with
      | None => (st, Some Unreachable)
      | Some e =>
          let st :=
            set_events
              (dict_set task_id {| simpy.callbacks := None;
                                   simpy.triggered := simpy.triggered e |}
                        (completion_events st)) st in
          match simpy.callbacks e with
          | None => (st, Some Unreachable)
          | Some cbs => (fold_left (fun st p => _check p st) cbs st, None)
          end
      end
  | simpy.Process _ (Ok _) => (st, None)
  | simpy.Process _ (Raise e) => (st, Some e)
  end.

(** [Environment.step]: [None] stands for [EmptySchedule]. *)
Definition step (st : state) : option (state * option exn) :=
  match heappop simpy.entry_ltb (simpy._queue (env st)) with
  | None => None
  | Some ((t, _, _, ev), rest) =>
      Some (fire ev (set_env {| simpy.now := t;
                                simpy._eid := simpy._eid (env st);
                                simpy._queue := rest |} st))
  end.

(** [Environment.run()] without [until]: step until the schedule is
    empty or a step raises. *)
Fixpoint env_run (fuel : nat) (st : state) : state * option exn :=
  match fuel with
  | O => (st, Some Unreachable)
  | S fuel =>
      match step st with
      | None => (st, None)
      | Some (st', Some e) => (st', Some e)
      | Some (st', None) => env_run fuel st'
      end
  end.

(** [DAGScheduler(env, ...)] followed by the two loops that open
    [run()]: one completion event and one process per scheduled task. *)
Definition start_all (env0 : simpy.Environment)
           (tasks : dict string ScheduledTask.t) : state :=
  let events :=
    fold_left (fun ce task_id => dict_set task_id simpy.new_event ce)
              (keys tasks) [] in
  let st := {| env := env0; scheduled_tasks := tasks;
               completion_events := events; conditions := [];
               procs := []; metrics := [] |} in
  fold_left
    (fun st kv =>
       schedule (simpy.Initialize (fst kv)) simpy.URGENT 0
                (set_procs (dict_set (fst kv) Start (procs st)) st))
    tasks st.

(** The state in which [self.env.run()] returns or raises. *)
Definition replay (tasks : dict string ScheduledTask.t)
  : state * option exn :=
  env_run (S (6 * List.length tasks))
          (start_all simpy.new_environment tasks).

(** [actual_end] of the tasks that have one, in dictionary order. *)
Definition recorded_ends (tasks : dict string ScheduledTask.t) : list float :=
  flat_map (fun kv => match ScheduledTask.actual_end (snd kv) with
                      | Some e => [e]
                      | None => []
                      end) tasks.

(** [DAGScheduler.run()] on a fresh environment. *)
Definition run (tasks : dict string ScheduledTask.t) : result float :=
  match replay tasks with
  | (_, Some e) => Raise e
  | (st, None) =>
      match recorded_ends (scheduled_tasks st) with
      | [] => Raise (ValueError "max() arg is an empty sequence")
      | x :: xs => Ok (py_max x xs)
      end
  end.
End Replay.
End DAGScheduler.
End Binary64.

(* ================================================================== *)
(** * Properties *)

(** ** Dictionaries *)

Section DictFacts.
Context {K V : Type} `{EqbKey K}.
Implicit Types (d : dict K V) (k : K) (v : V).

Lemma keqb_refl k : keqb k k = true.
Proof. destruct (keqb_spec k k); congruence. Qed.

Lemma keqb_neq k k' : k <> k' -> keqb k k' = false.
Proof. intros; destruct (keqb_spec k k'); congruence. Qed.

Lemma dict_get_set_eq k v d : dict_get k (dict_set k v d) = Some v.
Proof.
  induction d as [|[k' v'] d IH]; simpl.
  - now rewrite keqb_refl.
  - destruct (keqb_spec k k') as [->|N]; simpl.
    + now rewrite keqb_refl.
    + now rewrite (keqb_neq N).
Qed.

Lemma dict_get_set_neq k k' v d :
  k <> k' -> dict_get k' (dict_set k v d) = dict_get k' d.
Proof.
  intros N; induction d as [|[k0 v0] d IH]; simpl.
  - rewrite keqb_neq; auto.
  - destruct (keqb_spec k k0) as [->|N0]; simpl.
    + rewrite keqb_neq; auto.
    + now rewrite IH.
Qed.

Lemma dict_get_set k k' v d :
  dict_get k' (dict_set k v d) = if keqb k k' then Some v else dict_get k' d.
Proof.
  destruct (keqb_spec k k') as [->|N].
  - apply dict_get_set_eq.
  - now apply dict_get_set_neq.
Qed.

Lemma dict_get_In k v d : dict_get k d = Some v -> In (k, v) d.
Proof.
  induction d as [|[k' v'] d IH]; simpl; [discriminate|].
  destruct (keqb_spec k k') as [->|N]; intros E.
  - inversion E; auto.
  - auto.
Qed.

Lemma dict_get_None k d : dict_get k d = None <-> ~ In k (keys d).
Proof.
  induction d as [|[k' v'] d IH]; simpl; [tauto|].
  destruct (keqb_spec k k') as [->|N].
  - split; [discriminate|tauto].
  - rewrite IH. split; intros A; [intros [B|B]; congruence|tauto].
Qed.

Lemma dict_get_Some_key k v d : dict_get k d = Some v -> In k (keys d).
Proof. intros E; apply dict_get_In in E. now apply (in_map fst) in E. Qed.

Lemma dict_mem_keys k d : dict_mem k d = true <-> In k (keys d).
Proof.
  unfold dict_mem. destruct (dict_get k d) eqn:E.
  - split; auto. intros _. eapply dict_get_Some_key; eauto.
  - apply dict_get_None in E. split; [discriminate|tauto].
Qed.

Lemma In_dict_get_NoDup k v d :
  NoDup (keys d) -> In (k, v) d -> dict_get k d = Some v.
Proof.
  induction d as [|[k' v'] d IH]; simpl; [tauto|].
  intros ND [E|I].
  - inversion E; subst. now rewrite keqb_refl.
  - inversion ND; subst.
    destruct (keqb_spec k k') as [->|N]; auto.
    exfalso. apply H2. now apply (in_map fst) in I.
Qed.

Lemma keys_dict_set_in k v d :
  In k (keys d) -> keys (dict_set k v d) = keys d.
Proof.
  induction d as [|[k' v'] d IH]; simpl; [tauto|].
  destruct (keqb_spec k k') as [->|N]; simpl; auto.
  intros [E|I]; [congruence|]. now rewrite IH.
Qed.

Lemma keys_dict_set_notin k v d :
  ~ In k (keys d) -> keys (dict_set k v d) = keys d ++ [k].
Proof.
  induction d as [|[k' v'] d IH]; simpl; auto.
  destruct (keqb_spec k k') as [->|N]; simpl; [tauto|].
  intros A. rewrite IH; auto.
Qed.

Lemma In_keys_dict_set k k' v d :
  In k' (keys (dict_set k v d)) <-> k' = k \/ In k' (keys d).
Proof.
  rewrite <- !dict_mem_keys. unfold dict_mem. rewrite dict_get_set.
  destruct (keqb_spec k k') as [->|N].
  - tauto.
  - destruct (dict_get k' d); split; auto. intros [E|E]; congruence.
Qed.

Lemma NoDup_keys_dict_set k v d :
  NoDup (keys d) -> NoDup (keys (dict_set k v d)).
Proof.
  intros ND. destruct (in_dec (fun a b => reflect_dec _ _ (keqb_spec a b)) k (keys d)).
  - now rewrite keys_dict_set_in.
  - rewrite keys_dict_set_notin by auto.
    apply NoDup_app; auto.
    + constructor; [tauto|constructor].
    + intros x A [B|[]]; congruence.
Qed.
End DictFacts.

Unset Implicit Arguments.

(** ** Folds that append *)

Lemma fold_left_ext {A B} (f g : A -> B -> A) (l : list B) (a : A) :
  (forall a b, In b l -> f a b = g a b) -> fold_left f l a = fold_left g l a.
Proof.
  revert a; induction l as [|b l IH]; simpl; intros a E; auto.
  rewrite E by auto. apply IH. intros; apply E; auto.
Qed.

Lemma fold_left_filter_map {A B} (P : B -> bool) (f : A -> B)
      (l : list A) (acc : list B) :
  fold_left (fun acc x => if P (f x) then acc ++ [f x] else acc) l acc
  = acc ++ filter P (map f l).
Proof.
  revert acc; induction l as [|a l IH]; simpl; intros acc.
  - now rewrite app_nil_r.
  - rewrite IH. destruct (P (f a)); auto. now rewrite <- app_assoc.
Qed.

(** ** Task-id parsing and predecessor resolution *)

Module SchedulerFacts.
Import DAGScheduler.

(** The memo table of [_get_base_task_id] holds only parsed ids. *)
Definition memo_ok (m : dict string string) : Prop :=
  forall k b, dict_get k m = Some b -> b = parse_base_task_id k.

Lemma memo_ok_nil : memo_ok [].
Proof. intros k b E; discriminate. Qed.

Lemma _get_base_task_id_memo (m : dict string string) (sid : string) :
  memo_ok m ->
  fst (_get_base_task_id m sid) = parse_base_task_id sid /\
  memo_ok (snd (_get_base_task_id m sid)).
Proof.
  intros M. unfold _get_base_task_id.
  destruct (dict_get sid m) as [b|] eqn:E; simpl.
  - split; auto.
  - split; auto. intros k b. rewrite dict_get_set.
    simpl. destruct (String.eqb_spec sid k) as [->|N]; [|apply M].
    congruence.
Qed.

(** The scheduled id a base predecessor is mapped to. *)
Definition mapped_pred (scheduled_task_id pred_base_id : string) : string :=
  match cell_suffix scheduled_task_id with
  | Some (String ch r) => (pred_base_id ++ "_" ++ String ch r)%string
  | _ => pred_base_id
  end.

Lemma _get_predecessors_eq defs (sched : dict string ScheduledTask.t)
      (sid : string) (td : TaskDefinition.t) :
  dict_get (parse_base_task_id sid) defs = Some td ->
  _get_predecessors defs sched sid
  = filter (fun x => dict_mem x sched)
           (map (mapped_pred sid) (TaskDefinition.predecessors td)).
Proof.
  intros E. unfold _get_predecessors, base_task_id. rewrite E.
  destruct (TaskDefinition.predecessors td) as [|a l] eqn:P; [reflexivity|].
  rewrite <- (app_nil_l (filter _ _)), <- fold_left_filter_map.
  apply fold_left_ext. intros acc b _. unfold mapped_pred.
  destruct (cell_suffix sid) as [[|ch r]|]; reflexivity.
Qed.

Lemma _get_predecessors_scheduled defs (sched : dict string ScheduledTask.t)
      (sid x : string) :
  In x (_get_predecessors defs sched sid) -> dict_mem x sched = true.
Proof.
  destruct (dict_get (parse_base_task_id sid) defs) as [td|] eqn:E.
  - rewrite (_get_predecessors_eq _ _ _ _ E). intros I.
    apply filter_In in I. tauto.
  - unfold _get_predecessors, base_task_id. rewrite E. intros [].
Qed.
End SchedulerFacts.

(** C6. Partition-suffix resolution: ["T0_c6"] has base id ["T0"], the bare
    id ["T0"] is its own base id (also through the memo table); when the
    definition of ["T1"] lists ["T0"] as a predecessor, ["T0_c6"] is a
    predecessor of ["T1_c6"] as soon as it is in the schedule; and the
    predecessors of any instance are exactly the mapped ids of its base
    predecessors that are in the schedule, the others being dropped. *)
Theorem C6_partition_suffix_resolution :
  forall (defs : dict string TaskDefinition.t)
         (sched : dict string ScheduledTask.t)
         (t1 : TaskDefinition.t) (memo : dict string string),
    SchedulerFacts.memo_ok memo ->
    dict_get "T1" defs = Some t1 ->
    In "T0" (TaskDefinition.predecessors t1) ->
    fst (DAGScheduler._get_base_task_id memo "T0_c6") = "T0" /\
    fst (DAGScheduler._get_base_task_id memo "T0") = "T0" /\
    (dict_mem "T0_c6" sched = true ->
     In "T0_c6" (DAGScheduler._get_predecessors defs sched "T1_c6")) /\
    (forall sid td,
        dict_get (DAGScheduler.parse_base_task_id sid) defs = Some td ->
        DAGScheduler._get_predecessors defs sched sid
        = filter (fun x => dict_mem x sched)
                 (map (SchedulerFacts.mapped_pred sid)
                      (TaskDefinition.predecessors td))) /\
    (forall sid x,
        In x (DAGScheduler._get_predecessors defs sched sid) ->
        dict_mem x sched = true).
Proof.
  intros defs sched t1 memo M D P.
  split; [apply (SchedulerFacts._get_base_task_id_memo memo "T0_c6" M)|].
  split; [apply (SchedulerFacts._get_base_task_id_memo memo "T0" M)|].
  split.
  - intros S.
    rewrite (SchedulerFacts._get_predecessors_eq defs sched "T1_c6" t1 D).
    apply filter_In. split; auto.
    change "T0_c6" with (SchedulerFacts.mapped_pred "T1_c6" "T0").
    now apply in_map.
  - split.
    + intros sid td. apply SchedulerFacts._get_predecessors_eq.
    + apply SchedulerFacts._get_predecessors_scheduled.
Qed.


(** ** [load_dag]: predecessors against successors *)

Module LoaderFacts.
Import loaders.

Lemma get_or_add_pred (src dst k : string) (pm : dict string (list string)) :
  get_or k (add_pred src pm dst) []
  = if String.eqb dst k then get_or k pm [] ++ [src] else get_or k pm [].
Proof.
  unfold add_pred, get_or.
  destruct (dict_get dst pm) as [l|] eqn:E; rewrite dict_get_set; simpl;
    destruct (String.eqb_spec dst k) as [->|N]; auto; now rewrite E.
Qed.

Lemma In_get_or_fold_add_pred (src : string) (succs : list string) :
  forall (pm : dict string (list string)) (a k : string),
    In a (get_or k (fold_left (add_pred src) succs pm) [])
    <-> In a (get_or k pm []) \/ (a = src /\ In k succs).
Proof.
  induction succs as [|s succs IH]; simpl; intros pm a k.
  - tauto.
  - rewrite IH, get_or_add_pred.
    destruct (String.eqb_spec s k) as [->|N].
    + rewrite in_app_iff; simpl. intuition.
    + intuition congruence.
Qed.

Lemma In_get_or_fold_edges (es : dict string (list string)) :
  forall (pm : dict string (list string)) (a k : string),
    In a (get_or k (fold_left
                      (fun pm kv => fold_left (add_pred (fst kv)) (snd kv) pm)
                      es pm) [])
    <-> In a (get_or k pm []) \/ (exists succs, In (a, succs) es /\ In k succs).
Proof.
  induction es as [|[src succs] es IH]; simpl; intros pm a k.
  - split; auto. intros [A|[? [[] _]]]; auto.
  - rewrite IH, In_get_or_fold_add_pred. split.
    + intros [[A|[-> A]]|[ss [A B]]]; eauto.
    + intros [A|[ss [[A|A] B]]]; eauto.
      inversion A; subst; auto.
Qed.

Lemma get_or_init_empty (ks : list string) :
  forall (pm : dict string (list string)) (k : string),
    get_or k pm [] = [] ->
    get_or k (fold_left (fun pm task_id => dict_set task_id [] pm) ks pm) [] = [].
Proof.
  induction ks as [|x ks IH]; simpl; intros pm k E; auto.
  apply IH. unfold get_or in *. rewrite dict_get_set. simpl.
  destruct (String.eqb x k); auto.
Qed.

(** Who precedes [k] after [build_predecessors]: the sources of the edges
    that list [k]. *)
Lemma In_build_predecessors (d : dag_json) (a k : string) :
  In a (get_or k (build_predecessors d) [])
  <-> exists succs, In (a, succs) (edges d) /\ In k succs.
Proof.
  unfold build_predecessors. rewrite In_get_or_fold_edges.
  rewrite get_or_init_empty by reflexivity. simpl. tauto.
Qed.

Lemma In_get_or_edges (es : dict string (list string)) (a k : string) :
  NoDup (keys es) ->
  (In k (get_or a es []) <-> exists succs, In (a, succs) es /\ In k succs).
Proof.
  intros ND. unfold get_or. destruct (dict_get a es) as [l|] eqn:E.
  - split.
    + intros I. exists l. split; auto. now apply dict_get_In.
    + intros [ss [A B]]. apply (In_dict_get_NoDup _ _ _ ND) in A. congruence.
  - split; [intros []|]. intros [ss [A _]].
    apply dict_get_None in E. exfalso. apply E.
    change a with (fst (a, ss)). now apply in_map.
Qed.

(** Every loaded definition takes its successors from [edges] and its
    predecessors from the predecessor map, both under its own key. *)
Lemma load_dag_fields (d : dag_json) (k : string) (td : TaskDefinition.t) :
  dict_get k (load_dag d) = Some td ->
  TaskDefinition.successors td = get_or k (edges d) [] /\
  TaskDefinition.predecessors td = get_or k (build_predecessors d) [] /\
  TaskDefinition.task_id td = k.
Proof.
  unfold load_dag.
  generalize (parse_edge_weights (edge_weights_raw d)) as ew.
  generalize (build_predecessors d) as pm. intros pm ew.
  assert (G : forall (nw : dict string Q) (acc : dict string TaskDefinition.t),
             (forall k td, dict_get k acc = Some td ->
                TaskDefinition.successors td = get_or k (edges d) [] /\
                TaskDefinition.predecessors td = get_or k pm [] /\
                TaskDefinition.task_id td = k) ->
             forall k td,
               dict_get k
                 (fold_left
                    (fun tasks kv =>
                       dict_set (fst kv)
                         {| TaskDefinition.task_id := fst kv;
                            TaskDefinition.compute_cost := snd kv;
                            TaskDefinition.successors := get_or (fst kv) (edges d) [];
                            TaskDefinition.predecessors := get_or (fst kv) pm [];
                            TaskDefinition.edge_weights := get_or (fst kv) ew [] |}
                         tasks) nw acc) = Some td ->
               TaskDefinition.successors td = get_or k (edges d) [] /\
               TaskDefinition.predecessors td = get_or k pm [] /\
               TaskDefinition.task_id td = k).
  { induction nw as [|[x c] nw IH]; simpl; intros acc A k0 td0; [apply A|].
    apply IH. intros k1 td1. rewrite dict_get_set. simpl.
    destruct (String.eqb_spec x k1) as [->|N]; [|apply A].
    intros E; inversion E; subst; simpl; auto. }
  apply G. intros ? ? E; discriminate.
Qed.
End LoaderFacts.

(** C9. In the task definitions that [load_dag] returns, a task [B] lists
    [A] as a predecessor exactly when the task [A] lists [B] as a successor
    (the keys of the JSON object [edges] being distinct, as in any parsed
    document). *)
Theorem C9_predecessors_inverse_of_successors :
  forall (d : loaders.dag_json) (A B : string) (ta tb : TaskDefinition.t),
    NoDup (keys (loaders.edges d)) ->
    dict_get A (loaders.load_dag d) = Some ta ->
    dict_get B (loaders.load_dag d) = Some tb ->
    (In A (TaskDefinition.predecessors tb) <-> In B (TaskDefinition.successors ta)).
Proof.
  intros d A B ta tb ND EA EB.
  apply LoaderFacts.load_dag_fields in EA, EB.
  destruct EA as [SA _], EB as [_ [PB _]].
  rewrite SA, PB, LoaderFacts.In_build_predecessors.
  now rewrite LoaderFacts.In_get_or_edges.
Qed.


(** ** The end-to-end scenario *)

Module Scenario.
(** The DAG document: [T0 -> T1], costs 10 and 5, 1,000,000 bytes on the edge. *)
Definition dag : loaders.dag_json :=
  {| loaders.node_weights := [("T0", 10); ("T1", 5)];
     loaders.edges := [("T0", ["T1"])];
     loaders.edge_weights_raw := [("('T0', 'T1')", 1000000 # 1)] |}.

Definition task_definitions : dict string TaskDefinition.t :=
  Eval vm_compute in loaders.load_dag dag.

Definition nodes : dict string ComputeNode.t :=
  [("N0", {| ComputeNode.node_id := "N0"; ComputeNode.speed_multiplier := 1;
             ComputeNode.node_type := "DU" |});
   ("N1", {| ComputeNode.node_id := "N1"; ComputeNode.speed_multiplier := 1;
             ComputeNode.node_type := "DU" |})].

Definition link (bw : Q) : NetworkLink.t :=
  {| NetworkLink.source := "N0"; NetworkLink.target := "N1";
     NetworkLink.bandwidth := bw; NetworkLink.link_type := "inter-DU" |}.

(** The topology with one link of the given bandwidth. *)
Definition topology (bw : Q) : DAGTopology.t :=
  DAGTopology.init nodes [link bw].

Definition schedule : dict string ScheduledTask.t :=
  [("T0", ScheduledTask.make "T0" "N0" 0 10 10);
   ("T1", ScheduledTask.make "T1" "N1" 11 16 5)].

(** The same two tasks as instances of the partition [c6]. *)
Definition schedule_c6 : dict string ScheduledTask.t :=
  [("T0_c6", ScheduledTask.make "T0_c6" "N0" 0 10 10);
   ("T1_c6", ScheduledTask.make "T1_c6" "N1" 11 16 5)].

(** The task objects after the replay, and what [run()] returns. *)
Definition final_tasks (bw : Q) : dict string ScheduledTask.t :=
  DAGScheduler.scheduled_tasks
    (fst (DAGScheduler.replay (topology bw) task_definitions 1 schedule)).

Definition makespan (bw : Q) : result Q :=
  DAGScheduler.run (topology bw) task_definitions 1 schedule.

(** A DAG document with a cycle: [A] stands alone, [B] and [C] are each
    other's successor. *)
Definition cyclic_dag : loaders.dag_json :=
  {| loaders.node_weights := [("A", 1); ("B", 1); ("C", 1)];
     loaders.edges := [("B", ["C"]); ("C", ["B"])];
     loaders.edge_weights_raw := [] |}.

Definition cyclic_definitions : dict string TaskDefinition.t :=
  Eval vm_compute in loaders.load_dag cyclic_dag.

Definition cyclic_schedule : dict string ScheduledTask.t :=
  [("A", ScheduledTask.make "A" "N0" 0 1 1);
   ("B", ScheduledTask.make "B" "N0" 1 2 1);
   ("C", ScheduledTask.make "C" "N0" 2 3 1)].

(** The schedule document of the scenario, and a topology document in
    which the second node and the link leave their weight out. *)
Definition schedule_doc : loaders.schedule_json :=
  {| loaders.s_schedule :=
       [{| loaders.e_task := Some "T0"; loaders.e_node := Some "N0";
           loaders.e_start := Some 0; loaders.e_end := Some 10;
           loaders.e_duration := Some 10 |};
        {| loaders.e_task := Some "T1"; loaders.e_node := Some "N1";
           loaders.e_start := Some 11; loaders.e_end := Some 16;
           loaders.e_duration := Some 5 |}];
     loaders.s_task_to_node := [("T0", "N0"); ("T1", "N1")];
     loaders.s_makespan := Some 16 |}.

Definition topology_doc : loaders.topology_json :=
  {| loaders.t_nodes :=
       [{| loaders.n_id := Some "N0"; loaders.n_weight := Some 1;
           loaders.n_type := Some "DU" |};
        {| loaders.n_id := Some "N1"; loaders.n_weight := None;
           loaders.n_type := None |}];
     loaders.t_edges :=
       [{| loaders.g_source := Some "N0"; loaders.g_target := Some "N1";
           loaders.g_weight := None; loaders.g_type := None |}] |}.

(** A schedule whose first task is planned to start late. *)
Definition late_schedule : dict string ScheduledTask.t :=
  [("T0", ScheduledTask.make "T0" "N0" 7 17 10);
   ("T1", ScheduledTask.make "T1" "N1" 18 23 5)].








End Scenario.

(** Two tasks on one node, in binary64: [A] costs 0.1 and its successor
    [B] costs 0.2; no bytes pass between them and there is no link. *)
Module RoundingScenario.
Import PrimFloat.
#[local] Open Scope float_scope.
#[local] Set Warnings "-inexact-float".

Definition task_definitions : dict string Binary64.TaskDefinition.t :=
  [("A", {| Binary64.TaskDefinition.task_id := "A";
            Binary64.TaskDefinition.compute_cost := 0.1;
            Binary64.TaskDefinition.successors := ["B"];
            Binary64.TaskDefinition.predecessors := [];
            Binary64.TaskDefinition.edge_weights := [] |});
   ("B", {| Binary64.TaskDefinition.task_id := "B";
            Binary64.TaskDefinition.compute_cost := 0.2;
            Binary64.TaskDefinition.successors := [];
            Binary64.TaskDefinition.predecessors := ["A"];
            Binary64.TaskDefinition.edge_weights := [] |})].

Definition topology : Binary64.DAGTopology.t :=
  Binary64.DAGTopology.init
    [("N0", {| Binary64.ComputeNode.node_id := "N0";
               Binary64.ComputeNode.speed_multiplier := 1;
               Binary64.ComputeNode.node_type := "DU" |})]
    [].

Definition schedule : dict string Binary64.ScheduledTask.t :=
  [("A", Binary64.ScheduledTask.make "A" "N0" 0 0.1 0.1);
   ("B", Binary64.ScheduledTask.make "B" "N0" 0.1 0.3 0.2)].
End RoundingScenario.

Lemma C6_witness :
  SchedulerFacts.memo_ok [] /\
  dict_get "T1" Scenario.task_definitions
  = Some {| TaskDefinition.task_id := "T1"; TaskDefinition.compute_cost := 5;
            TaskDefinition.successors := [];
            TaskDefinition.predecessors := ["T0"];
            TaskDefinition.edge_weights := [] |} /\
  In "T0_c6"
     (DAGScheduler._get_predecessors Scenario.task_definitions
        Scenario.schedule_c6 "T1_c6").
Proof.
  split; [apply SchedulerFacts.memo_ok_nil|].
  split; [reflexivity|].
  apply (C6_partition_suffix_resolution
           Scenario.task_definitions Scenario.schedule_c6
           {| TaskDefinition.task_id := "T1"; TaskDefinition.compute_cost := 5;
              TaskDefinition.successors := [];
              TaskDefinition.predecessors := ["T0"];
              TaskDefinition.edge_weights := [] |} []).
  - apply SchedulerFacts.memo_ok_nil.
  - reflexivity.
  - simpl; auto.
  - reflexivity.
Defined.

Lemma C9_witness :
  NoDup (keys (loaders.edges Scenario.dag)) /\
  (In "T0" ["T0"] <-> In "T1" ["T1"]).
Proof.
  assert (ND : NoDup (keys (loaders.edges Scenario.dag))).
  { repeat constructor. simpl; tauto. }
  split; [exact ND|].
  apply (C9_predecessors_inverse_of_successors Scenario.dag "T0" "T1"
           {| TaskDefinition.task_id := "T0"; TaskDefinition.compute_cost := 10;
              TaskDefinition.successors := ["T1"];
              TaskDefinition.predecessors := [];
              TaskDefinition.edge_weights := [("T1", 1000000 # 1)] |}
           {| TaskDefinition.task_id := "T1"; TaskDefinition.compute_cost := 5;
              TaskDefinition.successors := [];
              TaskDefinition.predecessors := ["T0"];
              TaskDefinition.edge_weights := [] |} ND);
    reflexivity.
Defined.

(** The claimed values are not what the replay records for a link of
    bandwidth 8,000,000: the uplink of T1 is not 1 and the makespan is
    not 16. *)
Lemma C1_counterexample :
  exists (t1 : ScheduledTask.t) (m : Q),
    dict_get "T1" (Scenario.final_tasks (8000000 # 1)) = Some t1 /\
    Scenario.makespan (8000000 # 1) = Ok m /\
    ~ ScheduledTask.uplink_time t1 == 1 /\
    ~ m == 16.
Proof.
  eexists; eexists.
  split; [vm_compute; reflexivity|].
  split; [vm_compute; reflexivity|].
  split; intros E; vm_compute in E; discriminate.
Qed.

(** C1 (amended). The replay of the end-to-end scenario records
    compute_time 10 for T0 and 5 for T1.  A link's transfer time for N bytes
    is N divided by its rate in bytes per time unit, the [bandwidth] field
    being read in Mbps: the rate is [bandwidth * 10^6 / 8].  So a link of
    bandwidth 8,000,000 gives T1 the uplink_time 1/1,000,000 and the makespan
    15.000001; it is a link of bandwidth 8 that gives the uplink_time 1 and
    the makespan 16. *)
Theorem C1_end_to_end_scenario :
  (exists t0 t1 m,
      dict_get "T0" (Scenario.final_tasks (8000000 # 1)) = Some t0 /\
      dict_get "T1" (Scenario.final_tasks (8000000 # 1)) = Some t1 /\
      Scenario.makespan (8000000 # 1) = Ok m /\
      ScheduledTask.compute_time t0 == 10 /\
      ScheduledTask.uplink_time t1 == 1 # 1000000 /\
      ScheduledTask.compute_time t1 == 5 /\
      m == 15000001 # 1000000) /\
  (exists t0 t1 m,
      dict_get "T0" (Scenario.final_tasks 8) = Some t0 /\
      dict_get "T1" (Scenario.final_tasks 8) = Some t1 /\
      Scenario.makespan 8 = Ok m /\
      ScheduledTask.compute_time t0 == 10 /\
      ScheduledTask.uplink_time t1 == 1 /\
      ScheduledTask.compute_time t1 == 5 /\
      m == 16) /\
  (forall (l : NetworkLink.t) (n : Q),
      0 < NetworkLink.bandwidth l ->
      exists t, NetworkLink.get_transfer_time l n = Ok t /\
                t == n / (NetworkLink.bandwidth l * (125000 # 1))).
Proof.
  split; [|split].
  - do 3 eexists.
    split; [vm_compute; reflexivity|].
    split; [vm_compute; reflexivity|].
    split; [vm_compute; reflexivity|].
    repeat split; reflexivity.
  - do 3 eexists.
    split; [vm_compute; reflexivity|].
    split; [vm_compute; reflexivity|].
    split; [vm_compute; reflexivity|].
    repeat split; reflexivity.
  - intros l n B. unfold NetworkLink.get_transfer_time.
    destruct (Qle_bool (NetworkLink.bandwidth l) 0) eqn:E.
    + apply Qle_bool_iff in E. lra.
    + eexists; split; [reflexivity|].
      unfold NetworkLink.bytes_per_second. field. lra.
Qed.


(** ** The graph and the link lookup built by [_build_graph] *)

Module GraphFacts.
Import nx.

(** [v] is listed under [u] with the edge data [e]. *)
Definition edge (G : Graph) (u v : string) (e : EdgeData) : Prop :=
  exists nb, dict_get u G = Some nb /\ dict_get v nb = Some e.

(** What the dictionaries of a graph guarantee: distinct keys, every
    neighbour a node, no node its own neighbour, no negative weight. *)
Record wf (G : Graph) : Prop := {
  wf_keys : NoDup (keys G);
  wf_inner : forall u nb, dict_get u G = Some nb -> NoDup (keys nb);
  wf_closed : forall u v e, edge G u v e -> dict_mem v G = true;
  wf_noself : forall u e, ~ edge G u u e;
  wf_nonneg : forall u v e w, edge G u v e -> ed_weight e = Fin w -> 0 <= w
}.

Lemma sget_set {V} (k k' : string) (v : V) (d : dict string V) :
  dict_get k' (dict_set k v d)
  = if String.eqb k k' then Some v else dict_get k' d.
Proof. exact (dict_get_set k k' v d). Qed.

Ltac str_cases :=
  repeat match goal with
         | |- context [String.eqb ?a ?b] =>
             destruct (String.eqb_spec a b); subst; try congruence
         end.

Lemma dict_get_app_one {V} (k n : string) (v : V) (d : dict string V) :
  dict_get k (d ++ [(n, v)])
  = match dict_get k d with
    | Some x => Some x
    | None => if String.eqb k n then Some v else None
    end.
Proof.
  induction d as [|[k' v'] d IH]; simpl; auto.
  destruct (String.eqb k k'); auto.
Qed.

Lemma dict_get_add_node (k n : string) (G : Graph) :
  dict_get k (add_node n G)
  = match dict_get k G with
    | Some nb => Some nb
    | None => if String.eqb k n then Some [] else None
    end.
Proof.
  unfold add_node, dict_mem.
  destruct (dict_get n G) as [nb|] eqn:E.
  - destruct (dict_get k G) eqn:F; auto.
    destruct (String.eqb_spec k n) as [->|N]; auto. congruence.
  - apply dict_get_app_one.
Qed.

Lemma dict_get_adj_update (k u v : string) (d : EdgeData) (G : Graph) :
  dict_get k (adj_update u v d G)
  = match dict_get k G with
    | Some nb => Some (if String.eqb u k then dict_set v d nb else nb)
    | None => None
    end.
Proof.
  unfold adj_update. induction G as [|[k' nb'] G IH]; simpl; auto.
  destruct (String.eqb_spec u k') as [->|N]; simpl.
  - destruct (String.eqb_spec k k') as [->|N']; auto.
    now rewrite String.eqb_refl.
  - destruct (String.eqb_spec k k') as [->|N']; auto.
    destruct (String.eqb_spec u k'); congruence.
Qed.

Lemma keys_adj_update (u v : string) (d : EdgeData) (G : Graph) :
  keys (adj_update u v d G) = keys G.
Proof.
  unfold adj_update, keys. rewrite map_map. apply map_ext.
  intros [k nb]; simpl. destruct (String.eqb u k); auto.
Qed.

Lemma keys_add_node (n : string) (G : Graph) :
  keys (add_node n G) = if dict_mem n G then keys G else keys G ++ [n].
Proof.
  unfold add_node. destruct (dict_mem n G); auto.
  unfold keys. now rewrite map_app.
Qed.

Lemma NoDup_keys_add_node (n : string) (G : Graph) :
  NoDup (keys G) -> NoDup (keys (add_node n G)).
Proof.
  intros ND. rewrite keys_add_node. destruct (dict_mem n G) eqn:E; auto.
  apply NoDup_app; auto.
  - constructor; [tauto|constructor].
  - intros x A [B|[]]; subst.
    apply dict_mem_keys in A. congruence.
Qed.

(** The adjacency of [k] after [add_edge u v d]. *)
Lemma dict_get_add_edge (k u v : string) (d : EdgeData) (G : Graph) :
  dict_get k (add_edge u v d G)
  = match dict_get k (add_node v (add_node u G)) with
    | Some nb =>
        Some (let nb := if String.eqb u k then dict_set v d nb else nb in
              if String.eqb v k then dict_set u d nb else nb)
    | None => None
    end.
Proof.
  unfold add_edge. rewrite !dict_get_adj_update.
  destruct (dict_get k (add_node v (add_node u G))); auto.
Qed.

Lemma has_node_add_edge (k u v : string) (d : EdgeData) (G : Graph) :
  dict_mem k (add_edge u v d G) = true
  <-> k = u \/ k = v \/ dict_mem k G = true.
Proof.
  unfold dict_mem. rewrite dict_get_add_edge, !dict_get_add_node.
  destruct (dict_get k G) eqn:E.
  - intuition.
  - destruct (String.eqb_spec k u) as [->|N]; [intuition|].
    destruct (String.eqb_spec k v) as [->|N']; [intuition|].
    intuition congruence.
Qed.

(** The edges after [add_edge u v d] (for [u <> v]): the two new ones and
    the old ones between other pairs. *)
Lemma edge_add_edge (x y u v : string) (d e : EdgeData) (G : Graph) :
  u <> v ->
  (edge (add_edge u v d G) x y e
   <-> (x = u /\ y = v /\ e = d) \/ (x = v /\ y = u /\ e = d)
       \/ (edge G x y e /\ (x, y) <> (u, v) /\ (x, y) <> (v, u))).
Proof.
  intros UV. unfold edge.
  split.
  - intros [nb [A B]]. rewrite dict_get_add_edge in A.
    destruct (dict_get x (add_node v (add_node u G))) as [nb0|] eqn:E;
      [|discriminate].
    inversion A; subst nb; clear A.
    rewrite !dict_get_add_node in E. cbv zeta in B.
    destruct (dict_get x G) as [nb1|] eqn:F.
    + inversion E; subst nb0; clear E.
      revert B. str_cases; rewrite ?sget_set; str_cases; intros B;
        try (inversion B; subst; tauto);
        right; right; (split; [eauto|split; congruence]).
    + revert E B. str_cases; intros E; inversion E; subst nb0;
        rewrite ?sget_set; simpl; str_cases; intros B;
        try discriminate; inversion B; subst; tauto.
  - intros [[-> [-> ->]]|[[-> [-> ->]]|[[nb [A B]] [N1 N2]]]];
      rewrite dict_get_add_edge, !dict_get_add_node.
    + destruct (dict_get u G) as [nb|] eqn:F; rewrite ?String.eqb_refl;
        (eexists; split; [reflexivity|]); cbv zeta;
        str_cases; rewrite ?sget_set; str_cases; reflexivity.
    + destruct (dict_get v G) as [nb|] eqn:F; rewrite ?String.eqb_refl;
        str_cases;
        (eexists; split; [reflexivity|]); cbv zeta;
        str_cases; rewrite ?sget_set; str_cases; reflexivity.
    + rewrite A. eexists; split; [reflexivity|]. cbv zeta.
      str_cases; rewrite ?sget_set; str_cases; auto.
Qed.

Lemma edge_add_node (n x y : string) (e : EdgeData) (G : Graph) :
  edge (add_node n G) x y e <-> edge G x y e.
Proof.
  unfold edge. split; intros [nb [A B]].
  - rewrite dict_get_add_node in A.
    destruct (dict_get x G) as [nb0|] eqn:F.
    + inversion A; subst; eauto.
    + destruct (String.eqb x n); inversion A; subst; discriminate.
  - exists nb. rewrite dict_get_add_node, A. auto.
Qed.

Lemma has_node_add_node (k n : string) (G : Graph) :
  dict_mem k (add_node n G) = true <-> k = n \/ dict_mem k G = true.
Proof.
  unfold dict_mem. rewrite dict_get_add_node.
  destruct (dict_get k G); [intuition|].
  destruct (String.eqb_spec k n); intuition congruence.
Qed.

Lemma wf_empty : wf empty.
Proof.
  split; simpl.
  - constructor.
  - discriminate.
  - intros u v e [nb [A _]]; discriminate.
  - intros u e [nb [A _]]; discriminate.
  - intros u v e w [nb [A _]]; discriminate.
Qed.

Lemma wf_add_node (n : string) (G : Graph) : wf G -> wf (add_node n G).
Proof.
  intros [W1 W2 W3 W4 W5]. split.
  - now apply NoDup_keys_add_node.
  - intros u nb. rewrite dict_get_add_node.
    destruct (dict_get u G) as [nb0|] eqn:F.
    + intros E; inversion E; subst; eauto.
    + destruct (String.eqb u n); intros E; inversion E. constructor.
  - intros u v e E. apply edge_add_node in E.
    apply has_node_add_node. eauto.
  - intros u e E. apply edge_add_node in E. eapply W4; eauto.
  - intros u v e w E. apply edge_add_node in E. eauto.
Qed.

Lemma wf_add_edge (u v : string) (d : EdgeData) (G : Graph) :
  u <> v ->
  (forall w, ed_weight d = Fin w -> 0 <= w) ->
  wf G -> wf (add_edge u v d G).
Proof.
  intros UV Wd W. pose proof W as [W1 W2 W3 W4 W5]. split.
  - unfold add_edge. rewrite !keys_adj_update.
    now apply NoDup_keys_add_node, NoDup_keys_add_node.
  - intros k nb. rewrite dict_get_add_edge.
    destruct (dict_get k (add_node v (add_node u G))) as [nb0|] eqn:F;
      [|discriminate].
    assert (N0 : NoDup (keys nb0)).
    { eapply wf_inner; [|exact F]. apply wf_add_node, wf_add_node, W. }
    intros E; inversion E; subst nb; clear E. cbv zeta.
    destruct (String.eqb u k), (String.eqb v k);
      repeat apply NoDup_keys_dict_set; auto.
  - intros x y e E. apply edge_add_edge in E; auto.
    apply has_node_add_edge.
    destruct E as [[_ [-> _]]|[[_ [-> _]]|[E _]]]; eauto.
  - intros x e E. apply edge_add_edge in E; auto.
    destruct E as [[-> [A _]]|[[-> [A _]]|[E _]]]; try congruence.
    eapply W4; eauto.
  - intros x y e w E. apply edge_add_edge in E; auto.
    destruct E as [[_ [_ ->]]|[[_ [_ ->]]|[E _]]]; eauto.
Qed.

(** *** The link lookup *)

Definition is_self_loop (n : string) (l : NetworkLink.t) : bool :=
  String.eqb (NetworkLink.source l) n && String.eqb (NetworkLink.target l) n.

(** The self-loop that the lookup keeps for [n]: the last one listed. *)
Fixpoint last_self (n : string) (links : list NetworkLink.t)
         (acc : option NetworkLink.t) : option NetworkLink.t :=
  match links with
  | [] => acc
  | l :: r => last_self n r (if is_self_loop n l then Some l else acc)
  end.

Definition self_loop_of (links : list NetworkLink.t) (n : string)
  : option NetworkLink.t :=
  last_self n links None.

Lemma last_self_Some n links : forall acc l,
  last_self n links acc = Some l ->
  (In l links /\ NetworkLink.source l = n /\ NetworkLink.target l = n)
  \/ acc = Some l.
Proof.
  induction links as [|x links IH]; simpl; intros acc l E; auto.
  apply IH in E. destruct E as [[A B]|E]; auto.
  destruct (is_self_loop n x) eqn:S; auto.
  inversion E; subst. left. unfold is_self_loop in S.
  apply andb_true_iff in S. destruct S as [S1 S2].
  apply String.eqb_eq in S1, S2. auto.
Qed.

Lemma last_self_None n links : forall acc,
  last_self n links acc = None ->
  acc = None /\
  forall l, In l links ->
            ~ (NetworkLink.source l = n /\ NetworkLink.target l = n).
Proof.
  induction links as [|x links IH]; simpl; intros acc E; auto.
  apply IH in E. destruct E as [A B].
  destruct (is_self_loop n x) eqn:S; [discriminate|].
  split; auto. intros l [<-|I]; auto.
  intros [S1 S2]. unfold is_self_loop in S. subst n.
  now rewrite S2, !String.eqb_refl in S.
Qed.

Definition weight_of (link : NetworkLink.t) : weight :=
  if Qltb 0 (NetworkLink.bandwidth link)
  then Fin (1 / NetworkLink.bandwidth link) else Inf.

Lemma weight_of_nonneg link w : weight_of link = Fin w -> 0 <= w.
Proof.
  unfold weight_of, Qltb.
  destruct (Qle_bool (NetworkLink.bandwidth link) 0) eqn:E; simpl;
    [discriminate|].
  intros F; inversion F; subst.
  assert (B : 0 < NetworkLink.bandwidth link).
  { apply Qnot_le_lt. intros A. apply Qle_bool_iff in A. congruence. }
  apply Qlt_le_weak. apply Qlt_shift_div_l; auto. lra.
Qed.

(** Every edge of the graph carries the link stored for its ordered pair. *)
Definition edges_in_map (G : Graph) (m : dict (string * string) NetworkLink.t)
  : Prop :=
  forall u v e, edge G u v e ->
                dict_get (u, v) m = Some (ed_link e) /\
                ed_weight e = weight_of (ed_link e).

Lemma pget_set (k k' : string * string) (v : NetworkLink.t)
      (m : dict (string * string) NetworkLink.t) :
  dict_get k' (dict_set k v m)
  = if String.eqb (fst k) (fst k') && String.eqb (snd k) (snd k')
    then Some v else dict_get k' m.
Proof. exact (dict_get_set k k' v m). Qed.

Lemma add_link_inv (link : NetworkLink.t) (G : Graph)
      (m : dict (string * string) NetworkLink.t) :
  wf G -> edges_in_map G m ->
  wf (fst (DAGTopology.add_link (G, m) link)) /\
  edges_in_map (fst (DAGTopology.add_link (G, m) link))
               (snd (DAGTopology.add_link (G, m) link)).
Proof.
  intros W M. unfold DAGTopology.add_link.
  destruct (String.eqb_spec (NetworkLink.source link) (NetworkLink.target link))
    as [E|N]; simpl.
  - split; auto. intros u v e Ed. destruct (M u v e Ed) as [A B].
    split; auto. rewrite pget_set; simpl.
    destruct (String.eqb_spec (NetworkLink.source link) u) as [R1|N1]; auto.
    destruct (String.eqb_spec (NetworkLink.target link) v) as [R2|N2]; auto.
    exfalso. assert (UV : v = u) by congruence. rewrite UV in Ed.
    exact (wf_noself G W u e Ed).
  - fold (weight_of link). split.
    + apply wf_add_edge; auto. simpl. apply weight_of_nonneg.
    + intros u v e Ed. apply edge_add_edge in Ed; auto.
      rewrite !pget_set; simpl.
      destruct Ed as [[-> [-> ->]]|[[-> [-> ->]]|[Ed [N1 N2]]]]; simpl.
      * rewrite !String.eqb_refl.
        destruct (String.eqb_spec (NetworkLink.target link)
                                  (NetworkLink.source link)); try congruence.
        simpl. auto.
      * rewrite !String.eqb_refl. simpl. auto.
      * destruct (M u v e Ed) as [A B]. split; auto.
        destruct (String.eqb_spec (NetworkLink.target link) u);
          destruct (String.eqb_spec (NetworkLink.source link) v);
          destruct (String.eqb_spec (NetworkLink.source link) u);
          destruct (String.eqb_spec (NetworkLink.target link) v);
          simpl; auto; congruence.
Qed.

Lemma fold_add_link_inv (links : list NetworkLink.t) :
  forall (G : Graph) (m : dict (string * string) NetworkLink.t),
    wf G -> edges_in_map G m ->
    wf (fst (fold_left DAGTopology.add_link links (G, m))) /\
    edges_in_map (fst (fold_left DAGTopology.add_link links (G, m)))
                 (snd (fold_left DAGTopology.add_link links (G, m))).
Proof.
  induction links as [|l links IH]; cbn [fold_left]; intros G m W M; auto.
  destruct (add_link_inv l G m W M) as [W' M'].
  destruct (DAGTopology.add_link (G, m) l) as [G' m'] eqn:E.
  apply IH; auto.
Qed.

Lemma fold_add_link_self (links : list NetworkLink.t) (n : string) :
  forall (G : Graph) (m : dict (string * string) NetworkLink.t),
    dict_get (n, n) (snd (fold_left DAGTopology.add_link links (G, m)))
    = last_self n links (dict_get (n, n) m).
Proof.
  induction links as [|l links IH]; cbn [fold_left last_self]; intros G m; auto.
  destruct (DAGTopology.add_link (G, m) l) as [G' m'] eqn:E.
  rewrite IH. f_equal.
  unfold DAGTopology.add_link in E. unfold is_self_loop.
  destruct (String.eqb_spec (NetworkLink.source l) (NetworkLink.target l))
    as [R|N]; inversion E; subst; clear E; rewrite !pget_set; simpl.
  - rewrite <- R. reflexivity.
  - destruct (String.eqb_spec (NetworkLink.source l) n) as [R1|N1];
      destruct (String.eqb_spec (NetworkLink.target l) n) as [R2|N2];
      simpl; auto; congruence.
Qed.

Lemma fold_add_node_wf {V} (nodes : dict string V) :
  forall G, wf G -> wf (fold_left (fun G kv => add_node (fst kv) G) nodes G).
Proof.
  induction nodes as [|kv nodes IH]; simpl; intros G W; auto.
  apply IH. now apply wf_add_node.
Qed.

Lemma fold_add_node_edge {V} (nodes : dict string V) :
  forall G x y e,
    edge (fold_left (fun G kv => add_node (fst kv) G) nodes G) x y e
    <-> edge G x y e.
Proof.
  induction nodes as [|kv nodes IH]; simpl; intros G x y e; [tauto|].
  rewrite IH. apply edge_add_node.
Qed.

(** The graph and the lookup of a topology built by [DAGTopology.init]. *)
Theorem init_inv (nodes : dict string ComputeNode.t)
        (links : list NetworkLink.t) :
  let topo := DAGTopology.init nodes links in
  wf (DAGTopology.graph topo) /\
  edges_in_map (DAGTopology.graph topo) (DAGTopology._link_map topo) /\
  forall n, dict_get (n, n) (DAGTopology._link_map topo) = self_loop_of links n.
Proof.
  simpl. unfold DAGTopology._build_graph.
  set (G0 := fold_left (fun G kv => add_node (fst kv) G) nodes empty).
  assert (W0 : wf G0) by (apply fold_add_node_wf, wf_empty).
  assert (M0 : edges_in_map G0 []).
  { intros u v e Ed. apply fold_add_node_edge in Ed.
    destruct Ed as [nb [A _]]; discriminate. }
  destruct (fold_add_link_inv links G0 [] W0 M0) as [W M].
  split; [|split]; auto.
  intros n. now rewrite fold_add_link_self.
Qed.
End GraphFacts.


(** C7. For a topology built from any nodes and links, and any node [n] and
    byte count, [get_transfer_time n n bytes] is the transfer time of the
    self-loop link kept for [n] (the last one listed, should there be
    several) when the links contain a self-loop for [n], and 0 otherwise;
    every self-loop link has an entry in the directed-pair lookup, and no
    node of the path-finding graph is its own neighbour. *)
Theorem C7_same_node_transfer_time :
  forall (nodes : dict string ComputeNode.t) (links : list NetworkLink.t)
         (n : string) (bytes : Q),
    let topo := DAGTopology.init nodes links in
    DAGTopology.get_transfer_time topo n n bytes
    = match GraphFacts.self_loop_of links n with
      | Some l => NetworkLink.get_transfer_time l bytes
      | None => Ok 0
      end /\
    (forall l, GraphFacts.self_loop_of links n = Some l ->
               In l links /\ NetworkLink.source l = n /\ NetworkLink.target l = n) /\
    (GraphFacts.self_loop_of links n = None ->
     forall l, In l links ->
               ~ (NetworkLink.source l = n /\ NetworkLink.target l = n)) /\
    (forall l, In l links -> NetworkLink.source l = NetworkLink.target l ->
               exists l', DAGTopology.get_link topo (NetworkLink.source l)
                                               (NetworkLink.target l) = Some l' /\
                          In l' links /\
                          NetworkLink.source l' = NetworkLink.source l /\
                          NetworkLink.target l' = NetworkLink.source l) /\
    (forall u e, ~ GraphFacts.edge (DAGTopology.graph topo) u u e).
Proof.
  intros nodes links n bytes topo.
  destruct (GraphFacts.init_inv nodes links) as [W [M S]]. fold topo in W, M, S.
  split; [|split; [|split; [|split]]].
  - unfold DAGTopology.get_transfer_time. rewrite String.eqb_refl, S.
    reflexivity.
  - intros l E. apply GraphFacts.last_self_Some in E.
    destruct E as [E|E]; [auto|discriminate].
  - intros E. apply GraphFacts.last_self_None in E. tauto.
  - intros l I E. unfold DAGTopology.get_link. rewrite <- E, S.
    destruct (GraphFacts.self_loop_of links (NetworkLink.source l)) as [l'|] eqn:F.
    + exists l'. apply GraphFacts.last_self_Some in F.
      destruct F as [F|F]; [tauto|discriminate].
    + apply GraphFacts.last_self_None in F. destruct F as [_ F].
      exfalso. apply (F l I). auto.
  - apply (GraphFacts.wf_noself _ W).
Qed.


(** ** [heapq]: the popped element is a least one *)

Section HeapFacts.
Context {E : Type} (ltb : E -> E -> bool).
Hypothesis ltb_asym : forall a b, ltb a b = true -> ltb b a = false.
Hypothesis ltb_negtrans :
  forall a b c, ltb a b = false -> ltb b c = false -> ltb a c = false.

Lemma heappop_None (h : list E) : heappop ltb h = None <-> h = [].
Proof.
  destruct h as [|x r]; simpl; [tauto|].
  destruct (heappop ltb r) as [[m r']|]; [destruct (ltb m x)|];
    split; discriminate.
Qed.

Lemma heappop_Permutation (h : list E) : forall m r,
  heappop ltb h = Some (m, r) -> Permutation h (m :: r).
Proof.
  induction h as [|x h IH]; simpl; intros m r; [discriminate|].
  destruct (heappop ltb h) as [[m' r']|] eqn:P.
  - specialize (IH _ _ eq_refl).
    destruct (ltb m' x); intros A; inversion A; subst; auto.
    rewrite IH. apply perm_swap.
  - apply heappop_None in P. subst h.
    intros A; inversion A; auto.
Qed.

Lemma heappop_min (h : list E) : forall m r,
  heappop ltb h = Some (m, r) -> forall y, In y h -> ltb y m = false.
Proof.
  assert (irrefl : forall a, ltb a a = false).
  { intros a. destruct (ltb a a) eqn:A; auto. now rewrite (ltb_asym _ _ A) in A. }
  induction h as [|x h IH]; simpl; intros m r; [discriminate|].
  destruct (heappop ltb h) as [[m' r']|] eqn:P.
  - specialize (IH _ _ eq_refl).
    destruct (ltb m' x) eqn:L; intros A; inversion A; subst; clear A;
      intros y [<-|I]; auto.
    eapply ltb_negtrans; [apply IH; auto|exact L].
  - apply heappop_None in P. subst h.
    intros A; inversion A; subst. intros y [<-|[]]; auto.
Qed.

Lemma heappop_In (h : list E) (m : E) (r : list E) :
  heappop ltb h = Some (m, r) ->
  forall y, In y h <-> y = m \/ In y r.
Proof.
  intros P y. apply heappop_Permutation in P. split; intros A.
  - apply (Permutation_in _ P) in A. destruct A; auto.
  - apply (Permutation_in _ (Permutation_sym P)). destruct A; subst; simpl; auto.
Qed.

Lemma heappop_length (h : list E) (m : E) (r : list E) :
  heappop ltb h = Some (m, r) -> List.length h = S (List.length r).
Proof. intros P. apply heappop_Permutation, Permutation_length in P. auto. Qed.
End HeapFacts.

(** ** Comparisons on rationals and weights *)

Lemma Qltb_true (x y : Q) : Qltb x y = true <-> x < y.
Proof.
  unfold Qltb. rewrite negb_true_iff. split.
  - intros A. apply Qnot_le_lt. intros B. apply Qle_bool_iff in B. congruence.
  - intros A. destruct (Qle_bool y x) eqn:B; auto.
    apply Qle_bool_iff in B. lra.
Qed.

Lemma Qltb_false (x y : Q) : Qltb x y = false <-> y <= x.
Proof.
  unfold Qltb. rewrite negb_false_iff. apply Qle_bool_iff.
Qed.

Lemma Qeq_bool_false (x y : Q) : Qeq_bool x y = false <-> ~ x == y.
Proof.
  split.
  - intros A B. apply Qeq_bool_iff in B. congruence.
  - intros A. destruct (Qeq_bool x y) eqn:B; auto.
    apply Qeq_bool_iff in B. tauto.
Qed.

Lemma Qle_bool_false (x y : Q) : Qle_bool x y = false <-> y < x.
Proof.
  rewrite <- Qltb_true. unfold Qltb. now rewrite negb_true_iff.
Qed.

(** Turn the boolean comparisons of the context into propositions. *)
Ltac bools :=
  repeat match goal with
         | H : Qltb _ _ = true |- _ => apply Qltb_true in H
         | H : Qltb _ _ = false |- _ => apply Qltb_false in H
         | H : Qeq_bool _ _ = true |- _ => apply Qeq_bool_iff in H
         | H : Qeq_bool _ _ = false |- _ => apply Qeq_bool_false in H
         | H : Qle_bool _ _ = true |- _ => apply Qle_bool_iff in H
         | H : Qle_bool _ _ = false |- _ => apply Qle_bool_false in H
         | H : Nat.ltb _ _ = true |- _ => apply Nat.ltb_lt in H
         | H : Nat.ltb _ _ = false |- _ => apply Nat.ltb_ge in H
         | H : Nat.eqb _ _ = true |- _ => apply Nat.eqb_eq in H
         | H : Nat.eqb _ _ = false |- _ => apply Nat.eqb_neq in H
         | |- Qltb _ _ = true => apply Qltb_true
         | |- Qltb _ _ = false => apply Qltb_false
         | |- Qeq_bool _ _ = true => apply Qeq_bool_iff
         | |- Qeq_bool _ _ = false => apply Qeq_bool_false
         | |- Nat.ltb _ _ = true => apply Nat.ltb_lt
         | |- Nat.ltb _ _ = false => apply Nat.ltb_ge
         | |- Nat.eqb _ _ = true => apply Nat.eqb_eq
         | |- Nat.eqb _ _ = false => apply Nat.eqb_neq
         end.

Module WeightFacts.
Definition wle (a b : weight) : Prop :=
  match a, b with
  | Fin x, Fin y => x <= y
  | _, Inf => True
  | Inf, Fin _ => False
  end.

Definition weq (a b : weight) : Prop :=
  match a, b with
  | Fin x, Fin y => x == y
  | Inf, Inf => True
  | _, _ => False
  end.

Lemma wle_refl a : wle a a.
Proof. destruct a; simpl; auto. lra. Qed.

Lemma wle_trans a b c : wle a b -> wle b c -> wle a c.
Proof. destruct a, b, c; simpl; auto; try tauto. lra. Qed.

Lemma weq_refl a : weq a a.
Proof. destruct a; simpl; auto. lra. Qed.

Lemma weq_sym a b : weq a b -> weq b a.
Proof. destruct a, b; simpl; auto. lra. Qed.

Lemma weq_trans a b c : weq a b -> weq b c -> weq a c.
Proof. destruct a, b, c; simpl; auto; try tauto. lra. Qed.

Lemma weq_wle a b : weq a b -> wle a b.
Proof. destruct a, b; simpl; auto. lra. Qed.

Lemma wle_antisym a b : wle a b -> wle b a -> weq a b.
Proof. destruct a, b; simpl; auto. lra. Qed.

Lemma wadd_mono a b c : wle a b -> wle (wadd a c) (wadd b c).
Proof. destruct a, b, c; simpl; auto; try tauto. lra. Qed.

Lemma weq_wadd a b c : weq a b -> weq (wadd a c) (wadd b c).
Proof. destruct a, b, c; simpl; auto; try tauto. lra. Qed.

Lemma wle_wadd a c : wle (Fin 0) c -> wle a (wadd a c).
Proof. destruct a, c; simpl; auto. lra. Qed.

Lemma wltb_false a b : wltb a b = false <-> wle b a.
Proof.
  destruct a, b; simpl; try tauto.
  - apply Qltb_false.
  - split; [discriminate|tauto].
Qed.

Lemma wltb_true a b : wltb a b = true -> wle a b /\ ~ weq a b.
Proof.
  destruct a, b; simpl; try discriminate; auto.
  intros A. bools. split; lra.
Qed.

Lemma weqb_true a b : weqb a b = true <-> weq a b.
Proof.
  destruct a, b; simpl; try tauto; try (split; [discriminate|tauto]).
  apply Qeq_bool_iff.
Qed.

Lemma entry_ltb_asym (a b : nx.entry) :
  nx.entry_ltb a b = true -> nx.entry_ltb b a = false.
Proof.
  destruct a as [[[x|] ca] na], b as [[[y|] cb] nb]; simpl;
    unfold Qltb;
    repeat match goal with
           | |- context [Qeq_bool ?p ?q] => destruct (Qeq_bool p q) eqn:?
           | |- context [Qle_bool ?p ?q] => destruct (Qle_bool p q) eqn:?
           end; simpl; intros; bools; try lia; try lra; try discriminate; auto.
Qed.

Lemma entry_ltb_negtrans (a b c : nx.entry) :
  nx.entry_ltb a b = false -> nx.entry_ltb b c = false ->
  nx.entry_ltb a c = false.
Proof.
  destruct a as [[[x|] ca] na], b as [[[y|] cb] nb], c as [[[z|] cc] nc];
    simpl; unfold Qltb;
    repeat match goal with
           | |- context [Qeq_bool ?p ?q] => destruct (Qeq_bool p q) eqn:?
           end; simpl; rewrite ?negb_false_iff; intros; bools;
      try lia; try lra; try discriminate; auto;
      apply Qle_bool_iff; lra.
Qed.

(** The popped entry carries a least distance. *)
Lemma entry_ltb_false_wle (y m : nx.entry) :
  nx.entry_ltb y m = false -> wle (fst (fst m)) (fst (fst y)).
Proof.
  destruct y as [[dy cy] ny], m as [[dm cm] nm]; simpl.
  destruct (weqb dy dm) eqn:E.
  - intros _. apply weqb_true in E. apply weq_wle, weq_sym, E.
  - apply wltb_false.
Qed.
End WeightFacts.


(** ** [nx.dijkstra_path] returns a lightest walk *)

Module DijkstraFacts.
Import nx GraphFacts WeightFacts.

(** [walk G s v p w]: [p] lists the nodes of a walk from [s] to [v] along
    edges of [G], and [w] is the sum of its weights, added left to right. *)
Inductive walk (G : Graph) (s : string)
  : string -> list string -> weight -> Prop :=
| walk_start : walk G s s [s] (Fin 0)
| walk_step (x y : string) (e : EdgeData) (p : list string) (w : weight) :
    walk G s x p w -> edge G x y e ->
    walk G s y (p ++ [y]) (wadd w (ed_weight e)).

Lemma edge_nonneg G u v e : wf G -> edge G u v e -> wle (Fin 0) (ed_weight e).
Proof.
  intros W E. destruct (ed_weight e) as [w|] eqn:F; simpl; auto.
  eapply wf_nonneg; eauto.
Qed.

Lemma walk_nonneg G s v p w : wf G -> walk G s v p w -> wle (Fin 0) w.
Proof.
  intros W; induction 1.
  - apply wle_refl.
  - eapply wle_trans; [exact IHwalk|]. apply wle_wadd.
    eapply edge_nonneg; eauto.
Qed.

Lemma walk_node G s v p w :
  wf G -> dict_mem s G = true -> walk G s v p w -> dict_mem v G = true.
Proof.
  intros W S; induction 1; auto. eapply wf_closed; eauto.
Qed.

Lemma walk_source G s v p w :
  walk G s v p w -> v = s \/ dict_mem s G = true.
Proof.
  induction 1 as [|x y e p w Wk IH Ed]; auto.
  destruct IH as [->|IH]; auto.
  destruct Ed as [nb [A _]]. right. unfold dict_mem. now rewrite A.
Qed.

(** Adjacency still to be scanned: the neighbours of the nodes without a
    final distance. *)
Fixpoint undone (G : Graph) (dist : dict string weight) : nat :=
  match G with
  | [] => O
  | (v, nb) :: G' =>
      ((if dict_mem v dist then O else List.length nb) + undone G' dist)%nat
  end.

Lemma undone_nil G : undone G [] = degree_sum G.
Proof. induction G as [|[v nb] G IH]; simpl; auto. Qed.

Lemma undone_set_notin G v d dist :
  ~ In v (keys G) -> undone G (dict_set v d dist) = undone G dist.
Proof.
  induction G as [|[k nb] G IH]; simpl; intros N; auto.
  rewrite IH by tauto. f_equal.
  unfold dict_mem. rewrite sget_set.
  destruct (String.eqb_spec v k); [subst; tauto|reflexivity].
Qed.

Lemma undone_set G v d nb dist :
  NoDup (keys G) -> dict_get v G = Some nb -> dict_mem v dist = false ->
  (undone G (dict_set v d dist) + List.length nb = undone G dist)%nat.
Proof.
  induction G as [|[k nbk] G IH]; simpl; intros ND E M; [discriminate|].
  inversion ND; subst.
  destruct (String.eqb_spec v k) as [->|N].
  - inversion E; subst. rewrite undone_set_notin by auto.
    rewrite M. unfold dict_mem. rewrite dict_get_set_eq. lia.
  - assert (K : dict_mem k (dict_set v d dist) = dict_mem k dist).
    { unfold dict_mem. rewrite sget_set.
      destruct (String.eqb_spec v k); [congruence|reflexivity]. }
    rewrite K. specialize (IH H2 E M). lia.
Qed.

Section Loop.
Variables (G : Graph) (s t : string).
Hypothesis W : wf G.

(** Tentative distances only go down. *)
Definition decr (st st' : state) : Prop :=
  forall y dy, dict_get y (seen st) = Some dy ->
               exists dy', dict_get y (seen st') = Some dy' /\ wle dy' dy.

Lemma decr_refl st : decr st st.
Proof. intros y dy E. exists dy. split; auto. apply wle_refl. Qed.

Lemma decr_trans a b c : decr a b -> decr b c -> decr a c.
Proof.
  intros A B y dy E. destruct (A _ _ E) as [d1 [E1 L1]].
  destruct (B _ _ E1) as [d2 [E2 L2]]. exists d2. split; auto.
  eapply wle_trans; eauto.
Qed.

Record core (st : state) : Prop := {
  i_paths : forall v d, dict_get v (seen st) = Some d ->
      exists p w, dict_get v (paths st) = Some p /\ walk G s v p w /\ weq w d;
  i_dist_seen : forall v d, dict_get v (dist st) = Some d ->
      exists d', dict_get v (seen st) = Some d' /\ weq d d';
  i_opt : forall v d, dict_get v (dist st) = Some d ->
      forall p w, walk G s v p w -> wle d w;
  i_fringe : forall d c v, In (d, c, v) (fringe st) ->
      exists d', dict_get v (seen st) = Some d' /\ wle d' d;
  i_pending : forall v d, dict_get v (seen st) = Some d ->
      dict_get v (dist st) = None ->
      exists c d', In (d', c, v) (fringe st) /\ weq d' d;
  i_nodes : forall v d, dict_get v (seen st) = Some d -> dict_mem v G = true
}.

(** The neighbours of [x] have been offered the distance through [x]. *)
Definition expanded (st : state) (x : string) : Prop :=
  forall dx y e, dict_get x (dist st) = Some dx -> edge G x y e ->
                 exists dy, dict_get y (seen st) = Some dy /\
                            wle dy (wadd dx (ed_weight e)).

Lemma expanded_decr st st' x :
  expanded st x -> dist st' = dist st -> decr st st' -> expanded st' x.
Proof.
  intros X D R dx y e E Ed. rewrite D in E.
  destruct (X _ _ _ E Ed) as [dy [A B]].
  destruct (R _ _ A) as [dy' [A' B']]. exists dy'. split; auto.
  eapply wle_trans; eauto.
Qed.

Lemma relax_step st v d u e :
  core st -> dict_get v (dist st) = Some d -> edge G v u e ->
  exists st',
    relax v d (Ok st) (u, e) = Ok st' /\ core st' /\ dist st' = dist st /\
    decr st st' /\
    (List.length (fringe st') <= S (List.length (fringe st)))%nat /\
    exists du, dict_get u (seen st') = Some du /\
               wle du (wadd d (ed_weight e)).
Proof.
  intros C Dv Ed.
  destruct (i_dist_seen _ C _ _ Dv) as [d' [Sv Q1]].
  destruct (i_paths _ C _ _ Sv) as [pv [wv [Pv [Wv Q2]]]].
  assert (Q3 : weq (wadd wv (ed_weight e)) (wadd d (ed_weight e))).
  { apply weq_wadd. eapply weq_trans; [exact Q2|]. now apply weq_sym. }
  pose proof (walk_step _ _ _ _ _ _ _ Wv Ed) as Wu.
  unfold relax, bind.
  destruct (dict_get u (dist st)) as [du|] eqn:Du.
  - assert (L : wle du (wadd d (ed_weight e))).
    { eapply wle_trans; [eapply (i_opt _ C); eauto|]. now apply weq_wle. }
    apply wltb_false in L. rewrite L.
    exists st. repeat split; auto using decr_refl; try apply C.
    destruct (i_dist_seen _ C _ _ Du) as [du' [Su Q4]].
    exists du'. split; auto. apply wltb_false in L.
    eapply wle_trans; [|exact L]. now apply weq_wle, weq_sym.
  - set (vu := wadd d (ed_weight e)) in *.
    assert (Better : forall (Old : forall su, dict_get u (seen st) = Some su ->
                                              wle vu su),
               exists st',
                 (pv0 <- dict_item v (paths st) ;;
                  Ok {| dist := dist st;
                        seen := dict_set u vu (seen st);
                        paths := dict_set u (pv0 ++ [u]) (paths st);
                        fringe := heappush (fringe st) (vu, c st, u);
                        c := S (c st) |}) = Ok st' /\
                 core st' /\ dist st' = dist st /\ decr st st' /\
                 (List.length (fringe st') <= S (List.length (fringe st)))%nat /\
                 exists du, dict_get u (seen st') = Some du /\ wle du vu).
    { intros Old. unfold dict_item, bind. rewrite Pv.
      eexists; split; [reflexivity|]. simpl.
      assert (R : decr st {| dist := dist st;
                             seen := dict_set u vu (seen st);
                             paths := dict_set u (pv ++ [u]) (paths st);
                             fringe := heappush (fringe st) (vu, c st, u);
                             c := S (c st) |}).
      { intros y dy E. simpl. rewrite sget_set.
        destruct (String.eqb_spec u y) as [->|N].
        - exists vu. split; auto.
        - exists dy. split; auto. apply wle_refl. }
      split; [|split; [reflexivity|split; [exact R|split]]].
      - split; simpl.
        + intros y dy. rewrite !sget_set.
          destruct (String.eqb_spec u y) as [->|N]; [|apply C].
          intros E; inversion E; subst. eauto.
        + intros y dy E. rewrite sget_set.
          destruct (String.eqb_spec u y) as [->|N]; [congruence|].
          eapply (i_dist_seen _ C); eauto.
        + apply C.
        + intros d0 c0 y I. unfold heappush in I. apply in_app_iff in I.
          destruct I as [I|[I|[]]].
          * destruct (i_fringe _ C _ _ _ I) as [d1 [E1 L1]].
            destruct (R _ _ E1) as [d2 [E2 L2]]. exists d2. split; auto.
            eapply wle_trans; eauto.
          * inversion I; subst d0 c0 y. exists vu. rewrite dict_get_set_eq.
            split; auto. apply wle_refl.
        + intros y dy. rewrite sget_set. unfold heappush.
          destruct (String.eqb_spec u y) as [->|N].
          * intros E _. inversion E; subst dy. exists (c st), vu.
            split; [apply in_app_iff; simpl; auto|apply weq_refl].
          * intros E F. destruct (i_pending _ C _ _ E F) as [c0 [d0 [I Q]]].
            exists c0, d0. split; auto. apply in_app_iff; auto.
        + intros y dy. rewrite sget_set.
          destruct (String.eqb_spec u y) as [->|N]; [|apply C].
          intros _. eapply wf_closed; eauto.
      - unfold heappush. rewrite length_app. simpl. lia.
      - exists vu. rewrite dict_get_set_eq. split; auto. apply wle_refl. }
    destruct (dict_get u (seen st)) as [su|] eqn:Su.
    + destruct (wltb vu su) eqn:L.
      * apply Better. intros su' E. inversion E; subst.
        now apply wltb_true in L.
      * exists st. repeat split; auto using decr_refl; try apply C.
        exists su. split; auto. now apply wltb_false.
    + apply Better. discriminate.
Qed.

Lemma relax_fold v d (l : list (string * EdgeData)) : forall st,
  core st -> dict_get v (dist st) = Some d ->
  (forall u e, In (u, e) l -> edge G v u e) ->
  exists st',
    fold_left (relax v d) l (Ok st) = Ok st' /\ core st' /\
    dist st' = dist st /\ decr st st' /\
    (List.length (fringe st') <= List.length l + List.length (fringe st))%nat /\
    forall u e, In (u, e) l ->
                exists du, dict_get u (seen st') = Some du /\
                           wle du (wadd d (ed_weight e)).
Proof.
  induction l as [|[u e] l IH]; cbn [fold_left]; intros st C Dv Ed.
  - exists st. split; [reflexivity|]. split; [exact C|].
    split; [reflexivity|]. split; [apply decr_refl|].
    split; [simpl; lia|]. intros u e [].
  - destruct (relax_step st v d u e C Dv (Ed _ _ (or_introl eq_refl)))
      as [st1 [R1 [C1 [D1 [X1 [L1 [du [S1 U1]]]]]]]].
    rewrite R1.
    destruct (IH st1 C1) as [st2 [R2 [C2 [D2 [X2 [L2 P2]]]]]].
    { now rewrite D1. }
    { intros; apply Ed; simpl; auto. }
    exists st2. split; [exact R2|]. split; [exact C2|].
    split; [congruence|]. split; [eapply decr_trans; eauto|].
    split; [simpl; lia|].
    intros u0 e0 [I|I]; [|eauto].
    inversion I; subst.
    destruct (X2 _ _ S1) as [du' [A B]]. exists du'. split; auto.
    eapply wle_trans; eauto.
Qed.

(** The state at the head of the [while] loop. *)
Definition src_ok (st : state) : Prop :=
  dict_get s (dist st) <> None \/
  (dist st = [] /\ seen st = [(s, Fin 0)] /\ fringe st = [(Fin 0, O, s)]).

Definition inv (st : state) : Prop :=
  core st /\ (forall x, expanded st x) /\ src_ok st.

Definition potential (st : state) : nat :=
  (List.length (fringe st) + undone G (dist st))%nat.

(** The state in which the loop ends: at the target, or with nothing left. *)
Definition final (st : state) : Prop :=
  core st /\
  (dict_get t (dist st) <> None \/
   (fringe st = [] /\ (forall x, expanded st x) /\
    dict_get s (dist st) <> None)).

(** A walk that ends outside the settled nodes passes the frontier. *)
Lemma frontier st v p w :
  core st -> (forall x, expanded st x) -> dict_get s (dist st) <> None ->
  walk G s v p w -> dict_get v (dist st) = None ->
  exists y dy, dict_get y (seen st) = Some dy /\
               dict_get y (dist st) = None /\ wle dy w.
Proof.
  intros C X S Wk. induction Wk as [|x y e p w Wk IH Ed]; intros N.
  - congruence.
  - destruct (dict_get x (dist st)) as [dx|] eqn:Dx.
    + destruct (X x _ _ _ Dx Ed) as [dy [Sy Ly]].
      exists y, dy. split; [auto|split; [auto|]].
      eapply wle_trans; [exact Ly|]. apply wadd_mono.
      eapply (i_opt _ C); eauto.
    + destruct (IH eq_refl) as [y' [dy' [A [B L]]]].
      exists y', dy'. split; [auto|split; [auto|]].
      eapply wle_trans; [exact L|]. apply wle_wadd.
      eapply edge_nonneg; eauto.
Qed.

Lemma loop_ok (fuel : nat) : forall st,
  inv st -> (potential st < fuel)%nat ->
  exists st', loop fuel G t st = Ok st' /\ final st'.
Proof.
  induction fuel as [|fuel IH]; intros st [C [X S]] P; [lia|].
  cbn [loop].
  destruct (heappop entry_ltb (fringe st)) as [[[[d cn] v] rest]|] eqn:Pop.
  2:{ apply heappop_None in Pop. exists st. split; auto.
      split; auto. right. split; auto. split; auto.
      destruct S as [S|[_ [_ S]]]; auto. congruence. }
  pose proof (heappop_In _ _ _ _ Pop) as PIn.
  pose proof (heappop_min _ entry_ltb_asym entry_ltb_negtrans _ _ _ Pop) as PMin.
  pose proof (heappop_length _ _ _ _ Pop) as PLen.
  assert (Ipop : In (d, cn, v) (fringe st)) by (apply PIn; auto).
  destruct (dict_mem v (dist st)) eqn:Mv.
  - (* a stale entry *)
    apply IH.
    + unfold dict_mem in Mv.
      destruct (dict_get v (dist st)) as [dv|] eqn:Dv; [|discriminate].
      split; [|split].
      * split; simpl; try apply C.
        -- intros d0 c0 y I. eapply (i_fringe _ C). apply PIn. eauto.
        -- intros y dy Sy Ny.
           destruct (i_pending _ C _ _ Sy Ny) as [c0 [d0 [I Q]]].
           exists c0, d0. split; auto. apply PIn in I.
           destruct I as [I|I]; auto. inversion I; subst. congruence.
      * exact X.
      * left. destruct S as [S|[S _]]; auto.
        rewrite S in Dv. discriminate.
    + unfold potential in *. simpl. lia.
  - (* [v] gets its final distance *)
    unfold dict_mem in Mv.
    destruct (dict_get v (dist st)) as [|] eqn:Dv; [discriminate|]. clear Mv.
    destruct (i_fringe _ C _ _ _ Ipop) as [d' [Sv Lv]].
    assert (Qv : weq d d').
    { apply wle_antisym; auto.
      destruct (i_pending _ C _ _ Sv Dv) as [c0 [d0 [I Q]]].
      apply PMin, entry_ltb_false_wle in I. simpl in I.
      eapply wle_trans; [exact I|]. now apply weq_wle. }
    assert (Opt : forall p w, walk G s v p w -> wle d w).
    { intros p w Wk. destruct S as [S|[S1 [S2 S3]]].
      - destruct (frontier st v p w C X S Wk Dv) as [y [dy [Sy [Ny Ly]]]].
        destruct (i_pending _ C _ _ Sy Ny) as [c0 [d0 [I Q]]].
        apply PMin, entry_ltb_false_wle in I. simpl in I.
        eapply wle_trans; [exact I|].
        eapply wle_trans; [apply weq_wle; exact Q|exact Ly].
      - rewrite S3 in Ipop. destruct Ipop as [I|[]]. inversion I; subst.
        eapply walk_nonneg; eauto. }
    set (st1 := {| dist := dict_set v d (dist st); seen := seen st;
                   paths := paths st; fringe := rest; c := c st |}).
    assert (C1 : core st1).
    { split; simpl; try apply C.
      - intros y dy. rewrite sget_set.
        destruct (String.eqb_spec v y) as [->|N]; [|apply C].
        intros E; inversion E; subst. eauto.
      - intros y dy. rewrite sget_set.
        destruct (String.eqb_spec v y) as [->|N]; [|apply C].
        intros E; inversion E; subst. auto.
      - intros d0 c0 y I. eapply (i_fringe _ C). apply PIn. eauto.
      - intros y dy Sy. rewrite sget_set.
        destruct (String.eqb_spec v y) as [->|N]; [discriminate|].
        intros Ny. destruct (i_pending _ C _ _ Sy Ny) as [c0 [d0 [I Q]]].
        exists c0, d0. split; auto. apply PIn in I.
        destruct I as [I|I]; auto. inversion I; subst. congruence. }
    destruct (String.eqb_spec v t) as [->|Nt].
    { exists st1. split; auto. split; auto. left. simpl.
      rewrite dict_get_set_eq. discriminate. }
    assert (Gv : dict_mem v G = true) by (eapply (i_nodes _ C); eauto).
    unfold dict_mem in Gv. unfold dict_item, bind.
    destruct (dict_get v G) as [succ|] eqn:Ev; [clear Gv|discriminate].
    assert (Eds : forall u e, In (u, e) succ -> edge G v u e).
    { intros u e I. exists succ. split; auto.
      apply In_dict_get_NoDup; auto. eapply wf_inner; eauto. }
    destruct (relax_fold v d succ st1 C1) as [st2 [R2 [C2 [D2 [X2 [L2 P2]]]]]];
      auto.
    { simpl. apply dict_get_set_eq. }
    rewrite R2. apply IH.
    + split; [exact C2|split].
      * intros x dx y e Dx Ed. rewrite D2 in Dx. simpl in Dx.
        rewrite sget_set in Dx.
        destruct (String.eqb_spec v x) as [->|N].
        -- inversion Dx; subst. apply P2.
           destruct Ed as [nb [A B]]. rewrite Ev in A. inversion A; subst.
           now apply dict_get_In.
        -- destruct (X x _ _ _ Dx Ed) as [dy [A B]].
           destruct (X2 _ _ A) as [dy' [A' B']]. exists dy'. split; auto.
           eapply wle_trans; eauto.
      * left. rewrite D2. simpl. rewrite sget_set.
        destruct (String.eqb_spec v s) as [->|N]; [discriminate|].
        destruct S as [S|[_ [_ S]]]; auto.
        rewrite S in Ipop. destruct Ipop as [I|[]]. congruence.
    + unfold potential in *. rewrite D2. simpl.
      pose proof (undone_set G v d succ (dist st) (wf_keys _ W) Ev) as U.
      unfold dict_mem in U. rewrite Dv in U. specialize (U eq_refl).
      simpl in L2. lia.
Qed.

(** Once nothing is left, every node a walk reaches is settled. *)
Lemma settled st v p w :
  core st -> fringe st = [] -> (forall x, expanded st x) ->
  dict_get s (dist st) <> None ->
  walk G s v p w -> dict_get v (dist st) <> None.
Proof.
  intros C F X S Wk. induction Wk as [|x y e p w Wk IH Ed]; auto.
  destruct (dict_get x (dist st)) as [dx|] eqn:Dx; [|congruence].
  destruct (X x _ _ _ Dx Ed) as [dy [Sy _]].
  intros Ny. destruct (i_pending _ C _ _ Sy Ny) as [c0 [d0 [I _]]].
  rewrite F in I. destruct I.
Qed.

Lemma init_inv_state :
  dict_mem s G = true ->
  inv {| dist := []; seen := [(s, Fin 0)]; paths := [(s, [s])];
         fringe := [(Fin 0, O, s)]; c := 1%nat |}.
Proof.
  intros S. split; [|split].
  - split; simpl.
    + intros v d. destruct (String.eqb_spec v s) as [->|N]; [|discriminate].
      intros E; inversion E; subst. exists [s], (Fin 0).
      split; auto. split; [constructor|apply weq_refl].
    + discriminate.
    + discriminate.
    + intros d c0 v [I|[]]. inversion I; subst. exists (Fin 0).
      rewrite String.eqb_refl. split; auto. apply wle_refl.
    + intros v d. destruct (String.eqb_spec v s) as [->|N]; [|discriminate].
      intros E _; inversion E; subst. exists O, (Fin 0).
      split; auto. apply weq_refl.
    + intros v d. destruct (String.eqb_spec v s) as [->|N]; [|discriminate].
      auto.
  - intros x dx y e D. discriminate.
  - right. auto.
Qed.

(** What [nx.dijkstra_path] returns for two distinct nodes. *)
Theorem dijkstra_path_spec :
  s <> t ->
  match dijkstra_path G s t with
  | Ok p =>
      exists w, walk G s t p w /\ forall q w', walk G s t q w' -> wle w w'
  | Raise (NodeNotFound _) =>
      dict_mem s G = false /\ forall q w, ~ walk G s t q w
  | Raise (NetworkXNoPath _) =>
      dict_mem s G = true /\ forall q w, ~ walk G s t q w
  | Raise _ => False
  end.
Proof.
  intros ST. unfold dijkstra_path, has_node.
  destruct (dict_mem s G) eqn:S; simpl.
  2:{ split; auto. intros q w Wk.
      destruct (walk_source _ _ _ _ _ Wk); congruence. }
  destruct (String.eqb_spec t s) as [E|_]; [congruence|].
  unfold dijkstra_multisource.
  destruct (loop_ok (2 + degree_sum G) _ (init_inv_state S))
    as [st [L [C F]]].
  { unfold potential. simpl. rewrite undone_nil. lia. }
  rewrite L. unfold bind.
  destruct (dict_get t (dist st)) as [d|] eqn:Dt.
  - destruct (i_dist_seen _ C _ _ Dt) as [d' [St Q1]].
    destruct (i_paths _ C _ _ St) as [p [w [Pt [Wk Q2]]]].
    rewrite Pt. exists w. split; auto.
    intros q w' Wq. eapply wle_trans; [|eapply (i_opt _ C); eauto].
    apply weq_wle. eapply weq_trans; [exact Q2|]. now apply weq_sym.
  - split; auto. intros q w Wk.
    destruct F as [F|[F1 [F2 F3]]]; [congruence|].
    eapply settled; eauto.
Qed.
End Loop.
End DijkstraFacts.


(** ** Paths of the topology and their transfer time *)

Module TopologyFacts.
Import nx GraphFacts WeightFacts DijkstraFacts.











(** [get_path] on two distinct nodes of a built topology. *)
Lemma get_path_spec (nodes : dict string ComputeNode.t)
      (links : list NetworkLink.t) (s t : string) :
  s <> t ->
  let topo := DAGTopology.init nodes links in
  match DAGTopology.get_path topo s t with
  | Ok p =>
      exists w, walk (DAGTopology.graph topo) s t p w /\
                forall q w', walk (DAGTopology.graph topo) s t q w' -> wle w w'
  | Raise (ValueError _) =>
      forall q w, ~ walk (DAGTopology.graph topo) s t q w
  | Raise _ => False
  end.
Proof.
  intros ST topo. destruct (init_inv nodes links) as [W _]. fold topo in W.
  unfold DAGTopology.get_path.
  destruct (String.eqb_spec s t) as [|_]; [congruence|].
  pose proof (dijkstra_path_spec (DAGTopology.graph topo) s t W ST) as D.
  destruct (dijkstra_path (DAGTopology.graph topo) s t) as [p|[]];
    auto; tauto.
Qed.


(** The nodes of the graph: the compute nodes and the end points of the
    links that are not self-loops. *)
Lemma has_node_fold_add_node {V} (nodes : dict string V) : forall G n,
  dict_mem n (fold_left (fun G kv => add_node (fst kv) G) nodes G) = true
  <-> In n (keys nodes) \/ dict_mem n G = true.
Proof.
  induction nodes as [|[k v] nodes IH]; cbn [fold_left]; intros G n.
  - simpl. tauto.
  - rewrite IH, has_node_add_node. simpl. intuition.
Qed.

Lemma has_node_fold_add_link (links : list NetworkLink.t) : forall G m n,
  dict_mem n (fst (fold_left DAGTopology.add_link links (G, m))) = true
  <-> dict_mem n G = true \/
      exists l, In l links /\ NetworkLink.source l <> NetworkLink.target l /\
                (n = NetworkLink.source l \/ n = NetworkLink.target l).
Proof.
  induction links as [|l links IH]; cbn [fold_left]; intros G m n.
  - simpl. split; auto. intros [A|[l [[] _]]]; auto.
  - destruct (DAGTopology.add_link (G, m) l) as [G' m'] eqn:E.
    rewrite IH. unfold DAGTopology.add_link in E.
    destruct (String.eqb_spec (NetworkLink.source l) (NetworkLink.target l))
      as [R|N]; inversion E; subst; clear E.
    + split.
      * intros [A|[l' [I B]]]; auto. right. exists l'. simpl; auto.
      * intros [A|[l' [[L|I] [B C]]]]; auto.
        -- subst l'. congruence.
        -- right. exists l'. auto.
    + rewrite has_node_add_edge. split.
      * intros [[A|[A|A]]|[l' [I B]]]; auto.
        -- right. exists l. simpl; auto.
        -- right. exists l. simpl; auto.
        -- right. exists l'. simpl; auto.
      * intros [A|[l' [[L|I] [B C]]]]; auto.
        -- subst l'. left. destruct C; auto.
        -- right. exists l'. auto.
Qed.

Lemma has_node_init (nodes : dict string ComputeNode.t)
      (links : list NetworkLink.t) (n : string) :
  has_node (DAGTopology.graph (DAGTopology.init nodes links)) n = true
  <-> In n (keys nodes) \/
      exists l, In l links /\ NetworkLink.source l <> NetworkLink.target l /\
                (n = NetworkLink.source l \/ n = NetworkLink.target l).
Proof.
  unfold has_node. simpl. unfold DAGTopology._build_graph.
  rewrite has_node_fold_add_link, has_node_fold_add_node.
  unfold empty, dict_mem. simpl. intuition discriminate.
Qed.

Lemma walk_target G s v p w :
  wf G -> walk G s v p w -> v = s \/ dict_mem v G = true.
Proof.
  intros W. induction 1 as [|x y e p w Wk IH Ed]; auto.
  right. eapply wf_closed; eauto.
Qed.
End TopologyFacts.




(** [get_path] does not fail on end points that are not compute nodes:
    an unknown node is its own trivial path, and the end points of a link
    are joined by it whether or not they are declared as nodes. *)
Lemma C8_counterexample :
  dict_get "Z" (DAGTopology.nodes (DAGTopology.init [] [])) = None /\
  DAGTopology.get_path (DAGTopology.init [] []) "Z" "Z" = Ok ["Z"] /\
  dict_get "N0" (DAGTopology.nodes (DAGTopology.init [] [Scenario.link 8])) = None /\
  dict_get "N1" (DAGTopology.nodes (DAGTopology.init [] [Scenario.link 8])) = None /\
  DAGTopology.get_path (DAGTopology.init [] [Scenario.link 8]) "N0" "N1"
  = Ok ["N0"; "N1"].
Proof. repeat split; reflexivity. Qed.

(** C8 (amended). [get_path s s] is the one-node path [[s]], for any [s].
    For [s <> t], [get_path s t] is a walk from [s] to [t] in the graph whose
    weight, the sum of the inverse bandwidths of its edges, is at most that
    of every other walk from [s] to [t]; and it raises [ValueError] exactly
    when no walk joins them, in particular when [s] or [t] is not a node of
    the graph.  The nodes of the graph are the compute nodes together with
    the end points of the links that are not self-loops. *)
Theorem C8_get_path :
  forall (nodes : dict string ComputeNode.t) (links : list NetworkLink.t)
         (s t : string),
    let topo := DAGTopology.init nodes links in
    let G := DAGTopology.graph topo in
    DAGTopology.get_path topo s s = Ok [s] /\
    (s <> t ->
     match DAGTopology.get_path topo s t with
     | Ok p =>
         exists w, DijkstraFacts.walk G s t p w /\
                   forall q w', DijkstraFacts.walk G s t q w' ->
                                WeightFacts.wle w w'
     | Raise (ValueError _) => forall q w, ~ DijkstraFacts.walk G s t q w
     | Raise _ => False
     end) /\
    (s <> t ->
     nx.has_node G s = false \/ nx.has_node G t = false \/
     (forall q w, ~ DijkstraFacts.walk G s t q w) ->
     exists msg, DAGTopology.get_path topo s t = Raise (ValueError msg)) /\
    (forall u v e, GraphFacts.edge G u v e ->
                   nx.ed_weight e = GraphFacts.weight_of (nx.ed_link e) /\
                   DAGTopology.get_link topo u v = Some (nx.ed_link e)) /\
    (forall n, nx.has_node G n = true
               <-> In n (keys nodes) \/
                   exists l, In l links /\
                             NetworkLink.source l <> NetworkLink.target l /\
                             (n = NetworkLink.source l \/ n = NetworkLink.target l)).
Proof.
  intros nodes links s t topo G.
  destruct (GraphFacts.init_inv nodes links) as [W [M _]]. fold topo in W, M.
  fold G in W, M.
  pose proof (TopologyFacts.get_path_spec nodes links s t) as Sp.
  cbv zeta in Sp. fold topo in Sp. fold G in Sp.
  split; [|split; [|split; [|split]]].
  - unfold DAGTopology.get_path. now rewrite String.eqb_refl.
  - exact Sp.
  - intros ST A. specialize (Sp ST).
    destruct (DAGTopology.get_path topo s t) as [p|[]]; try tauto; eauto.
    exfalso. destruct Sp as [w [Wk _]].
    destruct A as [A|[A|A]].
    + destruct (DijkstraFacts.walk_source _ _ _ _ _ Wk) as [B|B];
        unfold nx.has_node in A; congruence.
    + destruct (TopologyFacts.walk_target _ _ _ _ _ W Wk) as [B|B];
        unfold nx.has_node in A; congruence.
    + exact (A _ _ Wk).
  - intros u v e Ed. destruct (M u v e Ed). auto.
  - apply TopologyFacts.has_node_init.
Qed.


(** ** The replay: counting what is scheduled *)

Module QueueFacts.
Import simpy.

Definition time_of (en : entry) : Q := fst (fst (fst en)).
Definition prio_of (en : entry) : nat := snd (fst (fst en)).
Definition event_of (en : entry) : event := snd en.

Lemma queue_ltb_asym (a b : entry) :
  entry_ltb a b = true -> entry_ltb b a = false.
Proof.
  destruct a as [[[ta pa] ea] eva], b as [[[tb pb] eb] evb]; simpl.
  unfold Qltb.
  destruct (Qeq_bool ta tb) eqn:E1, (Qeq_bool tb ta) eqn:E2;
    destruct (Nat.eqb pa pb) eqn:E3, (Nat.eqb pb pa) eqn:E4;
    rewrite ?negb_true_iff, ?negb_false_iff; intros; bools;
      try lia; try lra; try (apply Qle_bool_iff; lra).
Qed.

Lemma queue_ltb_negtrans (a b c : entry) :
  entry_ltb a b = false -> entry_ltb b c = false -> entry_ltb a c = false.
Proof.
  destruct a as [[[ta pa] ea] eva], b as [[[tb pb] eb] evb],
           c as [[[tc pc] ec] evc]; simpl.
  unfold Qltb.
  destruct (Qeq_bool ta tb) eqn:E1, (Qeq_bool tb tc) eqn:E2,
           (Qeq_bool ta tc) eqn:E3;
    destruct (Nat.eqb pa pb) eqn:E4, (Nat.eqb pb pc) eqn:E5,
             (Nat.eqb pa pc) eqn:E6;
    rewrite ?negb_true_iff, ?negb_false_iff; intros; bools;
      try lia; try lra; try (apply Qle_bool_iff; lra).
Qed.

(** The popped entry is the earliest, and among the earliest the most urgent. *)
Lemma queue_ltb_false_time (y m : entry) :
  entry_ltb y m = false -> time_of m <= time_of y.
Proof.
  destruct y as [[[ty py] ey] evy], m as [[[tm pm] em] evm]; simpl.
  unfold time_of; simpl.
  destruct (Qeq_bool ty tm) eqn:E; intros; bools; lra.
Qed.

Lemma queue_ltb_false_prio (y m : entry) :
  entry_ltb y m = false -> time_of y == time_of m ->
  (prio_of m <= prio_of y)%nat.
Proof.
  destruct y as [[[ty py] ey] evy], m as [[[tm pm] em] evm]; simpl.
  unfold time_of, prio_of; simpl. intros A B.
  apply Qeq_bool_iff in B. rewrite B in A.
  destruct (Nat.eqb py pm) eqn:E; bools; lia.
Qed.

(** The events that resume the process [p], and those that complete [k]. *)
Definition resumes (p : string) (ev : event) : bool :=
  match ev with
  | Initialize p' | AllOf p' | Timeout p' => String.eqb p p'
  | _ => false
  end.

Definition completes (k : string) (ev : event) : bool :=
  match ev with
  | Completion k' => String.eqb k k'
  | _ => false
  end.

(** The process or task an event is about. *)
Definition subject (ev : event) : string :=
  match ev with
  | Initialize p | AllOf p | Timeout p | Process p _ | Completion p => p
  end.

Definition count (f : event -> bool) (q : list entry) : nat :=
  List.length (filter (fun en => f (event_of en)) q).

Lemma count_app f q1 q2 : count f (q1 ++ q2) = (count f q1 + count f q2)%nat.
Proof. unfold count. now rewrite filter_app, length_app. Qed.

Lemma count_push f q en :
  count f (heappush q en) = (count f q + if f (event_of en) then 1 else 0)%nat.
Proof.
  unfold heappush. rewrite count_app. unfold count at 2. simpl.
  destruct (f (event_of en)); reflexivity.
Qed.

Lemma count_Permutation f q1 q2 :
  Permutation q1 q2 -> count f q1 = count f q2.
Proof.
  intros P. unfold count. induction P; simpl; auto.
  - destruct (f (event_of x)); simpl; auto.
  - destruct (f (event_of x)), (f (event_of y)); simpl; auto.
  - congruence.
Qed.

Lemma count_pop f q en rest :
  heappop entry_ltb q = Some (en, rest) ->
  count f q = ((if f (event_of en) then 1 else 0) + count f rest)%nat.
Proof.
  intros P. apply heappop_Permutation in P.
  rewrite (count_Permutation f _ _ P). unfold count. simpl.
  destruct (f (event_of en)); reflexivity.
Qed.

Lemma count_pos f q :
  (0 < count f q)%nat -> exists en, In en q /\ f (event_of en) = true.
Proof.
  unfold count. induction q as [|en q IH]; simpl; [lia|].
  destruct (f (event_of en)) eqn:E; simpl; intros A.
  - exists en. auto.
  - destruct (IH A) as [en' [I F]]. exists en'. auto.
Qed.

Lemma count_zero f q en : count f q = O -> In en q -> f (event_of en) = false.
Proof.
  unfold count. induction q as [|x q IH]; simpl; [tauto|].
  destruct (f (event_of x)) eqn:E; simpl; [discriminate|].
  intros A [<-|I]; auto.
Qed.

(** Occurrences of [p] among registered callbacks. *)
Definition occ (p : string) (l : list string) : nat :=
  List.length (filter (String.eqb p) l).

Lemma occ_app p l1 l2 : occ p (l1 ++ l2) = (occ p l1 + occ p l2)%nat.
Proof. unfold occ. now rewrite filter_app, length_app. Qed.

Lemma occ_In p l : In p l -> (0 < occ p l)%nat.
Proof.
  unfold occ. induction l as [|x l IH]; simpl; [tauto|].
  destruct (String.eqb_spec p x) as [->|N]; simpl; [lia|].
  intros [A|A]; [congruence|auto].
Qed.

Definition contrib (p : string) (ev : Event) : nat :=
  match callbacks ev with
  | Some cbs => occ p cbs
  | None => O
  end.

(** Callbacks of [p] still registered on unprocessed events. *)
Fixpoint pend (p : string) (es : dict string Event) : nat :=
  match es with
  | [] => O
  | (_, ev) :: r => (contrib p ev + pend p r)%nat
  end.

Lemma pend_set_notin p q ev es :
  ~ In q (keys es) -> pend p (dict_set q ev es) = (pend p es + contrib p ev)%nat.
Proof.
  induction es as [|[k e] es IH]; simpl; intros N; [lia|].
  destruct (String.eqb_spec q k) as [->|M]; [tauto|].
  simpl. rewrite IH by tauto. lia.
Qed.

Lemma pend_set p q ev ev' es :
  NoDup (keys es) -> dict_get q es = Some ev ->
  (pend p (dict_set q ev' es) + contrib p ev = pend p es + contrib p ev')%nat.
Proof.
  induction es as [|[k e] es IH]; simpl; intros ND E; [discriminate|].
  inversion ND; subst.
  destruct (String.eqb_spec q k) as [->|M]; simpl.
  - inversion E; subst. lia.
  - specialize (IH H2 E). lia.
Qed.

Lemma pend_ge p q ev es :
  dict_get q es = Some ev -> (contrib p ev <= pend p es)%nat.
Proof.
  induction es as [|[k e] es IH]; simpl; intros E; [discriminate|].
  destruct (String.eqb_spec q k) as [->|M].
  - inversion E; subst. lia.
  - specialize (IH E). lia.
Qed.
End QueueFacts.


(** ** The replay: what holds between two events *)

Module ReplayFacts.
Import DAGScheduler QueueFacts GraphFacts.

Section Invariant.
Variable topology : DAGTopology.t.
Variable task_definitions : dict string TaskDefinition.t.
Variable base_compute_speed : Q.

(** The schedule handed to the scheduler: a dictionary keyed by task id,
    whose tasks have not run yet. *)
Variable tasks0 : dict string ScheduledTask.t.
Hypothesis tasks0_keys : NoDup (keys tasks0).
Hypothesis tasks0_ids :
  forall k t, In (k, t) tasks0 -> ScheduledTask.task_id t = k.
Hypothesis tasks0_fresh :
  forall k t, In (k, t) tasks0 -> ScheduledTask.actual_end t = None.

Definition T (st : state) (k : string) : option ScheduledTask.t :=
  dict_get k (scheduled_tasks st).
Definition Ev (st : state) (q : string) : option simpy.Event :=
  dict_get q (completion_events st).
Definition Cd (st : state) (p : string) : option simpy.Condition :=
  dict_get p (conditions st).
Definition Pc (st : state) (p : string) : option pc :=
  dict_get p (procs st).
Definition Qu (st : state) : list simpy.entry := simpy._queue (env st).

(** The resolved predecessors of a scheduled task. *)
Definition PREDS (k : string) : list string :=
  _get_predecessors task_definitions tasks0 k.

(** The state before anything is scheduled; only its tasks matter. *)
Definition st0 : state :=
  {| env := simpy.new_environment; scheduled_tasks := tasks0;
     completion_events := []; conditions := []; procs := []; metrics := [] |}.

(** The uplink time of [p], from the inputs alone. *)
Definition uplink0 (p : string) : result Q :=
  uplink_of topology task_definitions p p (PREDS p) st0.

(** Every resolved predecessor of [p] ended by [a], and [u] before [a]. *)
Definition ended_before (st : state) (p : string) (a u : Q) : Prop :=
  forall q, In q (PREDS p) ->
            exists tq eq, T st q = Some tq /\
                          ScheduledTask.actual_end tq = Some eq /\
                          eq <= a /\ eq + u <= a.

Definition uplink_ok (st : state) (p : string) : Prop :=
  exists t u, T st p = Some t /\ uplink0 p = Ok u /\
              ScheduledTask.uplink_time t = u.

Definition resume_times (st : state) (p : string) (P : Q -> Prop) : Prop :=
  forall en, In en (Qu st) -> resumes p (event_of en) = true -> P (time_of en).

Definition unfinished (st : state) (p : string) : Prop :=
  exists t, T st p = Some t /\ ScheduledTask.actual_end t = None.

(** A task without predecessors that has got past its uplink phase was
    given the start time 0 and the uplink time 0. *)
Definition root_started (st : state) (p : string) : Prop :=
  PREDS p = [] ->
  forall td, dict_get (base_task_id p) task_definitions = Some td ->
  exists t a, T st p = Some t /\
              ScheduledTask.actual_start t = Some a /\ a == 0 /\
              ScheduledTask.uplink_time t = 0.

(** What holds of a process suspended at [at_pc]. *)
Definition pcinv (st : state) (p : string) (at_pc : pc) : Prop :=
  match at_pc with
  | Start =>
      count (resumes p) (Qu st) = 1%nat /\ Cd st p = None /\
      unfinished st p /\
      (forall en, In en (Qu st) -> resumes p (event_of en) = true ->
                  event_of en = simpy.Initialize p)
  | WaitPreds tid td preds =>
      tid = p /\ dict_get (base_task_id p) task_definitions = Some td /\
      preds = PREDS p /\
      (exists c, Cd st p = Some c /\
                 count (resumes p) (Qu st)
                 = if simpy.cond_triggered c then 1%nat else O) /\
      (forall q ev cbs, In q preds -> Ev st q = Some ev ->
                        simpy.callbacks ev = Some cbs -> In p cbs) /\
      unfinished st p /\ preds <> []
  | Uplink tid td =>
      tid = p /\ dict_get (base_task_id p) task_definitions = Some td /\
      count (resumes p) (Qu st) = 1%nat /\
      (exists t a0, T st p = Some t /\
                    ScheduledTask.actual_start t = Some a0 /\
                    ScheduledTask.actual_end t = None /\
                    resume_times st p
                      (fun x => x == a0 + ScheduledTask.uplink_time t) /\
                    0 < ScheduledTask.uplink_time t /\
                    ended_before st p a0 0) /\
      uplink_ok st p
  | Compute tid =>
      tid = p /\
      count (resumes p) (Qu st) = 1%nat /\
      (exists t a, T st p = Some t /\
                   ScheduledTask.actual_start t = Some a /\
                   ScheduledTask.actual_end t = None /\
                   resume_times st p
                     (fun x => x == a + ScheduledTask.compute_time t) /\
                   ended_before st p a (ScheduledTask.uplink_time t)) /\
      uplink_ok st p /\ root_started st p
  | Exhausted =>
      count (resumes p) (Qu st) = O /\
      (forall t e, T st p = Some t -> ScheduledTask.actual_end t = Some e ->
                   exists a, ScheduledTask.actual_start t = Some a /\
                             e == a + ScheduledTask.compute_time t /\
                             ended_before st p a (ScheduledTask.uplink_time t) /\
                             uplink_ok st p) /\
      root_started st p
  end.

Definition waiting (st : state) (p : string) : Prop :=
  exists tid td preds, Pc st p = Some (WaitPreds tid td preds).

(** The counter of the condition of [p] against the callbacks of [p] that
    are still to run: [rem] are those of the event being processed. *)
Definition cond_inv (hole : option string) (rem : list string) (st : state)
           (p : string) : Prop :=
  match Cd st p with
  | None => (pend p (completion_events st) + occ p rem = 0)%nat
  | Some c =>
      if simpy.cond_triggered c
      then (pend p (completion_events st) + occ p rem = 0)%nat
      else (waiting st p \/ hole = Some p) /\
           (simpy._count c + pend p (completion_events st) + occ p rem
            <= simpy.n_events c)%nat
  end.

Record Inv (hole : option string) (rem : list string) (st : state) : Prop := {
  s_keys : keys (scheduled_tasks st) = keys tasks0;
  s_static : forall k t, T st k = Some t ->
      ScheduledTask.task_id t = k /\
      exists t0, dict_get k tasks0 = Some t0 /\
                 ScheduledTask.node_id t = ScheduledTask.node_id t0;
  s_events : keys (completion_events st) = keys tasks0;
  s_procs : keys (procs st) = keys tasks0;
  s_queue : forall en, In en (Qu st) ->
      In (subject (event_of en)) (keys tasks0);
  t_now : 0 <= now st;
  t_queue : forall en, In en (Qu st) -> now st <= time_of en;
  t_prio : forall en, In en (Qu st) ->
      match event_of en with
      | simpy.Initialize _ => prio_of en = O /\ time_of en == 0
      | _ => prio_of en = 1%nat
      end;
  e_trig : forall q ev tq, Ev st q = Some ev -> T st q = Some tq ->
      (simpy.triggered ev = true <-> ScheduledTask.actual_end tq <> None);
  e_end : forall q tq e, T st q = Some tq ->
      ScheduledTask.actual_end tq = Some e ->
      e <= now st /\ Pc st q = Some Exhausted;
  e_proc : forall q ev, Ev st q = Some ev ->
      simpy.callbacks ev = None -> simpy.triggered ev = true;
  e_queue : forall q ev, Ev st q = Some ev ->
      count (completes q) (Qu st)
      = if simpy.triggered ev
        then match simpy.callbacks ev with Some _ => 1%nat | None => O end
        else O;
  x_start : forall p, Pc st p = Some Start ->
      forall q ev, Ev st q = Some ev -> simpy.callbacks ev <> None;
  p_inv : forall p at_pc, Pc st p = Some at_pc -> hole <> Some p ->
      pcinv st p at_pc;
  p_hole : forall p, hole = Some p ->
      unfinished st p /\ In p (keys tasks0);
  c_inv : forall p, cond_inv hole rem st p
}.

(** *** Lookups *)

Lemma keys_In_get {V} (k : string) (d : dict string V) :
  In k (keys d) -> exists v, dict_get k d = Some v.
Proof.
  intros I. destruct (dict_get k d) eqn:E; eauto.
  apply dict_get_None in E. tauto.
Qed.

Lemma get_In_keys {V} (k : string) (v : V) (d : dict string V) :
  dict_get k d = Some v -> In k (keys d).
Proof. apply dict_get_Some_key. Qed.

Lemma T_keys h rem st k : Inv h rem st -> In k (keys tasks0) ->
  exists t, T st k = Some t.
Proof. intros I A. apply keys_In_get. now rewrite (s_keys _ _ _ I). Qed.

Lemma Ev_keys h rem st k : Inv h rem st -> In k (keys tasks0) ->
  exists ev, Ev st k = Some ev.
Proof. intros I A. apply keys_In_get. now rewrite (s_events _ _ _ I). Qed.

Lemma Pc_keys h rem st k : Inv h rem st -> In k (keys tasks0) ->
  exists at_pc, Pc st k = Some at_pc.
Proof. intros I A. apply keys_In_get. now rewrite (s_procs _ _ _ I). Qed.

Lemma Pc_In h rem st k at_pc : Inv h rem st -> Pc st k = Some at_pc ->
  In k (keys tasks0).
Proof.
  intros I A. rewrite <- (s_procs _ _ _ I). eapply get_In_keys; eauto.
Qed.

Lemma dict_mem_same_keys {V W} (d : dict string V) (d' : dict string W) k :
  keys d = keys d' -> dict_mem k d = dict_mem k d'.
Proof.
  intros E. destruct (dict_mem k d) eqn:A, (dict_mem k d') eqn:B; auto.
  - apply dict_mem_keys in A. rewrite E in A. apply dict_mem_keys in A.
    congruence.
  - apply dict_mem_keys in B. rewrite <- E in B. apply dict_mem_keys in B.
    congruence.
Qed.

(** The predecessors only depend on which ids are scheduled. *)
Lemma _get_predecessors_keys (ts : dict string ScheduledTask.t) (k : string) :
  keys ts = keys tasks0 ->
  _get_predecessors task_definitions ts k = PREDS k.
Proof.
  intros E. unfold PREDS, _get_predecessors.
  destruct (dict_get (base_task_id k) task_definitions) as [td|]; auto.
  destruct (TaskDefinition.predecessors td) as [|a l]; auto.
  apply fold_left_ext. intros acc b _.
  now rewrite !(dict_mem_same_keys ts tasks0 _ E).
Qed.

Lemma PREDS_In (k q : string) : In q (PREDS k) -> In q (keys tasks0).
Proof.
  intros I. apply SchedulerFacts._get_predecessors_scheduled in I.
  now apply dict_mem_keys.
Qed.

(** The uplink time only depends on where the tasks are placed. *)
Lemma transfer_times_static (st st' : state) (p tid : string)
      (preds : list string) :
  (forall k, option_map ScheduledTask.node_id (T st k)
             = option_map ScheduledTask.node_id (T st' k)) ->
  transfer_times topology task_definitions p tid preds st
  = transfer_times topology task_definitions p tid preds st'.
Proof.
  intros A. unfold transfer_times. apply fold_left_ext.
  intros acc q _. destruct acc as [tts|e]; simpl; auto.
  pose proof (A q) as Aq. pose proof (A p) as Ap. unfold T in Aq, Ap.
  unfold the_task.
  destruct (dict_get q (scheduled_tasks st)) as [tq|],
           (dict_get q (scheduled_tasks st')) as [tq'|];
    simpl in Aq; try discriminate; auto.
  destruct (Qltb 0 (_get_data_from_predecessor task_definitions q tid)); auto.
  destruct (dict_get p (scheduled_tasks st)) as [tp|],
           (dict_get p (scheduled_tasks st')) as [tp'|];
    simpl in Ap; try discriminate; auto.
  simpl. congruence.
Qed.

Lemma uplink_of_static h rem (st : state) (p : string) :
  Inv h rem st ->
  uplink_of topology task_definitions p p (PREDS p) st = uplink0 p.
Proof.
  intros I. unfold uplink0, uplink_of.
  rewrite (transfer_times_static st st0); auto.
  intros k. unfold T at 2. simpl.
  destruct (T st k) as [t|] eqn:E.
  - destruct (s_static _ _ _ I _ _ E) as [_ [t0 [E0 N]]].
    rewrite E0. simpl. congruence.
  - unfold T in E. apply dict_get_None in E. rewrite (s_keys _ _ _ I) in E.
    apply dict_get_None in E. now rewrite E.
Qed.

(** *** How the primitives change what is looked up *)

Lemma T_update_task (st : state) (p k : string)
      (f : ScheduledTask.t -> ScheduledTask.t) :
  T (update_task p f st) k
  = if String.eqb p k then option_map f (T st k) else T st k.
Proof.
  unfold T, update_task. simpl.
  induction (scheduled_tasks st) as [|[k' t] ts IH]; simpl.
  - destruct (String.eqb p k); reflexivity.
  - destruct (String.eqb_spec p k') as [->|N]; simpl;
      destruct (String.eqb_spec k k') as [->|M]; simpl; auto.
    + now rewrite String.eqb_refl.
    + destruct (String.eqb_spec p k'); [congruence|reflexivity].
Qed.

Lemma keys_update_task (st : state) (p : string)
      (f : ScheduledTask.t -> ScheduledTask.t) :
  keys (scheduled_tasks (update_task p f st)) = keys (scheduled_tasks st).
Proof.
  unfold update_task, keys. simpl. rewrite map_map. apply map_ext.
  intros [k t]; simpl. destruct (String.eqb p k); reflexivity.
Qed.

Lemma keys_set_in {V} (k : string) (v : V) (d : dict string V) (ks : list string) :
  keys d = ks -> In k ks -> keys (dict_set k v d) = ks.
Proof. intros <- I. now apply keys_dict_set_in. Qed.

(** A process other than the one at work keeps what it had. *)
Lemma pcinv_frame (st st' : state) (p : string) (at_pc : pc) :
  count (resumes p) (Qu st') = count (resumes p) (Qu st) ->
  (forall en, In en (Qu st') -> resumes p (event_of en) = true ->
              In en (Qu st)) ->
  Cd st' p = Cd st p ->
  T st' p = T st p ->
  (forall q tq e, T st q = Some tq -> ScheduledTask.actual_end tq = Some e ->
                  exists tq', T st' q = Some tq' /\
                              ScheduledTask.actual_end tq' = Some e) ->
  (forall q ev' cbs', Ev st' q = Some ev' -> simpy.callbacks ev' = Some cbs' ->
                      exists ev cbs, Ev st q = Some ev /\
                                     simpy.callbacks ev = Some cbs /\
                                     (In p cbs -> In p cbs')) ->
  pcinv st p at_pc -> pcinv st' p at_pc.
Proof.
  intros H1 H2 H3 H4 H5 H6.
  assert (EB : forall a u, ended_before st p a u -> ended_before st' p a u).
  { intros a u A q I. destruct (A q I) as [tq [eq [B [C D]]]].
    destruct (H5 _ _ _ B C) as [tq' [B' C']]. eauto. }
  assert (UO : uplink_ok st p -> uplink_ok st' p).
  { intros [t [u A]]. exists t, u. now rewrite H4. }
  assert (UF : unfinished st p -> unfinished st' p).
  { intros [t A]. exists t. now rewrite H4. }
  assert (RT : forall P, resume_times st p P -> resume_times st' p P).
  { intros P A en I R. apply A; auto. }
  assert (RS : root_started st p -> root_started st' p).
  { intros A B td D. rewrite H4. exact (A B td D). }
  destruct at_pc as [|tid td preds|tid td|tid|]; simpl.
  - intros [A [B [C D]]]. rewrite H1, H3. repeat split; auto.
  - intros [A [B [C [[c [D E]] [F [G G']]]]]]. rewrite H1, H3.
    repeat split; eauto.
    intros q ev' cbs' I E1 E2.
    destruct (H6 _ _ _ E1 E2) as [ev [cbs [X [Y Z]]]]. eauto.
  - intros [A [B [C [[t [a0 [D [E [F [G [H I]]]]]]] J]]]]. rewrite H1.
    repeat split; auto. exists t, a0. rewrite H4. repeat split; auto.
  - intros [A [B [[t [a [D [E [F [G H]]]]]] [J K]]]]. rewrite H1.
    split; auto. split; auto. split; [|split; auto].
    exists t, a. rewrite H4. repeat split; auto.
  - intros [A [B K]]. rewrite H1, H4. split; auto. split; auto.
    intros t e E1 E2. destruct (B t e E1 E2) as [a [X [Y [Z V]]]].
    exists a. repeat split; auto.
Qed.

(** The state once [en] has been popped and the clock moved to it. *)
Definition popped (st : state) (en : simpy.entry) (rest : list simpy.entry)
  : state :=
  set_env {| simpy.now := time_of en;
             simpy._eid := simpy._eid (env st);
             simpy._queue := rest |} st.

Lemma step_popped (st : state) (en : simpy.entry) (rest : list simpy.entry) :
  heappop simpy.entry_ltb (Qu st) = Some (en, rest) ->
  step topology task_definitions base_compute_speed st
  = Some (fire topology task_definitions base_compute_speed
               (event_of en) (popped st en rest)).
Proof.
  intros P. unfold step. unfold Qu in P. rewrite P.
  destruct en as [[[t pr] e] ev]. reflexivity.
Qed.

(** Popping moves the clock forward and keeps everything else. *)
Lemma pop_frame (h : option string) (st : state) (en : simpy.entry)
      (rest : list simpy.entry) :
  Inv None [] st ->
  heappop simpy.entry_ltb (Qu st) = Some (en, rest) ->
  (forall p, h = Some p -> resumes p (event_of en) = true) ->
  (h = None -> forall p, resumes p (event_of en) = false) ->
  (forall q, completes q (event_of en) = false) ->
  Inv h [] (popped st en rest).
Proof.
  intros I P Hh Hn Hc.
  pose proof (heappop_In _ _ _ _ P) as PIn.
  pose proof (heappop_min _ queue_ltb_asym queue_ltb_negtrans _ _ _ P) as PMin.
  assert (Ien : In en (Qu st)) by (apply PIn; auto).
  assert (Sub : forall x, In x rest -> In x (Qu st)) by (intros; apply PIn; auto).
  assert (Now : now st <= time_of en) by (apply (t_queue _ _ _ I); auto).
  split; try (solve [apply I]).
  - intros x A. apply (s_queue _ _ _ I). auto.
  - unfold now; simpl. pose proof (t_now _ _ _ I). lra.
  - intros x A. unfold now; simpl.
    apply queue_ltb_false_time, PMin, Sub, A.
  - intros x A. apply (t_prio _ _ _ I). auto.
  - intros q tq e A B. destruct (e_end _ _ _ I _ _ _ A B) as [C D].
    split; auto. unfold now; simpl. lra.
  - intros q ev A. change (Qu (popped st en rest)) with rest.
    rewrite <- (e_queue _ _ _ I q ev A), (count_pop _ _ _ _ P), Hc. reflexivity.
  - intros p at_pc A B.
    assert (R : resumes p (event_of en) = false).
    { destruct h as [p'|].
      - specialize (Hh p' eq_refl).
        destruct (event_of en); simpl in *; try discriminate;
          apply String.eqb_eq in Hh; subst;
          apply String.eqb_neq; congruence.
      - now apply Hn. }
    apply (pcinv_frame st);
      [ | intros x X _; apply Sub, X | reflexivity | reflexivity
        | intros q tq e X Y; exists tq; auto
        | intros q ev' cbs' E1 E2; exists ev', cbs'; auto
        | apply (p_inv _ _ _ I); auto; discriminate ].
    change (Qu (popped st en rest)) with rest.
    rewrite (count_pop _ _ _ _ P), R. reflexivity.
  - intros p ->. specialize (Hh p eq_refl).
    assert (K : In p (keys tasks0)).
    { pose proof (s_queue _ _ _ I _ Ien) as A.
      destruct (event_of en); simpl in *; try discriminate;
        apply String.eqb_eq in Hh; subst; auto. }
    split; auto.
    destruct (Pc_keys _ _ _ _ I K) as [at_pc A].
    pose proof (p_inv _ _ _ I _ _ A) as B.
    assert (N : @None string <> Some p) by discriminate. specialize (B N).
    pose proof (count_pop (resumes p) _ _ _ P) as CP. rewrite Hh in CP.
    destruct at_pc as [|tid td preds|tid td|tid|]; simpl in B.
    + tauto.
    + tauto.
    + destruct B as [_ [_ [_ [[t [a0 [X [_ [Y _]]]]] _]]]]. exists t. auto.
    + destruct B as [_ [_ [[t [a [X [_ [Y _]]]]] _]]]. exists t. auto.
    + destruct B as [B _]. lia.
  - intros p. pose proof (c_inv _ _ _ I p) as C. unfold cond_inv in *.
    change (Cd (popped st en rest) p) with (Cd st p).
    destruct (Cd st p) as [c|]; auto.
    destruct (simpy.cond_triggered c); auto.
    destruct C as [[C|C] D]; [|discriminate]. split; auto.
Qed.

(** An attribute of the task of the process at work is assigned (any but
    [actual_end]). *)
Lemma update_frame (p : string) (f : ScheduledTask.t -> ScheduledTask.t)
      (st : state) :
  Inv (Some p) [] st ->
  (forall t, ScheduledTask.task_id (f t) = ScheduledTask.task_id t /\
             ScheduledTask.node_id (f t) = ScheduledTask.node_id t /\
             ScheduledTask.actual_end (f t) = ScheduledTask.actual_end t) ->
  Inv (Some p) [] (update_task p f st).
Proof.
  intros I F.
  assert (TE : forall q tq, T (update_task p f st) q = Some tq ->
                 exists tq0, T st q = Some tq0 /\
                             ScheduledTask.task_id tq = ScheduledTask.task_id tq0 /\
                             ScheduledTask.node_id tq = ScheduledTask.node_id tq0 /\
                             ScheduledTask.actual_end tq = ScheduledTask.actual_end tq0).
  { intros q tq. rewrite T_update_task.
    destruct (String.eqb p q); [|intros E; exists tq; auto].
    destruct (T st q) as [t0|]; simpl; [|discriminate].
    intros E; inversion E; subst. exists t0. split; [reflexivity|apply F]. }
  assert (TF : forall q tq0, T st q = Some tq0 ->
                 exists tq, T (update_task p f st) q = Some tq /\
                            ScheduledTask.actual_end tq = ScheduledTask.actual_end tq0).
  { intros q tq0 E. rewrite T_update_task, E.
    destruct (String.eqb p q); simpl; [|eauto].
    eexists; split; [reflexivity|apply F]. }
  split; try (solve [apply I]).
  - rewrite keys_update_task. apply I.
  - intros k t E. destruct (TE _ _ E) as [t0 [A [B [C D]]]].
    rewrite B, C. eapply (s_static _ _ _ I); eauto.
  - intros q ev tq A B. destruct (TE _ _ B) as [t0 [X [_ [_ Y]]]].
    rewrite Y. eapply (e_trig _ _ _ I); eauto.
  - intros q tq e A B. destruct (TE _ _ A) as [t0 [X [_ [_ Y]]]].
    rewrite Y in B. eapply (e_end _ _ _ I); eauto.
  - intros p' at_pc A B.
    apply (pcinv_frame st);
      [ reflexivity | auto | reflexivity | | | | apply (p_inv _ _ _ I); auto ].
    + rewrite T_update_task.
      destruct (String.eqb_spec p p'); [congruence|reflexivity].
    + intros q tq e X Y. destruct (TF _ _ X) as [tq' [X' Y']].
      exists tq'. split; congruence.
    + intros q ev' cbs' X Y. exists ev', cbs'. auto.
  - intros p' E. destruct (p_hole _ _ _ I _ E) as [[t [A B]] C].
    split; auto. destruct (TF _ _ A) as [tq' [X' Y']].
    exists tq'. split; congruence.
Qed.

(** An event is scheduled that resumes no process but the one at work. *)
Lemma schedule_frame (h : option string) (ev : simpy.event) (delay : Q)
      (st : state) :
  Inv h [] st -> 0 <= delay ->
  (forall p, ev <> simpy.Initialize p) ->
  (forall q, completes q ev = false) ->
  In (subject ev) (keys tasks0) ->
  (forall p, h <> Some p -> resumes p ev = false) ->
  Inv h [] (schedule ev simpy.NORMAL delay st).
Proof.
  intros I D NI NC K R.
  assert (QI : forall en, In en (Qu (schedule ev simpy.NORMAL delay st)) ->
                 In en (Qu st) \/
                 en = (now st + delay, simpy.NORMAL, simpy._eid (env st), ev)).
  { intros en A. unfold Qu, schedule in A. simpl in A. unfold heappush in A.
    apply in_app_iff in A. destruct A as [A|[A|[]]]; auto. }
  split; try (solve [apply I]).
  - intros en A. destruct (QI _ A) as [B| ->]; [apply (s_queue _ _ _ I); auto|].
    exact K.
  - intros en A. change (now (schedule ev simpy.NORMAL delay st)) with (now st).
    destruct (QI _ A) as [B| ->]; [apply (t_queue _ _ _ I); auto|].
    unfold time_of; simpl. lra.
  - intros en A. destruct (QI _ A) as [B| ->]; [apply (t_prio _ _ _ I); auto|].
    unfold event_of, prio_of; simpl.
    destruct ev; auto. exfalso. eapply NI; eauto.
  - intros q e A. unfold Qu, schedule; simpl. rewrite count_push.
    cbn [event_of snd]. rewrite NC, Nat.add_0_r.
    apply (e_queue _ _ _ I); auto.
  - intros p at_pc A B.
    apply (pcinv_frame st);
      [ | | reflexivity | reflexivity | eauto | | apply (p_inv _ _ _ I); auto ].
    + unfold Qu, schedule; simpl. rewrite count_push.
      cbn [event_of snd]. rewrite (R p B). lia.
    + intros en X Y. destruct (QI _ X) as [Z| ->]; auto.
      unfold event_of in Y; simpl in Y. rewrite (R p B) in Y. discriminate.
    + intros q ev' cbs' X Y. exists ev', cbs'. auto.
Qed.

(** The process at work is suspended at [at_pc], or exhausted. *)
Lemma close_hole (p : string) (at_pc : pc) (st : state) :
  Inv (Some p) [] st -> at_pc <> Start ->
  pcinv st p at_pc ->
  (forall c, Cd st p = Some c -> simpy.cond_triggered c = false ->
             exists tid td preds, at_pc = WaitPreds tid td preds) ->
  Inv None [] (set_procs (dict_set p at_pc (procs st)) st).
Proof.
  intros I NS PI CW.
  destruct (p_hole _ _ _ I p eq_refl) as [[t [Tp Up]] Kp].
  assert (PE : forall p', Pc (set_procs (dict_set p at_pc (procs st)) st) p'
                          = if String.eqb p p' then Some at_pc else Pc st p').
  { intros p'. unfold Pc; simpl. apply sget_set. }
  split; try (solve [apply I]).
  - simpl. apply keys_set_in; auto. apply I.
  - intros q tq e A B. destruct (e_end _ _ _ I _ _ _ A B) as [C D].
    split; auto. rewrite PE.
    destruct (String.eqb_spec p q) as [->|N]; auto.
    change (T st q = Some tq) in A. congruence.
  - intros p' A. rewrite PE in A.
    destruct (String.eqb_spec p p') as [->|N]; [congruence|].
    apply (x_start _ _ _ I p' A).
  - intros p' at_pc' A _. rewrite PE in A.
    destruct (String.eqb_spec p p') as [->|N].
    + inversion A; subst. exact PI.
    + apply (p_inv _ _ _ I p' at_pc' A). congruence.
  - discriminate.
  - intros p'. pose proof (c_inv _ _ _ I p') as C. unfold cond_inv in *.
    change (Cd (set_procs (dict_set p at_pc (procs st)) st) p') with (Cd st p').
    destruct (Cd st p') as [c|] eqn:E; auto.
    destruct (simpy.cond_triggered c) eqn:F; auto.
    destruct C as [Wt C]. split; auto. left.
    unfold waiting. rewrite PE.
    destruct (String.eqb_spec p p') as [->|N].
    + destruct (CW _ E F) as [tid' [td' [preds' ->]]]. eauto.
    + destruct Wt as [Wt|Wt]; [exact Wt|congruence].
Qed.

(** The tail of [Process._resume], after the generator has run. *)
Definition settle (p : string) (r : state * outcome) : state :=
  match snd r with
  | Suspended at_pc => set_procs (dict_set p at_pc (procs (fst r))) (fst r)
  | Returned =>
      schedule (simpy.Process p (Ok tt)) simpy.NORMAL 0
               (set_procs (dict_set p Exhausted (procs (fst r))) (fst r))
  | Raised e =>
      schedule (simpy.Process p (Raise e)) simpy.NORMAL 0
               (set_procs (dict_set p Exhausted (procs (fst r))) (fst r))
  end.

Lemma _resume_settle (p : string) (st : state) :
  _resume topology task_definitions base_compute_speed p st
  = settle p
      match Pc st p with
      | None => (st, Raised Unreachable)
      | Some Start =>
          seg_start topology task_definitions base_compute_speed p st
      | Some (WaitPreds task_id task_def predecessors) =>
          seg_uplink topology task_definitions base_compute_speed
                     p task_id task_def predecessors st
      | Some (Uplink task_id task_def) =>
          seg_compute topology base_compute_speed p task_id task_def st
      | Some (Compute task_id) => seg_finish p task_id st
      | Some Exhausted => (st, Returned)
      end.
Proof.
  unfold _resume, settle, Pc.
  destruct (match dict_get p (procs st) with
            | Some Start => _ | Some (WaitPreds _ _ _) => _
            | Some (Uplink _ _) => _ | Some (Compute _) => _
            | Some Exhausted => _ | None => _ end) as [st' o].
  destruct o; reflexivity.
Qed.

(** The process at work raises. *)
Lemma fail_hole (p : string) (e : exn) (st : state) :
  Inv (Some p) [] st -> count (resumes p) (Qu st) = O ->
  (forall c, Cd st p = Some c -> simpy.cond_triggered c = true) ->
  root_started st p ->
  Inv None [] (settle p (st, Raised e)).
Proof.
  intros I R C RS. unfold settle; simpl.
  destruct (p_hole _ _ _ I p eq_refl) as [[t [Tp Up]] Kp].
  apply schedule_frame; try (solve [auto | discriminate | lra]).
  apply close_hole; auto; [discriminate| |].
  - simpl. split; auto. split; auto. intros t' e' A B.
    change (T st p = Some t') in A. congruence.
  - intros c A B. rewrite (C c A) in B. discriminate.
Qed.


Lemma set_fields_kept (v : Q) :
  (forall t, ScheduledTask.task_id (ScheduledTask.set_actual_start v t)
             = ScheduledTask.task_id t /\
             ScheduledTask.node_id (ScheduledTask.set_actual_start v t)
             = ScheduledTask.node_id t /\
             ScheduledTask.actual_end (ScheduledTask.set_actual_start v t)
             = ScheduledTask.actual_end t) /\
  (forall t, ScheduledTask.task_id (ScheduledTask.set_uplink_time v t)
             = ScheduledTask.task_id t /\
             ScheduledTask.node_id (ScheduledTask.set_uplink_time v t)
             = ScheduledTask.node_id t /\
             ScheduledTask.actual_end (ScheduledTask.set_uplink_time v t)
             = ScheduledTask.actual_end t) /\
  (forall t, ScheduledTask.task_id (ScheduledTask.set_compute_time v t)
             = ScheduledTask.task_id t /\
             ScheduledTask.node_id (ScheduledTask.set_compute_time v t)
             = ScheduledTask.node_id t /\
             ScheduledTask.actual_end (ScheduledTask.set_compute_time v t)
             = ScheduledTask.actual_end t).
Proof. repeat split. Qed.

(** Assignments to the task of [p] keep the ends recorded for others. *)
Lemma ended_before_update (st : state) (p p' : string)
      (f : ScheduledTask.t -> ScheduledTask.t) (a u : Q) :
  (forall t, ScheduledTask.actual_end (f t) = ScheduledTask.actual_end t) ->
  ended_before st p' a u -> ended_before (update_task p f st) p' a u.
Proof.
  intros F A q I. destruct (A q I) as [tq [eq [B [C D]]]].
  rewrite T_update_task, B.
  destruct (String.eqb p q); simpl; eauto.
  exists (f tq), eq. rewrite F. auto.
Qed.

(** The timeout that the process at work waits on is the only event that
    will resume it. *)
Lemma resume_times_push (st : state) (p : string) (d : Q) (P : Q -> Prop) :
  count (resumes p) (Qu st) = O -> P (now st + d) ->
  resume_times (schedule (simpy.Timeout p) simpy.NORMAL d st) p P.
Proof.
  intros R A en I B. unfold Qu, schedule in I. simpl in I.
  unfold heappush in I. apply in_app_iff in I. destruct I as [I|[<-|[]]].
  - rewrite (count_zero _ _ _ R I) in B. discriminate.
  - exact A.
Qed.

Lemma timeout_hole (p : string) (d : Q) (st : state) :
  Inv (Some p) [] st -> 0 <= d ->
  Inv (Some p) [] (schedule (simpy.Timeout p) simpy.NORMAL d st).
Proof.
  intros I D. destruct (p_hole _ _ _ I p eq_refl) as [_ Kp].
  apply schedule_frame; auto; try discriminate.
  intros p' N. simpl. apply String.eqb_neq. congruence.
Qed.

Lemma count_timeout (st : state) (p : string) (d : Q) :
  count (resumes p) (Qu st) = O ->
  count (resumes p) (Qu (schedule (simpy.Timeout p) simpy.NORMAL d st)) = 1%nat.
Proof.
  intros R. unfold Qu, schedule; simpl. rewrite count_push.
  cbn [event_of snd resumes]. rewrite String.eqb_refl.
  unfold Qu in R. rewrite R. reflexivity.
Qed.

(** From the second [actual_start] assignment on. *)
Lemma seg_compute_inv (p : string) (td : TaskDefinition.t) (st : state) :
  Inv (Some p) [] st -> count (resumes p) (Qu st) = O ->
  (forall c, Cd st p = Some c -> simpy.cond_triggered c = true) ->
  uplink_ok st p ->
  (forall t, T st p = Some t ->
             ended_before st p (now st) (ScheduledTask.uplink_time t)) ->
  (PREDS p = [] -> now st == 0) ->
  Inv None [] (settle p (seg_compute topology base_compute_speed p p td st)).
Proof.
  intros I R C U EB Z.
  destruct (p_hole _ _ _ I p eq_refl) as [[t [Tp Up]] Kp].
  destruct (set_fields_kept (now st)) as [F1 _].
  pose proof (update_frame p _ st I F1) as I1.
  set (st1 := update_task p (ScheduledTask.set_actual_start (now st)) st) in *.
  assert (T1 : T st1 p = Some (ScheduledTask.set_actual_start (now st) t)).
  { unfold st1. now rewrite T_update_task, String.eqb_refl, Tp. }
  assert (U0 : PREDS p = [] -> ScheduledTask.uplink_time t = 0).
  { intros PE. destruct U as [tu [u [A [B D]]]].
    unfold uplink0 in B. rewrite PE in B. simpl in B. congruence. }
  assert (RS1 : root_started st1 p).
  { intros PE td' _. eexists. exists (now st). split; [exact T1|].
    split; [reflexivity|]. split; [exact (Z PE)|exact (U0 PE)]. }
  unfold seg_compute. fold st1. unfold the_task.
  change (dict_get p (scheduled_tasks st1)) with (T st1 p). rewrite T1.
  destruct (DAGTopology.get_compute_time _ _ _ _) as [ct|e].
  2:{ apply fail_hole; auto; exact RS1. }
  destruct (set_fields_kept ct) as [_ [_ F3]].
  pose proof (update_frame p _ st1 I1 F3) as I2.
  set (st2 := update_task p (ScheduledTask.set_compute_time ct) st1) in *.
  set (t2 := ScheduledTask.set_compute_time ct
               (ScheduledTask.set_actual_start (now st) t)).
  assert (T2 : T st2 p = Some t2).
  { unfold st2. now rewrite T_update_task, String.eqb_refl, T1. }
  assert (RS2 : root_started st2 p).
  { intros PE td' _. exists t2, (now st). split; [exact T2|].
    split; [reflexivity|]. split; [exact (Z PE)|exact (U0 PE)]. }
  unfold timeout. destruct (Qltb ct 0) eqn:L.
  { apply fail_hole; auto; exact RS2. }
  apply Qltb_false in L.
  unfold settle; cbn [fst snd].
  apply (close_hole p (Compute p)
           (schedule (simpy.Timeout p) simpy.NORMAL ct st2));
    [apply timeout_hole; auto|discriminate| |].
  - simpl. split; [reflexivity|]. split; [apply count_timeout; exact R|].
    split.
    + exists t2, (now st). split; [exact T2|].
      split; [reflexivity|]. split; [exact Up|].
      split; [apply resume_times_push; [exact R|reflexivity]|].
      change (ended_before st2 p (now st) (ScheduledTask.uplink_time t)).
      unfold st2, st1. apply ended_before_update; [reflexivity|].
      apply ended_before_update; [reflexivity|]. auto.
    + split; [|exact RS2].
      destruct U as [tu [u [A [B D]]]]. exists t2, u.
      split; [exact T2|]. split; auto.
      rewrite Tp in A. inversion A; subst. reflexivity.
  - intros c A B. rewrite (C c A) in B. discriminate.
Qed.

(** A processed completion event stands for a recorded end. *)
Lemma processed_ended (h : option string) (st : state) (q : string)
      (ev : simpy.Event) :
  Inv h [] st -> Ev st q = Some ev -> simpy.callbacks ev = None ->
  exists tq eq, T st q = Some tq /\ ScheduledTask.actual_end tq = Some eq /\
                eq <= now st.
Proof.
  intros I E C.
  assert (K : In q (keys tasks0)).
  { rewrite <- (s_events _ _ _ I). eapply get_In_keys; eauto. }
  destruct (T_keys _ _ _ _ I K) as [tq Tq].
  pose proof (e_proc _ _ _ I _ _ E C) as Tr.
  apply (e_trig _ _ _ I _ _ _ E Tq) in Tr.
  destruct (ScheduledTask.actual_end tq) as [eq|] eqn:A; [|congruence].
  exists tq, eq. split; auto. split; auto.
  eapply (e_end _ _ _ I); eauto.
Qed.

(** From the first [actual_start] assignment on. *)
Lemma seg_uplink_inv (p : string) (td : TaskDefinition.t) (st : state) :
  Inv (Some p) [] st -> count (resumes p) (Qu st) = O ->
  (forall c, Cd st p = Some c -> simpy.cond_triggered c = true) ->
  dict_get (base_task_id p) task_definitions = Some td ->
  (forall q, In q (PREDS p) ->
             exists ev, Ev st q = Some ev /\ simpy.callbacks ev = None) ->
  (PREDS p = [] -> now st == 0) ->
  Inv None []
      (settle p (seg_uplink topology task_definitions base_compute_speed
                            p p td (PREDS p) st)).
Proof.
  intros I R C D PP Z.
  destruct (p_hole _ _ _ I p eq_refl) as [[t [Tp Up]] Kp].
  assert (E0 : forall u, u <= 0 -> ended_before st p (now st) u).
  { intros u Lu q Iq. destruct (PP q Iq) as [ev [A B]].
    destruct (processed_ended _ _ _ _ I A B) as [tq [eq [X [Y Y']]]].
    exists tq, eq. repeat split; auto. lra. }
  destruct (set_fields_kept (now st)) as [F1 _].
  pose proof (update_frame p _ st I F1) as I1.
  set (st1 := update_task p (ScheduledTask.set_actual_start (now st)) st) in *.
  assert (T1 : T st1 p = Some (ScheduledTask.set_actual_start (now st) t)).
  { unfold st1. now rewrite T_update_task, String.eqb_refl, Tp. }
  unfold seg_uplink. fold st1.
  rewrite (uplink_of_static _ _ st1 p I1).
  destruct (uplink0 p) as [u|e] eqn:U0.
  2:{ apply fail_hole; auto. intros PE. unfold uplink0 in U0.
      rewrite PE in U0. discriminate. }
  destruct (set_fields_kept u) as [_ [F2 _]].
  pose proof (update_frame p _ st1 I1 F2) as I2.
  set (st2 := update_task p (ScheduledTask.set_uplink_time u) st1) in *.
  set (t2 := ScheduledTask.set_uplink_time u
               (ScheduledTask.set_actual_start (now st) t)).
  assert (T2 : T st2 p = Some t2).
  { unfold st2. now rewrite T_update_task, String.eqb_refl, T1. }
  assert (U2 : uplink_ok st2 p).
  { exists t2, u. repeat split; auto. }
  assert (EB2 : forall u', u' <= 0 -> ended_before st2 p (now st) u').
  { intros u' Lu. unfold st2, st1.
    apply ended_before_update; [reflexivity|].
    apply ended_before_update; [reflexivity|]. auto. }
  destruct (Qltb 0 u) eqn:L.
  - apply Qltb_true in L. unfold timeout.
    assert (L' : Qltb u 0 = false) by (apply Qltb_false; lra).
    rewrite L'. unfold settle; cbn [fst snd].
    apply (close_hole p (Uplink p td)
             (schedule (simpy.Timeout p) simpy.NORMAL u st2));
      [apply timeout_hole; auto; lra|discriminate| |].
    + simpl. split; [reflexivity|]. split; [exact D|].
      split; [apply count_timeout; exact R|]. split; [|exact U2].
      exists t2, (now st). split; [exact T2|].
      split; [reflexivity|]. split; [exact Up|].
      split; [apply resume_times_push; [exact R|reflexivity]|].
      split; [exact L|]. apply (EB2 0). lra.
    + intros c A B. rewrite (C c A) in B. discriminate.
  - apply Qltb_false in L.
    apply seg_compute_inv; auto.
    intros t' A. change (T st2 p = Some t') in A. rewrite T2 in A.
    inversion A; subst. apply EB2. exact L.
Qed.

(** *** Registering the callbacks of a new condition *)

(** [event.callbacks.append(self._check)] on the event of [q]. *)
Definition reg1 (p : string) (es : dict string simpy.Event) (q : string)
  : dict string simpy.Event :=
  match dict_get q es with
  | Some ev =>
      match simpy.callbacks ev with
      | Some cbs =>
          dict_set q {| simpy.callbacks := Some (cbs ++ [p]);
                        simpy.triggered := simpy.triggered ev |} es
      | None => es
      end
  | None => es
  end.

Definition reg_events (p : string) (l : list string)
           (es : dict string simpy.Event) : dict string simpy.Event :=
  fold_left (reg1 p) l es.

Lemma set_events_same (st : state) : set_events (completion_events st) st = st.
Proof. destruct st; reflexivity. Qed.

Lemma new_AllOf_fold (p : string) (l : list string) : forall st,
  (forall q ev, Ev st q = Some ev -> simpy.callbacks ev <> None) ->
  fold_left
    (fun st q =>
       match dict_get q (completion_events st) with
       | None => st
       | Some ev =>
           match simpy.callbacks ev with
           | None => _check p st
           | Some cbs =>
               set_events
                 (dict_set q {| simpy.callbacks := Some (cbs ++ [p]);
                                simpy.triggered := simpy.triggered ev |}
                           (completion_events st)) st
           end
       end) l st
  = set_events (reg_events p l (completion_events st)) st.
Proof.
  induction l as [|q l IH]; intros st U; cbn [fold_left reg_events].
  - now rewrite set_events_same.
  - unfold reg1 at 2.
    destruct (dict_get q (completion_events st)) as [ev|] eqn:E.
    + destruct (simpy.callbacks ev) as [cbs|] eqn:C.
      * rewrite IH; [reflexivity|].
        intros q' ev'. unfold Ev; simpl. rewrite sget_set.
        destruct (String.eqb q q'); [|apply U].
        intros A; inversion A; subst; simpl. discriminate.
      * exfalso. exact (U q ev E C).
    + now apply IH.
Qed.

Lemma keys_reg1 p es q : keys (reg1 p es q) = keys es.
Proof.
  unfold reg1. destruct (dict_get q es) as [ev|] eqn:E; auto.
  destruct (simpy.callbacks ev); auto.
  apply keys_dict_set_in. eapply get_In_keys; eauto.
Qed.

Lemma keys_reg_events p l : forall es, keys (reg_events p l es) = keys es.
Proof.
  induction l as [|q l IH]; intros es; cbn [reg_events fold_left]; auto.
  fold (reg_events p l (reg1 p es q)). now rewrite IH, keys_reg1.
Qed.

(** An event after registration: the same flag, and callbacks that have
    only grown, by [p] alone. *)
Definition grown (p : string) (ev ev' : simpy.Event) : Prop :=
  simpy.triggered ev' = simpy.triggered ev /\
  match simpy.callbacks ev, simpy.callbacks ev' with
  | None, None => True
  | Some cbs, Some cbs' =>
      (forall p', In p' cbs -> In p' cbs') /\
      (forall p', p' <> p -> occ p' cbs' = occ p' cbs)
  | _, _ => False
  end.

Lemma grown_refl p ev : grown p ev ev.
Proof. split; auto. destruct (simpy.callbacks ev); auto. Qed.

Lemma grown_trans p a b c : grown p a b -> grown p b c -> grown p a c.
Proof.
  intros [A1 A2] [B1 B2]. split; [congruence|].
  destruct (simpy.callbacks a), (simpy.callbacks b), (simpy.callbacks c);
    try tauto.
  destruct A2 as [A2 A3], B2 as [B2 B3]. split; auto.
  intros p' N. rewrite B3, A3; auto.
Qed.

Lemma reg1_get p es q q' :
  match dict_get q' es with
  | None => dict_get q' (reg1 p es q) = None
  | Some ev =>
      exists ev', dict_get q' (reg1 p es q) = Some ev' /\ grown p ev ev' /\
                  (q = q' -> forall cbs', simpy.callbacks ev' = Some cbs' ->
                                          In p cbs')
  end.
Proof.
  unfold reg1. destruct (dict_get q es) as [ev|] eqn:E.
  - destruct (simpy.callbacks ev) as [cbs|] eqn:C.
    + rewrite sget_set. destruct (String.eqb_spec q q') as [->|N].
      * rewrite E. eexists; split; [reflexivity|]. split.
        -- split; [reflexivity|]. rewrite C; simpl. split.
           ++ intros; apply in_app_iff; auto.
           ++ intros p' N. rewrite occ_app. unfold occ at 2. simpl.
              destruct (String.eqb_spec p' p); [congruence|simpl; lia].
        -- intros _ cbs' A. simpl in A. inversion A; subst.
           apply in_app_iff; simpl; auto.
      * destruct (dict_get q' es) as [ev0|]; auto.
        exists ev0. split; auto. split; [apply grown_refl|]. congruence.
    + destruct (dict_get q' es) as [ev0|] eqn:F; auto.
      exists ev0. split; auto. split; [apply grown_refl|].
      intros <- cbs' A. congruence.
  - destruct (dict_get q' es) as [ev0|] eqn:F; auto.
    exists ev0. split; auto. split; [apply grown_refl|].
    intros <-. congruence.
Qed.

Lemma reg_events_get p l : forall es q',
  match dict_get q' es with
  | None => dict_get q' (reg_events p l es) = None
  | Some ev =>
      exists ev', dict_get q' (reg_events p l es) = Some ev' /\
                  grown p ev ev' /\
                  (In q' l -> forall cbs', simpy.callbacks ev' = Some cbs' ->
                                           In p cbs')
  end.
Proof.
  induction l as [|q l IH]; intros es q'; cbn [reg_events fold_left].
  - destruct (dict_get q' es) as [ev|]; auto.
    exists ev. split; auto. split; [apply grown_refl|]. intros [].
  - fold (reg_events p l (reg1 p es q)).
    pose proof (reg1_get p es q q') as A.
    pose proof (IH (reg1 p es q) q') as B.
    destruct (dict_get q' es) as [ev|].
    + destruct A as [ev1 [A1 [A2 A3]]]. rewrite A1 in B.
      destruct B as [ev2 [B1 [B2 B3]]]. exists ev2. split; auto.
      split; [eapply grown_trans; eauto|].
      intros [->|I] cbs' C; [|eauto].
      destruct B2 as [_ B2]. rewrite C in B2.
      destruct (simpy.callbacks ev1) as [cbs1|] eqn:D; [|tauto].
      apply B2. eapply A3; eauto.
    + now rewrite A in B.
Qed.

Lemma pend_reg1 p p' es q :
  NoDup (keys es) ->
  (p' <> p -> pend p' (reg1 p es q) = pend p' es) /\
  (pend p (reg1 p es q) <= S (pend p es))%nat.
Proof.
  intros ND. unfold reg1. destruct (dict_get q es) as [ev|] eqn:E; [|auto].
  destruct (simpy.callbacks ev) as [cbs|] eqn:C; [|auto].
  split.
  - intros N.
    pose proof (pend_set p' q ev
                  {| simpy.callbacks := Some (cbs ++ [p]);
                     simpy.triggered := simpy.triggered ev |} es ND E) as A.
    unfold contrib in A. rewrite C in A. simpl in A.
    rewrite occ_app in A. unfold occ at 3 in A. simpl in A.
    destruct (String.eqb_spec p' p); [congruence|]. simpl in A. lia.
  - pose proof (pend_set p q ev
                  {| simpy.callbacks := Some (cbs ++ [p]);
                     simpy.triggered := simpy.triggered ev |} es ND E) as A.
    unfold contrib in A. rewrite C in A. simpl in A.
    rewrite occ_app in A. unfold occ at 3 in A. simpl in A.
    rewrite String.eqb_refl in A. simpl in A. lia.
Qed.

Lemma pend_reg_events p p' l : forall es,
  NoDup (keys es) ->
  (p' <> p -> pend p' (reg_events p l es) = pend p' es) /\
  (pend p (reg_events p l es) <= pend p es + List.length l)%nat.
Proof.
  induction l as [|q l IH]; intros es ND; cbn [reg_events fold_left].
  - split; auto. simpl. lia.
  - fold (reg_events p l (reg1 p es q)).
    assert (ND1 : NoDup (keys (reg1 p es q))) by now rewrite keys_reg1.
    destruct (IH _ ND1) as [A B]. destruct (pend_reg1 p p' es q ND) as [X Y].
    split.
    + intros N. rewrite A, X; auto.
    + simpl. lia.
Qed.

Lemma reg_events_inv p l es q ev' :
  dict_get q (reg_events p l es) = Some ev' ->
  exists ev, dict_get q es = Some ev /\ grown p ev ev' /\
             (In q l -> forall cbs', simpy.callbacks ev' = Some cbs' ->
                                     In p cbs').
Proof.
  intros A. pose proof (reg_events_get p l es q) as B.
  destruct (dict_get q es) as [ev|]; [|congruence].
  destruct B as [ev1 [B1 B2]]. exists ev. split; auto.
  rewrite A in B1. inversion B1; subst. exact B2.
Qed.

Lemma filter_all {A} (f : A -> bool) (l : list A) :
  (forall x, In x l -> f x = true) -> filter f l = l.
Proof.
  induction l as [|a l IH]; simpl; intros H; auto.
  rewrite (H a (or_introl eq_refl)), IH; auto.
Qed.

(** The condition of [p] is created and its callbacks are registered. *)
Lemma new_AllOf_inv (p : string) (preds : list string) (st : state) :
  Inv (Some p) [] st -> Pc st p = Some Start -> Cd st p = None ->
  preds <> [] ->
  let st' := new_AllOf p preds st in
  Inv (Some p) [] st' /\ Qu st' = Qu st /\
  (exists c, Cd st' p = Some c /\ simpy.cond_triggered c = false) /\
  (forall q ev cbs, In q preds -> Ev st' q = Some ev ->
                    simpy.callbacks ev = Some cbs -> In p cbs).
Proof.
  intros I PS CN NE st'.
  set (cnd := {| simpy.n_events := List.length preds; simpy._count := O;
                 simpy.cond_triggered := false |}).
  set (stc := set_conditions (dict_set p cnd (conditions st)) st).
  assert (E' : st' = set_events (reg_events p preds (completion_events st)) stc).
  { unfold st', new_AllOf. fold cnd. fold stc.
    destruct preds as [|a l]; [congruence|].
    apply (new_AllOf_fold p (a :: l) stc).
    intros q ev A. apply (x_start _ _ _ I p PS q ev A). }
  assert (ND : NoDup (keys (completion_events st))).
  { rewrite (s_events _ _ _ I). exact tasks0_keys. }
  assert (CE : forall p', Cd st' p' = if String.eqb p p' then Some cnd
                                      else Cd st p').
  { intros p'. rewrite E'. unfold Cd; simpl. apply sget_set. }
  assert (GE : forall q ev', Ev st' q = Some ev' ->
                 exists ev, Ev st q = Some ev /\ grown p ev ev' /\
                            (In q preds ->
                             forall cbs', simpy.callbacks ev' = Some cbs' ->
                                          In p cbs')).
  { intros q ev' A. rewrite E' in A. unfold Ev in A; simpl in A.
    apply reg_events_inv in A. exact A. }
  rewrite E'. rewrite E' in CE, GE. clear E' st'.
  set (st' := set_events (reg_events p preds (completion_events st)) stc) in *.
  split; [|split; [reflexivity|split]].
  - split; try (solve [apply I]).
    + simpl. rewrite keys_reg_events. apply I.
    + intros q ev' tq A B. destruct (GE _ _ A) as [ev [X [[Y _] _]]].
      rewrite Y. apply (e_trig _ _ _ I _ _ _ X B).
    + intros q ev' A B. destruct (GE _ _ A) as [ev [X [[Y Z] _]]].
      rewrite Y. apply (e_proc _ _ _ I _ _ X).
      rewrite B in Z. destruct (simpy.callbacks ev); tauto.
    + intros q ev' A. destruct (GE _ _ A) as [ev [X [[Y Z] _]]].
      rewrite Y. change (Qu st') with (Qu st).
      rewrite (e_queue _ _ _ I _ _ X).
      destruct (simpy.triggered ev); auto.
      destruct (simpy.callbacks ev), (simpy.callbacks ev'); tauto.
    + intros p' A q ev' B. destruct (GE _ _ B) as [ev [X [[Y Z] _]]].
      pose proof (x_start _ _ _ I p' A q ev X) as U.
      destruct (simpy.callbacks ev), (simpy.callbacks ev');
        try tauto; discriminate.
    + intros p' at_pc A B.
      apply (pcinv_frame st);
        [ reflexivity | auto | | reflexivity | eauto | |
          apply (p_inv _ _ _ I); auto ].
      * rewrite CE. destruct (String.eqb_spec p p'); [congruence|reflexivity].
      * intros q ev' cbs' X Y. destruct (GE _ _ X) as [ev [X1 [[_ Z] _]]].
        rewrite Y in Z. destruct (simpy.callbacks ev) as [cbs|] eqn:CB; [|tauto].
        exists ev, cbs. split; auto. split; auto. apply Z.
    + intros p'. pose proof (c_inv _ _ _ I p') as C. unfold cond_inv in *.
      rewrite CE. simpl completion_events.
      destruct (pend_reg_events p p' preds _ ND) as [PO PS'].
      destruct (String.eqb_spec p p') as [<-|N].
      * simpl. split; auto. rewrite CN in C. lia.
      * rewrite PO by congruence. exact C.
  - exists cnd. rewrite CE, String.eqb_refl. auto.
  - intros q ev cbs A B C. destruct (GE _ _ B) as [ev0 [_ [_ Z]]]. eauto.
Qed.

(** From the top of [_execute_task]. *)
Lemma seg_start_inv (p : string) (st : state) :
  Inv (Some p) [] st -> count (resumes p) (Qu st) = O ->
  Pc st p = Some Start -> Cd st p = None ->
  (PREDS p = [] -> now st == 0) ->
  Inv None []
      (settle p (seg_start topology task_definitions base_compute_speed p st)).
Proof.
  intros I R PS CN Z.
  destruct (p_hole _ _ _ I p eq_refl) as [[t [Tp Up]] Kp].
  destruct (s_static _ _ _ I _ _ Tp) as [Id _].
  assert (CO : forall c, Cd st p = Some c -> simpy.cond_triggered c = true)
    by (intros c A; congruence).
  unfold seg_start, the_task.
  change (dict_get p (scheduled_tasks st)) with (T st p). rewrite Tp, Id.
  destruct (dict_get (base_task_id p) task_definitions) as [td|] eqn:D.
  2:{ apply fail_hole; auto. intros _ td' X. congruence. }
  rewrite (_get_predecessors_keys _ _ (s_keys _ _ _ I)).
  rewrite filter_all.
  2:{ intros q A. apply PREDS_In in A. apply dict_mem_keys.
      now rewrite (s_events _ _ _ I). }
  destruct (PREDS p) as [|a l] eqn:PE.
  - assert (PP : forall q, In q (PREDS p) ->
                   exists ev, Ev st q = Some ev /\ simpy.callbacks ev = None).
    { rewrite PE. intros q []. }
    pose proof (seg_uplink_inv p td st I R CO D PP (fun _ => Z eq_refl)) as H.
    rewrite PE in H. exact H.
  - assert (NE : a :: l <> []) by discriminate.
    destruct (new_AllOf_inv p (a :: l) st I PS CN NE) as [I' [Q' [[c [C1 C2]] Rg]]].
    unfold settle; cbn [fst snd].
    set (st' := new_AllOf p (a :: l) st) in *.
    apply close_hole; auto; [discriminate| |eauto].
    unfold pcinv. split; [reflexivity|]. split; [exact D|]. split; [auto|].
    split; [|split; [exact Rg|]].
    + exists c. split; auto. rewrite Q', C2. exact R.
    + split; [apply (p_hole _ _ _ I' p eq_refl)|discriminate].
Qed.

(** From [scheduled_task.actual_end = self.env.now] to the end. *)
Lemma seg_finish_inv (p : string) (st : state) :
  Inv (Some p) [] st -> count (resumes p) (Qu st) = O ->
  (forall c, Cd st p = Some c -> simpy.cond_triggered c = true) ->
  (exists t a, T st p = Some t /\ ScheduledTask.actual_start t = Some a /\
               now st == a + ScheduledTask.compute_time t /\
               ended_before st p a (ScheduledTask.uplink_time t)) ->
  uplink_ok st p -> root_started st p ->
  Inv None [] (settle p (seg_finish p p st)).
Proof.
  intros I R CO [t [a [Tp [As [Nw EB]]]]] UO RS.
  destruct (p_hole _ _ _ I p eq_refl) as [[t_ [Tp_ Up]] Kp].
  rewrite Tp in Tp_. inversion Tp_; subst t_; clear Tp_.
  destruct (Ev_keys _ _ _ _ I Kp) as [ev Ep].
  assert (Tr : simpy.triggered ev = false).
  { destruct (simpy.triggered ev) eqn:X; auto.
    apply (e_trig _ _ _ I _ _ _ Ep Tp) in X. congruence. }
  assert (Cb : exists cbs, simpy.callbacks ev = Some cbs).
  { destruct (simpy.callbacks ev) as [cbs|] eqn:X; eauto.
    pose proof (e_proc _ _ _ I _ _ Ep X). congruence. }
  destruct Cb as [cbs Cb].
  set (t' := ScheduledTask.set_actual_end (now st) t).
  set (ev' := {| simpy.callbacks := simpy.callbacks ev;
                 simpy.triggered := true |}).
  set (st1 := update_task p (ScheduledTask.set_actual_end (now st)) st).
  assert (T1 : forall k, T st1 k = if String.eqb p k then option_map
                 (ScheduledTask.set_actual_end (now st)) (T st k) else T st k).
  { intros k. apply T_update_task. }
  unfold seg_finish. fold st1. unfold succeed, dict_item, bind.
  change (dict_get p (completion_events st1)) with (Ev st p).
  rewrite Ep, Tr. fold ev'. unfold the_task.
  match goal with
  | |- context [dict_get p (scheduled_tasks ?s)] =>
      change (dict_get p (scheduled_tasks s)) with (T st1 p)
  end.
  rewrite T1, String.eqb_refl, Tp. simpl option_map. fold t'.
  unfold settle; cbn [fst snd].
  match goal with |- Inv None [] ?s => set (S := s) end.
  assert (TS : forall k, T S k = if String.eqb p k then option_map
                 (ScheduledTask.set_actual_end (now st)) (T st k) else T st k)
    by exact T1.
  assert (ES : forall q, Ev S q = if String.eqb p q then Some ev' else Ev st q).
  { intros q. unfold Ev, S; simpl. apply sget_set. }
  assert (PS : forall k, Pc S k = if String.eqb p k then Some Exhausted
                                  else Pc st k).
  { intros k. unfold Pc, S; simpl. apply sget_set. }
  assert (QS : forall en, In en (Qu S) ->
                 In en (Qu st) \/ (time_of en = now st + 0 /\
                                   prio_of en = simpy.NORMAL /\
                                   (event_of en = simpy.Completion p \/
                                    event_of en = simpy.Process p (Ok tt)))).
  { intros en A. unfold Qu, S, schedule in A. simpl in A. unfold heappush in A.
    apply in_app_iff in A. destruct A as [A|[<-|[]]].
    - apply in_app_iff in A. destruct A as [A|[<-|[]]]; auto.
    - right. repeat split; auto. }
  assert (CS : forall f, count f (Qu S)
                         = (count f (Qu st)
                            + (if f (simpy.Completion p) then 1 else 0)
                            + (if f (simpy.Process p (Ok tt)) then 1 else 0))%nat).
  { intros f. unfold Qu, S, schedule; simpl. now rewrite !count_push. }
  assert (TE : forall q tq e, T st q = Some tq ->
                 ScheduledTask.actual_end tq = Some e ->
                 exists tq', T S q = Some tq' /\
                             ScheduledTask.actual_end tq' = Some e).
  { intros q tq e A B. rewrite TS.
    destruct (String.eqb_spec p q) as [EQ|N]; [subst q; congruence|eauto]. }
  assert (EBS : ended_before S p a (ScheduledTask.uplink_time t)).
  { intros q Iq. destruct (EB q Iq) as [tq [eq [A [B D]]]].
    destruct (TE _ _ _ A B) as [tq' [A' B']]. eauto. }
  split.
  - change (keys (scheduled_tasks S)) with (keys (scheduled_tasks st1)).
    unfold st1. rewrite keys_update_task. apply I.
  - intros k tk A. rewrite TS in A.
    destruct (String.eqb_spec p k) as [EQ|N]; [subst k|apply (s_static _ _ _ I _ _ A)].
    rewrite Tp in A. inversion A; subst tk. apply (s_static _ _ _ I _ _ Tp).
  - unfold S; simpl. apply keys_set_in; auto. apply I.
  - unfold S; simpl. apply keys_set_in; auto. apply I.
  - intros en A. destruct (QS _ A) as [B|[_ [_ [B|B]]]];
      [apply (s_queue _ _ _ I); auto|rewrite B; auto|rewrite B; auto].
  - apply I.
  - intros en A. change (now S) with (now st).
    destruct (QS _ A) as [B|[B _]]; [apply (t_queue _ _ _ I); auto|].
    rewrite B. lra.
  - intros en A. destruct (QS _ A) as [B|[_ [B [D|D]]]];
      [apply (t_prio _ _ _ I); auto|rewrite D; auto|rewrite D; auto].
  - intros q e tq A B. rewrite ES in A. rewrite TS in B.
    destruct (String.eqb_spec p q) as [EQ|N]; [subst q|].
    + rewrite Tp in B. inversion A; inversion B; subst. simpl.
      split; auto. discriminate.
    + apply (e_trig _ _ _ I _ _ _ A B).
  - intros q tq e A B. rewrite TS in A. rewrite PS.
    change (now S) with (now st).
    destruct (String.eqb_spec p q) as [EQ|N]; [subst q|].
    + rewrite Tp in A. inversion A; subst tq. simpl in B.
      inversion B; subst. split; auto. lra.
    + apply (e_end _ _ _ I _ _ _ A B).
  - intros q e A B. rewrite ES in A.
    destruct (String.eqb_spec p q) as [EQ|N]; [subst q|].
    + inversion A; subst. reflexivity.
    + apply (e_proc _ _ _ I _ _ A B).
  - intros q e A. rewrite ES in A. rewrite CS. simpl.
    destruct (String.eqb_spec p q) as [EQ|N]; [subst q|].
    + inversion A; subst e. simpl. rewrite Cb, String.eqb_refl.
      rewrite (e_queue _ _ _ I _ _ Ep), Tr. reflexivity.
    + destruct (String.eqb_spec q p); [congruence|].
      rewrite !Nat.add_0_r. apply (e_queue _ _ _ I _ _ A).
  - intros p' A q e B. rewrite PS in A. rewrite ES in B.
    destruct (String.eqb_spec p p') as [EQ|N]; [subst p'; discriminate|].
    destruct (String.eqb_spec p q) as [EQ|M]; [subst q|].
    + inversion B; subst e. simpl.
      apply (x_start _ _ _ I p' A p ev Ep).
    + apply (x_start _ _ _ I p' A q e B).
  - intros p' at_pc A _. rewrite PS in A.
    destruct (String.eqb_spec p p') as [EQ|N]; [subst p'|].
    + inversion A; subst at_pc. simpl. split; [|split].
      * rewrite CS. simpl. rewrite R. reflexivity.
      * intros tk e X Y. rewrite TS, String.eqb_refl, Tp in X.
        inversion X; subst tk. simpl in Y. inversion Y; subst e.
        exists a. split; [exact As|]. split; [exact Nw|].
        split; [exact EBS|].
        destruct UO as [tu [u [U1 [U2 U3]]]]. exists t', u.
        rewrite TS, String.eqb_refl, Tp. split; auto. split; auto.
        rewrite Tp in U1. inversion U1; subst. reflexivity.
      * intros PE td' D'.
        destruct (RS PE td' D') as [t0 [a0 [X1 [X2 [X3 X4]]]]].
        exists t', a0. rewrite TS, String.eqb_refl, Tp.
        rewrite Tp in X1. inversion X1; subst t0. auto.
    + apply (pcinv_frame st);
        [ | | reflexivity | | exact TE | |
          apply (p_inv _ _ _ I _ _ A); congruence ].
      * rewrite CS. simpl. lia.
      * intros en X Y. destruct (QS _ X) as [Z|[_ [_ [Z|Z]]]]; auto;
          rewrite Z in Y; discriminate.
      * rewrite TS. destruct (String.eqb_spec p p'); [congruence|reflexivity].
      * intros q e' cbs' X Y. rewrite ES in X.
        destruct (String.eqb_spec p q) as [EQ|M]; [subst q|].
        -- inversion X; subst e'. simpl in Y. exists ev, cbs'. auto.
        -- exists e', cbs'. auto.
  - discriminate.
  - intros p'. pose proof (c_inv _ _ _ I p') as C. unfold cond_inv in *.
    change (Cd S p') with (Cd st p').
    assert (PE : pend p' (completion_events S) = pend p' (completion_events st)).
    { unfold S; simpl.
      assert (ND : NoDup (keys (completion_events st))).
      { rewrite (s_events _ _ _ I). exact tasks0_keys. }
      pose proof (pend_set p' p ev ev' _ ND Ep) as X.
      unfold contrib in X. simpl in X. lia. }
    rewrite PE.
    destruct (Cd st p') as [c|] eqn:E; auto.
    destruct (simpy.cond_triggered c) eqn:F; auto.
    destruct C as [Wt C]. split; auto. left.
    destruct Wt as [[tid [td [preds Wt]]]|Wt].
    + exists tid, td, preds. rewrite PS.
      destruct (String.eqb_spec p p') as [EQ|N]; auto.
      subst p'. rewrite (CO _ E) in F. discriminate.
    + inversion Wt; subst p'. rewrite (CO _ E) in F. discriminate.
Qed.

(** *** One event *)

Lemma resumes_subject (p : string) (ev : simpy.event) :
  resumes p ev = true -> subject ev = p.
Proof.
  destruct ev; simpl; try discriminate; intros A;
    apply String.eqb_eq in A; auto.
Qed.

(** A popped event resumes its process. *)
Lemma resume_inv (st : state) (en : simpy.entry) (rest : list simpy.entry)
      (p : string) :
  Inv None [] st ->
  heappop simpy.entry_ltb (Qu st) = Some (en, rest) ->
  resumes p (event_of en) = true ->
  Inv None [] (_resume topology task_definitions base_compute_speed p
                       (popped st en rest)).
Proof.
  intros I P Rs.
  assert (I' : Inv (Some p) [] (popped st en rest)).
  { apply pop_frame; auto.
    - intros p' E. inversion E; subst. exact Rs.
    - discriminate.
    - intros q. destruct (event_of en); simpl in *; auto; discriminate. }
  pose proof (heappop_In _ _ _ _ P) as PIn.
  assert (Ien : In en (Qu st)) by (apply PIn; auto).
  assert (Kp : In p (keys tasks0)).
  { rewrite <- (resumes_subject _ _ Rs). apply (s_queue _ _ _ I); auto. }
  destruct (Pc_keys _ _ _ _ I Kp) as [at_pc Pp].
  assert (N : @None string <> Some p) by discriminate.
  pose proof (p_inv _ _ _ I _ _ Pp N) as PI.
  pose proof (count_pop (resumes p) _ _ _ P) as CP. rewrite Rs in CP.
  pose proof (c_inv _ _ _ I p) as CI. unfold cond_inv in CI.
  rewrite _resume_settle.
  change (Pc (popped st en rest) p) with (Pc st p). rewrite Pp.
  destruct at_pc as [|tid td preds|tid td|tid|]; simpl in PI.
  - destruct PI as [A [B [C D]]].
    apply seg_start_inv; auto.
    + change (count (resumes p) rest = O). lia.
    + intros _. pose proof (t_prio _ _ _ I en Ien) as TP.
      rewrite (D en Ien Rs) in TP. apply TP.
  - destruct PI as [-> [A [-> [[c [B C]] [D [E NE]]]]]].
    rewrite B in CI.
    destruct (simpy.cond_triggered c) eqn:F; [|lia].
    apply seg_uplink_inv; auto; [| | |intros PE; congruence].
    + change (count (resumes p) rest = O). lia.
    + intros c' X. change (Cd st p = Some c') in X. congruence.
    + intros q Iq.
      destruct (Ev_keys _ _ _ _ I (PREDS_In _ _ Iq)) as [ev Eq].
      exists ev. split; auto.
      destruct (simpy.callbacks ev) as [cbs|] eqn:G; auto.
      pose proof (D q ev cbs Iq Eq G) as X. apply occ_In in X.
      pose proof (pend_ge p q ev _ Eq) as Y. unfold contrib in Y.
      rewrite G in Y. lia.
  - destruct PI as [-> [A [B [[t [a0 [C [D [E [F [G H]]]]]]] J]]]].
    apply seg_compute_inv; auto.
    + change (count (resumes p) rest = O). lia.
    + intros c X. change (Cd st p = Some c) in X. rewrite X in CI.
      destruct (simpy.cond_triggered c); auto.
      destruct CI as [[[tid [td' [preds W]]]|W] _]; congruence.
    + intros t' X. change (T st p = Some t') in X. rewrite C in X.
      inversion X; subst t'.
      pose proof (F en Ien Rs) as Tm. simpl in Tm.
      intros q Iq. destruct (H q Iq) as [tq [eq [X1 [X2 [X3 X4]]]]].
      exists tq, eq. split; auto. split; auto.
      unfold now; simpl. split; lra.
    + intros PE. exfalso. destruct J as [tu [u [J1 [J2 J3]]]].
      unfold uplink0 in J2. rewrite PE in J2. simpl in J2.
      assert (UZ : ScheduledTask.uplink_time t = 0) by congruence.
      rewrite UZ in G. lra.
  - destruct PI as [-> [A [[t [a [C [D [E [F H]]]]]] [J K]]]].
    apply seg_finish_inv; auto.
    + change (count (resumes p) rest = O). lia.
    + intros c X. change (Cd st p = Some c) in X. rewrite X in CI.
      destruct (simpy.cond_triggered c); auto.
      destruct CI as [[[tid [td' [preds W]]]|W] _]; congruence.
    + exists t, a. split; auto. split; auto. split; auto.
      apply (F en Ien Rs).
  - destruct PI as [A _]. lia.
Qed.

(** The condition of [p] after one more of its events has been counted;
    [tr] says whether that makes it fire. *)
Definition checked (p : string) (c : simpy.Condition) (tr : bool) (st : state)
  : state :=
  let st1 :=
    set_conditions
      (dict_set p {| simpy.n_events := simpy.n_events c;
                     simpy._count := S (simpy._count c);
                     simpy.cond_triggered := tr |} (conditions st)) st in
  if tr then schedule (simpy.AllOf p) simpy.NORMAL 0 st1 else st1.

Lemma checked_inv (p : string) (rem : list string) (c : simpy.Condition)
      (tr : bool) (st : state) :
  Inv None (p :: rem) st -> Cd st p = Some c ->
  simpy.cond_triggered c = false ->
  (tr = true -> simpy.n_events c = S (simpy._count c)) ->
  Inv None rem (checked p c tr st).
Proof.
  intros I Cp Tc Htr.
  assert (OC : forall p', occ p' (p :: rem)
                          = ((if String.eqb p' p then 1 else 0) + occ p' rem)%nat).
  { intros p'. unfold occ. simpl. destruct (String.eqb p' p); reflexivity. }
  pose proof (c_inv _ _ _ I p) as CI. unfold cond_inv in CI.
  rewrite OC, String.eqb_refl, Cp, Tc in CI.
  destruct CI as [[[tid [td [preds Wp]]]|Wp] CI]; [|discriminate].
  assert (N : forall x : string, @None string <> Some x) by discriminate.
  pose proof (p_inv _ _ _ I _ _ Wp (N p)) as PI. simpl in PI.
  destruct PI as [-> [A [-> [[c0 [B C]] [D [E NE0]]]]]].
  rewrite Cp in B. inversion B; subst c0; clear B. rewrite Tc in C.
  assert (Kp : In p (keys tasks0)) by (eapply Pc_In; eauto).
  set (c' := {| simpy.n_events := simpy.n_events c;
                simpy._count := S (simpy._count c);
                simpy.cond_triggered := tr |}).
  set (S := checked p c tr st).
  set (new := (now st + 0, simpy.NORMAL, simpy._eid (env st), simpy.AllOf p)).
  assert (HN : now S = now st) by (unfold S, checked; destruct tr; reflexivity).
  assert (HT : scheduled_tasks S = scheduled_tasks st)
    by (unfold S, checked; destruct tr; reflexivity).
  assert (HE : completion_events S = completion_events st)
    by (unfold S, checked; destruct tr; reflexivity).
  assert (HP : procs S = procs st)
    by (unfold S, checked; destruct tr; reflexivity).
  assert (CE : forall p', Cd S p' = if String.eqb p p' then Some c'
                                    else Cd st p').
  { intros p'. unfold Cd, S, checked. destruct tr; simpl; apply sget_set. }
  assert (QI : forall en, In en (Qu S) -> In en (Qu st) \/ en = new).
  { intros en X. unfold S, checked in X. destruct tr; auto.
    unfold Qu, schedule in X. simpl in X. unfold heappush in X.
    apply in_app_iff in X. destruct X as [X|[X|[]]]; auto. }
  assert (QC : forall f, count f (Qu S)
                         = (count f (Qu st)
                            + if tr then (if f (simpy.AllOf p) then 1 else 0)
                              else 0)%nat).
  { intros f. unfold S, checked. destruct tr.
    - unfold Qu, schedule; simpl. now rewrite count_push.
    - unfold Qu; simpl. lia. }
  split.
  - rewrite HT. apply I.
  - unfold T. rewrite HT. apply I.
  - rewrite HE. apply I.
  - rewrite HP. apply I.
  - intros en X. destruct (QI _ X) as [Y| ->];
      [apply (s_queue _ _ _ I); auto|exact Kp].
  - rewrite HN. apply I.
  - intros en X. rewrite HN. destruct (QI _ X) as [Y| ->];
      [apply (t_queue _ _ _ I); auto|]. unfold time_of; simpl. lra.
  - intros en X. destruct (QI _ X) as [Y| ->];
      [apply (t_prio _ _ _ I); auto|reflexivity].
  - unfold Ev, T. rewrite HE, HT. apply I.
  - unfold T, Pc. rewrite HT, HN, HP. apply I.
  - unfold Ev. rewrite HE. apply I.
  - intros q ev X. unfold Ev in X. rewrite HE in X.
    rewrite QC. simpl. replace (if tr then 0%nat else 0%nat) with O
      by (destruct tr; reflexivity).
    rewrite Nat.add_0_r. apply (e_queue _ _ _ I _ _ X).
  - unfold Pc, Ev. rewrite HP, HE. apply I.
  - intros p' at_pc X _. unfold Pc in X. rewrite HP in X.
    pose proof (p_inv _ _ _ I _ _ X (N p')) as PI.
    destruct (String.eqb_spec p p') as [EQ|NE].
    + subst p'. change (Pc st p = Some at_pc) in X. rewrite Wp in X.
      inversion X; subst at_pc. simpl.
      split; [reflexivity|]. split; [exact A|]. split; [reflexivity|].
      split; [|split].
      * exists c'. rewrite CE, String.eqb_refl. split; auto.
        rewrite QC. simpl. rewrite String.eqb_refl, C.
        destruct tr; reflexivity.
      * intros q ev cbs X1 X2 X3. unfold Ev in X2. rewrite HE in X2.
        eapply D; eauto.
      * split; [|exact NE0].
        destruct E as [t [E1 E2]]. exists t. unfold T. rewrite HT. auto.
    + apply (pcinv_frame st); auto.
      * rewrite QC. simpl. destruct (String.eqb_spec p' p); [congruence|].
        destruct tr; lia.
      * intros en X1 X2. destruct (QI _ X1) as [Y| ->]; auto.
        simpl in X2. apply String.eqb_eq in X2. congruence.
      * rewrite CE. destruct (String.eqb_spec p p'); [congruence|reflexivity].
      * unfold T. now rewrite HT.
      * intros q tq e X1 X2. exists tq. unfold T. rewrite HT. auto.
      * intros q ev' cbs' X1 X2. unfold Ev in X1. rewrite HE in X1.
        exists ev', cbs'. auto.
  - discriminate.
  - intros p'. pose proof (c_inv _ _ _ I p') as CI'. unfold cond_inv in *.
    rewrite CE, HE. rewrite OC in CI'.
    destruct (String.eqb_spec p p') as [EQ|NE].
    + subst p'. simpl. destruct tr.
      * specialize (Htr eq_refl). lia.
      * split; [|lia]. left. exists p, td, (PREDS p).
        unfold Pc. rewrite HP. exact Wp.
    + destruct (String.eqb_spec p' p); [congruence|].
      simpl in CI'.
      destruct (Cd st p') as [c1|]; auto.
      destruct (simpy.cond_triggered c1); auto.
      destruct CI' as [[W|W] CI']; [|discriminate].
      split; auto. left. destruct W as [a [b [d W]]].
      exists a, b, d. unfold Pc. rewrite HP. exact W.
Qed.

(** One callback of a completion event: [Condition._check]. *)
Lemma check_inv (p : string) (rem : list string) (st : state) :
  Inv None (p :: rem) st -> Inv None rem (_check p st).
Proof.
  intros I.
  pose proof (c_inv _ _ _ I p) as CI. unfold cond_inv in CI.
  assert (OC : (0 < occ p (p :: rem))%nat) by (apply occ_In; simpl; auto).
  unfold _check. change (dict_get p (conditions st)) with (Cd st p).
  destruct (Cd st p) as [c|] eqn:Cp; [|lia].
  destruct (simpy.cond_triggered c) eqn:Tc; [lia|].
  destruct (Nat.eqb (simpy.n_events c) (S (simpy._count c))) eqn:Eq.
  - apply Nat.eqb_eq in Eq.
    apply (checked_inv p rem c true st I Cp Tc). auto.
  - apply (checked_inv p rem c false st I Cp Tc). discriminate.
Qed.

Lemma fold_check_inv (rem : list string) : forall st,
  Inv None rem st -> Inv None [] (fold_left (fun st p => _check p st) rem st).
Proof.
  induction rem as [|p rem IH]; intros st I; simpl; auto.
  apply IH. now apply check_inv.
Qed.

(** While a process waits to be started, nothing else is popped. *)
Lemma no_start_behind (st : state) (en : simpy.entry)
      (rest : list simpy.entry) (p : string) :
  Inv None [] st ->
  heappop simpy.entry_ltb (Qu st) = Some (en, rest) ->
  prio_of en = 1%nat -> Pc st p <> Some Start.
Proof.
  intros I P Pr PS.
  pose proof (heappop_In _ _ _ _ P) as PIn.
  pose proof (heappop_min _ queue_ltb_asym queue_ltb_negtrans _ _ _ P) as PMin.
  assert (Ien : In en (Qu st)) by (apply PIn; auto).
  assert (N : @None string <> Some p) by discriminate.
  destruct (p_inv _ _ _ I _ _ PS N) as [A [_ [_ B]]].
  destruct (count_pos (resumes p) (Qu st)) as [en' [I' R']]; [lia|].
  pose proof (t_prio _ _ _ I en' I') as TP. rewrite (B _ I' R') in TP.
  destruct TP as [P0 T0].
  pose proof (PMin _ I') as L.
  pose proof (queue_ltb_false_time _ _ L) as L1.
  pose proof (t_queue _ _ _ I _ Ien) as L2.
  pose proof (t_now _ _ _ I) as L3.
  assert (TE : time_of en' == time_of en) by lra.
  pose proof (queue_ltb_false_prio _ _ L TE). lia.
Qed.

(** The state in which the callbacks of the completion event of [q] run:
    the event is marked as processed. *)
Definition opened (q : string) (st : state) (en : simpy.entry)
           (rest : list simpy.entry) : state :=
  set_events (dict_set q {| simpy.callbacks := None; simpy.triggered := true |}
                       (completion_events st)) (popped st en rest).

Lemma completion_shape (st : state) (en : simpy.entry)
      (rest : list simpy.entry) (q : string) :
  Inv None [] st ->
  heappop simpy.entry_ltb (Qu st) = Some (en, rest) ->
  event_of en = simpy.Completion q ->
  exists ev cbs,
    Ev st q = Some ev /\ simpy.callbacks ev = Some cbs /\
    simpy.triggered ev = true /\
    fire topology task_definitions base_compute_speed
         (simpy.Completion q) (popped st en rest)
    = (fold_left (fun st p => _check p st) cbs (opened q st en rest), None) /\
    Inv None cbs (opened q st en rest).
Proof.
  intros I P Eq.
  pose proof (heappop_In _ _ _ _ P) as PIn.
  pose proof (heappop_min _ queue_ltb_asym queue_ltb_negtrans _ _ _ P) as PMin.
  assert (Ien : In en (Qu st)) by (apply PIn; auto).
  assert (Sub : forall x, In x rest -> In x (Qu st)) by (intros; apply PIn; auto).
  assert (Now : now st <= time_of en) by (apply (t_queue _ _ _ I); auto).
  assert (Kq : In q (keys tasks0)).
  { pose proof (s_queue _ _ _ I _ Ien) as A. now rewrite Eq in A. }
  destruct (Ev_keys _ _ _ _ I Kq) as [ev Eq'].
  pose proof (e_queue _ _ _ I _ _ Eq') as EQ.
  pose proof (count_pop (completes q) _ _ _ P) as CP.
  rewrite Eq in CP. simpl in CP. rewrite String.eqb_refl in CP.
  destruct (simpy.triggered ev) eqn:Tr; [|lia].
  destruct (simpy.callbacks ev) as [cbs|] eqn:Cb; [|lia].
  assert (Pr : prio_of en = 1%nat).
  { pose proof (t_prio _ _ _ I _ Ien) as A. now rewrite Eq in A. }
  unfold fire.
  change (dict_get q (completion_events (popped st en rest))) with (Ev st q).
  rewrite Eq', Cb, Tr.
  exists ev, cbs. split; [reflexivity|]. split; [exact Cb|].
  split; [exact Tr|]. split; [reflexivity|]. unfold opened.
  set (ev' := {| simpy.callbacks := None; simpy.triggered := true |}).
  match goal with |- Inv None cbs ?s => set (S := s) end.
  assert (ES : forall k, Ev S k = if String.eqb q k then Some ev' else Ev st k).
  { intros k. unfold Ev, S; simpl. apply sget_set. }
  assert (N : forall x : string, @None string <> Some x) by discriminate.
  split; try (solve [apply I]).
  - unfold S; simpl. apply keys_set_in; auto. apply I.
  - intros x A. apply (s_queue _ _ _ I). auto.
  - unfold now; simpl. pose proof (t_now _ _ _ I). lra.
  - intros x A. unfold now; simpl.
    apply queue_ltb_false_time, PMin, Sub, A.
  - intros x A. apply (t_prio _ _ _ I). auto.
  - intros k e tk A B. rewrite ES in A.
    destruct (String.eqb_spec q k) as [EQk|NE].
    + subst k. inversion A; subst e. simpl.
      pose proof (e_trig _ _ _ I _ _ _ Eq' B) as X. rewrite Tr in X. exact X.
    + apply (e_trig _ _ _ I _ _ _ A B).
  - intros k tk e A B. destruct (e_end _ _ _ I _ _ _ A B) as [C D].
    split; auto. unfold now; simpl. lra.
  - intros k e A B. rewrite ES in A.
    destruct (String.eqb_spec q k) as [EQk|NE].
    + inversion A; subst e. reflexivity.
    + apply (e_proc _ _ _ I _ _ A B).
  - intros k e A. rewrite ES in A. change (Qu S) with rest.
    destruct (String.eqb_spec q k) as [EQk|NE].
    + subst k. inversion A; subst e. simpl. lia.
    + rewrite <- (e_queue _ _ _ I _ _ A).
      rewrite (count_pop (completes k) _ _ _ P), Eq. simpl.
      destruct (String.eqb_spec k q); [congruence|reflexivity].
  - intros p A. exfalso.
    exact (no_start_behind st en rest p I P Pr A).
  - intros p at_pc A _.
    apply (pcinv_frame st);
      [ | intros x X _; apply Sub, X | reflexivity | reflexivity
        | intros k tk e X Y; exists tk; auto | |
        apply (p_inv _ _ _ I _ _ A (N p)) ].
    + change (Qu S) with rest.
      rewrite (count_pop (resumes p) _ _ _ P), Eq. reflexivity.
    + intros k e cbs' X Y. rewrite ES in X.
      destruct (String.eqb_spec q k) as [EQk|NE].
      * inversion X; subst e. discriminate.
      * exists e, cbs'. auto.
  - intros p. pose proof (c_inv _ _ _ I p) as C. unfold cond_inv in *.
    assert (PE : (pend p (completion_events S) + occ p cbs
                  = pend p (completion_events st))%nat).
    { unfold S; simpl.
      assert (ND : NoDup (keys (completion_events st))).
      { rewrite (s_events _ _ _ I). exact tasks0_keys. }
      pose proof (pend_set p q ev ev' _ ND Eq') as X.
      unfold contrib in X. rewrite Cb in X. simpl in X. lia. }
    change (Cd S p) with (Cd st p). change (waiting S p) with (waiting st p).
    unfold occ in C at 1 2 3. simpl in C. rewrite !Nat.add_0_r in C.
    destruct (Cd st p) as [c|]; [|lia].
    destruct (simpy.cond_triggered c); [lia|].
    destruct C as [W C]. split; auto. lia.
Qed.

(** A popped completion event runs its callbacks. *)
Lemma completion_open (st : state) (en : simpy.entry)
      (rest : list simpy.entry) (q : string) :
  Inv None [] st ->
  heappop simpy.entry_ltb (Qu st) = Some (en, rest) ->
  event_of en = simpy.Completion q ->
  exists cbs S,
    fire topology task_definitions base_compute_speed
         (simpy.Completion q) (popped st en rest)
    = (fold_left (fun st p => _check p st) cbs S, None) /\
    Inv None cbs S /\
    procs S = procs st /\ conditions S = conditions st /\ Qu S = rest.
Proof.
  intros I P Eq.
  destruct (completion_shape st en rest q I P Eq)
    as [ev [cbs [_ [_ [_ [F IS]]]]]].
  exists cbs, (opened q st en rest). split; [exact F|]. split; [exact IS|].
  repeat split.
Qed.

Lemma completion_inv (st : state) (en : simpy.entry)
      (rest : list simpy.entry) (q : string) :
  Inv None [] st ->
  heappop simpy.entry_ltb (Qu st) = Some (en, rest) ->
  event_of en = simpy.Completion q ->
  exists st', fire topology task_definitions base_compute_speed
                   (simpy.Completion q) (popped st en rest) = (st', None) /\
              Inv None [] st'.
Proof.
  intros I P Eq.
  destruct (completion_open st en rest q I P Eq) as [cbs [S [F [IS _]]]].
  eexists. split; [exact F|]. now apply fold_check_inv.
Qed.

(** One step of the event loop keeps everything. *)
Theorem step_inv (st st' : state) (err : option exn) :
  Inv None [] st ->
  step topology task_definitions base_compute_speed st = Some (st', err) ->
  Inv None [] st'.
Proof.
  intros I S.
  destruct (heappop simpy.entry_ltb (Qu st)) as [[en rest]|] eqn:P.
  2:{ unfold step in S. unfold Qu in P. rewrite P in S. discriminate. }
  rewrite (step_popped _ _ _ P) in S. inversion S as [F]; clear S.
  destruct (event_of en) as [p|q|p|p|p r] eqn:Eq.
  - simpl in F. inversion F; subst.
    apply resume_inv; auto. rewrite Eq. simpl. apply String.eqb_refl.
  - destruct (completion_inv st en rest q I P Eq) as [s1 [F1 I1]].
    rewrite F1 in F. inversion F; subst. exact I1.
  - simpl in F. inversion F; subst.
    apply resume_inv; auto. rewrite Eq. simpl. apply String.eqb_refl.
  - simpl in F. inversion F; subst.
    apply resume_inv; auto. rewrite Eq. simpl. apply String.eqb_refl.
  - assert (I' : Inv None [] (popped st en rest)).
    { apply pop_frame; auto.
      - discriminate.
      - intros _ p'. now rewrite Eq.
      - intros q. now rewrite Eq. }
    simpl in F. destruct r; inversion F; subst; exact I'.
Qed.

(** *** A measure that every step decreases *)

Definition wt (c : option simpy.Condition) (at_pc : pc) : nat :=
  match at_pc with
  | Start => 5
  | WaitPreds _ _ _ =>
      match c with
      | Some c => if simpy.cond_triggered c then 4 else 5
      | None => 5
      end
  | Uplink _ _ => 3
  | Compute _ => 2
  | Exhausted => 0
  end.

Definition wsum (w : string -> pc -> nat) (ps : dict string pc) : nat :=
  list_sum (map (fun kv => w (fst kv) (snd kv)) ps).

Definition potential (st : state) : nat :=
  (List.length (Qu st) + wsum (fun p => wt (Cd st p)) (procs st))%nat.

Definition cost (o : outcome) : nat :=
  match o with
  | Suspended at_pc => wt None at_pc
  | _ => 1
  end.

Lemma wt_le c at_pc : (wt c at_pc <= wt None at_pc)%nat.
Proof.
  destruct at_pc; simpl; auto.
  destruct c as [c|]; auto. destruct (simpy.cond_triggered c); auto.
Qed.

Lemma wsum_ext w w' (ps : dict string pc) :
  (forall p a, In p (keys ps) -> w' p a = w p a) -> wsum w' ps = wsum w ps.
Proof.
  induction ps as [|[k v] ps IH]; simpl; intros A; auto.
  unfold wsum in *. simpl. rewrite IH, A; auto.
Qed.

Lemma wsum_set w p a a' (ps : dict string pc) :
  dict_get p ps = Some a ->
  (wsum w (dict_set p a' ps) + w p a = wsum w ps + w p a')%nat.
Proof.
  induction ps as [|[k v] ps IH]; simpl; [discriminate|].
  destruct (String.eqb_spec p k) as [EQ|N]; intros A.
  - inversion A; subst. unfold wsum; simpl. lia.
  - specialize (IH A). unfold wsum in *; simpl. lia.
Qed.

Lemma wsum_change w w' p a (ps : dict string pc) :
  NoDup (keys ps) -> dict_get p ps = Some a ->
  (forall p' a', p' <> p -> w' p' a' = w p' a') ->
  (wsum w' ps + w p a = wsum w ps + w' p a)%nat.
Proof.
  induction ps as [|[k v] ps IH]; simpl; [discriminate|].
  intros ND A B. inversion ND; subst.
  destruct (String.eqb_spec p k) as [EQ|N].
  - inversion A; subst.
    assert (X : wsum w' ps = wsum w ps).
    { apply wsum_ext. intros p' a' I. apply B. congruence. }
    unfold wsum in *; simpl. lia.
  - specialize (IH H2 A B). unfold wsum in *; simpl.
    rewrite (B k v) by congruence. lia.
Qed.

Lemma length_schedule ev pr d st :
  List.length (Qu (schedule ev pr d st)) = S (List.length (Qu st)).
Proof.
  unfold Qu, schedule; simpl. unfold heappush. rewrite length_app. simpl. lia.
Qed.

(** What a segment may do to the measure: [b] bounds what it leaves for
    the process at work. *)
Definition bounded (p : string) (st : state) (r : state * outcome) (b : nat)
  : Prop :=
  procs (fst r) = procs st /\
  (forall p', p' <> p -> Cd (fst r) p' = Cd st p') /\
  (List.length (Qu (fst r)) + cost (snd r) <= List.length (Qu st) + b)%nat.

Lemma bounded_frame p st st2 r b b' :
  procs st2 = procs st -> conditions st2 = conditions st -> Qu st2 = Qu st ->
  (b <= b')%nat -> bounded p st2 r b -> bounded p st r b'.
Proof.
  intros A B C D [E [F G]]. unfold bounded, Cd in *.
  rewrite <- A, <- B, <- C. repeat split; auto. lia.
Qed.

Lemma settle_potential p r st old b :
  Pc st p = Some old -> NoDup (keys (procs st)) ->
  bounded p st r b -> (b <= wt (Cd st p) old)%nat ->
  (potential (settle p r) <= potential st)%nat.
Proof.
  intros Pp ND [B1 [B2 B3]] Le. destruct r as [st' o]. simpl in *.
  pose proof (wsum_change (fun p => wt (Cd st p)) (fun p => wt (Cd st' p))
                p old (procs st) ND Pp) as X.
  assert (X' := X (fun p' a' N => f_equal (fun c => wt c a') (B2 p' N))).
  clear X. cbv beta in X'.
  unfold potential.
  destruct o as [at_pc| |e]; unfold settle; cbn [fst snd].
  - change (Qu (set_procs (dict_set p at_pc (procs st')) st')) with (Qu st').
    cbn [procs set_procs].
    change (Cd (set_procs (dict_set p at_pc (procs st')) st')) with (Cd st').
    rewrite B1.
    pose proof (wsum_set (fun p => wt (Cd st' p)) p old at_pc (procs st) Pp).
    pose proof (wt_le (Cd st' p) at_pc). simpl in B3. lia.
  - rewrite length_schedule.
    change (Qu (set_procs (dict_set p Exhausted (procs st')) st')) with (Qu st').
    unfold schedule. cbn [procs set_procs set_env].
    match goal with |- context [wsum (fun p0 => wt (Cd ?s p0))] =>
      change (Cd s) with (Cd st') end.
    rewrite B1.
    pose proof (wsum_set (fun p => wt (Cd st' p)) p old Exhausted (procs st) Pp).
    simpl in *. lia.
  - rewrite length_schedule.
    change (Qu (set_procs (dict_set p Exhausted (procs st')) st')) with (Qu st').
    unfold schedule. cbn [procs set_procs set_env].
    match goal with |- context [wsum (fun p0 => wt (Cd ?s p0))] =>
      change (Cd s) with (Cd st') end.
    rewrite B1.
    pose proof (wsum_set (fun p => wt (Cd st' p)) p old Exhausted (procs st) Pp).
    simpl in *. lia.
Qed.

Ltac bounded_here :=
  unfold bounded; cbn [fst snd cost wt]; split; [reflexivity|];
  split; [reflexivity|];
  unfold Qu, schedule, update_task; simpl; unfold heappush;
  rewrite ?length_app; simpl; lia.

Lemma seg_compute_bounded p tid td st :
  bounded p st (seg_compute topology base_compute_speed p tid td st) 3.
Proof.
  unfold seg_compute. cbv zeta.
  destruct (the_task _ _); [|bounded_here].
  destruct (DAGTopology.get_compute_time _ _ _ _); [|bounded_here].
  unfold timeout. destruct (Qltb _ _); bounded_here.
Qed.

Lemma seg_uplink_bounded p tid td preds st :
  bounded p st
    (seg_uplink topology task_definitions base_compute_speed p tid td preds st)
    4.
Proof.
  unfold seg_uplink. cbv zeta.
  destruct (uplink_of _ _ _ _ _ _) as [u|]; [|bounded_here].
  destruct (Qltb 0 u).
  - unfold timeout. destruct (Qltb _ _); bounded_here.
  - eapply bounded_frame; [| | | |apply seg_compute_bounded];
      try reflexivity. lia.
Qed.

Lemma seg_finish_bounded p tid st : bounded p st (seg_finish p tid st) 2.
Proof.
  unfold seg_finish, succeed, dict_item. cbv zeta.
  destruct (dict_get tid _) as [ev|]; [|bounded_here]. simpl.
  destruct (simpy.triggered ev); [bounded_here|].
  destruct (the_task _ _); bounded_here.
Qed.

Lemma seg_start_bounded p st :
  (forall q ev, Ev st q = Some ev -> simpy.callbacks ev <> None) ->
  bounded p st (seg_start topology task_definitions base_compute_speed p st) 5.
Proof.
  intros U. unfold seg_start. cbv zeta.
  destruct (the_task _ _) as [t|]; [|bounded_here].
  destruct (dict_get _ task_definitions) as [td|]; [|bounded_here].
  destruct (filter _ _) as [|a l] eqn:F.
  - eapply bounded_frame; [| | | |apply seg_uplink_bounded];
      try reflexivity. lia.
  - unfold new_AllOf. cbv zeta. rewrite new_AllOf_fold by exact U.
    unfold bounded; cbn [fst snd cost wt]. split; [reflexivity|].
    split.
    + intros p' N. unfold Cd; simpl. rewrite sget_set.
      destruct (String.eqb_spec p p'); [congruence|reflexivity].
    + unfold Qu. simpl. lia.
Qed.

Lemma potential_popped st en rest :
  heappop simpy.entry_ltb (Qu st) = Some (en, rest) ->
  S (potential (popped st en rest)) = potential st.
Proof.
  intros P. unfold potential. rewrite (heappop_length _ _ _ _ P).
  reflexivity.
Qed.

Lemma procs_NoDup h rem st : Inv h rem st -> NoDup (keys (procs st)).
Proof. intros I. rewrite (s_procs _ _ _ I). exact tasks0_keys. Qed.

Lemma resume_potential (st : state) (en : simpy.entry)
      (rest : list simpy.entry) (p : string) :
  Inv None [] st ->
  heappop simpy.entry_ltb (Qu st) = Some (en, rest) ->
  resumes p (event_of en) = true ->
  (potential (_resume topology task_definitions base_compute_speed p
                      (popped st en rest)) < potential st)%nat.
Proof.
  intros I P Rs.
  pose proof (heappop_In _ _ _ _ P) as PIn.
  assert (Ien : In en (Qu st)) by (apply PIn; auto).
  assert (Kp : In p (keys tasks0)).
  { rewrite <- (resumes_subject _ _ Rs). apply (s_queue _ _ _ I); auto. }
  destruct (Pc_keys _ _ _ _ I Kp) as [at_pc Pp].
  assert (N : @None string <> Some p) by discriminate.
  pose proof (p_inv _ _ _ I _ _ Pp N) as PI.
  pose proof (count_pop (resumes p) _ _ _ P) as CP. rewrite Rs in CP.
  rewrite <- (potential_popped _ _ _ P). apply Nat.lt_succ_r.
  rewrite _resume_settle.
  change (Pc (popped st en rest) p) with (Pc st p). rewrite Pp.
  assert (ND : NoDup (keys (procs (popped st en rest))))
    by apply (procs_NoDup _ _ _ I).
  destruct at_pc as [|tid td preds|tid td|tid|]; simpl in PI.
  - eapply (settle_potential p _ (popped st en rest) Start);
      [exact Pp|exact ND|apply seg_start_bounded|simpl; lia].
    intros q ev A. apply (x_start _ _ _ I p Pp q ev A).
  - destruct PI as [-> [A [-> [[c [B C]] [D E]]]]].
    destruct (simpy.cond_triggered c) eqn:F; [|lia].
    eapply (settle_potential p _ (popped st en rest));
      [exact Pp|exact ND|apply seg_uplink_bounded|].
    change (Cd (popped st en rest) p) with (Cd st p).
    rewrite B. simpl. rewrite F. lia.
  - eapply (settle_potential p _ (popped st en rest));
      [exact Pp|exact ND|apply seg_compute_bounded|simpl; lia].
  - eapply (settle_potential p _ (popped st en rest));
      [exact Pp|exact ND|apply seg_finish_bounded|simpl; lia].
  - destruct PI as [A _]. lia.
Qed.

Lemma check_potential (p : string) (rem : list string) (st : state) :
  Inv None (p :: rem) st -> (potential (_check p st) <= potential st)%nat.
Proof.
  intros I.
  pose proof (c_inv _ _ _ I p) as CI. unfold cond_inv in CI.
  unfold _check. change (dict_get p (conditions st)) with (Cd st p).
  destruct (Cd st p) as [c|] eqn:Cp; [|lia].
  destruct (simpy.cond_triggered c) eqn:Tc; [lia|].
  destruct CI as [[[tid [td [preds Wp]]]|Wp] _]; [|discriminate].
  pose proof (procs_NoDup _ _ _ I) as ND.
  assert (X : forall c',
            (wsum (fun p0 => wt (if String.eqb p p0 then Some c' else Cd st p0))
                  (procs st)
             + 5
             = wsum (fun p0 => wt (Cd st p0)) (procs st)
               + (if simpy.cond_triggered c' then 4 else 5))%nat).
  { intros c'.
    pose proof (wsum_change (fun p0 => wt (Cd st p0))
                  (fun p0 => wt (if String.eqb p p0 then Some c' else Cd st p0))
                  p _ (procs st) ND Wp) as X.
    cbv beta in X. rewrite String.eqb_refl, Cp in X. simpl in X.
    rewrite Tc in X. apply X.
    intros p' a' N. destruct (String.eqb_spec p p'); [congruence|reflexivity]. }
  assert (CE : forall c' s, conditions s = dict_set p c' (conditions st) ->
                 procs s = procs st ->
                 wsum (fun p0 => wt (Cd s p0)) (procs s)
                 = wsum (fun p0 => wt (if String.eqb p p0 then Some c'
                                       else Cd st p0)) (procs st)).
  { intros c' s A B. rewrite B. apply wsum_ext. intros p0 a0 _.
    unfold Cd. rewrite A, sget_set. reflexivity. }
  destruct (Nat.eqb _ _); unfold potential.
  - rewrite length_schedule.
    erewrite CE; [|reflexivity|reflexivity].
    match goal with |- context [wsum (fun p0 => wt (if _ then Some ?c' else _))] =>
      specialize (X c') end.
    simpl in X. unfold Qu at 1. simpl. unfold Qu. lia.
  - erewrite CE; [|reflexivity|reflexivity].
    match goal with |- context [wsum (fun p0 => wt (if _ then Some ?c' else _))] =>
      specialize (X c') end.
    simpl in X. unfold Qu at 1. simpl. unfold Qu. lia.
Qed.

Lemma fold_check_potential (rem : list string) : forall st,
  Inv None rem st ->
  (potential (fold_left (fun st p => _check p st) rem st) <= potential st)%nat.
Proof.
  induction rem as [|p rem IH]; intros st I; simpl; auto.
  eapply Nat.le_trans; [apply IH; now apply check_inv|].
  eapply check_potential; eauto.
Qed.

(** Every step makes the measure smaller. *)
Theorem step_potential (st st' : state) (err : option exn) :
  Inv None [] st ->
  step topology task_definitions base_compute_speed st = Some (st', err) ->
  (potential st' < potential st)%nat.
Proof.
  intros I S.
  destruct (heappop simpy.entry_ltb (Qu st)) as [[en rest]|] eqn:P.
  2:{ unfold step in S. unfold Qu in P. rewrite P in S. discriminate. }
  rewrite (step_popped _ _ _ P) in S. inversion S as [F]; clear S.
  destruct (event_of en) as [p|q|p|p|p r] eqn:Eq.
  - simpl in F. inversion F; subst.
    apply resume_potential; auto. rewrite Eq. simpl. apply String.eqb_refl.
  - destruct (completion_open st en rest q I P Eq)
      as [cbs [S [F1 [IS [S1 [S2 S3]]]]]].
    rewrite F1 in F. inversion F; subst.
    eapply Nat.le_lt_trans; [apply fold_check_potential; exact IS|].
    rewrite <- (potential_popped _ _ _ P). unfold potential, Cd.
    rewrite S1, S2. simpl. unfold Qu. simpl. lia.
  - simpl in F. inversion F; subst.
    apply resume_potential; auto. rewrite Eq. simpl. apply String.eqb_refl.
  - simpl in F. inversion F; subst.
    apply resume_potential; auto. rewrite Eq. simpl. apply String.eqb_refl.
  - rewrite <- (potential_popped _ _ _ P).
    simpl in F. destruct r; inversion F; subst; lia.
Qed.

(** *** The state in which [self.env.run()] is called *)

Lemma get_fold_set {V} (v : V) (ks : list string) : forall acc k,
  dict_get k (fold_left (fun d k => dict_set k v d) ks acc)
  = if in_dec string_dec k ks then Some v else dict_get k acc.
Proof.
  induction ks as [|x ks IH]; intros acc k; simpl; auto.
  rewrite IH. destruct (in_dec string_dec k ks) as [I|N].
  - destruct (string_dec x k); reflexivity.
  - rewrite sget_set. destruct (string_dec x k) as [->|M].
    + now rewrite String.eqb_refl.
    + destruct (String.eqb_spec x k); [congruence|reflexivity].
Qed.

Lemma keys_fold_set {V} (v : V) (ks : list string) : forall acc,
  NoDup ks -> (forall k, In k ks -> ~ In k (keys acc)) ->
  keys (fold_left (fun d k => dict_set k v d) ks acc) = keys acc ++ ks.
Proof.
  induction ks as [|x ks IH]; intros acc ND NI; simpl.
  - now rewrite app_nil_r.
  - inversion ND; subst. rewrite IH; auto.
    + rewrite keys_dict_set_notin by (apply NI; simpl; auto).
      now rewrite <- app_assoc.
    + intros k A B. apply In_keys_dict_set in B.
      destruct B as [->|B]; [tauto|]. apply (NI k); simpl; auto.
Qed.

Definition start_step (st : state) (kv : string * ScheduledTask.t) : state :=
  schedule (simpy.Initialize (fst kv)) simpy.URGENT 0
           (set_procs (dict_set (fst kv) Start (procs st)) st).

Lemma start_fold (l : dict string ScheduledTask.t) : forall st,
  let st' := fold_left start_step l st in
  scheduled_tasks st' = scheduled_tasks st /\
  completion_events st' = completion_events st /\
  conditions st' = conditions st /\
  now st' = now st /\
  procs st' = fold_left (fun d k => dict_set k Start d) (keys l) (procs st) /\
  (forall en, In en (Qu st') ->
              In en (Qu st) \/
              exists k, In k (keys l) /\ time_of en = now st + 0 /\
                        prio_of en = simpy.URGENT /\
                        event_of en = simpy.Initialize k) /\
  (forall f, count f (Qu st')
             = (count f (Qu st)
                + List.length (filter (fun k => f (simpy.Initialize k)) (keys l)))%nat).
Proof.
  induction l as [|kv l IH]; intros st; cbn [fold_left].
  - simpl. repeat split; auto; try (intros; simpl; lia); tauto.
  - destruct (IH (start_step st kv)) as [A [B [C [D [E [F G]]]]]].
    cbv zeta. rewrite A, B, C, D, E. repeat split; auto.
    + intros en X. destruct (F en X) as [Y|[k [Y1 [Y2 [Y3 Y4]]]]].
      * unfold Qu, start_step, schedule in Y. simpl in Y.
        unfold heappush in Y. apply in_app_iff in Y.
        destruct Y as [Y|[<-|[]]]; auto.
        right. exists (fst kv). simpl. auto.
      * right. exists k. simpl. auto.
    + intros f. rewrite G. unfold Qu, start_step, schedule. simpl.
      rewrite count_push. cbn [event_of snd].
      destruct (f (simpy.Initialize (fst kv))); simpl; lia.
Qed.

Lemma count_one_key (p : string) (ks : list string) :
  NoDup ks -> In p ks ->
  List.length (filter (fun k => resumes p (simpy.Initialize k)) ks) = 1%nat.
Proof.
  induction ks as [|k ks IH]; simpl; [tauto|].
  intros ND [->|I]; inversion ND; subst.
  - rewrite String.eqb_refl. simpl. f_equal.
    clear IH ND. induction ks as [|x ks IH]; simpl; auto.
    destruct (String.eqb_spec p x) as [->|N]; [simpl in H1; tauto|].
    apply IH; [simpl in H1; tauto|]. now inversion H2.
  - destruct (String.eqb_spec p k) as [->|N]; [tauto|]. auto.
Qed.

Lemma pend_zero (p : string) (es : dict string simpy.Event) :
  (forall k ev, In (k, ev) es -> simpy.callbacks ev = Some []) ->
  pend p es = O.
Proof.
  induction es as [|[k ev] es IH]; simpl; intros A; auto.
  rewrite IH by (intros; eapply A; eauto).
  unfold contrib. now rewrite (A k ev (or_introl eq_refl)).
Qed.

Theorem start_inv : Inv None [] (start_all simpy.new_environment tasks0).
Proof.
  unfold start_all.
  set (events := fold_left (fun ce task_id => dict_set task_id simpy.new_event ce)
                           (keys tasks0) []).
  set (s0 := {| env := simpy.new_environment; scheduled_tasks := tasks0;
                completion_events := events; conditions := [];
                procs := []; metrics := [] |}).
  change (fold_left _ tasks0 s0) with (fold_left start_step tasks0 s0).
  destruct (start_fold tasks0 s0) as [A [B [C [D [E [F G]]]]]].
  set (S := fold_left start_step tasks0 s0) in *.
  assert (EK : keys events = keys tasks0).
  { unfold events. now rewrite keys_fold_set. }
  assert (EG : forall q ev, Ev S q = Some ev -> ev = simpy.new_event).
  { intros q ev X. unfold Ev in X. rewrite B in X. simpl in X.
    unfold events in X. rewrite get_fold_set in X.
    destruct (in_dec string_dec q (keys tasks0)); [congruence|discriminate]. }
  assert (PK : keys (procs S) = keys tasks0).
  { rewrite E. simpl. now rewrite keys_fold_set. }
  assert (PG : forall p at_pc, Pc S p = Some at_pc -> at_pc = Start).
  { intros p at_pc X. unfold Pc in X. rewrite E in X. simpl in X.
    rewrite get_fold_set in X.
    destruct (in_dec string_dec p (keys tasks0)); [congruence|discriminate]. }
  assert (TG : forall k t, T S k = Some t -> In (k, t) tasks0).
  { intros k t X. unfold T in X. rewrite A in X. now apply dict_get_In. }
  assert (QG : forall en, In en (Qu S) ->
                 exists k, In k (keys tasks0) /\ time_of en = 0 + 0 /\
                           prio_of en = O /\ event_of en = simpy.Initialize k).
  { intros en X. destruct (F en X) as [[]|Y]. exact Y. }
  split.
  - now rewrite A.
  - intros k t X. apply TG in X. split; [eapply tasks0_ids; eauto|].
    exists t. split; auto. apply In_dict_get_NoDup; auto.
  - now rewrite B.
  - exact PK.
  - intros en X. destruct (QG en X) as [k [K [_ [_ Y]]]]. now rewrite Y.
  - rewrite D. change (now s0) with 0. lra.
  - intros en X. rewrite D. destruct (QG en X) as [k [_ [Y _]]].
    rewrite Y. change (now s0) with 0. lra.
  - intros en X. destruct (QG en X) as [k [_ [Y1 [Y2 Y3]]]].
    rewrite Y3, Y1. split; auto. lra.
  - intros q ev tq X Y. rewrite (EG _ _ X). simpl.
    rewrite (tasks0_fresh _ _ (TG _ _ Y)). split; [discriminate|congruence].
  - intros q tq e X Y. rewrite (tasks0_fresh _ _ (TG _ _ X)) in Y. discriminate.
  - intros q ev X Y. rewrite (EG _ _ X) in Y. discriminate.
  - intros q ev X. rewrite (EG _ _ X). simpl. rewrite G. simpl.
    generalize (keys tasks0) as l. clear. induction l; simpl; auto.
  - intros p X q ev Y. rewrite (EG _ _ Y). discriminate.
  - intros p at_pc X _. rewrite (PG _ _ X). simpl.
    assert (Kp : In p (keys tasks0)).
    { rewrite <- PK. eapply get_In_keys; eauto. }
    split; [|split; [|split]].
    + rewrite G. simpl. now apply count_one_key.
    + unfold Cd. now rewrite C.
    + destruct (keys_In_get p tasks0 Kp) as [t Tp].
      exists t. unfold T. rewrite A. split; auto.
      eapply tasks0_fresh. apply dict_get_In. eauto.
    + intros en X1 X2. destruct (QG en X1) as [k [_ [_ [_ Y]]]].
      rewrite Y in *. simpl in X2. apply String.eqb_eq in X2. congruence.
  - discriminate.
  - intros p. unfold cond_inv. unfold Cd. rewrite C. simpl.
    rewrite pend_zero; auto.
    intros k ev X. rewrite B in X. simpl in X.
    assert (Y : Ev S k = Some ev).
    { unfold Ev. rewrite B. simpl. apply In_dict_get_NoDup; auto.
      rewrite EK. exact tasks0_keys. }
    now rewrite (EG _ _ Y).
Qed.

(** *** The whole run *)

Lemma step_empty (st : state) :
  step topology task_definitions base_compute_speed st = None -> Qu st = [].
Proof.
  unfold step, Qu. destruct (heappop _ _) as [[[[[t pr] e] ev] rest]|] eqn:P.
  - discriminate.
  - intros _. now apply heappop_None in P.
Qed.

(** Once a step has raised, every process has been started. *)
Lemma step_raise (st st' : state) (e : exn) :
  Inv None [] st ->
  step topology task_definitions base_compute_speed st = Some (st', Some e) ->
  forall p, Pc st' p <> Some Start.
Proof.
  intros I S p.
  destruct (heappop simpy.entry_ltb (Qu st)) as [[en rest]|] eqn:P.
  2:{ unfold step in S. unfold Qu in P. rewrite P in S. discriminate. }
  rewrite (step_popped _ _ _ P) in S. inversion S as [F]; clear S.
  pose proof (heappop_In _ _ _ _ P) as PIn.
  assert (Ien : In en (Qu st)) by (apply PIn; auto).
  pose proof (t_prio _ _ _ I _ Ien) as TP.
  destruct (event_of en) as [p'|q|p'|p'|p' r] eqn:Eq;
    try (simpl in F; discriminate).
  - destruct (completion_open st en rest q I P Eq) as [cbs [S [F1 _]]].
    rewrite F1 in F. discriminate.
  - simpl in F. destruct r; inversion F; subst.
    change (Pc (popped st en rest) p) with (Pc st p).
    eapply no_start_behind; eauto.
Qed.

Theorem env_run_inv (fuel : nat) : forall st,
  Inv None [] st ->
  Inv None [] (fst (env_run topology task_definitions base_compute_speed
                            fuel st)).
Proof.
  induction fuel as [|fuel IH]; intros st I; simpl; auto.
  destruct (step _ _ _ st) as [[st' [e|]]|] eqn:S; simpl; auto.
  - eapply step_inv; eauto.
  - apply IH. eapply step_inv; eauto.
Qed.

(** Fuel above the measure is never used up: more of it changes nothing. *)
Theorem env_run_fuel (fuel : nat) : forall fuel' st,
  Inv None [] st ->
  (potential st < fuel)%nat -> (potential st < fuel')%nat ->
  env_run topology task_definitions base_compute_speed fuel st
  = env_run topology task_definitions base_compute_speed fuel' st.
Proof.
  induction fuel as [|fuel IH]; intros fuel' st I A B; [lia|].
  destruct fuel' as [|fuel']; [lia|]. simpl.
  destruct (step _ _ _ st) as [[st' [e|]]|] eqn:S; auto.
  pose proof (step_potential _ _ _ I S).
  apply IH; [eapply step_inv; eauto|lia|lia].
Qed.

(** When the run ends, no process is left unstarted. *)
Theorem env_run_started (fuel : nat) : forall st,
  Inv None [] st -> (potential st < fuel)%nat ->
  forall p,
    Pc (fst (env_run topology task_definitions base_compute_speed fuel st)) p
    <> Some Start.
Proof.
  induction fuel as [|fuel IH]; intros st I A p; [lia|]. simpl.
  destruct (step _ _ _ st) as [[st' [e|]]|] eqn:S; simpl.
  - eapply step_raise; eauto.
  - pose proof (step_potential _ _ _ I S).
    apply IH; [eapply step_inv; eauto|lia].
  - intros PS. apply step_empty in S.
    assert (N : @None string <> Some p) by discriminate.
    destruct (p_inv _ _ _ I _ _ PS N) as [C _].
    rewrite S in C. discriminate.
Qed.

(** When the run ends without an exception, the schedule is empty. *)
Theorem env_run_drained (fuel : nat) : forall st,
  Inv None [] st -> (potential st < fuel)%nat ->
  snd (env_run topology task_definitions base_compute_speed fuel st) = None ->
  Qu (fst (env_run topology task_definitions base_compute_speed fuel st)) = [].
Proof.
  induction fuel as [|fuel IH]; intros st I A; [lia|]. simpl.
  destruct (step _ _ _ st) as [[st' [e|]]|] eqn:S; simpl.
  - discriminate.
  - pose proof (step_potential _ _ _ I S).
    apply IH; [eapply step_inv; eauto|lia].
  - intros _. now apply step_empty.
Qed.

Lemma wsum_Start (w : string -> pc -> nat) (ps : dict string pc) :
  (forall k v, In (k, v) ps -> w k v = 5%nat) ->
  wsum w ps = (5 * List.length ps)%nat.
Proof.
  induction ps as [|[k v] ps IH]; intros A; [reflexivity|].
  assert (X : wsum w ps = (5 * List.length ps)%nat)
    by (apply IH; intros; apply A; simpl; auto).
  pose proof (A k v (or_introl eq_refl)) as Y.
  unfold wsum in *. simpl in *. lia.
Qed.

Lemma count_all (q : list simpy.entry) :
  count (fun _ => true) q = List.length q.
Proof. unfold count. induction q; simpl; auto. Qed.

Lemma filter_true {A} (l : list A) : filter (fun _ => true) l = l.
Proof. induction l; simpl; congruence. Qed.

Theorem start_potential :
  potential (start_all simpy.new_environment tasks0)
  = (6 * List.length tasks0)%nat.
Proof.
  pose proof start_inv as I.
  unfold start_all in *.
  set (events := fold_left (fun ce task_id => dict_set task_id simpy.new_event ce)
                           (keys tasks0) []) in *.
  set (s0 := {| env := simpy.new_environment; scheduled_tasks := tasks0;
                completion_events := events; conditions := [];
                procs := []; metrics := [] |}) in *.
  change (fold_left _ tasks0 s0) with (fold_left start_step tasks0 s0) in *.
  destruct (start_fold tasks0 s0) as [A [B [C [D [E [F G]]]]]].
  set (S := fold_left start_step tasks0 s0) in *.
  unfold potential. rewrite <- count_all, G. simpl.
  rewrite filter_true. unfold keys at 1. rewrite length_map.
  rewrite wsum_Start.
  - rewrite <- (length_map fst (procs S)).
    change (map fst (procs S)) with (keys (procs S)).
    rewrite (s_procs _ _ _ I). unfold keys. rewrite length_map. lia.
  - intros k v X.
    assert (Y : Pc S k = Some v).
    { apply In_dict_get_NoDup; auto. apply (procs_NoDup _ _ _ I). }
    unfold Pc in Y. rewrite E in Y. simpl in Y. rewrite get_fold_set in Y.
    destruct (in_dec string_dec k (keys tasks0)); [|discriminate].
    inversion Y; subst. reflexivity.
Qed.

Definition final : state :=
  fst (replay topology task_definitions base_compute_speed tasks0).

Theorem replay_inv : Inv None [] final.
Proof. apply env_run_inv, start_inv. Qed.

Theorem replay_fuel (fuel : nat) :
  (6 * List.length tasks0 < fuel)%nat ->
  env_run topology task_definitions base_compute_speed fuel
          (start_all simpy.new_environment tasks0)
  = replay topology task_definitions base_compute_speed tasks0.
Proof.
  intros A. apply env_run_fuel; [apply start_inv| |];
    rewrite start_potential; lia.
Qed.

Theorem replay_started (p : string) : Pc final p <> Some Start.
Proof.
  apply env_run_started; [apply start_inv|]. rewrite start_potential. lia.
Qed.

Theorem replay_drained :
  snd (replay topology task_definitions base_compute_speed tasks0) = None ->
  Qu final = [].
Proof.
  apply env_run_drained; [apply start_inv|]. rewrite start_potential. lia.
Qed.


(** *** What the uplink time is *)

Definition is_max (m : Q) (xs : list Q) : Prop :=
  In m xs /\ forall x, In x xs -> x <= m.

Lemma py_max_bounds (xs : list Q) : forall x,
  In (py_max x xs) (x :: xs) /\ x <= py_max x xs /\
  forall y, In y xs -> y <= py_max x xs.
Proof.
  induction xs as [|y xs IH]; intros x.
  - simpl. repeat split; auto; try lra. intros y [].
  - unfold py_max. cbn [fold_left].
    destruct (IH (if Qltb x y then y else x)) as [A [B C]].
    unfold py_max in *.
    destruct (Qltb x y) eqn:L.
    + apply Qltb_true in L. split; [simpl in *; tauto|].
      split; [lra|]. intros z [<-|I]; auto.
    + apply Qltb_false in L. split; [simpl in *; tauto|].
      split; [lra|]. intros z [<-|I]; auto. lra.
Qed.

Lemma py_max_is_max (x : Q) (xs : list Q) : is_max (py_max x xs) (x :: xs).
Proof.
  destruct (py_max_bounds xs x) as [A [B C]]. split; auto.
  intros y [<-|I]; auto.
Qed.

(** The predecessors whose transfer the loop of [_execute_task] times. *)
Definition timed (st : state) (tid : string) (preds : list string)
  : list string :=
  filter (fun q => dict_mem q (scheduled_tasks st) &&
                   Qltb 0 (_get_data_from_predecessor task_definitions q tid))
         preds.

(** [tt] is the transfer time from the node of [q] to the node of [p]. *)
Definition transfer_of (st : state) (p tid q : string) (tt : Q) : Prop :=
  exists tq tp,
    T st q = Some tq /\ T st p = Some tp /\
    DAGTopology.get_transfer_time topology
      (ScheduledTask.node_id tq) (ScheduledTask.node_id tp)
      (_get_data_from_predecessor task_definitions q tid) = Ok tt.

Lemma transfer_times_snoc (st : state) (p tid q : string) (l : list string) :
  transfer_times topology task_definitions p tid (l ++ [q]) st
  = (tts <- transfer_times topology task_definitions p tid l st ;;
     match dict_get q (scheduled_tasks st) with
     | None => Ok tts
     | Some pred_task =>
         let data_size := _get_data_from_predecessor task_definitions q tid in
         if Qltb 0 data_size then
           scheduled_task <- the_task p st ;;
           transfer_time <-
             DAGTopology.get_transfer_time topology
               (ScheduledTask.node_id pred_task)
               (ScheduledTask.node_id scheduled_task)
               data_size ;;
           Ok (tts ++ [transfer_time])
         else Ok tts
     end).
Proof. unfold transfer_times. rewrite fold_left_app. reflexivity. Qed.

Lemma transfer_times_spec (st : state) (p tid : string) (preds : list string) :
  forall tts,
    transfer_times topology task_definitions p tid preds st = Ok tts ->
    Forall2 (transfer_of st p tid) (timed st tid preds) tts.
Proof.
  induction preds as [|q l IH] using rev_ind; intros tts E.
  - inversion E; subst. constructor.
  - rewrite transfer_times_snoc in E.
    destruct (transfer_times _ _ _ _ l st) as [tts0|e]; [|discriminate].
    specialize (IH tts0 eq_refl). simpl in E.
    unfold timed in *. rewrite filter_app. simpl. unfold dict_mem.
    change (dict_get q (scheduled_tasks st)) with (T st q) in *.
    destruct (T st q) as [tq|] eqn:Tq.
    2:{ inversion E; subst. simpl. now rewrite app_nil_r. }
    destruct (Qltb 0 _) eqn:L; simpl.
    2:{ inversion E; subst. now rewrite app_nil_r. }
    unfold the_task in E.
    change (dict_get p (scheduled_tasks st)) with (T st p) in E.
    destruct (T st p) as [tp|] eqn:Tp; [|discriminate]. simpl in E.
    destruct (DAGTopology.get_transfer_time _ _ _ _) as [tt|e] eqn:G;
      [|discriminate].
    inversion E; subst. apply Forall2_app; auto.
    constructor; [|constructor]. exists tq, tp. auto.
Qed.

(** [uplink_time = max(transfer_times) if transfer_times else 0.0] *)
Lemma uplink_of_spec (st : state) (p tid : string) (preds : list string)
      (u : Q) :
  uplink_of topology task_definitions p tid preds st = Ok u ->
  exists tts, Forall2 (transfer_of st p tid) (timed st tid preds) tts /\
              match tts with [] => u = 0 | _ => is_max u tts end.
Proof.
  unfold uplink_of. destruct preds as [|q l].
  - intros E. inversion E; subst. exists []. split; [constructor|reflexivity].
  - destruct (transfer_times _ _ _ _ _ _) as [tts|e] eqn:E; [|discriminate].
    apply transfer_times_spec in E. simpl.
    destruct tts as [|x xs]; intros A; inversion A; subst.
    + exists []. auto.
    + exists (x :: xs). split; auto. apply py_max_is_max.
Qed.

(** *** What the replay leaves in the task objects *)

Theorem completed_spec (p : string) (t : ScheduledTask.t) (e : Q) :
  T final p = Some t -> ScheduledTask.actual_end t = Some e ->
  exists a, ScheduledTask.actual_start t = Some a /\
            e == a + ScheduledTask.compute_time t /\
            ended_before final p a (ScheduledTask.uplink_time t) /\
            uplink_ok final p.
Proof.
  intros A B. pose proof replay_inv as I.
  destruct (e_end _ _ _ I _ _ _ A B) as [_ PE].
  assert (N : @None string <> Some p) by discriminate.
  destruct (p_inv _ _ _ I _ _ PE N) as [_ [X _]]. exact (X t e A B).
Qed.

Theorem root_start_zero (p : string) (td : TaskDefinition.t) :
  In p (keys tasks0) -> PREDS p = [] ->
  dict_get (base_task_id p) task_definitions = Some td ->
  exists t a, T final p = Some t /\
              ScheduledTask.actual_start t = Some a /\ a == 0 /\
              ScheduledTask.uplink_time t = 0.
Proof.
  intros Kp PE D. pose proof replay_inv as I.
  destruct (Pc_keys _ _ _ _ I Kp) as [at_pc Pp].
  assert (N : @None string <> Some p) by discriminate.
  pose proof (p_inv _ _ _ I _ _ Pp N) as PI.
  destruct at_pc as [|tid td' preds|tid td'|tid|]; simpl in PI.
  - exfalso. exact (replay_started p Pp).
  - destruct PI as [_ [_ [-> [_ [_ [_ NE]]]]]]. congruence.
  - destruct PI as [_ [_ [_ [[t [a0 [A [_ [_ [_ [G _]]]]]]] J]]]].
    exfalso. destruct J as [tu [u [J1 [J2 J3]]]].
    unfold uplink0 in J2. rewrite PE in J2. simpl in J2.
    assert (UZ : ScheduledTask.uplink_time t = 0) by congruence.
    rewrite UZ in G. lra.
  - destruct PI as [_ [_ [_ [_ RS]]]]. exact (RS PE td D).
  - destruct PI as [_ [_ RS]]. exact (RS PE td D).
Qed.



(** *** The embedding's own exception is never raised *)

Section Artefact.
Hypothesis transfer_sound : forall s t n,
  DAGTopology.get_transfer_time topology s t n <> Raise Unreachable.

(** No failed process in the schedule carries [Unreachable]. *)
Definition tidy (st : state) : Prop :=
  forall en p, In en (Qu st) ->
               event_of en <> simpy.Process p (Raise Unreachable).

Definition tidy_out (r : state * outcome) : Prop :=
  tidy (fst r) /\ snd r <> Raised Unreachable.

Lemma tidy_same (st st' : state) : Qu st' = Qu st -> tidy st -> tidy st'.
Proof. intros E A en p I. rewrite E in I. now apply A. Qed.

Lemma tidy_push (ev : simpy.event) (pr : nat) (d : Q) (st : state) :
  (forall p, ev <> simpy.Process p (Raise Unreachable)) ->
  tidy st -> tidy (schedule ev pr d st).
Proof.
  intros N A en p I. unfold Qu, schedule in I. simpl in I.
  unfold heappush in I. apply in_app_iff in I.
  destruct I as [I|[<-|[]]]; [now apply A|apply N].
Qed.

Lemma check_tidy (p : string) (st : state) : tidy st -> tidy (_check p st).
Proof.
  intros A. unfold _check. destruct (dict_get p (conditions st)) as [c|]; auto.
  destruct (simpy.cond_triggered c); auto.
  destruct (Nat.eqb _ _).
  - apply tidy_push; [discriminate|]. eapply tidy_same; [|exact A]. reflexivity.
  - eapply tidy_same; [|exact A]. reflexivity.
Qed.

Lemma fold_check_tidy (l : list string) : forall st,
  tidy st -> tidy (fold_left (fun st p => _check p st) l st).
Proof.
  induction l as [|p l IH]; intros st A; simpl; auto.
  apply IH. now apply check_tidy.
Qed.

Lemma new_AllOf_tidy (p : string) (l : list string) (st : state) :
  tidy st -> tidy (new_AllOf p l st).
Proof.
  intros A. unfold new_AllOf. cbv zeta. destruct l as [|a l].
  - apply tidy_push; [discriminate|]. eapply tidy_same; [|exact A]. reflexivity.
  - match goal with |- tidy (fold_left ?f ?l0 ?s0) =>
      assert (X : forall qs s, tidy s -> tidy (fold_left f qs s));
        [|apply X; eapply tidy_same; [|exact A]; reflexivity]
    end.
    clear. induction qs as [|q l IH]; intros s A; cbn [fold_left]; auto.
    apply IH. destruct (dict_get q (completion_events s)) as [ev|]; auto.
    destruct (simpy.callbacks ev); [|now apply check_tidy].
    eapply tidy_same; [|exact A]. reflexivity.
Qed.

Lemma the_task_ok (p : string) (st : state) :
  In p (keys (scheduled_tasks st)) -> exists t, the_task p st = Ok t.
Proof.
  intros I. unfold the_task. destruct (keys_In_get _ _ I) as [t E].
  rewrite E. eauto.
Qed.

Lemma get_compute_time_sound (n : string) (c b : Q) :
  DAGTopology.get_compute_time topology n c b <> Raise Unreachable.
Proof.
  unfold DAGTopology.get_compute_time.
  destruct (dict_get n _); [|discriminate].
  unfold ComputeNode.get_compute_time. cbv zeta.
  destruct (Qle_bool _ _); discriminate.
Qed.

Ltac tidy_here A :=
  split; [eapply tidy_same; [|exact A]; reflexivity|cbn [snd]; congruence].

Lemma seg_compute_tidy (p tid : string) (td : TaskDefinition.t) (st : state) :
  tidy st -> In p (keys (scheduled_tasks st)) ->
  tidy_out (seg_compute topology base_compute_speed p tid td st).
Proof.
  intros A K. unfold seg_compute. cbv zeta.
  destruct (the_task_ok p (update_task p (ScheduledTask.set_actual_start (now st)) st))
    as [t E]; [now rewrite keys_update_task|].
  rewrite E.
  pose proof (get_compute_time_sound (ScheduledTask.node_id t)
                (TaskDefinition.compute_cost td) base_compute_speed) as G.
  destruct (DAGTopology.get_compute_time _ _ _ _) as [ct|e]; [|tidy_here A].
  unfold timeout. destruct (Qltb ct 0); [tidy_here A|].
  split; [|discriminate]. cbn [fst].
  apply tidy_push; [discriminate|]. eapply tidy_same; [|exact A]. reflexivity.
Qed.

Lemma transfer_times_sound (p tid : string) (preds : list string) (st : state) :
  In p (keys (scheduled_tasks st)) ->
  transfer_times topology task_definitions p tid preds st <> Raise Unreachable.
Proof.
  intros K. induction preds as [|q l IH] using rev_ind; [discriminate|].
  rewrite transfer_times_snoc.
  destruct (transfer_times _ _ _ _ l st) as [tts|e]; simpl; [|exact IH].
  destruct (dict_get q (scheduled_tasks st)) as [tq|]; [|discriminate].
  destruct (Qltb 0 _); [|discriminate].
  destruct (the_task_ok p st K) as [t E]. rewrite E. simpl.
  pose proof (transfer_sound (ScheduledTask.node_id tq) (ScheduledTask.node_id t)
                (_get_data_from_predecessor task_definitions q tid)) as G.
  destruct (DAGTopology.get_transfer_time _ _ _ _); simpl;
    [discriminate|congruence].
Qed.

Lemma uplink_of_sound (p tid : string) (preds : list string) (st : state) :
  In p (keys (scheduled_tasks st)) ->
  uplink_of topology task_definitions p tid preds st <> Raise Unreachable.
Proof.
  intros K. unfold uplink_of. destruct preds as [|q l]; [discriminate|].
  pose proof (transfer_times_sound p tid (q :: l) st K) as G.
  destruct (transfer_times _ _ _ _ _ _) as [[|x xs]|e]; simpl;
    [discriminate|discriminate|congruence].
Qed.

Lemma seg_uplink_tidy (p tid : string) (td : TaskDefinition.t)
      (preds : list string) (st : state) :
  tidy st -> In p (keys (scheduled_tasks st)) ->
  tidy_out (seg_uplink topology task_definitions base_compute_speed
                       p tid td preds st).
Proof.
  intros A K. unfold seg_uplink. cbv zeta.
  set (st1 := update_task p (ScheduledTask.set_actual_start (now st)) st).
  assert (K1 : In p (keys (scheduled_tasks st1)))
    by (unfold st1; now rewrite keys_update_task).
  pose proof (uplink_of_sound p tid preds st1 K1) as G.
  destruct (uplink_of _ _ _ _ _ _) as [u|e]; [|tidy_here A].
  destruct (Qltb 0 u).
  - unfold timeout. destruct (Qltb u 0); [tidy_here A|].
    split; [|discriminate]. cbn [fst].
    apply tidy_push; [discriminate|]. eapply tidy_same; [|exact A]. reflexivity.
  - apply seg_compute_tidy.
    + eapply tidy_same; [|exact A]. reflexivity.
    + now rewrite keys_update_task.
Qed.

Lemma seg_finish_tidy (p tid : string) (st : state) :
  tidy st -> In p (keys (scheduled_tasks st)) ->
  tidy_out (seg_finish p tid st).
Proof.
  intros A K. unfold seg_finish, succeed, dict_item, bind. cbv zeta.
  destruct (dict_get tid _) as [ev|]; [|tidy_here A].
  destruct (simpy.triggered ev); [tidy_here A|].
  match goal with |- context [the_task p ?s] =>
    destruct (the_task_ok p s) as [t E];
      [cbn [scheduled_tasks schedule set_env set_events];
       now rewrite keys_update_task|rewrite E]
  end.
  split; [|discriminate]. cbn [fst].
  eapply tidy_same; [|apply (tidy_push (simpy.Completion tid) simpy.NORMAL 0);
                      [discriminate|exact A]].
  reflexivity.
Qed.

Lemma seg_start_tidy (p : string) (st : state) :
  tidy st -> In p (keys (scheduled_tasks st)) ->
  tidy_out (seg_start topology task_definitions base_compute_speed p st).
Proof.
  intros A K. unfold seg_start. cbv zeta.
  destruct (the_task_ok p st K) as [t E]. rewrite E.
  destruct (dict_get _ task_definitions) as [td|]; [|tidy_here A].
  destruct (filter _ _) as [|a l].
  - now apply seg_uplink_tidy.
  - split; [|discriminate]. cbn [fst]. now apply new_AllOf_tidy.
Qed.

Lemma settle_tidy (p : string) (r : state * outcome) :
  tidy_out r -> tidy (settle p r).
Proof.
  intros [A B]. destruct r as [st o]. unfold settle. cbn [fst snd] in *.
  destruct o as [at_pc| |e].
  - eapply tidy_same; [|exact A]. reflexivity.
  - apply tidy_push; [discriminate|]. eapply tidy_same; [|exact A]. reflexivity.
  - apply tidy_push; [|eapply tidy_same; [|exact A]; reflexivity].
    intros p' X. inversion X; subst. congruence.
Qed.

Lemma resume_tidy (p : string) (st : state) :
  tidy st -> In p (keys (scheduled_tasks st)) -> Pc st p <> None ->
  tidy (_resume topology task_definitions base_compute_speed p st).
Proof.
  intros A K N. rewrite _resume_settle. apply settle_tidy.
  destruct (Pc st p) as [[|tid td preds|tid td|tid|]|]; [| | | | |congruence].
  - now apply seg_start_tidy.
  - now apply seg_uplink_tidy.
  - now apply seg_compute_tidy.
  - now apply seg_finish_tidy.
  - split; [exact A|discriminate].
Qed.

Theorem step_tidy (st st' : state) (err : option exn) :
  Inv None [] st -> tidy st ->
  step topology task_definitions base_compute_speed st = Some (st', err) ->
  tidy st' /\ err <> Some Unreachable.
Proof.
  intros I A S.
  destruct (heappop simpy.entry_ltb (Qu st)) as [[en rest]|] eqn:P.
  2:{ unfold step in S. unfold Qu in P. rewrite P in S. discriminate. }
  rewrite (step_popped _ _ _ P) in S. inversion S as [F]; clear S.
  pose proof (heappop_In _ _ _ _ P) as PIn.
  assert (Ien : In en (Qu st)) by (apply PIn; auto).
  assert (A' : tidy (popped st en rest)).
  { intros x p X. apply A. apply PIn. right. exact X. }
  pose proof (s_queue _ _ _ I _ Ien) as Sub.
  assert (R : forall p, subject (event_of en) = p ->
                tidy (_resume topology task_definitions base_compute_speed p
                              (popped st en rest))).
  { intros p <-. apply resume_tidy; auto.
    - change (scheduled_tasks (popped st en rest)) with (scheduled_tasks st).
      now rewrite (s_keys _ _ _ I).
    - change (Pc (popped st en rest) (subject (event_of en)))
        with (Pc st (subject (event_of en))).
      destruct (Pc_keys _ _ _ _ I Sub) as [at_pc ->]. discriminate. }
  destruct (event_of en) as [p|q|p|p|p r] eqn:Eq.
  - simpl in F. inversion F; subst. split; [now apply R|discriminate].
  - destruct (completion_open st en rest q I P Eq)
      as [cbs [S [F1 [_ [_ [_ S3]]]]]].
    rewrite F1 in F. inversion F; subst. split; [|discriminate].
    apply fold_check_tidy. intros x p X.
    apply A. apply PIn. right. exact X.
  - simpl in F. inversion F; subst. split; [now apply R|discriminate].
  - simpl in F. inversion F; subst. split; [now apply R|discriminate].
  - simpl in F. destruct r as [u|e]; inversion F; subst;
      (split; [exact A'|]); [discriminate|].
    intros X. inversion X; subst. apply (A en p Ien). exact Eq.
Qed.

Theorem env_run_tidy (fuel : nat) : forall st,
  Inv None [] st -> tidy st -> (potential st < fuel)%nat ->
  snd (env_run topology task_definitions base_compute_speed fuel st)
  <> Some Unreachable.
Proof.
  induction fuel as [|fuel IH]; intros st I A L; [lia|]. simpl.
  destruct (step _ _ _ st) as [[st' [e|]]|] eqn:S; simpl.
  - apply (step_tidy _ _ _ I A S).
  - pose proof (step_potential _ _ _ I S).
    apply IH; [eapply step_inv; eauto|apply (step_tidy _ _ _ I A S)|lia].
  - discriminate.
Qed.

Theorem replay_tidy :
  snd (replay topology task_definitions base_compute_speed tasks0)
  <> Some Unreachable.
Proof.
  apply env_run_tidy; [apply start_inv| |rewrite start_potential; lia].
  intros en p X. pose proof (t_prio _ _ _ start_inv en X) as TP.
  pose proof (p_inv _ _ _ start_inv) as PI.
  unfold start_all in X.
  match type of X with In en (Qu (fold_left _ tasks0 ?s)) =>
    change (In en (Qu (fold_left start_step tasks0 s))) in X;
    destruct (start_fold tasks0 s) as [_ [_ [_ [_ [_ [F _]]]]]];
    destruct (F en X) as [[]|[k [_ [_ [_ Y]]]]]
  end.
  rewrite Y. discriminate.
Qed.
End Artefact.


(** *** What one resumption does *)

(** The state after the process [p] has run to its next suspension: [f]
    is what it assigned to its task and [news] what it scheduled, each
    with its delay; then the events, the conditions, the place where it
    is suspended and the records it leaves. *)
Definition canon (p : string) (f : ScheduledTask.t -> ScheduledTask.t)
           (news : list (Q * simpy.event))
           (evs : dict string simpy.Event)
           (cds : dict string simpy.Condition)
           (at_pc : pc) (ms : list ScheduledTask.t) (s : state) : state :=
  {| env := fold_left
              (fun e x => simpy.schedule (snd x) simpy.NORMAL (fst x) e)
              news (env s);
     scheduled_tasks := scheduled_tasks (update_task p f s);
     completion_events := evs; conditions := cds;
     procs := dict_set p at_pc (procs s); metrics := ms |}.

Lemma state_eq (a b : state) :
  env a = env b -> scheduled_tasks a = scheduled_tasks b ->
  completion_events a = completion_events b -> conditions a = conditions b ->
  procs a = procs b -> metrics a = metrics b -> a = b.
Proof. destruct a, b; simpl; intros; congruence. Qed.

Lemma update_task_twice (p : string) (f g : ScheduledTask.t -> ScheduledTask.t)
      (s : state) :
  scheduled_tasks (update_task p g (update_task p f s))
  = scheduled_tasks (update_task p (fun t => g (f t)) s).
Proof.
  unfold update_task; simpl. rewrite map_map. apply map_ext.
  intros [k t]; simpl. destruct (String.eqb p k) eqn:E; simpl; [|now rewrite E].
  now rewrite E.
Qed.

Lemma update_task_same (p : string) (s : state) :
  scheduled_tasks (update_task p (fun t => t) s) = scheduled_tasks s.
Proof.
  unfold update_task; simpl. rewrite <- (map_id (scheduled_tasks s)) at 2.
  apply map_ext. intros [k t]; simpl. destruct (String.eqb p k); reflexivity.
Qed.

Lemma update_task_ext (p : string) (f g : ScheduledTask.t -> ScheduledTask.t)
      (s : state) :
  (forall t, f t = g t) ->
  scheduled_tasks (update_task p f s) = scheduled_tasks (update_task p g s).
Proof.
  intros E. unfold update_task; simpl. apply map_ext.
  intros [k t]; simpl. now rewrite E.
Qed.

(** [seg_compute] once [g] has been assigned to the task. *)
Lemma seg_compute_cases (p : string) (td : TaskDefinition.t)
      (g : ScheduledTask.t -> ScheduledTask.t) (s : state)
      (t : ScheduledTask.t) :
  T s p = Some t ->
  ScheduledTask.node_id (g t) = ScheduledTask.node_id t ->
  settle p (seg_compute topology base_compute_speed p p td (update_task p g s))
  = match DAGTopology.get_compute_time topology (ScheduledTask.node_id t)
            (TaskDefinition.compute_cost td) base_compute_speed with
    | Raise e =>
        canon p (fun t => ScheduledTask.set_actual_start (now s) (g t))
              [(0, simpy.Process p (Raise e))]
              (completion_events s) (conditions s) Exhausted (metrics s) s
    | Ok c =>
        if Qltb c 0
        then canon p (fun t => ScheduledTask.set_compute_time c
                                 (ScheduledTask.set_actual_start (now s) (g t)))
                   [(0, simpy.Process p (Raise (ValueError "Negative delay")))]
                   (completion_events s) (conditions s) Exhausted (metrics s) s
        else canon p (fun t => ScheduledTask.set_compute_time c
                                 (ScheduledTask.set_actual_start (now s) (g t)))
                   [(c, simpy.Timeout p)]
                   (completion_events s) (conditions s) (Compute p)
                   (metrics s) s
    end.
Proof.
  intros Tp Ng. unfold seg_compute, the_task. cbv zeta.
  match goal with |- context [dict_get p (scheduled_tasks ?x)] =>
    change (dict_get p (scheduled_tasks x)) with (T x p)
  end.
  rewrite !T_update_task, String.eqb_refl, Tp. cbn [option_map].
  change (ScheduledTask.node_id (ScheduledTask.set_actual_start _ (g t)))
    with (ScheduledTask.node_id (g t)).
  rewrite Ng.
  destruct (DAGTopology.get_compute_time _ _ _ _) as [c|e].
  - unfold timeout. destruct (Qltb c 0); unfold settle; cbn [fst snd];
      apply state_eq; try reflexivity;
      cbn [scheduled_tasks schedule set_env set_procs canon];
      now rewrite !update_task_twice.
  - unfold settle; cbn [fst snd]. apply state_eq; try reflexivity.
    cbn [scheduled_tasks schedule set_env set_procs canon].
    now rewrite !update_task_twice.
Qed.

(** [seg_uplink], with the uplink time the inputs give. *)
Lemma seg_uplink_cases (p : string) (td : TaskDefinition.t) (s : state)
      (t : ScheduledTask.t) :
  Inv (Some p) [] s -> T s p = Some t ->
  settle p (seg_uplink topology task_definitions base_compute_speed
                       p p td (PREDS p) s)
  = match uplink0 p with
    | Raise e =>
        canon p (ScheduledTask.set_actual_start (now s))
              [(0, simpy.Process p (Raise e))]
              (completion_events s) (conditions s) Exhausted (metrics s) s
    | Ok u =>
        if Qltb 0 u
        then canon p (fun t => ScheduledTask.set_uplink_time u
                                 (ScheduledTask.set_actual_start (now s) t))
                   [(u, simpy.Timeout p)]
                   (completion_events s) (conditions s) (Uplink p td)
                   (metrics s) s
        else settle p
               (seg_compute topology base_compute_speed p p td
                  (update_task p
                     (fun t => ScheduledTask.set_uplink_time u
                                 (ScheduledTask.set_actual_start (now s) t))
                     s))
    end.
Proof.
  intros I Tp. destruct (set_fields_kept (now s)) as [F1 _].
  pose proof (update_frame p _ s I F1) as I1.
  unfold seg_uplink. cbv zeta.
  rewrite (uplink_of_static _ _ _ p I1).
  destruct (uplink0 p) as [u|e].
  - destruct (Qltb 0 u) eqn:L.
    + apply Qltb_true in L. unfold timeout.
      assert (L' : Qltb u 0 = false) by (apply Qltb_false; lra).
      rewrite L'. unfold settle; cbn [fst snd].
      apply state_eq; try reflexivity.
      cbn [scheduled_tasks schedule set_env set_procs canon].
      now rewrite !update_task_twice.
    + f_equal. f_equal. apply state_eq; try reflexivity.
      now rewrite !update_task_twice.
  - unfold settle; cbn [fst snd]. apply state_eq; reflexivity.
Qed.

(** The condition a process creates over its predecessors. *)
Definition fresh_cond (p : string) : simpy.Condition :=
  {| simpy.n_events := List.length (PREDS p); simpy._count := O;
     simpy.cond_triggered := false |}.

(** [seg_start] of a process that has not run yet. *)
Lemma seg_start_cases (p : string) (s : state) (t : ScheduledTask.t) :
  Inv (Some p) [] s -> T s p = Some t -> Pc s p = Some Start ->
  settle p (seg_start topology task_definitions base_compute_speed p s)
  = match dict_get (base_task_id p) task_definitions with
    | None =>
        canon p (fun t => t)
              [(0, simpy.Process p
                     (Raise (ValueError ("No task definition found for "
                                           ++ base_task_id p)%string)))]
              (completion_events s) (conditions s) Exhausted (metrics s) s
    | Some td =>
        match PREDS p with
        | [] => settle p (seg_uplink topology task_definitions
                                     base_compute_speed p p td (PREDS p) s)
        | _ => canon p (fun t => t) []
                     (reg_events p (PREDS p) (completion_events s))
                     (dict_set p (fresh_cond p) (conditions s))
                     (WaitPreds p td (PREDS p)) (metrics s) s
        end
    end.
Proof.
  intros I Tp PS.
  destruct (s_static _ _ _ I _ _ Tp) as [Id _].
  unfold seg_start, the_task.
  change (dict_get p (scheduled_tasks s)) with (T s p). rewrite Tp, Id.
  destruct (dict_get (base_task_id p) task_definitions) as [td|] eqn:D.
  2:{ unfold settle; cbn [fst snd]. apply state_eq; try reflexivity.
      cbn [scheduled_tasks schedule set_env set_procs canon].
      now rewrite update_task_same. }
  rewrite (_get_predecessors_keys _ _ (s_keys _ _ _ I)).
  rewrite filter_all.
  2:{ intros q A. apply PREDS_In in A. apply dict_mem_keys.
      now rewrite (s_events _ _ _ I). }
  destruct (PREDS p) as [|a l] eqn:PE; [reflexivity|].
  unfold settle; cbn [fst snd].
  assert (E' : new_AllOf p (a :: l) s
               = set_events (reg_events p (a :: l) (completion_events s))
                   (set_conditions
                      (dict_set p {| simpy.n_events := List.length (a :: l);
                                     simpy._count := O;
                                     simpy.cond_triggered := false |}
                                (conditions s)) s)).
  { unfold new_AllOf. cbv zeta.
    match goal with |- fold_left ?f ?l0 ?s0 = _ =>
      apply (new_AllOf_fold p l0 s0)
    end.
    intros q ev A. apply (x_start _ _ _ I p PS q ev A). }
  rewrite E'. unfold fresh_cond. rewrite PE.
  apply state_eq; try reflexivity.
  cbn [scheduled_tasks set_events set_conditions set_procs canon].
  now rewrite update_task_same.
Qed.

(** [seg_finish] of a process whose event has not been triggered. *)
Lemma seg_finish_cases (p : string) (s : state) (t : ScheduledTask.t)
      (ev : simpy.Event) :
  T s p = Some t -> Ev s p = Some ev -> simpy.triggered ev = false ->
  settle p (seg_finish p p s)
  = canon p (ScheduledTask.set_actual_end (now s))
          [(0, simpy.Completion p); (0, simpy.Process p (Ok tt))]
          (dict_set p {| simpy.callbacks := simpy.callbacks ev;
                         simpy.triggered := true |} (completion_events s))
          (conditions s) Exhausted
          (metrics s ++ [ScheduledTask.set_actual_end (now s) t]) s.
Proof.
  intros Tp Ep Tr. unfold seg_finish, succeed, dict_item, bind. cbv zeta.
  match goal with |- context [dict_get p (completion_events ?x)] =>
    change (dict_get p (completion_events x)) with (Ev s p)
  end.
  rewrite Ep, Tr. unfold the_task.
  match goal with |- context [dict_get p (scheduled_tasks ?x)] =>
    change (dict_get p (scheduled_tasks x))
      with (T (update_task p (ScheduledTask.set_actual_end (now s)) s) p)
  end.
  rewrite T_update_task, String.eqb_refl, Tp. cbn [option_map].
  unfold settle; cbn [fst snd]. apply state_eq; reflexivity.
Qed.

(** Assignments that leave the plan and the recorded end alone. *)
Definition keeps (f : ScheduledTask.t -> ScheduledTask.t) : Prop :=
  forall t,
    ScheduledTask.task_id (f t) = ScheduledTask.task_id t /\
    ScheduledTask.node_id (f t) = ScheduledTask.node_id t /\
    ScheduledTask.scheduled_start (f t) = ScheduledTask.scheduled_start t /\
    ScheduledTask.scheduled_end (f t) = ScheduledTask.scheduled_end t /\
    ScheduledTask.scheduled_duration (f t)
    = ScheduledTask.scheduled_duration t /\
    ScheduledTask.downlink_time (f t) = ScheduledTask.downlink_time t /\
    ScheduledTask.actual_end (f t) = ScheduledTask.actual_end t.

(** [p] is about to go through its uplink phase. *)
Definition departs (s : state) (p : string) (td : TaskDefinition.t) : Prop :=
  dict_get (base_task_id p) task_definitions = Some td /\
  ((Pc s p = Some Start /\ PREDS p = []) \/
   Pc s p = Some (WaitPreds p td (PREDS p))).

(** [p] is about to go through its compute phase, [f] being what it has
    assigned on the way there. *)
Definition enters (s : state) (p : string) (td : TaskDefinition.t)
           (f : ScheduledTask.t -> ScheduledTask.t) : Prop :=
  (departs s p td /\
   exists u, uplink0 p = Ok u /\ u <= 0 /\
             f = (fun t => ScheduledTask.set_uplink_time u
                             (ScheduledTask.set_actual_start (now s) t))) \/
  (Pc s p = Some (Uplink p td) /\
   dict_get (base_task_id p) task_definitions = Some td /\
   f = (fun t => t)).

(** Why the generator of [p] raises [e]. *)
Definition cause (s : state) (p : string) (t : ScheduledTask.t) (e : exn)
  : Prop :=
  (Pc s p = Some Start /\
   dict_get (base_task_id p) task_definitions = None /\
   e = ValueError ("No task definition found for " ++ base_task_id p)%string)
  \/ (exists td, departs s p td /\ uplink0 p = Raise e)
  \/ (exists td f, enters s p td f /\
        (DAGTopology.get_compute_time topology (ScheduledTask.node_id t)
           (TaskDefinition.compute_cost td) base_compute_speed = Raise e \/
         exists c,
           DAGTopology.get_compute_time topology (ScheduledTask.node_id t)
             (TaskDefinition.compute_cost td) base_compute_speed = Ok c /\
           c < 0 /\ e = ValueError "Negative delay")).

(** The five ways in which a resumption of [p] ends. *)
Inductive resumed (p : string) (s : state) : state -> Prop :=
| r_wait (t : ScheduledTask.t) (td : TaskDefinition.t) :
    T s p = Some t -> Pc s p = Some Start ->
    dict_get (base_task_id p) task_definitions = Some td ->
    PREDS p <> [] ->
    resumed p s
      (canon p (fun t => t) []
             (reg_events p (PREDS p) (completion_events s))
             (dict_set p (fresh_cond p) (conditions s))
             (WaitPreds p td (PREDS p)) (metrics s) s)
| r_uplink (t : ScheduledTask.t) (td : TaskDefinition.t) (u : Q) :
    T s p = Some t -> departs s p td -> uplink0 p = Ok u -> 0 < u ->
    resumed p s
      (canon p (fun t => ScheduledTask.set_uplink_time u
                           (ScheduledTask.set_actual_start (now s) t))
             [(u, simpy.Timeout p)]
             (completion_events s) (conditions s) (Uplink p td)
             (metrics s) s)
| r_compute (t : ScheduledTask.t) (td : TaskDefinition.t)
            (f : ScheduledTask.t -> ScheduledTask.t) (c : Q) :
    T s p = Some t -> enters s p td f ->
    DAGTopology.get_compute_time topology (ScheduledTask.node_id t)
      (TaskDefinition.compute_cost td) base_compute_speed = Ok c ->
    0 <= c ->
    resumed p s
      (canon p (fun t => ScheduledTask.set_compute_time c
                           (ScheduledTask.set_actual_start (now s) (f t)))
             [(c, simpy.Timeout p)]
             (completion_events s) (conditions s) (Compute p)
             (metrics s) s)
| r_finish (t : ScheduledTask.t) (ev : simpy.Event) :
    T s p = Some t -> Pc s p = Some (Compute p) ->
    Ev s p = Some ev -> simpy.triggered ev = false ->
    resumed p s
      (canon p (ScheduledTask.set_actual_end (now s))
             [(0, simpy.Completion p); (0, simpy.Process p (Ok tt))]
             (dict_set p {| simpy.callbacks := simpy.callbacks ev;
                            simpy.triggered := true |}
                       (completion_events s))
             (conditions s) Exhausted
             (metrics s ++ [ScheduledTask.set_actual_end (now s) t]) s)
| r_raise (t : ScheduledTask.t) (f : ScheduledTask.t -> ScheduledTask.t)
          (e : exn) :
    T s p = Some t -> keeps f -> cause s p t e ->
    resumed p s
      (canon p f [(0, simpy.Process p (Raise e))]
             (completion_events s) (conditions s) Exhausted (metrics s) s).

Lemma update_task_id_state (p : string) (s : state) :
  update_task p (fun t => t) s = s.
Proof. apply state_eq; try reflexivity. apply update_task_same. Qed.

Lemma compute_path (p : string) (td : TaskDefinition.t)
      (g : ScheduledTask.t -> ScheduledTask.t) (s : state)
      (t : ScheduledTask.t) :
  T s p = Some t -> keeps g -> enters s p td g ->
  resumed p s
    (settle p (seg_compute topology base_compute_speed p p td
                           (update_task p g s))).
Proof.
  intros Tp Kg En.
  rewrite (seg_compute_cases p td g s t Tp (proj1 (proj2 (Kg t)))).
  destruct (DAGTopology.get_compute_time _ _ _ _) as [c|e] eqn:G.
  - destruct (Qltb c 0) eqn:L.
    + apply Qltb_true in L. apply (r_raise p s t); [exact Tp| |].
      * intros x. destruct (Kg x) as [A1 [A2 [A3 [A4 [A5 [A6 A7]]]]]].
        repeat split; assumption.
      * right; right. exists td, g. split; auto. right. exists c. auto.
    + apply Qltb_false in L. apply (r_compute p s t td g c); auto.
  - apply (r_raise p s t); [exact Tp| |].
    + intros x. destruct (Kg x) as [A1 [A2 [A3 [A4 [A5 [A6 A7]]]]]].
      repeat split; assumption.
    + right; right. exists td, g. auto.
Qed.

Lemma uplink_path (p : string) (td : TaskDefinition.t) (s : state)
      (t : ScheduledTask.t) :
  Inv (Some p) [] s -> T s p = Some t -> departs s p td ->
  resumed p s
    (settle p (seg_uplink topology task_definitions base_compute_speed
                          p p td (PREDS p) s)).
Proof.
  intros I Tp Dp. rewrite (seg_uplink_cases p td s t I Tp).
  destruct (uplink0 p) as [u|e] eqn:U.
  - destruct (Qltb 0 u) eqn:L.
    + apply Qltb_true in L. apply (r_uplink p s t td u); auto.
    + apply Qltb_false in L. apply (compute_path p td _ s t Tp).
      * intros x. repeat split.
      * left. split; auto. exists u. auto.
  - apply (r_raise p s t); [exact Tp| |].
    + intros x. repeat split.
    + right; left. exists td. auto.
Qed.

(** A popped event that resumes [p] has one of the five effects. *)
Theorem resume_cases (st : state) (en : simpy.entry)
        (rest : list simpy.entry) (p : string) :
  Inv None [] st ->
  heappop simpy.entry_ltb (Qu st) = Some (en, rest) ->
  resumes p (event_of en) = true ->
  Inv (Some p) [] (popped st en rest) /\
  resumed p (popped st en rest)
          (_resume topology task_definitions base_compute_speed p
                   (popped st en rest)).
Proof.
  intros I P Rs.
  assert (I' : Inv (Some p) [] (popped st en rest)).
  { apply pop_frame; auto.
    - intros p' E. inversion E; subst. exact Rs.
    - discriminate.
    - intros q. destruct (event_of en); simpl in *; auto; discriminate. }
  split; [exact I'|].
  pose proof (heappop_In _ _ _ _ P) as PIn.
  assert (Ien : In en (Qu st)) by (apply PIn; auto).
  assert (Kp : In p (keys tasks0)).
  { rewrite <- (resumes_subject _ _ Rs). apply (s_queue _ _ _ I); auto. }
  destruct (Pc_keys _ _ _ _ I Kp) as [at_pc Pp].
  assert (N : @None string <> Some p) by discriminate.
  pose proof (p_inv _ _ _ I _ _ Pp N) as PI.
  pose proof (count_pop (resumes p) _ _ _ P) as CP. rewrite Rs in CP.
  destruct (p_hole _ _ _ I' p eq_refl) as [[t [Tp Up]] _].
  set (s := popped st en rest) in *.
  assert (Pp' : Pc s p = Some at_pc) by exact Pp.
  rewrite _resume_settle. rewrite Pp'.
  destruct at_pc as [|tid td preds|tid td|tid|]; simpl in PI.
  - rewrite (seg_start_cases p s t I' Tp Pp').
    destruct (dict_get (base_task_id p) task_definitions) as [td|] eqn:D.
    + destruct (PREDS p) as [|a l] eqn:PE.
      * rewrite <- PE. apply (uplink_path p td s t I' Tp).
        split; auto.
      * rewrite <- PE. apply (r_wait p s t td); auto. congruence.
    + apply (r_raise p s t); [exact Tp| |].
      * intros x. repeat split.
      * left. auto.
  - destruct PI as [-> [A [-> _]]].
    apply (uplink_path p td s t I' Tp). split; auto.
  - destruct PI as [-> [A _]].
    replace (seg_compute topology base_compute_speed p p td s)
      with (seg_compute topology base_compute_speed p p td
                        (update_task p (fun t => t) s))
      by (now rewrite update_task_id_state).
    apply (compute_path p td _ s t Tp).
    + intros x. repeat split.
    + right. auto.
  - destruct PI as [-> _].
    destruct (Ev_keys _ _ _ _ I Kp) as [ev Ep].
    assert (Tr : simpy.triggered ev = false).
    { destruct (simpy.triggered ev) eqn:X; auto.
      apply (e_trig _ _ _ I _ _ _ Ep Tp) in X. congruence. }
    rewrite (seg_finish_cases p s t ev Tp Ep Tr).
    apply (r_finish p s t ev); auto.
  - destruct PI as [A _]. lia.
Qed.

(** *** Reading a state after a resumption *)

Lemma fold_schedule (news : list (Q * simpy.event)) : forall e,
  let e' := fold_left
              (fun e x => simpy.schedule (snd x) simpy.NORMAL (fst x) e)
              news e in
  simpy.now e' = simpy.now e /\
  (forall x, In x (simpy._queue e') ->
             In x (simpy._queue e) \/
             exists d ev eid, In (d, ev) news /\
                              x = (simpy.now e + d, simpy.NORMAL, eid, ev)) /\
  (forall x, In x (simpy._queue e) -> In x (simpy._queue e')) /\
  (forall d ev, In (d, ev) news ->
                exists eid, In (simpy.now e + d, simpy.NORMAL, eid, ev)
                               (simpy._queue e')) /\
  (forall f, count f (simpy._queue e')
             = (count f (simpy._queue e)
                + List.length (filter (fun x => f (snd x)) news))%nat).
Proof.
  induction news as [|[d ev] news IH]; intros e; cbn [fold_left].
  - split; auto. split; auto. split; auto. split; [intros d ev []|].
    intros f. simpl. lia.
  - destruct (IH (simpy.schedule ev simpy.NORMAL d e)) as [A [B [C [D E]]]].
    cbn [fst snd] in *.
    assert (Q1 : simpy._queue (simpy.schedule ev simpy.NORMAL d e)
                 = simpy._queue e
                   ++ [(simpy.now e + d, simpy.NORMAL, simpy._eid e, ev)])
      by reflexivity.
    assert (N1 : simpy.now (simpy.schedule ev simpy.NORMAL d e) = simpy.now e)
      by reflexivity.
    rewrite Q1, N1 in *.
    split; [exact A|]. split; [|split; [|split]].
    + intros x X. destruct (B x X) as [Y|[d' [ev' [eid [Y Z]]]]].
      * apply in_app_iff in Y. destruct Y as [Y|[Y|[]]]; auto.
        right. exists d, ev, (simpy._eid e). simpl. auto.
      * right. exists d', ev', eid. simpl. auto.
    + intros x X. apply C. apply in_app_iff. auto.
    + intros d' ev' [X|X].
      * inversion X; subst. exists (simpy._eid e). apply C.
        apply in_app_iff. simpl. auto.
      * apply D. exact X.
    + intros f. rewrite E, count_app. unfold count at 2. cbn [filter snd].
      unfold event_of. cbn [snd].
      destruct (f ev); simpl; lia.
Qed.

Lemma T_canon p f news evs cds at_pc ms s k :
  T (canon p f news evs cds at_pc ms s) k
  = if String.eqb p k then option_map f (T s k) else T s k.
Proof. apply T_update_task. Qed.

Lemma Pc_canon p f news evs cds at_pc ms s k :
  Pc (canon p f news evs cds at_pc ms s) k
  = if String.eqb p k then Some at_pc else Pc s k.
Proof. unfold Pc, canon; simpl. apply sget_set. Qed.

Lemma now_canon p f news evs cds at_pc ms s :
  now (canon p f news evs cds at_pc ms s) = now s.
Proof. unfold now, canon; simpl. apply fold_schedule. Qed.

Lemma Qu_canon p f news evs cds at_pc ms s :
  (forall x, In x (Qu (canon p f news evs cds at_pc ms s)) ->
             In x (Qu s) \/
             exists d ev eid, In (d, ev) news /\
                              x = (now s + d, simpy.NORMAL, eid, ev)) /\
  (forall x, In x (Qu s) -> In x (Qu (canon p f news evs cds at_pc ms s))) /\
  (forall d ev, In (d, ev) news ->
                exists eid, In (now s + d, simpy.NORMAL, eid, ev)
                               (Qu (canon p f news evs cds at_pc ms s))).
Proof.
  unfold Qu, canon, now; simpl.
  destruct (fold_schedule news (env s)) as [A [B [C [D E]]]]. auto.
Qed.


(** *** A completion event and its callbacks, spelled out *)

Lemma check_cases (p : string) (rem : list string) (st : state) :
  Inv None (p :: rem) st ->
  exists c td,
    Cd st p = Some c /\ simpy.cond_triggered c = false /\
    Pc st p = Some (WaitPreds p td (PREDS p)) /\
    _check p st
    = checked p c (Nat.eqb (simpy.n_events c) (S (simpy._count c))) st /\
    Inv None rem (_check p st).
Proof.
  intros I.
  pose proof (c_inv _ _ _ I p) as CI. unfold cond_inv in CI.
  assert (OC : (0 < occ p (p :: rem))%nat) by (apply occ_In; simpl; auto).
  destruct (Cd st p) as [c|] eqn:Cp; [|lia].
  destruct (simpy.cond_triggered c) eqn:Tc; [lia|].
  destruct CI as [[[tid [td [preds Wp]]]|Wp] CI]; [|discriminate].
  assert (N : @None string <> Some p) by discriminate.
  pose proof (p_inv _ _ _ I _ _ Wp N) as PI. simpl in PI.
  destruct PI as [-> [A [-> _]]].
  exists c, td. split; auto. split; auto. split; auto.
  split; [|now apply check_inv].
  unfold _check, checked. change (dict_get p (conditions st)) with (Cd st p).
  rewrite Cp, Tc. destruct (Nat.eqb _ _); reflexivity.
Qed.

(** The callbacks touch neither tasks, events, processes nor records. *)
Lemma check_same (p : string) (st : state) :
  scheduled_tasks (_check p st) = scheduled_tasks st /\
  completion_events (_check p st) = completion_events st /\
  procs (_check p st) = procs st /\
  metrics (_check p st) = metrics st /\
  now (_check p st) = now st.
Proof.
  unfold _check. destruct (dict_get p (conditions st)) as [c|]; auto.
  destruct (simpy.cond_triggered c); auto.
  destruct (Nat.eqb _ _); repeat split.
Qed.

Lemma fold_check_same (l : list string) : forall st,
  let st' := fold_left (fun st p => _check p st) l st in
  scheduled_tasks st' = scheduled_tasks st /\
  completion_events st' = completion_events st /\
  procs st' = procs st /\
  metrics st' = metrics st /\
  now st' = now st.
Proof.
  induction l as [|p l IH]; intros st; cbn [fold_left]; [repeat split|].
  destruct (IH (_check p st)) as [A [B [C [D E]]]].
  destruct (check_same p st) as [A' [B' [C' [D' E']]]].
  cbv zeta. rewrite A, B, C, D, E. auto.
Qed.

(** *** The state in which [self.env.run()] is called, spelled out *)

Lemma start_shape :
  let S := start_all simpy.new_environment tasks0 in
  scheduled_tasks S = tasks0 /\ metrics S = [] /\ conditions S = [] /\
  (forall p at_pc, Pc S p = Some at_pc -> at_pc = Start) /\
  (forall q ev, Ev S q = Some ev -> ev = simpy.new_event) /\
  (forall en, In en (Qu S) -> exists k, event_of en = simpy.Initialize k).
Proof.
  unfold start_all.
  set (events := fold_left (fun ce task_id => dict_set task_id simpy.new_event ce)
                           (keys tasks0) []).
  set (s0 := {| env := simpy.new_environment; scheduled_tasks := tasks0;
                completion_events := events; conditions := [];
                procs := []; metrics := [] |}).
  change (fold_left _ tasks0 s0) with (fold_left start_step tasks0 s0).
  destruct (start_fold tasks0 s0) as [A [B [C [D [E [F G]]]]]].
  cbv zeta. split; [exact A|]. split; [|split; [exact C|split; [|split]]].
  - assert (X : forall l s, metrics (fold_left start_step l s) = metrics s).
    { induction l as [|kv l IH]; intros s; simpl; auto. now rewrite IH. }
    now rewrite X.
  - intros p at_pc X. unfold Pc in X. rewrite E in X. simpl in X.
    rewrite get_fold_set in X.
    destruct (in_dec string_dec p (keys tasks0)); [congruence|discriminate].
  - intros q ev X. unfold Ev in X. rewrite B in X. simpl in X.
    unfold events in X. rewrite get_fold_set in X.
    destruct (in_dec string_dec q (keys tasks0)); [congruence|discriminate].
  - intros en X. destruct (F en X) as [[]|[k [_ [_ [_ Y]]]]]. eauto.
Qed.

(** *** The ledger: what the replay writes, and where *)

(** The fields that [load_schedule] fills and the replay only reads. *)
Definition same_plan (t0 t : ScheduledTask.t) : Prop :=
  ScheduledTask.task_id t = ScheduledTask.task_id t0 /\
  ScheduledTask.node_id t = ScheduledTask.node_id t0 /\
  ScheduledTask.scheduled_start t = ScheduledTask.scheduled_start t0 /\
  ScheduledTask.scheduled_end t = ScheduledTask.scheduled_end t0 /\
  ScheduledTask.scheduled_duration t = ScheduledTask.scheduled_duration t0 /\
  ScheduledTask.downlink_time t = ScheduledTask.downlink_time t0.

Definition end_of (t : ScheduledTask.t) : Q :=
  match ScheduledTask.actual_end t with Some e => e | None => 0 end.

Fixpoint ordered (l : list Q) : Prop :=
  match l with
  | [] => True
  | a :: r => (forall b, In b r -> a <= b) /\ ordered r
  end.

Lemma ordered_snoc (l : list Q) (x : Q) :
  ordered l -> (forall a, In a l -> a <= x) -> ordered (l ++ [x]).
Proof.
  induction l as [|a l IH]; simpl; intros O B.
  - split; auto. intros b [].
  - destruct O as [O1 O2]. split; [|apply IH; auto].
    intros b I. apply in_app_iff in I. destruct I as [I|[<-|[]]]; auto.
Qed.

Lemma NoDup_snoc {A} (l : list A) (x : A) :
  NoDup l -> ~ In x l -> NoDup (l ++ [x]).
Proof.
  intros ND NI. apply (Permutation_NoDup (l := x :: l)).
  - apply Permutation_cons_append.
  - now constructor.
Qed.

Record Led (st : state) : Prop := {
  l_plan : forall k t, T st k = Some t ->
      exists t0, dict_get k tasks0 = Some t0 /\ same_plan t0 t;
  l_snap : forall m, In m (metrics st) ->
      T st (ScheduledTask.task_id m) = Some m /\
      ScheduledTask.actual_end m <> None;
  l_all : forall k t, T st k = Some t ->
      ScheduledTask.actual_end t <> None -> In t (metrics st);
  l_once : NoDup (map ScheduledTask.task_id (metrics st));
  l_order : ordered (map end_of (metrics st));
  l_times : forall k t, T st k = Some t ->
      Pc st k = Some (Compute k) \/ ScheduledTask.actual_end t <> None ->
      exists a, ScheduledTask.actual_start t = Some a /\ 0 <= a /\
                0 <= ScheduledTask.compute_time t
}.

Lemma Led_same (st st' : state) :
  scheduled_tasks st' = scheduled_tasks st -> procs st' = procs st ->
  metrics st' = metrics st -> Led st -> Led st'.
Proof.
  intros A B C L. split; unfold T, Pc; rewrite ?A, ?B, ?C; apply L.
Qed.

Lemma metrics_canon p f news evs cds at_pc ms (s : state) :
  metrics (canon p f news evs cds at_pc ms s) = ms.
Proof. reflexivity. Qed.

(** One resumption, whatever its effect, keeps the ledger. *)
Lemma canon_led p f news evs cds at_pc ms (s : state) (t : ScheduledTask.t) :
  Inv (Some p) [] s -> Led s -> T s p = Some t ->
  ScheduledTask.actual_end t = None ->
  same_plan t (f t) ->
  (ms = metrics s /\ ScheduledTask.actual_end (f t) = None) \/
  (ms = metrics s ++ [f t] /\
   ScheduledTask.actual_end (f t) = Some (now s)) ->
  (at_pc = Compute p \/ ScheduledTask.actual_end (f t) <> None ->
   exists a, ScheduledTask.actual_start (f t) = Some a /\ 0 <= a /\
             0 <= ScheduledTask.compute_time (f t)) ->
  Led (canon p f news evs cds at_pc ms s).
Proof.
  intros I L Tp Up SP MS TM.
  destruct (s_static _ _ _ I _ _ Tp) as [Id _].
  assert (NP : forall m, In m (metrics s) -> ScheduledTask.task_id m <> p).
  { intros m A B. destruct (l_snap _ L m A) as [X Y].
    rewrite B, Tp in X. inversion X; subst. congruence. }
  split; rewrite ?metrics_canon.
  - intros k tk. rewrite T_canon.
    destruct (String.eqb_spec p k) as [<-|N]; [|apply L].
    rewrite Tp. simpl. intros X; inversion X; subst tk.
    destruct (l_plan _ L _ _ Tp) as [t0 [A B]]. exists t0. split; auto.
    unfold same_plan in *. intuition congruence.
  - intros m A. rewrite T_canon.
    assert (Old : In m (metrics s) ->
                  (if String.eqb p (ScheduledTask.task_id m)
                   then option_map f (T s (ScheduledTask.task_id m))
                   else T s (ScheduledTask.task_id m)) = Some m /\
                  ScheduledTask.actual_end m <> None).
    { intros B. pose proof (NP m B) as C.
      destruct (String.eqb_spec p (ScheduledTask.task_id m)); [congruence|].
      apply (l_snap _ L m B). }
    destruct MS as [[-> _]|[-> E]]; [auto|].
    apply in_app_iff in A. destruct A as [A|[<-|[]]]; [auto|].
    destruct SP as [SP _]. rewrite SP, Id, String.eqb_refl, Tp. simpl.
    split; [reflexivity|congruence].
  - intros k tk. rewrite T_canon.
    destruct (String.eqb_spec p k) as [<-|N].
    + rewrite Tp. simpl. intros X Y; inversion X; subst tk.
      destruct MS as [[-> E]|[-> E]]; [congruence|].
      apply in_app_iff. simpl. auto.
    + intros X Y. pose proof (l_all _ L _ _ X Y) as Z.
      destruct MS as [[-> _]|[-> _]]; [auto|apply in_app_iff; auto].
  - destruct MS as [[-> _]|[-> E]]; [apply L|].
    rewrite map_app. simpl. apply NoDup_snoc; [apply L|].
    intros A. apply in_map_iff in A. destruct A as [m [A B]].
    destruct SP as [SP _]. rewrite SP, Id in A. exact (NP m B A).
  - destruct MS as [[-> _]|[-> E]]; [apply L|].
    rewrite map_app. simpl. apply ordered_snoc; [apply L|].
    intros a A. apply in_map_iff in A. destruct A as [m [<- B]].
    destruct (l_snap _ L m B) as [X Y]. unfold end_of at 2. rewrite E.
    unfold end_of. destruct (ScheduledTask.actual_end m) as [e|] eqn:Z;
      [|congruence].
    apply (e_end _ _ _ I _ _ _ X Z).
  - intros k tk. rewrite T_canon, Pc_canon.
    destruct (String.eqb_spec p k) as [<-|N]; [|apply L].
    rewrite Tp. simpl. intros X Y; inversion X; subst tk.
    apply TM. destruct Y as [Y|Y]; [left; congruence|right; exact Y].
Qed.

Lemma hole_task (p : string) (s : state) (t : ScheduledTask.t) :
  Inv (Some p) [] s -> T s p = Some t -> ScheduledTask.actual_end t = None.
Proof.
  intros I Tp. destruct (p_hole _ _ _ I p eq_refl) as [[t' [A B]] _].
  congruence.
Qed.

Lemma resumed_led (p : string) (s s' : state) :
  Inv (Some p) [] s -> Led s -> resumed p s s' -> Led s'.
Proof.
  intros I L R. pose proof (t_now _ _ _ I) as N0.
  destruct R as [t td Tp Pp D NE|t td u Tp Dp U Lu|t td f c Tp En G Lc
                 |t ev Tp Pp Ep Tr|t f e Tp Kf Ca];
    pose proof (hole_task p s t I Tp) as Up;
    apply (canon_led _ _ _ _ _ _ _ s t I L Tp Up).
  - repeat split.
  - auto.
  - intros [X|X]; [discriminate|congruence].
  - repeat split.
  - auto.
  - intros [X|X]; [discriminate|]. simpl in X. congruence.
  - destruct En as [[_ [u [_ [_ ->]]]]|[_ [_ ->]]]; repeat split.
  - left. split; auto.
    destruct En as [[_ [u [_ [_ ->]]]]|[_ [_ ->]]]; exact Up.
  - intros _. exists (now s). simpl. auto.
  - repeat split.
  - right. auto.
  - intros _. destruct (l_times _ L _ _ Tp (or_introl Pp)) as [a [A B]].
    exists a. simpl. auto.
  - destruct (Kf t) as [A1 [A2 [A3 [A4 [A5 [A6 A7]]]]]].
    repeat split; assumption.
  - left. split; auto. destruct (Kf t) as [_ [_ [_ [_ [_ [_ A7]]]]]].
    congruence.
  - intros [X|X]; [discriminate|].
    destruct (Kf t) as [_ [_ [_ [_ [_ [_ A7]]]]]]. congruence.
Qed.

Theorem step_led (st st' : state) (err : option exn) :
  Inv None [] st -> Led st ->
  step topology task_definitions base_compute_speed st = Some (st', err) ->
  Led st'.
Proof.
  intros I L S.
  destruct (heappop simpy.entry_ltb (Qu st)) as [[en rest]|] eqn:P.
  2:{ unfold step in S. unfold Qu in P. rewrite P in S. discriminate. }
  rewrite (step_popped _ _ _ P) in S. inversion S as [F]; clear S.
  assert (L' : Led (popped st en rest)) by (revert L; now apply Led_same).
  assert (R : forall p, resumes p (event_of en) = true ->
                Led (_resume topology task_definitions base_compute_speed p
                             (popped st en rest))).
  { intros p Rs. destruct (resume_cases st en rest p I P Rs) as [I' R].
    exact (resumed_led p _ _ I' L' R). }
  destruct (event_of en) as [p|q|p|p|p r] eqn:Eq.
  - simpl in F. inversion F; subst. apply R. simpl. apply String.eqb_refl.
  - destruct (completion_shape st en rest q I P Eq)
      as [ev [cbs [_ [_ [_ [F1 _]]]]]].
    rewrite F1 in F. inversion F; subst.
    destruct (fold_check_same cbs (opened q st en rest)) as [A [_ [B [C _]]]].
    revert L'. apply Led_same; auto.
  - simpl in F. inversion F; subst. apply R. simpl. apply String.eqb_refl.
  - simpl in F. inversion F; subst. apply R. simpl. apply String.eqb_refl.
  - simpl in F. destruct r; inversion F; subst; exact L'.
Qed.

Theorem start_led : Led (start_all simpy.new_environment tasks0).
Proof.
  destruct start_shape as [A [B [_ [C _]]]]. cbv zeta in *.
  assert (Fr : forall k t, T (start_all simpy.new_environment tasks0) k = Some t ->
                           ScheduledTask.actual_end t = None).
  { intros k t X. unfold T in X. rewrite A in X.
    eapply tasks0_fresh. apply dict_get_In. eauto. }
  split; rewrite ?B.
  - intros k t X. exists t. unfold T in X. rewrite A in X. split; auto.
    repeat split.
  - intros m [].
  - intros k t X Y. rewrite (Fr k t X) in Y. congruence.
  - constructor.
  - exact Logic.I.
  - intros k t X [Y|Y].
    + apply C in Y. discriminate.
    + rewrite (Fr k t X) in Y. congruence.
Qed.

Theorem env_run_led (fuel : nat) : forall st,
  Inv None [] st -> Led st ->
  Led (fst (env_run topology task_definitions base_compute_speed fuel st)).
Proof.
  induction fuel as [|fuel IH]; intros st I L; simpl; auto.
  destruct (step _ _ _ st) as [[st' [e|]]|] eqn:S; simpl; auto.
  - eapply step_led; eauto.
  - apply IH; [eapply step_inv|eapply step_led]; eauto.
Qed.

Theorem replay_led : Led final.
Proof. apply env_run_led; [apply start_inv|apply start_led]. Qed.

(** *** Failed processes are waiting to be reported *)

Lemma check_queue (p : string) (st : state) :
  (forall x, In x (Qu st) -> In x (Qu (_check p st))) /\
  (forall x, In x (Qu (_check p st)) ->
             In x (Qu st) \/
             (event_of x = simpy.AllOf p /\ time_of x = now st + 0)).
Proof.
  unfold _check. destruct (dict_get p (conditions st)) as [c|]; auto.
  destruct (simpy.cond_triggered c); auto.
  destruct (Nat.eqb _ _); auto.
  unfold Qu, schedule; simpl. unfold heappush. split.
  - intros x A. apply in_app_iff. auto.
  - intros x A. apply in_app_iff in A. destruct A as [A|[<-|[]]]; auto.
Qed.

Lemma fold_check_queue (l : list string) : forall st,
  let st' := fold_left (fun st p => _check p st) l st in
  (forall x, In x (Qu st) -> In x (Qu st')) /\
  (forall x, In x (Qu st') ->
             In x (Qu st) \/
             exists p, In p l /\ event_of x = simpy.AllOf p /\
                       time_of x = now st + 0).
Proof.
  induction l as [|p l IH]; intros st; cbn [fold_left]; [split; auto|].
  destruct (IH (_check p st)) as [A B].
  destruct (check_queue p st) as [A' B']. cbv zeta in *. split.
  - auto.
  - intros x X. destruct (B x X) as [Y|[p' [Y1 [Y2 Y3]]]].
    + destruct (B' x Y) as [Z|[Z1 Z2]]; auto.
      right. exists p. simpl. auto.
    + right. exists p'. simpl. split; auto. split; auto.
      rewrite Y3. destruct (check_same p st) as [_ [_ [_ [_ ->]]]].
      reflexivity.
Qed.

Record Owed (st : state) : Prop := {
  o_raise : forall p, Pc st p = Some Exhausted -> unfinished st p ->
      exists en e, In en (Qu st) /\
                   event_of en = simpy.Process p (Raise e);
  o_undef : forall p, In p (keys tasks0) ->
      dict_get (base_task_id p) task_definitions = None ->
      Pc st p = Some Start \/ (Pc st p = Some Exhausted /\ unfinished st p)
}.

Lemma canon_owed p f news evs cds at_pc ms (s : state) (t : ScheduledTask.t) :
  Owed s -> T s p = Some t ->
  (at_pc = Exhausted -> ScheduledTask.actual_end (f t) = None ->
   exists d e, In (d, simpy.Process p (Raise e)) news) ->
  (dict_get (base_task_id p) task_definitions = None ->
   at_pc = Exhausted /\ ScheduledTask.actual_end (f t) = None) ->
  Owed (canon p f news evs cds at_pc ms s).
Proof.
  intros O Tp RA UD.
  destruct (Qu_canon p f news evs cds at_pc ms s) as [Q1 [Q2 Q3]].
  assert (UF : forall k, k <> p ->
                 unfinished (canon p f news evs cds at_pc ms s) k ->
                 unfinished s k).
  { intros k N [tk [A B]]. rewrite T_canon in A.
    destruct (String.eqb_spec p k); [congruence|]. exists tk. auto. }
  assert (FU : forall k, k <> p -> unfinished s k ->
                 unfinished (canon p f news evs cds at_pc ms s) k).
  { intros k N [tk [A B]]. exists tk. rewrite T_canon.
    destruct (String.eqb_spec p k); [congruence|]. auto. }
  split.
  - intros k. rewrite Pc_canon.
    destruct (String.eqb_spec p k) as [<-|N].
    + intros A [tk [B C]]. inversion A; subst at_pc.
      rewrite T_canon, String.eqb_refl, Tp in B. simpl in B.
      inversion B; subst tk.
      destruct (RA eq_refl C) as [d [e X]].
      destruct (Q3 _ _ X) as [eid Y].
      eexists. exists e. split; [exact Y|reflexivity].
    + intros A B.
      destruct (o_raise _ O k A (UF k (not_eq_sym N) B)) as [en [e [X Y]]].
      exists en, e. split; [apply Q2; exact X|exact Y].
  - intros k K D. rewrite Pc_canon.
    destruct (String.eqb_spec p k) as [<-|N].
    + destruct (UD D) as [-> E]. right. split; auto.
      exists (f t). rewrite T_canon, String.eqb_refl, Tp. auto.
    + destruct (o_undef _ O k K D) as [A|[A B]]; auto.
Qed.

Lemma resumed_owed (p : string) (s s' : state) :
  Inv (Some p) [] s -> Owed s -> resumed p s s' -> Owed s'.
Proof.
  intros I O R.
  destruct (p_hole _ _ _ I p eq_refl) as [_ Kp].
  destruct R as [t td Tp Pp D NE|t td u Tp Dp U Lu|t td f c Tp En G Lc
                 |t ev Tp Pp Ep Tr|t f e Tp Kf Ca];
    apply (canon_owed _ _ _ _ _ _ _ s t O Tp).
  - discriminate.
  - congruence.
  - discriminate.
  - destruct Dp as [D _]. congruence.
  - discriminate.
  - destruct En as [[[D _] _]|[_ [D _]]]; congruence.
  - intros _ X. simpl in X. discriminate.
  - intros D. destruct (o_undef _ O p Kp D) as [A|[A _]]; congruence.
  - intros _ _. exists 0, e. simpl. auto.
  - intros _. split; auto. destruct (Kf t) as [_ [_ [_ [_ [_ [_ A7]]]]]].
    rewrite A7. eapply hole_task; eauto.
Qed.

Lemma Owed_grow (st st' : state) :
  scheduled_tasks st' = scheduled_tasks st -> procs st' = procs st ->
  (forall x, In x (Qu st) -> In x (Qu st')) -> Owed st -> Owed st'.
Proof.
  intros A B C O. split; unfold unfinished, T, Pc; rewrite ?A, ?B.
  - intros p X Y. destruct (o_raise _ O p X Y) as [en [e [Z1 Z2]]].
    exists en, e. auto.
  - apply O.
Qed.

(** Popping anything but the failure of a process keeps what is owed. *)
Lemma popped_owed (st : state) (en : simpy.entry) (rest : list simpy.entry) :
  heappop simpy.entry_ltb (Qu st) = Some (en, rest) ->
  (forall p e, event_of en <> simpy.Process p (Raise e)) ->
  Owed st -> Owed (popped st en rest).
Proof.
  intros P NR O. pose proof (heappop_In _ _ _ _ P) as PIn.
  split.
  - intros p X Y. destruct (o_raise _ O p X Y) as [x [e [Z1 Z2]]].
    exists x, e. split; auto. apply PIn in Z1. destruct Z1 as [->|Z1]; auto.
    exfalso. exact (NR _ _ Z2).
  - apply O.
Qed.

Theorem step_owed (st st' : state) :
  Inv None [] st -> Owed st ->
  step topology task_definitions base_compute_speed st = Some (st', None) ->
  Owed st'.
Proof.
  intros I O S.
  destruct (heappop simpy.entry_ltb (Qu st)) as [[en rest]|] eqn:P.
  2:{ unfold step in S. unfold Qu in P. rewrite P in S. discriminate. }
  rewrite (step_popped _ _ _ P) in S. inversion S as [F]; clear S.
  assert (R : forall p, resumes p (event_of en) = true ->
                Owed (_resume topology task_definitions base_compute_speed p
                              (popped st en rest))).
  { intros p Rs. destruct (resume_cases st en rest p I P Rs) as [I' R].
    apply (resumed_owed p _ _ I'); auto.
    apply popped_owed; auto. intros p' e X. rewrite X in Rs. discriminate. }
  destruct (event_of en) as [p|q|p|p|p r] eqn:Eq.
  - simpl in F. inversion F; subst. apply R. simpl. apply String.eqb_refl.
  - destruct (completion_shape st en rest q I P Eq)
      as [ev [cbs [_ [_ [_ [F1 _]]]]]].
    rewrite F1 in F. inversion F; subst.
    destruct (fold_check_same cbs (opened q st en rest)) as [A [_ [B _]]].
    destruct (fold_check_queue cbs (opened q st en rest)) as [C _].
    apply (Owed_grow (popped st en rest)); auto.
    apply popped_owed; auto. intros p' e X. rewrite X in Eq. discriminate.
  - simpl in F. inversion F; subst. apply R. simpl. apply String.eqb_refl.
  - simpl in F. inversion F; subst. apply R. simpl. apply String.eqb_refl.
  - simpl in F. destruct r as [u|e]; inversion F; subst.
    apply popped_owed; auto. intros p' e X. rewrite X in Eq. discriminate.
Qed.

Theorem start_owed : Owed (start_all simpy.new_environment tasks0).
Proof.
  destruct start_shape as [_ [_ [_ [C _]]]]. cbv zeta in *. split.
  - intros p X. apply C in X. discriminate.
  - intros p K _. left. destruct (Pc_keys _ _ _ _ start_inv K) as [at_pc X].
    rewrite X. f_equal. eapply C; eauto.
Qed.

Theorem env_run_owed (fuel : nat) : forall st,
  Inv None [] st -> Owed st ->
  snd (env_run topology task_definitions base_compute_speed fuel st) = None ->
  Owed (fst (env_run topology task_definitions base_compute_speed fuel st)).
Proof.
  induction fuel as [|fuel IH]; intros st I O; simpl; [discriminate|].
  destruct (step _ _ _ st) as [[st' [e|]]|] eqn:S; simpl; auto.
  - discriminate.
  - apply IH; [eapply step_inv|eapply step_owed]; eauto.
Qed.

Definition idle (st : state) : Prop :=
  forall p, In p (keys tasks0) ->
    dict_get (base_task_id p) task_definitions = None ->
    Pc st p = Some Start \/ (Pc st p = Some Exhausted /\ unfinished st p).

Lemma step_idle (st st' : state) (err : option exn) :
  Inv None [] st -> Owed st ->
  step topology task_definitions base_compute_speed st = Some (st', err) ->
  idle st'.
Proof.
  intros I O S. destruct err as [e|].
  2:{ exact (o_undef _ (step_owed st st' I O S)). }
  destruct (heappop simpy.entry_ltb (Qu st)) as [[en rest]|] eqn:P.
  2:{ unfold step in S. unfold Qu in P. rewrite P in S. discriminate. }
  rewrite (step_popped _ _ _ P) in S. inversion S as [F]; clear S.
  destruct (event_of en) as [p|q|p|p|p r] eqn:Eq;
    try (simpl in F; discriminate).
  - destruct (completion_shape st en rest q I P Eq)
      as [ev [cbs [_ [_ [_ [F1 _]]]]]].
    rewrite F1 in F. discriminate.
  - simpl in F. destruct r; inversion F; subst. exact (o_undef _ O).
Qed.

Theorem env_run_idle (fuel : nat) : forall st,
  Inv None [] st -> Owed st ->
  idle (fst (env_run topology task_definitions base_compute_speed fuel st)).
Proof.
  induction fuel as [|fuel IH]; intros st I O; simpl; [exact (o_undef _ O)|].
  destruct (step _ _ _ st) as [[st' [e|]]|] eqn:S; simpl.
  - eapply step_idle; eauto.
  - apply IH; [eapply step_inv|eapply step_owed]; eauto.
  - exact (o_undef _ O).
Qed.

(** A scheduled task without a definition makes the replay raise, and is
    left as it was. *)
Theorem replay_undefined (p : string) :
  In p (keys tasks0) ->
  dict_get (base_task_id p) task_definitions = None ->
  snd (replay topology task_definitions base_compute_speed tasks0) <> None /\
  unfinished final p.
Proof.
  intros K D.
  destruct (env_run_idle (S (6 * List.length tasks0)) _ start_inv start_owed
                         p K D) as [A|[A B]].
  { exfalso. exact (replay_started p A). }
  split; [|exact B]. intros E.
  pose proof (env_run_owed (S (6 * List.length tasks0)) _ start_inv start_owed
                           E) as O.
  destruct (o_raise _ O p A B) as [en [e [X _]]].
  change (In en (Qu final)) in X. rewrite (replay_drained E) in X.
  destruct X.
Qed.

(** *** Which exceptions the replay can raise *)

Section Vetting.
Variable allowed : exn -> Prop.
Hypothesis a_def : forall p,
  In p (keys tasks0) ->
  dict_get (base_task_id p) task_definitions = None ->
  allowed (ValueError ("No task definition found for " ++ base_task_id p)%string).
Hypothesis a_upl : forall p e,
  In p (keys tasks0) -> uplink0 p = Raise e -> allowed e.
Hypothesis a_cmp : forall p t0 td e,
  dict_get p tasks0 = Some t0 ->
  dict_get (base_task_id p) task_definitions = Some td ->
  DAGTopology.get_compute_time topology (ScheduledTask.node_id t0)
    (TaskDefinition.compute_cost td) base_compute_speed = Raise e ->
  allowed e.
Hypothesis a_neg : forall p t0 td c,
  dict_get p tasks0 = Some t0 ->
  dict_get (base_task_id p) task_definitions = Some td ->
  DAGTopology.get_compute_time topology (ScheduledTask.node_id t0)
    (TaskDefinition.compute_cost td) base_compute_speed = Ok c ->
  c < 0 -> allowed (ValueError "Negative delay").

(** Every failed process in the schedule carries an allowed exception. *)
Definition vet (st : state) : Prop :=
  forall en p e, In en (Qu st) ->
                 event_of en = simpy.Process p (Raise e) -> allowed e.

Lemma cause_allowed (p : string) (s : state) (t : ScheduledTask.t) (e : exn) :
  Inv (Some p) [] s -> T s p = Some t -> cause s p t e -> allowed e.
Proof.
  intros I Tp Ca.
  destruct (p_hole _ _ _ I p eq_refl) as [_ Kp].
  destruct (s_static _ _ _ I _ _ Tp) as [_ [t0 [T0 Nd]]].
  destruct Ca as [[_ [D ->]]|[[td [_ U]]|[td [f [En G]]]]].
  - now apply a_def.
  - now apply (a_upl p).
  - assert (D : dict_get (base_task_id p) task_definitions = Some td).
    { destruct En as [[[D _] _]|[_ [D _]]]; exact D. }
    rewrite Nd in G. destruct G as [G|[c [G [L ->]]]].
    + exact (a_cmp p t0 td e T0 D G).
    + exact (a_neg p t0 td c T0 D G L).
Qed.

Lemma canon_vet p f news evs cds at_pc ms (s : state) :
  vet s ->
  (forall d p' e, In (d, simpy.Process p' (Raise e)) news -> allowed e) ->
  vet (canon p f news evs cds at_pc ms s).
Proof.
  intros V N en p' e A B.
  destruct (Qu_canon p f news evs cds at_pc ms s) as [Q1 _].
  destruct (Q1 en A) as [X|[d [ev [eid [X ->]]]]].
  - exact (V en p' e X B).
  - unfold event_of in B. simpl in B. subst ev. eapply N; eauto.
Qed.

Lemma resumed_vet (p : string) (s s' : state) :
  Inv (Some p) [] s -> vet s -> resumed p s s' -> vet s'.
Proof.
  intros I V R.
  destruct R as [t td Tp Pp D NE|t td u Tp Dp U Lu|t td f c Tp En G Lc
                 |t ev Tp Pp Ep Tr|t f e Tp Kf Ca];
    apply canon_vet; auto.
  - intros d p' e [].
  - intros d p' e [X|[]]. discriminate.
  - intros d p' e [X|[]]. discriminate.
  - intros d p' e [X|[X|[]]]; discriminate.
  - intros d p' e' [X|[]]. injection X as _ _ <-.
    exact (cause_allowed p s t e I Tp Ca).
Qed.

Theorem step_vet (st st' : state) (err : option exn) :
  Inv None [] st -> vet st ->
  step topology task_definitions base_compute_speed st = Some (st', err) ->
  vet st' /\ forall e, err = Some e -> allowed e.
Proof.
  intros I V S.
  destruct (heappop simpy.entry_ltb (Qu st)) as [[en rest]|] eqn:P.
  2:{ unfold step in S. unfold Qu in P. rewrite P in S. discriminate. }
  rewrite (step_popped _ _ _ P) in S. inversion S as [F]; clear S.
  pose proof (heappop_In _ _ _ _ P) as PIn.
  assert (Ien : In en (Qu st)) by (apply PIn; auto).
  assert (V' : vet (popped st en rest)).
  { intros x p e X. apply (V x p e). apply PIn. right. exact X. }
  assert (R : forall p, resumes p (event_of en) = true ->
                vet (_resume topology task_definitions base_compute_speed p
                             (popped st en rest))).
  { intros p Rs. destruct (resume_cases st en rest p I P Rs) as [I' R].
    exact (resumed_vet p _ _ I' V' R). }
  destruct (event_of en) as [p|q|p|p|p r] eqn:Eq.
  - simpl in F. inversion F; subst. split; [|discriminate].
    apply R. simpl. apply String.eqb_refl.
  - destruct (completion_shape st en rest q I P Eq)
      as [ev [cbs [_ [_ [_ [F1 _]]]]]].
    rewrite F1 in F. inversion F; subst. split; [|discriminate].
    destruct (fold_check_queue cbs (opened q st en rest)) as [_ C].
    intros x p e X Y. destruct (C x X) as [Z|[p' [_ [Z _]]]].
    + exact (V' x p e Z Y).
    + rewrite Z in Y. discriminate.
  - simpl in F. inversion F; subst. split; [|discriminate].
    apply R. simpl. apply String.eqb_refl.
  - simpl in F. inversion F; subst. split; [|discriminate].
    apply R. simpl. apply String.eqb_refl.
  - simpl in F. destruct r as [u|e]; inversion F; subst;
      (split; [exact V'|]); [discriminate|].
    intros e' X. inversion X; subst. exact (V en p e' Ien Eq).
Qed.

Theorem env_run_vet (fuel : nat) : forall st,
  Inv None [] st -> vet st -> (potential st < fuel)%nat ->
  forall e,
    snd (env_run topology task_definitions base_compute_speed fuel st)
    = Some e -> allowed e.
Proof.
  induction fuel as [|fuel IH]; intros st I V L; [lia|]. simpl.
  destruct (step _ _ _ st) as [[st' [e|]]|] eqn:S; simpl.
  - intros e' X. apply (proj2 (step_vet _ _ _ I V S)). exact X.
  - pose proof (step_potential _ _ _ I S).
    apply IH; [eapply step_inv; eauto|apply (step_vet _ _ _ I V S)|lia].
  - discriminate.
Qed.

Theorem replay_vet (e : exn) :
  snd (replay topology task_definitions base_compute_speed tasks0) = Some e ->
  allowed e.
Proof.
  apply env_run_vet; [apply start_inv| |rewrite start_potential; lia].
  intros en p x X Y. destruct start_shape as [_ [_ [_ [_ [_ Q]]]]].
  destruct (Q en X) as [k Z]. rewrite Z in Y. discriminate.
Qed.
End Vetting.

(** *** Times are not negative *)

Lemma link_time_nonneg (l : NetworkLink.t) (n x : Q) :
  NetworkLink.get_transfer_time l n = Ok x -> 0 <= n -> 0 <= x.
Proof.
  unfold NetworkLink.get_transfer_time.
  destruct (Qle_bool (NetworkLink.bandwidth l) 0) eqn:B; [discriminate|].
  intros E N. inversion E; subst x.
  assert (P : 0 < NetworkLink.bandwidth l).
  { destruct (Qlt_le_dec 0 (NetworkLink.bandwidth l)) as [A|A]; auto.
    apply Qle_bool_iff in A. congruence. }
  assert (P' : 0 < NetworkLink.bytes_per_second l).
  { unfold NetworkLink.bytes_per_second, Qdiv.
    apply Qmult_lt_0_compat; [apply Qmult_lt_0_compat; [exact P|]|];
      reflexivity. }
  apply Qle_shift_div_l; auto. lra.
Qed.

Lemma sum_transfer_times_nonneg (ls : list NetworkLink.t) (n : Q) :
  0 <= n -> forall acc x,
  (forall a, acc = Ok a -> 0 <= a) ->
  fold_left (fun acc link =>
               a <- acc ;;
               x <- NetworkLink.get_transfer_time link n ;;
               Ok (a + x)) ls acc = Ok x ->
  0 <= x.
Proof.
  intros N. induction ls as [|l ls IH]; intros acc x A E; simpl in E; auto.
  refine (IH _ x _ E).
  intros a. destruct acc as [a0|e]; simpl; [|discriminate].
  destruct (NetworkLink.get_transfer_time l n) as [y|e] eqn:G; simpl;
    [|discriminate].
  intros X; inversion X; subst a.
  pose proof (link_time_nonneg l n y G N). pose proof (A a0 eq_refl). lra.
Qed.

Lemma get_transfer_time_nonneg (s t : string) (n x : Q) :
  DAGTopology.get_transfer_time topology s t n = Ok x -> 0 <= n -> 0 <= x.
Proof.
  unfold DAGTopology.get_transfer_time. intros E N.
  destruct (String.eqb s t).
  - destruct (dict_get _ _) as [l|].
    + eapply link_time_nonneg; eauto.
    + inversion E; subst. lra.
  - destruct (DAGTopology.get_path_links topology s t) as [ls|e];
      simpl in E; [|discriminate].
    destruct ls as [|l ls]; [discriminate|].
    apply (sum_transfer_times_nonneg (l :: ls) n N (Ok 0) x); auto.
    intros a X; inversion X; subst; lra.
Qed.

Lemma In_Forall2_r {A B} (R : A -> B -> Prop) (l : list A) (l' : list B)
      (y : B) :
  Forall2 R l l' -> In y l' -> exists x, In x l /\ R x y.
Proof.
  induction 1 as [|a b l l' H F IH]; simpl; [tauto|].
  intros [<-|I]; [eauto|]. destruct (IH I) as [x [X Y]]. eauto.
Qed.

(** The uplink time is a transfer time of a positive volume, or 0. *)
Lemma uplink0_nonneg (p : string) (u : Q) : uplink0 p = Ok u -> 0 <= u.
Proof.
  intros U. apply uplink_of_spec in U. destruct U as [tts [F M]].
  destruct tts as [|x xs]; [subst; lra|].
  destruct M as [M _].
  destruct (In_Forall2_r _ _ _ _ F M) as [q [Iq [tq [tp [_ [_ G]]]]]].
  unfold timed in Iq. apply filter_In in Iq. destruct Iq as [_ Iq].
  apply andb_true_iff in Iq. destruct Iq as [_ Iq]. apply Qltb_true in Iq.
  eapply get_transfer_time_nonneg; eauto. lra.
Qed.

Lemma uplink0_root (p : string) : PREDS p = [] -> uplink0 p = Ok 0.
Proof. intros E. unfold uplink0. now rewrite E. Qed.

(** *** When a task starts: exactly when its last predecessor is done *)

Lemma resume_alone (st : state) (en : simpy.entry) (rest : list simpy.entry)
      (p : string) :
  Inv None [] st ->
  heappop simpy.entry_ltb (Qu st) = Some (en, rest) ->
  resumes p (event_of en) = true ->
  count (resumes p) rest = O.
Proof.
  intros I P Rs.
  pose proof (heappop_In _ _ _ _ P) as PIn.
  assert (Ien : In en (Qu st)) by (apply PIn; auto).
  assert (Kp : In p (keys tasks0)).
  { rewrite <- (resumes_subject _ _ Rs). apply (s_queue _ _ _ I); auto. }
  destruct (Pc_keys _ _ _ _ I Kp) as [at_pc Pp].
  assert (N : @None string <> Some p) by discriminate.
  pose proof (p_inv _ _ _ I _ _ Pp N) as PI.
  pose proof (count_pop (resumes p) _ _ _ P) as CP. rewrite Rs in CP.
  destruct at_pc as [|tid td preds|tid td|tid|]; simpl in PI.
  - destruct PI as [A _]. lia.
  - destruct PI as [_ [_ [_ [[c [_ C]] _]]]].
    destruct (simpy.cond_triggered c); lia.
  - destruct PI as [_ [_ [A _]]]. lia.
  - destruct PI as [_ [A _]]. lia.
  - destruct PI as [A _]. lia.
Qed.

(** Registration adds [p] to the callbacks of the listed events only. *)
Lemma reg1_only p es q q' ev' cbs' x :
  dict_get q' (reg1 p es q) = Some ev' ->
  simpy.callbacks ev' = Some cbs' -> In x cbs' ->
  exists ev cbs, dict_get q' es = Some ev /\ simpy.callbacks ev = Some cbs /\
                 (In x cbs \/ (x = p /\ q' = q)).
Proof.
  unfold reg1. destruct (dict_get q es) as [ev|] eqn:E.
  - destruct (simpy.callbacks ev) as [cbs|] eqn:C.
    + rewrite sget_set. destruct (String.eqb_spec q q') as [->|N].
      * intros A B D. inversion A; subst ev'. simpl in B.
        inversion B; subst cbs'. exists ev, cbs. split; auto. split; auto.
        apply in_app_iff in D. destruct D as [D|[D|[]]]; auto.
      * intros A B D. exists ev', cbs'. auto.
    + intros A B D. exists ev', cbs'. auto.
  - intros A B D. exists ev', cbs'. auto.
Qed.

Lemma reg_events_only p l : forall es q' ev' cbs' x,
  dict_get q' (reg_events p l es) = Some ev' ->
  simpy.callbacks ev' = Some cbs' -> In x cbs' ->
  exists ev cbs, dict_get q' es = Some ev /\ simpy.callbacks ev = Some cbs /\
                 (In x cbs \/ (x = p /\ In q' l)).
Proof.
  induction l as [|q l IH]; intros es q' ev' cbs' x;
    cbn [reg_events fold_left].
  - intros A B D. exists ev', cbs'. auto.
  - fold (reg_events p l (reg1 p es q)). intros A B D.
    destruct (IH _ _ _ _ _ A B D) as [ev1 [cbs1 [A1 [B1 D1]]]].
    destruct D1 as [D1|[-> D1]].
    + destruct (reg1_only _ _ _ _ _ _ _ A1 B1 D1) as [ev [cbs [X [Y Z]]]].
      exists ev, cbs. split; auto. split; auto.
      destruct Z as [Z|[Z1 Z2]]; auto. right. simpl. auto.
    + pose proof (reg1_get p es q q') as G.
      destruct (dict_get q' es) as [ev|] eqn:E; [|congruence].
      destruct G as [ev2 [G1 [[_ G2] _]]]. rewrite A1 in G1.
      inversion G1; subst ev2. rewrite B1 in G2.
      destruct (simpy.callbacks ev) as [cbs|] eqn:Cb; [|tauto].
      exists ev, cbs. split; auto. split; auto. right. simpl. auto.
Qed.

(** The task of [q] has the recorded end [e]. *)
Definition ended (st : state) (q : string) (e : Q) : Prop :=
  exists tq, T st q = Some tq /\ ScheduledTask.actual_end tq = Some e.

Record Exa (st : state) : Prop := {
  x_comp : forall en q, In en (Qu st) ->
      event_of en = simpy.Completion q ->
      exists e, ended st q e /\ e == time_of en;
  x_allof : forall en p, In en (Qu st) ->
      event_of en = simpy.AllOf p ->
      exists q e, In q (PREDS p) /\ ended st q e /\ e == time_of en;
  x_reg : forall q ev cbs p, Ev st q = Some ev ->
      simpy.callbacks ev = Some cbs -> In p cbs -> In q (PREDS p);
  x_kind : forall en p, In en (Qu st) ->
      resumes p (event_of en) = true -> waiting st p ->
      event_of en = simpy.AllOf p;
  x_upl : forall p td t, Pc st p = Some (Uplink p td) -> T st p = Some t ->
      exists a0 q e, ScheduledTask.actual_start t = Some a0 /\
                     In q (PREDS p) /\ ended st q e /\ e == a0;
  x_began : forall p t, T st p = Some t ->
      Pc st p = Some (Compute p) \/ ScheduledTask.actual_end t <> None ->
      PREDS p <> [] ->
      exists a q e, ScheduledTask.actual_start t = Some a /\
                    In q (PREDS p) /\ ended st q e /\
                    a == e + ScheduledTask.uplink_time t
}.

Lemma popped_exa (st : state) (en : simpy.entry) (rest : list simpy.entry) :
  heappop simpy.entry_ltb (Qu st) = Some (en, rest) ->
  Exa st -> Exa (popped st en rest).
Proof.
  intros P X. pose proof (heappop_In _ _ _ _ P) as PIn.
  assert (Sub : forall x, In x rest -> In x (Qu st))
    by (intros; apply PIn; auto).
  split.
  - intros x q A. apply (x_comp _ X x q (Sub x A)).
  - intros x p A. apply (x_allof _ X x p (Sub x A)).
  - apply X.
  - intros x p A. apply (x_kind _ X x p (Sub x A)).
  - apply X.
  - apply X.
Qed.

Lemma canon_exa p f news evs cds at_pc ms (s : state) (t : ScheduledTask.t) :
  Exa s -> T s p = Some t -> ScheduledTask.actual_end t = None ->
  count (resumes p) (Qu s) = O ->
  (forall d ev, In (d, ev) news ->
     ev = simpy.Timeout p \/ (exists r, ev = simpy.Process p r) \/
     (ev = simpy.Completion p /\ d == 0 /\
      ScheduledTask.actual_end (f t) = Some (now s))) ->
  ((exists tid td preds, at_pc = WaitPreds tid td preds) -> news = []) ->
  (forall q ev' cbs' x, dict_get q evs = Some ev' ->
                        simpy.callbacks ev' = Some cbs' -> In x cbs' ->
                        In q (PREDS x)) ->
  (forall td, at_pc = Uplink p td ->
     exists a0 q e, ScheduledTask.actual_start (f t) = Some a0 /\
                    In q (PREDS p) /\ ended s q e /\ e == a0) ->
  (at_pc = Compute p \/ ScheduledTask.actual_end (f t) <> None ->
   PREDS p <> [] ->
   exists a q e, ScheduledTask.actual_start (f t) = Some a /\
                 In q (PREDS p) /\ ended s q e /\
                 a == e + ScheduledTask.uplink_time (f t)) ->
  Exa (canon p f news evs cds at_pc ms s).
Proof.
  intros X Tp Up C0 HN HW HE HU HB.
  destruct (Qu_canon p f news evs cds at_pc ms s) as [Q1 _].
  set (s' := canon p f news evs cds at_pc ms s) in *.
  assert (EN : forall q e, ended s q e -> ended s' q e).
  { intros q e [tq [A B]]. exists tq. unfold s'. rewrite T_canon.
    destruct (String.eqb_spec p q) as [<-|N]; [congruence|auto]. }
  split.
  - intros en q A B. destruct (Q1 en A) as [Y|[d [ev [eid [Y ->]]]]].
    + destruct (x_comp _ X en q Y B) as [e [Z1 Z2]]. exists e. auto.
    + unfold event_of in B. simpl in B. subst ev.
      destruct (HN _ _ Y) as [Z|[[r Z]|[Z1 [Z2 Z3]]]]; try discriminate.
      inversion Z1; subst q. exists (now s). split.
      * exists (f t). unfold s'. rewrite T_canon, String.eqb_refl, Tp. auto.
      * unfold time_of. simpl. lra.
  - intros en p' A B. destruct (Q1 en A) as [Y|[d [ev [eid [Y ->]]]]].
    + destruct (x_allof _ X en p' Y B) as [q [e [Z1 [Z2 Z3]]]].
      exists q, e. auto.
    + unfold event_of in B. simpl in B. subst ev.
      destruct (HN _ _ Y) as [Z|[[r Z]|[Z _]]]; discriminate.
  - exact HE.
  - intros en p' A B W. destruct (Q1 en A) as [Y|[d [ev [eid [Y ->]]]]].
    + destruct (String.eqb_spec p p') as [<-|N].
      * rewrite (count_zero _ _ _ C0 Y) in B. discriminate.
      * apply (x_kind _ X en p' Y B).
        destruct W as [tid [td [preds W]]]. unfold s' in W.
        rewrite Pc_canon in W.
        destruct (String.eqb_spec p p'); [congruence|]. exists tid, td, preds.
        exact W.
    + unfold event_of in B |- *. simpl in B |- *.
      destruct (HN _ _ Y) as [Z|[[r Z]|[Z _]]]; subst ev; try discriminate.
      simpl in B. apply String.eqb_eq in B. subst p'.
      destruct W as [tid [td [preds W]]]. unfold s' in W.
      rewrite Pc_canon, String.eqb_refl in W. inversion W; subst at_pc.
      rewrite HW in Y by eauto. destruct Y.
  - intros p' td tk. unfold s'. rewrite Pc_canon, T_canon.
    destruct (String.eqb_spec p p') as [<-|N].
    + rewrite Tp. simpl. intros A B. inversion A; inversion B; subst.
      destruct (HU td eq_refl) as [a0 [q [e [Z1 [Z2 [Z3 Z4]]]]]].
      exists a0, q, e. auto.
    + intros A B. destruct (x_upl _ X p' td tk A B) as [a0 [q [e [Z1 [Z2 [Z3 Z4]]]]]].
      exists a0, q, e. auto.
  - intros p' tk. unfold s'. rewrite Pc_canon, T_canon.
    destruct (String.eqb_spec p p') as [<-|N].
    + rewrite Tp. simpl. intros A B NE. inversion A; subst tk.
      assert (B' : at_pc = Compute p \/
                   ScheduledTask.actual_end (f t) <> None).
      { destruct B as [B|B]; [left; congruence|right; exact B]. }
      destruct (HB B' NE) as [a [q [e [Z1 [Z2 [Z3 Z4]]]]]].
      exists a, q, e. auto.
    + intros A B NE.
      destruct (x_began _ X p' tk A B NE) as [a [q [e [Z1 [Z2 [Z3 Z4]]]]]].
      exists a, q, e. auto.
Qed.

Lemma resume_exa (st : state) (en : simpy.entry) (rest : list simpy.entry)
      (p : string) :
  Inv None [] st -> Exa st ->
  heappop simpy.entry_ltb (Qu st) = Some (en, rest) ->
  resumes p (event_of en) = true ->
  Exa (_resume topology task_definitions base_compute_speed p
               (popped st en rest)).
Proof.
  intros I X P Rs.
  destruct (resume_cases st en rest p I P Rs) as [I' R].
  pose proof (resume_alone st en rest p I P Rs) as C0.
  pose proof (popped_exa st en rest P X) as X'.
  pose proof (heappop_In _ _ _ _ P) as PIn.
  assert (Ien : In en (Qu st)) by (apply PIn; auto).
  assert (N : @None string <> Some p) by discriminate.
  set (s := popped st en rest) in *.
  assert (Nw : now s = time_of en) by reflexivity.
  (* the predecessor whose completion has let [p] go *)
  assert (Last : forall td, Pc st p = Some (WaitPreds p td (PREDS p)) ->
                   exists q e, In q (PREDS p) /\ ended s q e /\ e == now s).
  { intros td W.
    assert (Wt : waiting st p) by (exists p, td, (PREDS p); exact W).
    pose proof (x_kind _ X en p Ien Rs Wt) as K.
    destruct (x_allof _ X en p Ien K) as [q [e [Z1 [Z2 Z3]]]].
    exists q, e. rewrite Nw. auto. }
  destruct R as [t td Tp Pp D NE|t td u Tp Dp U Lu|t td f c Tp En G Lc
                 |t ev Tp Pp Ep Tr|t f e Tp Kf Ca];
    pose proof (hole_task p s t I' Tp) as Up;
    apply (canon_exa _ _ _ _ _ _ _ s t X' Tp Up C0).
  - intros d ev [].
  - reflexivity.
  - intros q ev' cbs' x A B E.
    destruct (reg_events_only _ _ _ _ _ _ _ A B E) as [ev [cbs [A1 [B1 D1]]]].
    destruct D1 as [D1|[-> D1]]; [|exact D1].
    exact (x_reg _ X' q ev cbs x A1 B1 D1).
  - discriminate.
  - intros [Y|Y]; [discriminate|congruence].
  - intros d ev [Y|[]]. inversion Y; subst. auto.
  - intros [tid [td' [preds Y]]]. discriminate.
  - exact (x_reg _ X').
  - intros td' _. destruct Dp as [_ [[_ PE]|W]].
    + rewrite (uplink0_root p PE) in U. inversion U; subst u. lra.
    + destruct (Last td W) as [q [e [Z1 [Z2 Z3]]]].
      exists (now s), q, e. simpl. auto.
  - intros [Y|Y]; [discriminate|]. simpl in Y. congruence.
  - intros d ev [Y|[]]. inversion Y; subst. auto.
  - intros [tid [td' [preds Y]]]. discriminate.
  - exact (x_reg _ X').
  - discriminate.
  - intros _ NE. destruct En as [[[_ [[_ PE]|W]] [u [U [Lu ->]]]]|[W [_ ->]]].
    + congruence.
    + destruct (Last td W) as [q [e [Z1 [Z2 Z3]]]].
      pose proof (uplink0_nonneg p u U).
      exists (now s), q, e. simpl. repeat split; auto. lra.
    + destruct (x_upl _ X p td t W Tp) as [a0 [q [e [Z1 [Z2 [Z3 Z4]]]]]].
      pose proof (p_inv _ _ _ I _ _ W N) as PI. simpl in PI.
      destruct PI as [_ [_ [_ [[t' [a0' [A1 [A2 [_ [A4 _]]]]]] _]]]].
      change (T st p = Some t) in Tp. rewrite Tp in A1.
      inversion A1; subst t'. rewrite Z1 in A2. inversion A2; subst a0'.
      pose proof (A4 en Ien Rs) as Tm. simpl in Tm.
      exists (now s), q, e. simpl. repeat split; auto.
      rewrite Nw. lra.
  - intros d ev' [Y|[Y|[]]]; inversion Y; subst.
    + right. right. split; auto. split; [lra|reflexivity].
    + right. left. eauto.
  - intros [tid [td' [preds Y]]]. discriminate.
  - intros q ev' cbs' x. rewrite sget_set.
    destruct (String.eqb_spec p q) as [<-|M].
    + intros A B. inversion A; subst ev'. simpl in B.
      exact (x_reg _ X' p ev cbs' x Ep B).
    + exact (x_reg _ X' q ev' cbs' x).
  - discriminate.
  - intros _ NE.
    destruct (x_began _ X' p t Tp (or_introl Pp) NE)
      as [a [q [e [Z1 [Z2 [Z3 Z4]]]]]].
    exists a, q, e. simpl. auto.
  - intros d ev [Y|[]]. inversion Y; subst. right. left. eauto.
  - intros [tid [td' [preds Y]]]. discriminate.
  - exact (x_reg _ X').
  - discriminate.
  - intros [Y|Y]; [discriminate|].
    destruct (Kf t) as [_ [_ [_ [_ [_ [_ A7]]]]]]. congruence.
Qed.

Theorem step_exa (st st' : state) (err : option exn) :
  Inv None [] st -> Exa st ->
  step topology task_definitions base_compute_speed st = Some (st', err) ->
  Exa st'.
Proof.
  intros I X S.
  destruct (heappop simpy.entry_ltb (Qu st)) as [[en rest]|] eqn:P.
  2:{ unfold step in S. unfold Qu in P. rewrite P in S. discriminate. }
  rewrite (step_popped _ _ _ P) in S. inversion S as [F]; clear S.
  pose proof (heappop_In _ _ _ _ P) as PIn.
  assert (Ien : In en (Qu st)) by (apply PIn; auto).
  pose proof (popped_exa st en rest P X) as X'.
  destruct (event_of en) as [p|q|p|p|p r] eqn:Eq.
  - simpl in F. inversion F; subst. apply resume_exa; auto.
    rewrite Eq. simpl. apply String.eqb_refl.
  - destruct (completion_shape st en rest q I P Eq)
      as [ev [cbs [Eq' [Cb [_ [F1 _]]]]]].
    rewrite F1 in F. inversion F; subst. clear F F1.
    destruct (fold_check_same cbs (opened q st en rest)) as [A [B [C [_ D]]]].
    destruct (fold_check_queue cbs (opened q st en rest)) as [_ QQ].
    destruct (x_comp _ X en q Ien Eq) as [e0 [[tq0 [E1 E2]] E3]].
    set (s' := fold_left (fun st p => _check p st) cbs (opened q st en rest))
      in *.
    assert (TS : forall k, T s' k = T st k)
      by (intros k; unfold T; now rewrite A).
    assert (PS : forall k, Pc s' k = Pc st k)
      by (intros k; unfold Pc; now rewrite C).
    assert (ES : forall k, Ev s' k
                           = if String.eqb q k
                             then Some {| simpy.callbacks := None;
                                          simpy.triggered := true |}
                             else Ev st k).
    { intros k. unfold Ev. rewrite B. unfold opened; simpl. apply sget_set. }
    assert (EN : forall k e, ended st k e -> ended s' k e).
    { intros k e [tk Z]. exists tk. now rewrite TS. }
    split.
    + intros x k Y Z. destruct (QQ x Y) as [W|[p' [_ [W _]]]];
        [|rewrite W in Z; discriminate].
      destruct (x_comp _ X' x k W Z) as [e [Z1 Z2]]. exists e. auto.
    + intros x k Y Z. destruct (QQ x Y) as [W|[p' [W1 [W2 W3]]]].
      * destruct (x_allof _ X' x k W Z) as [k' [e [Z1 [Z2 Z3]]]].
        exists k', e. auto.
      * rewrite W2 in Z. inversion Z; subst k.
        exists q, e0. split; [exact (x_reg _ X q ev cbs p' Eq' Cb W1)|].
        split; [apply EN; exists tq0; auto|].
        rewrite W3. change (now (opened q st en rest)) with (time_of en). lra.
    + intros k ev' cbs' x. rewrite ES.
      destruct (String.eqb_spec q k) as [<-|M].
      * intros Y Z. inversion Y; subst ev'. discriminate.
      * exact (x_reg _ X k ev' cbs' x).
    + intros x k Y Z Wt. destruct (QQ x Y) as [W|[p' [W1 [W2 W3]]]].
      * apply (x_kind _ X' x k W Z). destruct Wt as [a [b [c Wt]]].
        exists a, b, c. rewrite PS in Wt. exact Wt.
      * rewrite W2 in Z |- *. simpl in Z. apply String.eqb_eq in Z.
        now subst k.
    + intros k td tk. rewrite PS, TS. intros Y Z.
      destruct (x_upl _ X k td tk Y Z) as [a0 [k' [e [Z1 [Z2 [Z3 Z4]]]]]].
      exists a0, k', e. auto.
    + intros k tk. rewrite PS, TS. intros Y Z NE.
      destruct (x_began _ X k tk Y Z NE) as [a [k' [e [Z1 [Z2 [Z3 Z4]]]]]].
      exists a, k', e. auto.
  - simpl in F. inversion F; subst. apply resume_exa; auto.
    rewrite Eq. simpl. apply String.eqb_refl.
  - simpl in F. inversion F; subst. apply resume_exa; auto.
    rewrite Eq. simpl. apply String.eqb_refl.
  - simpl in F. destruct r; inversion F; subst; exact X'.
Qed.

Theorem start_exa : Exa (start_all simpy.new_environment tasks0).
Proof.
  destruct start_shape as [A [_ [_ [C [D Q]]]]]. cbv zeta in *.
  assert (Fr : forall k t, T (start_all simpy.new_environment tasks0) k = Some t ->
                           ScheduledTask.actual_end t = None).
  { intros k t X. unfold T in X. rewrite A in X.
    eapply tasks0_fresh. apply dict_get_In. eauto. }
  split.
  - intros en q X Y. destruct (Q en X) as [k Z]. rewrite Z in Y. discriminate.
  - intros en q X Y. destruct (Q en X) as [k Z]. rewrite Z in Y. discriminate.
  - intros q ev cbs p X Y. rewrite (D q ev X) in Y. inversion Y; subst cbs.
    intros [].
  - intros en p _ _ [a [b [c X]]]. apply C in X. discriminate.
  - intros p td t X. apply C in X. discriminate.
  - intros p t X [Y|Y].
    + apply C in Y. discriminate.
    + rewrite (Fr p t X) in Y. congruence.
Qed.

Theorem env_run_exa (fuel : nat) : forall st,
  Inv None [] st -> Exa st ->
  Exa (fst (env_run topology task_definitions base_compute_speed fuel st)).
Proof.
  induction fuel as [|fuel IH]; intros st I X; simpl; auto.
  destruct (step _ _ _ st) as [[st' [e|]]|] eqn:S; simpl; auto.
  - eapply step_exa; eauto.
  - apply IH; [eapply step_inv|eapply step_exa]; eauto.
Qed.

Theorem replay_exa : Exa final.
Proof. apply env_run_exa; [apply start_inv|apply start_exa]. Qed.

(** *** Conditions count every event they wait for *)

Lemma pend_reg1_eq p es q ev cbs :
  NoDup (keys es) -> dict_get q es = Some ev ->
  simpy.callbacks ev = Some cbs ->
  pend p (reg1 p es q) = S (pend p es).
Proof.
  intros ND E C. unfold reg1. rewrite E, C.
  pose proof (pend_set p q ev
                {| simpy.callbacks := Some (cbs ++ [p]);
                   simpy.triggered := simpy.triggered ev |} es ND E) as A.
  unfold contrib in A. rewrite C in A. simpl in A.
  rewrite occ_app in A. unfold occ at 3 in A. simpl in A.
  rewrite String.eqb_refl in A. simpl in A. lia.
Qed.

Lemma pend_reg_events_eq p l : forall es,
  NoDup (keys es) ->
  (forall q, In q l -> exists ev cbs, dict_get q es = Some ev /\
                                      simpy.callbacks ev = Some cbs) ->
  pend p (reg_events p l es) = (pend p es + List.length l)%nat.
Proof.
  induction l as [|q l IH]; intros es ND A; cbn [reg_events fold_left].
  - simpl. lia.
  - fold (reg_events p l (reg1 p es q)).
    destruct (A q (or_introl eq_refl)) as [ev [cbs [E C]]].
    rewrite IH.
    + rewrite (pend_reg1_eq p es q ev cbs ND E C). simpl. lia.
    + now rewrite keys_reg1.
    + intros q' I. destruct (A q' (or_intror I)) as [ev' [cbs' [E' C']]].
      pose proof (reg1_get p es q q') as G. rewrite E' in G.
      destruct G as [ev2 [G1 [[_ G2] _]]]. rewrite C' in G2.
      destruct (simpy.callbacks ev2) as [cbs2|] eqn:C2; [|tauto].
      exists ev2, cbs2. auto.
Qed.

Definition Cnt (rem : list string) (st : state) : Prop :=
  forall p c, Cd st p = Some c -> simpy.cond_triggered c = false ->
    (simpy.n_events c
     <= simpy._count c + pend p (completion_events st) + occ p rem)%nat /\
    simpy._count c <> simpy.n_events c.

Lemma resumed_cnt (p : string) (s s' : state) :
  Inv (Some p) [] s -> Cnt [] s -> resumed p s s' -> Cnt [] s'.
Proof.
  intros I V R.
  assert (ND : NoDup (keys (completion_events s))).
  { rewrite (s_events _ _ _ I). exact tasks0_keys. }
  destruct R as [t td Tp Pp D NE|t td u Tp Dp U Lu|t td f c Tp En G Lc
                 |t ev Tp Pp Ep Tr|t f e Tp Kf Ca];
    try exact V.
  - intros k c. unfold Cd, canon. cbn [conditions completion_events].
    rewrite sget_set.
    destruct (pend_reg_events p k (PREDS p) _ ND) as [PO _].
    destruct (String.eqb_spec p k) as [<-|N].
    + intros A _. inversion A; subst c. unfold fresh_cond. simpl.
      rewrite pend_reg_events_eq; auto.
      * split; [lia|]. destruct (PREDS p); [congruence|discriminate].
      * intros q Iq. apply PREDS_In in Iq.
        destruct (Ev_keys _ _ _ _ I Iq) as [ev E]. exists ev.
        pose proof (x_start _ _ _ I p Pp q ev E) as X.
        destruct (simpy.callbacks ev) as [cbs|]; [eauto|congruence].
    + intros A B. rewrite PO by congruence. exact (V k c A B).
  - intros k c. unfold Cd, canon. cbn [conditions completion_events].
    intros A B. destruct (V k c A B) as [X Y]. split; auto.
    pose proof (pend_set k p ev
                  {| simpy.callbacks := simpy.callbacks ev;
                     simpy.triggered := true |} _ ND Ep) as Z.
    unfold contrib in Z. simpl in Z. lia.
Qed.

Lemma check_cnt (p : string) (rem : list string) (st : state) :
  Inv None (p :: rem) st -> Cnt (p :: rem) st -> Cnt rem (_check p st).
Proof.
  intros I V.
  destruct (check_cases p rem st I) as [c [td [Cp [Tc [_ [E _]]]]]].
  rewrite E. intros k c'.
  assert (CE : Cd (checked p c (Nat.eqb (simpy.n_events c) (S (simpy._count c))) st) k
               = if String.eqb p k
                 then Some {| simpy.n_events := simpy.n_events c;
                              simpy._count := S (simpy._count c);
                              simpy.cond_triggered :=
                                Nat.eqb (simpy.n_events c) (S (simpy._count c)) |}
                 else Cd st k).
  { unfold Cd, checked. destruct (Nat.eqb _ _); simpl; apply sget_set. }
  assert (HE : completion_events
                 (checked p c (Nat.eqb (simpy.n_events c) (S (simpy._count c))) st)
               = completion_events st).
  { unfold checked. destruct (Nat.eqb _ _); reflexivity. }
  rewrite CE, HE.
  assert (OC : forall p', occ p' (p :: rem)
                          = ((if String.eqb p' p then 1 else 0) + occ p' rem)%nat).
  { intros p'. unfold occ. simpl. destruct (String.eqb p' p); reflexivity. }
  destruct (String.eqb_spec p k) as [<-|N].
  - intros A B. inversion A; subst c'. simpl in *.
    destruct (V p c Cp Tc) as [X Y]. rewrite OC, String.eqb_refl in X.
    apply Nat.eqb_neq in B. split; [lia|congruence].
  - intros A B. destruct (V k c' A B) as [X Y]. rewrite OC in X.
    destruct (String.eqb_spec k p); [congruence|]. split; [lia|exact Y].
Qed.

Lemma fold_check_cnt (rem : list string) : forall st,
  Inv None rem st -> Cnt rem st ->
  Cnt [] (fold_left (fun st p => _check p st) rem st).
Proof.
  induction rem as [|p rem IH]; intros st I V; simpl; auto.
  apply IH; [now apply check_inv|now apply check_cnt].
Qed.

Theorem step_cnt (st st' : state) (err : option exn) :
  Inv None [] st -> Cnt [] st ->
  step topology task_definitions base_compute_speed st = Some (st', err) ->
  Cnt [] st'.
Proof.
  intros I V S.
  destruct (heappop simpy.entry_ltb (Qu st)) as [[en rest]|] eqn:P.
  2:{ unfold step in S. unfold Qu in P. rewrite P in S. discriminate. }
  rewrite (step_popped _ _ _ P) in S. inversion S as [F]; clear S.
  assert (V' : Cnt [] (popped st en rest)) by exact V.
  assert (R : forall p, resumes p (event_of en) = true ->
                Cnt [] (_resume topology task_definitions base_compute_speed p
                                (popped st en rest))).
  { intros p Rs. destruct (resume_cases st en rest p I P Rs) as [I' R].
    exact (resumed_cnt p _ _ I' V' R). }
  destruct (event_of en) as [p|q|p|p|p r] eqn:Eq.
  - simpl in F. inversion F; subst. apply R. simpl. apply String.eqb_refl.
  - destruct (completion_shape st en rest q I P Eq)
      as [ev [cbs [Eq' [Cb [_ [F1 IS]]]]]].
    rewrite F1 in F. inversion F; subst. apply fold_check_cnt; auto.
    intros k c A B. change (Cd st k = Some c) in A.
    destruct (V k c A B) as [X Y]. split; auto.
    assert (ND : NoDup (keys (completion_events st))).
    { rewrite (s_events _ _ _ I). exact tasks0_keys. }
    pose proof (pend_set k q ev {| simpy.callbacks := None;
                                   simpy.triggered := true |} _ ND Eq') as Z.
    unfold contrib in Z. rewrite Cb in Z. simpl in Z.
    unfold opened. cbn [completion_events set_events].
    unfold occ in X at 1. simpl in X. lia.
  - simpl in F. inversion F; subst. apply R. simpl. apply String.eqb_refl.
  - simpl in F. inversion F; subst. apply R. simpl. apply String.eqb_refl.
  - simpl in F. destruct r; inversion F; subst; exact V'.
Qed.

Theorem start_cnt : Cnt [] (start_all simpy.new_environment tasks0).
Proof.
  destruct start_shape as [_ [_ [C _]]]. cbv zeta in *.
  intros p c A. unfold Cd in A. rewrite C in A. discriminate.
Qed.

Theorem env_run_cnt (fuel : nat) : forall st,
  Inv None [] st -> Cnt [] st ->
  Cnt [] (fst (env_run topology task_definitions base_compute_speed fuel st)).
Proof.
  induction fuel as [|fuel IH]; intros st I X; simpl; auto.
  destruct (step _ _ _ st) as [[st' [e|]]|] eqn:S; simpl; auto.
  - eapply step_cnt; eauto.
  - apply IH; [eapply step_inv|eapply step_cnt]; eauto.
Qed.

Theorem replay_cnt : Cnt [] final.
Proof. apply env_run_cnt; [apply start_inv|apply start_cnt]. Qed.

Lemma occ_pos (p : string) (l : list string) : (0 < occ p l)%nat -> In p l.
Proof.
  unfold occ. induction l as [|x l IH]; simpl; [lia|].
  destruct (String.eqb_spec p x) as [->|N]; auto.
Qed.

Lemma pend_pos (p : string) (es : dict string simpy.Event) :
  (0 < pend p es)%nat ->
  exists q ev cbs, In (q, ev) es /\ simpy.callbacks ev = Some cbs /\ In p cbs.
Proof.
  induction es as [|[k ev] es IH]; simpl; [lia|].
  intros A. destruct (Nat.eq_dec (contrib p ev) 0) as [Z|NZ].
  - destruct IH as [q [ev' [cbs [X Y]]]]; [lia|]. exists q, ev', cbs. auto.
  - unfold contrib in NZ. destruct (simpy.callbacks ev) as [cbs|] eqn:C;
      [|congruence].
    exists k, ev, cbs. split; auto. split; auto. apply occ_pos. lia.
Qed.

(** *** Without a cycle, a replay that raises nothing completes every task *)

Theorem replay_live (rank : string -> nat) :
  (forall p q, In p (keys tasks0) -> In q (PREDS p) ->
               (rank q < rank p)%nat) ->
  snd (replay topology task_definitions base_compute_speed tasks0) = None ->
  forall p, In p (keys tasks0) ->
            exists t e, T final p = Some t /\
                        ScheduledTask.actual_end t = Some e.
Proof.
  intros Rk E.
  pose proof replay_inv as I. pose proof replay_exa as X.
  pose proof replay_cnt as V. pose proof (replay_drained E) as QE.
  pose proof (env_run_owed (S (6 * List.length tasks0)) _ start_inv start_owed
                           E) as O.
  change (Owed final) in O.
  assert (G : forall n p, rank p = n -> In p (keys tasks0) ->
                exists t e, T final p = Some t /\
                            ScheduledTask.actual_end t = Some e).
  { induction n as [n IH] using lt_wf_ind. intros p Rp Kp.
    destruct (T_keys _ _ _ _ I Kp) as [t Tp].
    destruct (ScheduledTask.actual_end t) as [e|] eqn:Ae; [eauto|].
    exfalso.
    destruct (Pc_keys _ _ _ _ I Kp) as [at_pc Pp].
    assert (N : @None string <> Some p) by discriminate.
    pose proof (p_inv _ _ _ I _ _ Pp N) as PI.
    destruct at_pc as [|tid td preds|tid td|tid|]; simpl in PI.
    - exact (replay_started p Pp).
    - destruct PI as [_ [_ [_ [[c [Cp Cc]] _]]]].
      rewrite QE in Cc. simpl in Cc.
      destruct (simpy.cond_triggered c) eqn:Tc; [discriminate|].
      destruct (V p c Cp Tc) as [V1 V2].
      pose proof (c_inv _ _ _ I p) as CI. unfold cond_inv in CI.
      rewrite Cp, Tc in CI. destruct CI as [_ CI].
      unfold occ in V1, CI. simpl in V1, CI.
      destruct (pend_pos p (completion_events final)) as [q [ev [cbs [A [B C]]]]];
        [lia|].
      assert (Eq : Ev final q = Some ev).
      { apply In_dict_get_NoDup; auto.
        rewrite (s_events _ _ _ I). exact tasks0_keys. }
      pose proof (x_reg _ X q ev cbs p Eq B C) as Iq.
      destruct (IH (rank q)) with (p := q) as [tq [eq [Tq Aq]]]; auto.
      { rewrite <- Rp. apply Rk; auto. }
      { eapply PREDS_In; eauto. }
      assert (Tr : simpy.triggered ev = true).
      { apply (e_trig _ _ _ I _ _ _ Eq Tq). congruence. }
      pose proof (e_queue _ _ _ I _ _ Eq) as EQ.
      rewrite QE, Tr, B in EQ. discriminate.
    - destruct PI as [_ [_ [A _]]]. rewrite QE in A. discriminate.
    - destruct PI as [_ [A _]]. rewrite QE in A. discriminate.
    - destruct (o_raise _ O p Pp) as [en [e [A _]]].
      + exists t. auto.
      + rewrite QE in A. destruct A. }
  intros p Kp. exact (G (rank p) p eq_refl Kp).
Qed.

(** *** What the replay leaves, task by task *)

(** A completed task with predecessors started computing when the last
    of them had ended and the uplink time had passed. *)
Theorem replay_began (p : string) (t : ScheduledTask.t) (e : Q) :
  T final p = Some t -> ScheduledTask.actual_end t = Some e ->
  PREDS p <> [] ->
  exists a q tq eq,
    ScheduledTask.actual_start t = Some a /\ In q (PREDS p) /\
    T final q = Some tq /\ ScheduledTask.actual_end tq = Some eq /\
    a == eq + ScheduledTask.uplink_time t /\
    forall q', In q' (PREDS p) ->
               exists tq' eq', T final q' = Some tq' /\
                               ScheduledTask.actual_end tq' = Some eq' /\
                               eq' <= eq.
Proof.
  intros Tp Ae NE.
  assert (B : Pc final p = Some (Compute p) \/
              ScheduledTask.actual_end t <> None) by (right; congruence).
  destruct (x_began _ replay_exa p t Tp B NE)
    as [a [q [eq [Z1 [Z2 [[tq [Z3 Z4]] Z5]]]]]].
  destruct (completed_spec p t e Tp Ae) as [a' [A1 [_ [A3 _]]]].
  rewrite Z1 in A1. inversion A1; subst a'.
  exists a, q, tq, eq. repeat split; auto.
  intros q' Iq. destruct (A3 q' Iq) as [tq' [eq' [B1 [B2 [_ B4]]]]].
  exists tq', eq'. repeat split; auto. lra.
Qed.

(** The recorded times of a completed task are not negative and fit. *)
Theorem replay_bounds (p : string) (t : ScheduledTask.t) (e : Q) :
  T final p = Some t -> ScheduledTask.actual_end t = Some e ->
  exists a,
    ScheduledTask.actual_start t = Some a /\
    0 <= ScheduledTask.uplink_time t /\ 0 <= ScheduledTask.compute_time t /\
    ScheduledTask.uplink_time t <= a /\
    e == a + ScheduledTask.compute_time t.
Proof.
  intros Tp Ae.
  assert (Pos : forall q tq eq, T final q = Some tq ->
                  ScheduledTask.actual_end tq = Some eq -> 0 <= eq).
  { intros q tq eq Tq Aq.
    destruct (l_times _ replay_led q tq Tq) as [a [A1 [A2 A3]]];
      [right; congruence|].
    destruct (completed_spec q tq eq Tq Aq) as [a' [B1 [B2 _]]].
    rewrite A1 in B1. inversion B1; subst a'. lra. }
  destruct (l_times _ replay_led p t Tp) as [a [A1 [A2 A3]]];
    [right; congruence|].
  destruct (completed_spec p t e Tp Ae) as [a' [B1 [B2 [_ B4]]]].
  rewrite A1 in B1. inversion B1; subst a'.
  destruct B4 as [t' [u [U1 [U2 U3]]]]. rewrite Tp in U1.
  inversion U1; subst t'.
  pose proof (uplink0_nonneg p u U2) as UN.
  exists a. split; auto. split; [rewrite U3; exact UN|]. split; auto.
  split; auto.
  destruct (PREDS p) as [|x l] eqn:PE.
  - rewrite (uplink0_root p PE) in U2.
    assert (Z : ScheduledTask.uplink_time t = 0) by congruence.
    rewrite Z. exact A2.
  - assert (NE : PREDS p <> []) by congruence.
    destruct (replay_began p t e Tp Ae NE)
      as [a' [q [tq [eq [Z1 [_ [Z3 [Z4 [Z5 _]]]]]]]]].
    rewrite A1 in Z1. inversion Z1; subst a'.
    pose proof (Pos q tq eq Z3 Z4). lra.
Qed.

(** When the uplink time cannot be computed, a transfer has failed. *)
Lemma uplink0_raise (p : string) (e : exn) :
  In p (keys tasks0) -> uplink0 p = Raise e ->
  exists q tq tp,
    In q (PREDS p) /\ dict_get q tasks0 = Some tq /\
    dict_get p tasks0 = Some tp /\
    0 < _get_data_from_predecessor task_definitions q p /\
    DAGTopology.get_transfer_time topology
      (ScheduledTask.node_id tq) (ScheduledTask.node_id tp)
      (_get_data_from_predecessor task_definitions q p) = Raise e.
Proof.
  intros Kp U.
  destruct (keys_In_get p tasks0 Kp) as [tp Tp].
  assert (G : forall l, (forall q, In q l -> In q (PREDS p)) ->
                transfer_times topology task_definitions p p l st0 = Raise e ->
                exists q tq,
                  In q (PREDS p) /\ dict_get q tasks0 = Some tq /\
                  0 < _get_data_from_predecessor task_definitions q p /\
                  DAGTopology.get_transfer_time topology
                    (ScheduledTask.node_id tq) (ScheduledTask.node_id tp)
                    (_get_data_from_predecessor task_definitions q p)
                  = Raise e).
  { induction l as [|q l IH] using rev_ind; intros Sub E; [discriminate|].
    rewrite transfer_times_snoc in E.
    destruct (transfer_times _ _ _ _ l st0) as [tts|e'] eqn:E0.
    - cbn [bind] in E. cbn [scheduled_tasks st0] in E.
      destruct (dict_get q tasks0) as [tq|] eqn:Tq; [|discriminate].
      cbv zeta in E. destruct (Qltb 0 _) eqn:L; [|discriminate].
      apply Qltb_true in L. unfold the_task in E.
      cbn [scheduled_tasks st0] in E. rewrite Tp in E. cbn [bind] in E.
      destruct (DAGTopology.get_transfer_time _ _ _ _) as [x|e'] eqn:G;
        cbn [bind] in E; [discriminate|].
      inversion E; subst e'. exists q, tq. split; auto.
      apply Sub. apply in_app_iff. simpl. auto.
    - cbn [bind] in E. inversion E; subst e'.
      apply IH; auto. intros q' I. apply Sub. apply in_app_iff. auto. }
  unfold uplink0, uplink_of in U.
  destruct (transfer_times topology task_definitions p p (PREDS p) st0)
    as [tts|e'] eqn:E0.
  - destruct (PREDS p); [discriminate|].
    cbn [bind] in U. destruct tts; discriminate.
  - destruct (G (PREDS p) (fun q I => I)) as [q [tq [A [B [C D]]]]].
    + rewrite E0. f_equal.
      destruct (PREDS p); [discriminate|]. cbn [bind] in U. congruence.
    + exists q, tq, tp. auto.
Qed.

(** *** Predecessors are recorded first *)

(** [q] is a predecessor of [p], or of one of its predecessors, and so on. *)
Inductive depends : string -> string -> Prop :=
| dep_one (q p : string) : In q (PREDS p) -> depends q p
| dep_more (q r p : string) : depends q r -> In r (PREDS p) -> depends q p.

(** In the completion order, every task comes after its predecessors. *)
Definition Prec (st : state) : Prop :=
  forall l1 m l2, metrics st = l1 ++ m :: l2 ->
    forall q, In q (PREDS (ScheduledTask.task_id m)) ->
              In q (map ScheduledTask.task_id l1).

Lemma snoc_split {A} (l l1 l2 : list A) (x m : A) :
  l ++ [x] = l1 ++ m :: l2 ->
  (l2 = [] /\ l1 = l /\ m = x) \/
  (exists l2', l2 = l2' ++ [x] /\ l = l1 ++ m :: l2').
Proof.
  intros E. destruct l2 as [|z l2].
  - left. apply app_inj_tail in E. destruct E as [E1 E2]. auto.
  - right. destruct (exists_last (l := z :: l2)) as [l' [y E']];
      [discriminate|].
    rewrite E' in E. change (l1 ++ m :: l' ++ [y]) with (l1 ++ (m :: l') ++ [y]) in E.
    rewrite app_assoc in E. apply app_inj_tail in E.
    destruct E as [E1 E2]. exists l'. split; congruence.
Qed.

Lemma resume_prec (st : state) (en : simpy.entry) (rest : list simpy.entry)
      (p : string) :
  Inv None [] st -> Led st -> Prec st ->
  heappop simpy.entry_ltb (Qu st) = Some (en, rest) ->
  resumes p (event_of en) = true ->
  Prec (_resume topology task_definitions base_compute_speed p
                (popped st en rest)).
Proof.
  intros I L V P Rs.
  destruct (resume_cases st en rest p I P Rs) as [I' R].
  assert (N : @None string <> Some p) by discriminate.
  destruct R as [t td Tp Pp D NE|t td u Tp Dp U Lu|t td f c Tp En G Lc
                 |t ev Tp Pp Ep Tr|t f e Tp Kf Ca];
    try exact V.
  intros l1 m l2 E q Iq. rewrite metrics_canon in E.
  change (metrics (popped st en rest)) with (metrics st) in E.
  destruct (snoc_split _ _ _ _ _ E) as [[_ [-> ->]]|[l2' [_ E']]].
  - simpl in Iq.
    destruct (s_static _ _ _ I' _ _ Tp) as [Id _]. rewrite Id in Iq.
    pose proof (p_inv _ _ _ I _ _ Pp N) as PI. simpl in PI.
    destruct PI as [_ [_ [[t' [a [_ [_ [_ [_ EB]]]]]] _]]].
    destruct (EB q Iq) as [tq [eq [Tq [Aq _]]]].
    apply in_map_iff. exists tq. split.
    + apply (s_static _ _ _ I _ _ Tq).
    + apply (l_all _ L q tq Tq). congruence.
  - exact (V l1 m l2' E' q Iq).
Qed.

Theorem step_prec (st st' : state) (err : option exn) :
  Inv None [] st -> Led st -> Prec st ->
  step topology task_definitions base_compute_speed st = Some (st', err) ->
  Prec st'.
Proof.
  intros I L V S.
  destruct (heappop simpy.entry_ltb (Qu st)) as [[en rest]|] eqn:P.
  2:{ unfold step in S. unfold Qu in P. rewrite P in S. discriminate. }
  rewrite (step_popped _ _ _ P) in S. inversion S as [F]; clear S.
  destruct (event_of en) as [p|q|p|p|p r] eqn:Eq.
  - simpl in F. inversion F; subst. apply resume_prec; auto.
    rewrite Eq. simpl. apply String.eqb_refl.
  - destruct (completion_shape st en rest q I P Eq)
      as [ev [cbs [_ [_ [_ [F1 _]]]]]].
    rewrite F1 in F. inversion F; subst.
    destruct (fold_check_same cbs (opened q st en rest)) as [_ [_ [_ [C _]]]].
    unfold Prec. rewrite C. exact V.
  - simpl in F. inversion F; subst. apply resume_prec; auto.
    rewrite Eq. simpl. apply String.eqb_refl.
  - simpl in F. inversion F; subst. apply resume_prec; auto.
    rewrite Eq. simpl. apply String.eqb_refl.
  - simpl in F. destruct r; inversion F; subst; exact V.
Qed.

Theorem env_run_prec (fuel : nat) : forall st,
  Inv None [] st -> Led st -> Prec st ->
  Prec (fst (env_run topology task_definitions base_compute_speed fuel st)).
Proof.
  induction fuel as [|fuel IH]; intros st I L V; simpl; auto.
  destruct (step _ _ _ st) as [[st' [e|]]|] eqn:S; simpl; auto.
  - eapply step_prec; eauto.
  - apply IH; [eapply step_inv|eapply step_led|eapply step_prec]; eauto.
Qed.

Theorem replay_prec : Prec final.
Proof.
  apply env_run_prec; [apply start_inv|apply start_led|].
  intros l1 m l2 E. destruct start_shape as [_ [B _]]. cbv zeta in B.
  rewrite B in E. destruct l1; discriminate.
Qed.

(** Whatever a recorded task depends on was recorded before it. *)
Lemma depends_before (q p : string) :
  depends q p ->
  forall l1 m l2, metrics final = l1 ++ m :: l2 ->
                  ScheduledTask.task_id m = p ->
                  In q (map ScheduledTask.task_id l1).
Proof.
  induction 1 as [q p Iq|q r p D IH Ir]; intros l1 m l2 E Id.
  - apply (replay_prec l1 m l2 E). now rewrite Id.
  - assert (Ir' : In r (map ScheduledTask.task_id l1)).
    { apply (replay_prec l1 m l2 E). now rewrite Id. }
    apply in_map_iff in Ir'. destruct Ir' as [mr [Idr Imr]].
    apply in_split in Imr. destruct Imr as [la [lb Ea]].
    assert (In q (map ScheduledTask.task_id la)).
    { apply (IH la mr (lb ++ m :: l2)); auto.
      rewrite E, Ea, <- app_assoc. reflexivity. }
    rewrite Ea, map_app. apply in_app_iff. auto.
Qed.

(** A task on a cycle of predecessors, or behind one, never completes. *)
Theorem replay_cycle (c p : string) (t : ScheduledTask.t) :
  depends c c -> p = c \/ depends c p ->
  T final p = Some t -> ScheduledTask.actual_end t = None.
Proof.
  intros Cy Dp Tp.
  destruct (ScheduledTask.actual_end t) as [e|] eqn:Ae; auto. exfalso.
  assert (Rec : forall k tk, T final k = Some tk ->
                  ScheduledTask.actual_end tk <> None ->
                  exists l1 m l2, metrics final = l1 ++ m :: l2 /\
                                  ScheduledTask.task_id m = k).
  { intros k tk Tk Ak.
    pose proof (l_all _ replay_led k tk Tk Ak) as Im.
    apply in_split in Im. destruct Im as [l1 [l2 E]].
    exists l1, tk, l2. split; auto.
    apply (s_static _ _ _ replay_inv _ _ Tk). }
  assert (Cc : exists l1 m l2, metrics final = l1 ++ m :: l2 /\
                               ScheduledTask.task_id m = c).
  { destruct Dp as [->|Dp].
    - apply (Rec c t Tp). congruence.
    - destruct (Rec p t Tp) as [l1 [m [l2 [E Id]]]]; [congruence|].
      pose proof (depends_before c p Dp l1 m l2 E Id) as Ic.
      apply in_map_iff in Ic. destruct Ic as [mc [Idc Imc]].
      apply in_split in Imc. destruct Imc as [la [lb Ea]].
      exists la, mc, (lb ++ m :: l2). split; auto.
      rewrite E, Ea, <- app_assoc. reflexivity. }
  destruct Cc as [l1 [m [l2 [E Id]]]].
  pose proof (depends_before c c Cy l1 m l2 E Id) as Ic.
  pose proof (l_once _ replay_led) as ND.
  rewrite E, map_app in ND. simpl in ND.
  apply NoDup_remove_2 in ND. apply ND. apply in_app_iff. left.
  now rewrite Id.
Qed.
End Invariant.
End ReplayFacts.

(* ================================================================== *)
(** ** The replay: what [run()] leaves and returns *)

(** A schedule as [load_schedule] builds it: keyed by task id, with
    nothing replayed yet. *)
Definition fresh_schedule (tasks : dict string ScheduledTask.t) : Prop :=
  NoDup (keys tasks) /\
  Forall (fun kv => ScheduledTask.task_id (snd kv) = fst kv /\
                    ScheduledTask.actual_end (snd kv) = None) tasks.


Lemma fresh_schedule_ids (tasks : dict string ScheduledTask.t) :
  fresh_schedule tasks ->
  forall k t, In (k, t) tasks -> ScheduledTask.task_id t = k.
Proof.
  intros [_ F] k t I. rewrite Forall_forall in F. apply (F (k, t) I).
Qed.

Lemma fresh_schedule_ends (tasks : dict string ScheduledTask.t) :
  fresh_schedule tasks ->
  forall k t, In (k, t) tasks -> ScheduledTask.actual_end t = None.
Proof.
  intros [_ F] k t I. rewrite Forall_forall in F. apply (F (k, t) I).
Qed.

Lemma In_recorded_ends (tasks : dict string ScheduledTask.t) (e : Q) :
  In e (DAGScheduler.recorded_ends tasks) <->
  exists k t, In (k, t) tasks /\ ScheduledTask.actual_end t = Some e.
Proof.
  unfold DAGScheduler.recorded_ends. rewrite in_flat_map. split.
  - intros [[k t] [A B]]. simpl in B.
    destruct (ScheduledTask.actual_end t) as [e'|] eqn:E; [|destruct B].
    destruct B as [<-|[]]. eauto.
  - intros [k [t [A B]]]. exists (k, t). split; auto. simpl. rewrite B.
    simpl. auto.
Qed.

Lemma sum_transfer_times_sound (ls : list NetworkLink.t) (n : Q) :
  forall acc, acc <> Raise Unreachable ->
  fold_left (fun acc link =>
               a <- acc ;;
               x <- NetworkLink.get_transfer_time link n ;;
               Ok (a + x)) ls acc <> Raise Unreachable.
Proof.
  induction ls as [|l ls IH]; intros acc A; simpl; auto.
  apply IH. destruct acc as [a|e]; simpl; auto.
  unfold NetworkLink.get_transfer_time.
  destruct (Qle_bool _ _); discriminate.
Qed.

(** On a topology built by [DAGTopology(nodes, links)] the transfer time
    is a number or a genuine exception. *)
Lemma get_transfer_time_sound (nodes : dict string ComputeNode.t)
      (links : list NetworkLink.t) (s t : string) (n : Q) :
  DAGTopology.get_transfer_time (DAGTopology.init nodes links) s t n
  <> Raise Unreachable.
Proof.
  unfold DAGTopology.get_transfer_time, DAGTopology.get_path_links.
  destruct (String.eqb_spec s t) as [E|N].
  - destruct (dict_get _ _); [|discriminate].
    unfold NetworkLink.get_transfer_time.
    destruct (Qle_bool _ _); discriminate.
  - pose proof (TopologyFacts.get_path_spec nodes links s t N) as P.
    cbv zeta in P.
    destruct (DAGTopology.get_path _ s t) as [p|e]; simpl.
    + destruct (fold_left _ (DAGTopology.hops p) []) as [|l ls];
        [discriminate|].
      apply sum_transfer_times_sound. discriminate.
    + destruct e; try contradiction; discriminate.
Qed.

(** The replay of a fresh schedule on a built topology ends as
    [env.run()] does: with the schedule drained or with a genuine
    exception of a process, and more fuel would change nothing. *)
Theorem replay_total (nodes : dict string ComputeNode.t)
        (links : list NetworkLink.t)
        (task_definitions : dict string TaskDefinition.t)
        (base_compute_speed : Q) (tasks : dict string ScheduledTask.t) :
  fresh_schedule tasks ->
  let topology := DAGTopology.init nodes links in
  snd (DAGScheduler.replay topology task_definitions base_compute_speed tasks)
  <> Some Unreachable /\
  forall fuel,
    (6 * List.length tasks < fuel)%nat ->
    DAGScheduler.env_run topology task_definitions base_compute_speed fuel
      (DAGScheduler.start_all simpy.new_environment tasks)
    = DAGScheduler.replay topology task_definitions base_compute_speed tasks.
Proof.
  intros F topology. split.
  - apply (ReplayFacts.replay_tidy topology task_definitions
             base_compute_speed tasks (proj1 F) (fresh_schedule_ids _ F)
             (fresh_schedule_ends _ F)).
    apply get_transfer_time_sound.
  - apply (ReplayFacts.replay_fuel topology task_definitions
             base_compute_speed tasks (proj1 F) (fresh_schedule_ids _ F)
             (fresh_schedule_ends _ F)).
Qed.

(** The replay of the cyclic scenario ends without an exception, [run()]
    returns the end of [A], and [B] and [C] are left without an
    [actual_end]: nothing is raised for them. *)
Lemma C2_counterexample :
  exists (st : DAGScheduler.state) (tb tc : ScheduledTask.t),
    DAGScheduler.replay (Scenario.topology 8) Scenario.cyclic_definitions 1
                        Scenario.cyclic_schedule = (st, None) /\
    DAGScheduler.run (Scenario.topology 8) Scenario.cyclic_definitions 1
                     Scenario.cyclic_schedule = Ok 1 /\
    dict_get "B" (DAGScheduler.scheduled_tasks st) = Some tb /\
    ScheduledTask.actual_end tb = None /\
    dict_get "C" (DAGScheduler.scheduled_tasks st) = Some tc /\
    ScheduledTask.actual_end tc = None.
Proof.
  eexists; eexists; eexists.
  split; [vm_compute; reflexivity|].
  split; [vm_compute; reflexivity|].
  split; [vm_compute; reflexivity|].
  split; [reflexivity|].
  split; [vm_compute; reflexivity|reflexivity].
Qed.

(** C2 (amended). When the replay ends without an exception, [run()]
    returns the greatest [actual_end] among the scheduled tasks that have
    one: it is the end of some task and no recorded end exceeds it.  Tasks
    left without an [actual_end] are skipped; [run()] fails on its own only
    when no task at all has one.  An exception of the replay is passed on. *)
Theorem C2_makespan_is_max_recorded_end
        (topology : DAGTopology.t)
        (task_definitions : dict string TaskDefinition.t)
        (base_compute_speed : Q) (tasks : dict string ScheduledTask.t) :
  let '(st, err) :=
    DAGScheduler.replay topology task_definitions base_compute_speed tasks in
  match DAGScheduler.run topology task_definitions base_compute_speed tasks with
  | Ok m =>
      err = None /\
      (exists k t, In (k, t) (DAGScheduler.scheduled_tasks st) /\
                   ScheduledTask.actual_end t = Some m) /\
      (forall k t e, In (k, t) (DAGScheduler.scheduled_tasks st) ->
                     ScheduledTask.actual_end t = Some e -> e <= m)
  | Raise x =>
      err = Some x \/
      (err = None /\
       forall k t, In (k, t) (DAGScheduler.scheduled_tasks st) ->
                   ScheduledTask.actual_end t = None)
  end.
Proof.
  unfold DAGScheduler.run.
  destruct (DAGScheduler.replay _ _ _ _) as [st [x|]]; [left; reflexivity|].
  destruct (DAGScheduler.recorded_ends _) as [|x xs] eqn:E.
  - right. split; auto. intros k t I.
    destruct (ScheduledTask.actual_end t) as [e|] eqn:A; auto.
    assert (X : In e (DAGScheduler.recorded_ends (DAGScheduler.scheduled_tasks st)))
      by (apply In_recorded_ends; eauto).
    rewrite E in X. destruct X.
  - destruct (ReplayFacts.py_max_is_max x xs) as [A B]. rewrite <- E in A, B.
    split; auto. split.
    + now apply In_recorded_ends.
    + intros k t e I F. apply B. apply In_recorded_ends. eauto.
Qed.

(** *** Rounding *)

Module RoundingFacts.
Import PrimFloat.
#[local] Open Scope float_scope.
#[local] Set Warnings "-inexact-float".

(** In binary64 the claimed equality fails.  [A] costs 0.1 and its
    successor [B] costs 0.2, on one node of speed 1.  [B] enters its
    compute phase at 0.1 with the compute time 0.2; the clock adds the two
    and [B] ends at 0.30000000000000004, so that [actual_end -
    actual_start], which is also the [actual_duration] of the task, is
    0.20000000000000004 and not the compute time.  The end is still the
    sum that the clock computed. *)
Lemma C5_counterexample :
  exists (st : Binary64.DAGScheduler.state) (t : Binary64.ScheduledTask.t),
    Binary64.DAGScheduler.replay RoundingScenario.topology
      RoundingScenario.task_definitions 1 RoundingScenario.schedule
    = (st, None) /\
    dict_get "B" (Binary64.DAGScheduler.scheduled_tasks st) = Some t /\
    Binary64.ScheduledTask.actual_start t = Some 0.1 /\
    Binary64.ScheduledTask.actual_end t = Some 0.30000000000000004 /\
    Binary64.ScheduledTask.compute_time t = 0.2 /\
    Binary64.ScheduledTask.actual_duration t = Some 0.20000000000000004 /\
    (0.30000000000000004 - 0.1 =? 0.2) = false /\
    (0.30000000000000004 =? 0.1 + 0.2) = true.
Proof.
  do 2 eexists.
  split; [vm_compute; reflexivity|].
  split; [vm_compute; reflexivity|].
  repeat split; reflexivity.
Qed.
End RoundingFacts.

(** C5 (amended). A task that completes the replay has the start of its
    compute phase as [actual_start]: its [actual_end] is [actual_start]
    plus its [compute_time], the sum that the clock forms, and every
    resolved predecessor has completed, its end lying no later than
    [actual_start]. *)
Theorem C5_actual_start_is_compute_entry
        (topology : DAGTopology.t)
        (task_definitions : dict string TaskDefinition.t)
        (base_compute_speed : Q) (tasks : dict string ScheduledTask.t)
        (p : string) (t : ScheduledTask.t) (e : Q) :
  fresh_schedule tasks ->
  dict_get p (DAGScheduler.scheduled_tasks
                (fst (DAGScheduler.replay topology task_definitions
                                          base_compute_speed tasks)))
  = Some t ->
  ScheduledTask.actual_end t = Some e ->
  exists a,
    ScheduledTask.actual_start t = Some a /\
    e == a + ScheduledTask.compute_time t /\
    forall q,
      In q (DAGScheduler._get_predecessors task_definitions tasks p) ->
      exists tq eq,
        dict_get q (DAGScheduler.scheduled_tasks
                      (fst (DAGScheduler.replay topology task_definitions
                                                base_compute_speed tasks)))
        = Some tq /\
        ScheduledTask.actual_end tq = Some eq /\
        eq <= a.
Proof.
  intros F A B.
  destruct (ReplayFacts.completed_spec topology task_definitions
              base_compute_speed tasks (proj1 F) (fresh_schedule_ids _ F)
              (fresh_schedule_ends _ F) p t e A B) as [a [X [Y [Z _]]]].
  exists a. split; [exact X|]. split; [lra|].
  intros q I. destruct (Z q I) as [tq [eq [Z1 [Z2 [Z3 Z4]]]]].
  exists tq, eq. repeat split; auto.
Qed.

Lemma C5_witness :
  exists t,
    dict_get "T1" (DAGScheduler.scheduled_tasks
                     (fst (DAGScheduler.replay (Scenario.topology 8)
                             Scenario.task_definitions 1 Scenario.schedule)))
    = Some t /\
    ScheduledTask.actual_end t = Some (128000000 # 8000000) /\
    exists a,
      ScheduledTask.actual_start t = Some a /\
      (128000000 # 8000000) == a + ScheduledTask.compute_time t /\
      forall q,
        In q (DAGScheduler._get_predecessors Scenario.task_definitions
                                             Scenario.schedule "T1") ->
        exists tq eq,
          dict_get q (DAGScheduler.scheduled_tasks
                        (fst (DAGScheduler.replay (Scenario.topology 8)
                                Scenario.task_definitions 1
                                Scenario.schedule)))
          = Some tq /\
          ScheduledTask.actual_end tq = Some eq /\
          eq <= a.
Proof.
  assert (F : fresh_schedule Scenario.schedule).
  { split; repeat constructor; simpl; intuition discriminate. }
  destruct (dict_get "T1" (DAGScheduler.scheduled_tasks
                             (fst (DAGScheduler.replay (Scenario.topology 8)
                                     Scenario.task_definitions 1
                                     Scenario.schedule))))
    as [t|] eqn:E; [|vm_compute in E; discriminate].
  assert (B : ScheduledTask.actual_end t = Some (128000000 # 8000000)).
  { vm_compute in E. inversion E. reflexivity. }
  exists t. split; [reflexivity|]. split; [exact B|].
  exact (C5_actual_start_is_compute_entry (Scenario.topology 8)
           Scenario.task_definitions 1 Scenario.schedule "T1" t
           (128000000 # 8000000) F E B).
Defined.

(** A scheduled task that has no task definition has no resolved
    predecessor either, yet no [actual_start] is recorded for it: its
    process raises before the first assignment, and [run()] fails. *)
Lemma C10_counterexample :
  DAGScheduler._get_predecessors [] Scenario.schedule "T0" = [] /\
  DAGScheduler.run (Scenario.topology 8) [] 1 Scenario.schedule
  = Raise (ValueError "No task definition found for T0") /\
  exists t,
    dict_get "T0" (DAGScheduler.scheduled_tasks
                     (fst (DAGScheduler.replay (Scenario.topology 8) [] 1
                                               Scenario.schedule)))
    = Some t /\
    ScheduledTask.actual_start t = None.
Proof.
  split; [reflexivity|].
  split; [vm_compute; reflexivity|].
  eexists. split; [vm_compute; reflexivity|reflexivity].
Qed.

(** C10 (amended). The replay does not wait for [scheduled_start]: a
    scheduled task that has a task definition and no resolved predecessor
    is given the [actual_start] 0 and the [uplink_time] 0, whatever its
    [scheduled_start] and however the replay ends. *)
Theorem C10_no_predecessor_starts_at_zero
        (topology : DAGTopology.t)
        (task_definitions : dict string TaskDefinition.t)
        (base_compute_speed : Q) (tasks : dict string ScheduledTask.t)
        (p : string) (td : TaskDefinition.t) :
  fresh_schedule tasks ->
  In p (keys tasks) ->
  dict_get (DAGScheduler.parse_base_task_id p) task_definitions = Some td ->
  DAGScheduler._get_predecessors task_definitions tasks p = [] ->
  exists t a,
    dict_get p (DAGScheduler.scheduled_tasks
                  (fst (DAGScheduler.replay topology task_definitions
                                            base_compute_speed tasks)))
    = Some t /\
    ScheduledTask.actual_start t = Some a /\ a == 0 /\
    ScheduledTask.uplink_time t = 0.
Proof.
  intros F K D P.
  exact (ReplayFacts.root_start_zero topology task_definitions
           base_compute_speed tasks (proj1 F) (fresh_schedule_ids _ F)
           (fresh_schedule_ends _ F) p td K P D).
Qed.

Lemma C10_witness :
  (exists t0, dict_get "T0" Scenario.late_schedule = Some t0 /\
              ScheduledTask.scheduled_start t0 == 7) /\
  exists t a,
    dict_get "T0" (DAGScheduler.scheduled_tasks
                     (fst (DAGScheduler.replay (Scenario.topology 8)
                             Scenario.task_definitions 1
                             Scenario.late_schedule)))
    = Some t /\
    ScheduledTask.actual_start t = Some a /\ a == 0 /\
    ScheduledTask.uplink_time t = 0.
Proof.
  split; [eexists; split; reflexivity|].
  assert (F : fresh_schedule Scenario.late_schedule).
  { split; repeat constructor; simpl; intuition discriminate. }
  assert (K : In "T0" (keys Scenario.late_schedule)) by (simpl; auto).
  refine (C10_no_predecessor_starts_at_zero (Scenario.topology 8)
            Scenario.task_definitions 1 Scenario.late_schedule "T0" _
            F K _ _); reflexivity.
Defined.




(* ================================================================== *)
(** ** The lookup of links *)

Module RouteFacts.
Import nx GraphFacts WeightFacts DijkstraFacts TopologyFacts.

(** *** The directed-pair lookup *)

(** [link] joins [a] and [b], in either direction. *)
Definition joins (a b : string) (link : NetworkLink.t) : bool :=
  (String.eqb (NetworkLink.source link) a && String.eqb (NetworkLink.target link) b)
  || (String.eqb (NetworkLink.source link) b && String.eqb (NetworkLink.target link) a).

Lemma joins_sym a b l : joins a b l = joins b a l.
Proof. unfold joins. apply orb_comm. Qed.

Lemma add_link_get (G : Graph) (m : dict (string * string) NetworkLink.t)
      (l : NetworkLink.t) (a b : string) :
  dict_get (a, b) (snd (DAGTopology.add_link (G, m) l))
  = if joins a b l then Some l else dict_get (a, b) m.
Proof.
  unfold DAGTopology.add_link, joins.
  destruct (String.eqb_spec (NetworkLink.source l) (NetworkLink.target l))
    as [E|N]; cbn [snd]; rewrite ?pget_set; cbn [fst snd].
  - rewrite <- E.
    destruct (String.eqb (NetworkLink.source l) a),
             (String.eqb (NetworkLink.source l) b); reflexivity.
  - destruct (String.eqb (NetworkLink.source l) a),
             (String.eqb (NetworkLink.target l) b),
             (String.eqb (NetworkLink.source l) b),
             (String.eqb (NetworkLink.target l) a); reflexivity.
Qed.

Lemma fold_add_link_get (links : list NetworkLink.t) (a b : string) :
  forall (G : Graph) (m : dict (string * string) NetworkLink.t),
    dict_get (a, b) (snd (fold_left DAGTopology.add_link links (G, m)))
    = match find (joins a b) (rev links) with
      | Some l => Some l
      | None => dict_get (a, b) m
      end.
Proof.
  induction links as [|l links IH]; cbn [fold_left rev]; intros G m; auto.
  destruct (DAGTopology.add_link (G, m) l) as [G' m'] eqn:E.
  rewrite IH.
  assert (F : find (joins a b) (rev links ++ [l])
              = match find (joins a b) (rev links) with
                | Some x => Some x
                | None => if joins a b l then Some l else None
                end).
  { generalize (rev links) as r. clear.
    induction r as [|y r IHr]; simpl; [destruct (joins a b l); reflexivity|].
    destruct (joins a b y); auto. }
  rewrite F. destruct (find (joins a b) (rev links)); auto.
  pose proof (add_link_get G m l a b) as A. rewrite E in A. simpl in A.
  rewrite A. destruct (joins a b l); reflexivity.
Qed.

Lemma find_same {A} (f g : A -> bool) (l : list A) :
  (forall x, f x = g x) -> find f l = find g l.
Proof. intros E. induction l as [|x l IH]; simpl; auto. rewrite E, IH. auto. Qed.

Lemma get_link_find (nodes : dict string ComputeNode.t)
      (links : list NetworkLink.t) (a b : string) :
  DAGTopology.get_link (DAGTopology.init nodes links) a b
  = find (joins a b) (rev links).
Proof.
  unfold DAGTopology.get_link, DAGTopology.init, DAGTopology._build_graph.
  simpl. rewrite fold_add_link_get. destruct (find _ _); reflexivity.
Qed.
End RouteFacts.

(** X1. On a built topology, [get_link a b] is the last listed link that
    joins [a] and [b] in either direction.  So the lookup is symmetric, the
    link it returns is a listed one with these two end points, and it finds
    a link for the two end points of every listed link. *)
Theorem X1_get_link_is_last_listed :
  forall (nodes : dict string ComputeNode.t) (links : list NetworkLink.t)
         (a b : string),
    let topo := DAGTopology.init nodes links in
    DAGTopology.get_link topo a b = find (RouteFacts.joins a b) (rev links) /\
    DAGTopology.get_link topo a b = DAGTopology.get_link topo b a /\
    (forall l, DAGTopology.get_link topo a b = Some l ->
               In l links /\
               ((NetworkLink.source l = a /\ NetworkLink.target l = b) \/
                (NetworkLink.source l = b /\ NetworkLink.target l = a))) /\
    (forall l, In l links ->
               DAGTopology.get_link topo (NetworkLink.source l)
                                    (NetworkLink.target l) <> None).
Proof.
  intros nodes links a b topo. unfold topo.
  split; [apply RouteFacts.get_link_find|]. split; [|split].
  - rewrite !RouteFacts.get_link_find. apply RouteFacts.find_same.
    intros l. apply RouteFacts.joins_sym.
  - intros l E. rewrite RouteFacts.get_link_find in E.
    apply find_some in E. destruct E as [I J]. split.
    + rewrite in_rev. exact I.
    + unfold RouteFacts.joins in J. apply orb_true_iff in J.
      destruct J as [J|J]; apply andb_true_iff in J; destruct J as [J1 J2];
        apply String.eqb_eq in J1, J2; auto.
  - intros l I E. rewrite RouteFacts.get_link_find in E.
    assert (I' : In l (rev links)) by (rewrite <- in_rev; exact I).
    pose proof (find_none _ _ E l I') as J.
    unfold RouteFacts.joins in J. rewrite !String.eqb_refl in J.
    discriminate.
Qed.

(* ================================================================== *)
(** ** The schedule and topology documents *)

Module LoadFacts.
Import loaders.

(** *** [load_schedule] *)

(** The task that one complete entry describes. *)
Definition entry_task (entry : entry_json) : result ScheduledTask.t :=
  task_id <- item "task" (e_task entry) ;;
  node <- item "node" (e_node entry) ;;
  start <- item "start" (e_start entry) ;;
  end_ <- item "end" (e_end entry) ;;
  duration <- item "duration" (e_duration entry) ;;
  Ok (ScheduledTask.make task_id node start end_ duration).

(** The first of the five keys that an entry lacks. *)
Definition first_missing (entry : entry_json) : option string :=
  match e_task entry, e_node entry, e_start entry, e_end entry,
        e_duration entry with
  | None, _, _, _, _ => Some "task"
  | _, None, _, _, _ => Some "node"
  | _, _, None, _, _ => Some "start"
  | _, _, _, None, _ => Some "end"
  | _, _, _, _, None => Some "duration"
  | _, _, _, _, _ => None
  end.

Definition names (k : string) (entry : entry_json) : bool :=
  match e_task entry with
  | Some task_id => String.eqb task_id k
  | None => false
  end.

Lemma entry_task_cases (entry : entry_json) :
  match first_missing entry with
  | Some key => entry_task entry = Raise (KeyError key)
  | None => exists k n s e d,
      e_task entry = Some k /\ e_node entry = Some n /\
      e_start entry = Some s /\ e_end entry = Some e /\
      e_duration entry = Some d /\
      entry_task entry = Ok (ScheduledTask.make k n s e d)
  end.
Proof.
  unfold first_missing, entry_task.
  destruct (e_task entry) as [k|]; [|reflexivity].
  destruct (e_node entry) as [n|]; [|reflexivity].
  destruct (e_start entry) as [s|]; [|reflexivity].
  destruct (e_end entry) as [e|]; [|reflexivity].
  destruct (e_duration entry) as [d|]; [|reflexivity].
  exists k, n, s, e, d. repeat split; reflexivity.
Qed.

Lemma load_entries_snoc (es : list entry_json) (entry : entry_json) :
  load_entries (es ++ [entry])
  = (scheduled_tasks <- load_entries es ;;
     t <- entry_task entry ;;
     Ok (dict_set (ScheduledTask.task_id t) t scheduled_tasks)).
Proof.
  unfold load_entries. rewrite fold_left_app. cbn [fold_left].
  match goal with |- context [fold_left ?f es (Ok [])] =>
    destruct (fold_left f es (Ok [])) as [ts|x]; [|reflexivity]
  end.
  unfold entry_task. cbn [bind].
  destruct (e_task entry), (e_node entry), (e_start entry), (e_end entry),
           (e_duration entry); reflexivity.
Qed.

(** What [load_schedule] leaves under a key: the task of the last entry
    that names it. *)
Lemma load_entries_get (es : list entry_json) :
  forall tasks, load_entries es = Ok tasks ->
  Forall (fun e => first_missing e = None) es /\
  NoDup (keys tasks) /\
  forall k,
    match find (names k) (rev es) with
    | Some entry => exists t, entry_task entry = Ok t /\
                              ScheduledTask.task_id t = k /\
                              dict_get k tasks = Some t
    | None => dict_get k tasks = None
    end.
Proof.
  induction es as [|entry es IH] using rev_ind; intros tasks E.
  - inversion E; subst. split; [constructor|]. split; [constructor|].
    intros k. reflexivity.
  - rewrite load_entries_snoc in E.
    destruct (load_entries es) as [ts|x]; [|discriminate].
    destruct (IH ts eq_refl) as [C [ND G]]. cbn [bind] in E.
    pose proof (entry_task_cases entry) as Ec.
    destruct (first_missing entry) as [key|] eqn:FM.
    { rewrite Ec in E. discriminate. }
    destruct Ec as [k0 [n [s [e [d [E1 [E2 [E3 [E4 [E5 Et]]]]]]]]]].
    rewrite Et in E. cbn [bind] in E. inversion E; subst tasks. clear E.
    split; [apply Forall_app; split; auto|].
    split; [now apply NoDup_keys_dict_set|].
    intros k. rewrite rev_app_distr. cbn [rev app find].
    unfold names at 1. rewrite E1. simpl ScheduledTask.task_id.
    rewrite dict_get_set. simpl keqb.
    destruct (String.eqb_spec k0 k) as [->|N].
    + exists (ScheduledTask.make k n s e d). auto.
    + apply G.
Qed.

Lemma load_entries_raise (es : list entry_json) :
  forall x, load_entries es = Raise x ->
  exists pre entry post key,
    es = pre ++ entry :: post /\
    Forall (fun e => first_missing e = None) pre /\
    first_missing entry = Some key /\ x = KeyError key.
Proof.
  induction es as [|entry es IH] using rev_ind; intros x E.
  - discriminate.
  - rewrite load_entries_snoc in E.
    destruct (load_entries es) as [ts|y] eqn:L.
    + destruct (load_entries_get es ts L) as [C _]. cbn [bind] in E.
      pose proof (entry_task_cases entry) as Ec.
      destruct (first_missing entry) as [key|] eqn:FM.
      * rewrite Ec in E. cbn [bind] in E. inversion E; subst.
        exists es, entry, [], key. auto.
      * destruct Ec as [k0 [n [s [e [d [_ [_ [_ [_ [_ Et]]]]]]]]]].
        rewrite Et in E. discriminate.
    + cbn [bind] in E. inversion E; subst y.
      destruct (IH x eq_refl) as [pre [en [post [key [A [B [C D]]]]]]].
      exists pre, en, (post ++ [entry]), key. split; auto.
      rewrite A, <- app_assoc. reflexivity.
Qed.

(** *** [load_topology] *)

(** The node and the link that one element of the document describes. *)
Definition node_of (node_data : node_json) : result ComputeNode.t :=
  node_id <- item "id" (n_id node_data) ;;
  Ok {| ComputeNode.node_id := node_id;
        ComputeNode.speed_multiplier := get_default (n_weight node_data) 1;
        ComputeNode.node_type := get_default (n_type node_data) "unknown" |}.

Definition link_of (edge_data : edge_json) : result NetworkLink.t :=
  source <- item "source" (g_source edge_data) ;;
  target <- item "target" (g_target edge_data) ;;
  Ok {| NetworkLink.source := source;
        NetworkLink.target := target;
        NetworkLink.bandwidth := get_default (g_weight edge_data) 1;
        NetworkLink.link_type := get_default (g_type edge_data) "unknown" |}.

Definition load_nodes (ns : list node_json) : result (dict string ComputeNode.t) :=
  fold_left
    (fun acc node_data =>
       nodes <- acc ;;
       n <- node_of node_data ;;
       Ok (dict_set (ComputeNode.node_id n) n nodes))
    ns (Ok []).

Definition load_links (es : list edge_json) : result (list NetworkLink.t) :=
  fold_left
    (fun acc edge_data =>
       links <- acc ;;
       l <- link_of edge_data ;;
       Ok (links ++ [l]))
    es (Ok []).

Lemma load_topology_eq (data : topology_json) :
  load_topology data
  = (nodes <- load_nodes (t_nodes data) ;;
     links <- load_links (t_edges data) ;;
     Ok (nodes, links)).
Proof.
  unfold load_topology.
  match goal with |- bind ?a _ = _ =>
    assert (A : a = load_nodes (t_nodes data))
  end.
  { unfold load_nodes. apply fold_left_ext. intros acc nd _.
    destruct acc; simpl; auto.
    unfold node_of. destruct (n_id nd); reflexivity. }
  rewrite A. destruct (load_nodes (t_nodes data)) as [nodes|x]; cbn [bind]; auto.
  match goal with |- bind ?a _ = _ =>
    assert (B : a = load_links (t_edges data))
  end.
  { unfold load_links. apply fold_left_ext. intros acc g _.
    destruct acc; simpl; auto.
    unfold link_of. destruct (g_source g), (g_target g); reflexivity. }
  rewrite B. reflexivity.
Qed.

Definition has_id (k : string) (node_data : node_json) : bool :=
  match n_id node_data with
  | Some node_id => String.eqb node_id k
  | None => false
  end.

Lemma load_nodes_snoc (ns : list node_json) (nd : node_json) :
  load_nodes (ns ++ [nd])
  = (nodes <- load_nodes ns ;;
     n <- node_of nd ;;
     Ok (dict_set (ComputeNode.node_id n) n nodes)).
Proof. unfold load_nodes. now rewrite fold_left_app. Qed.

Lemma load_links_snoc (es : list edge_json) (g : edge_json) :
  load_links (es ++ [g])
  = (links <- load_links es ;; l <- link_of g ;; Ok (links ++ [l])).
Proof. unfold load_links. now rewrite fold_left_app. Qed.

Lemma load_nodes_get (ns : list node_json) :
  forall nodes, load_nodes ns = Ok nodes ->
  Forall (fun nd => n_id nd <> None) ns /\
  NoDup (keys nodes) /\
  forall k,
    match find (has_id k) (rev ns) with
    | Some nd => exists n, node_of nd = Ok n /\ ComputeNode.node_id n = k /\
                           dict_get k nodes = Some n
    | None => dict_get k nodes = None
    end.
Proof.
  induction ns as [|nd ns IH] using rev_ind; intros nodes E.
  - inversion E; subst. split; [constructor|]. split; [constructor|].
    intros k. reflexivity.
  - rewrite load_nodes_snoc in E.
    destruct (load_nodes ns) as [ts|x]; [|discriminate].
    destruct (IH ts eq_refl) as [C [ND G]]. cbn [bind] in E.
    unfold node_of in *. destruct (n_id nd) as [k0|] eqn:Id; [|discriminate].
    cbn [item bind] in E. inversion E; subst nodes. clear E.
    split; [apply Forall_app; split; auto; constructor; auto; congruence|].
    split; [now apply NoDup_keys_dict_set|].
    intros k. rewrite rev_app_distr. cbn [rev app find].
    unfold has_id at 1. rewrite Id. cbn [ComputeNode.node_id].
    rewrite dict_get_set. simpl keqb.
    destruct (String.eqb_spec k0 k) as [->|N].
    + rewrite Id. cbn [item bind]. eexists. split; [reflexivity|]. auto.
    + apply G.
Qed.

Lemma load_nodes_raise (ns : list node_json) :
  forall x, load_nodes ns = Raise x ->
  x = KeyError "id" /\ exists nd, In nd ns /\ n_id nd = None.
Proof.
  induction ns as [|nd ns IH] using rev_ind; intros x E; [discriminate|].
  rewrite load_nodes_snoc in E.
  destruct (load_nodes ns) as [ts|y] eqn:L.
  - cbn [bind] in E. unfold node_of in E.
    destruct (n_id nd) eqn:Id; [discriminate|].
    cbn [item bind] in E. inversion E. split; auto.
    exists nd. split; auto. apply in_app_iff. simpl. auto.
  - cbn [bind] in E. inversion E; subst y.
    destruct (IH x eq_refl) as [A [nd' [B C]]]. split; auto.
    exists nd'. split; auto. apply in_app_iff. auto.
Qed.

Lemma load_links_ok (es : list edge_json) :
  forall links, load_links es = Ok links ->
  Forall2 (fun g l => link_of g = Ok l) es links.
Proof.
  induction es as [|g es IH] using rev_ind; intros links E.
  - inversion E; subst. constructor.
  - rewrite load_links_snoc in E.
    destruct (load_links es) as [ls|x]; [|discriminate]. cbn [bind] in E.
    destruct (link_of g) as [l|x] eqn:Lg; [|discriminate].
    cbn [bind] in E. inversion E; subst.
    apply Forall2_app; auto.
Qed.

(** The first of [source], [target] that an edge element lacks. *)
Definition missing_end (g : edge_json) : option string :=
  match g_source g, g_target g with
  | None, _ => Some "source"
  | _, None => Some "target"
  | _, _ => None
  end.

Lemma link_of_cases (g : edge_json) :
  match missing_end g with
  | Some key => link_of g = Raise (KeyError key)
  | None => exists l, link_of g = Ok l
  end.
Proof.
  unfold missing_end, link_of.
  destruct (g_source g); [|reflexivity].
  destruct (g_target g); [|reflexivity]. eexists. reflexivity.
Qed.

Lemma load_links_raise (es : list edge_json) :
  forall x, load_links es = Raise x ->
  exists pre g post key,
    es = pre ++ g :: post /\
    Forall (fun g => missing_end g = None) pre /\
    missing_end g = Some key /\ x = KeyError key.
Proof.
  induction es as [|g es IH] using rev_ind; intros x E; [discriminate|].
  rewrite load_links_snoc in E.
  destruct (load_links es) as [ls|y] eqn:L.
  - cbn [bind] in E. pose proof (link_of_cases g) as C.
    destruct (missing_end g) as [key|] eqn:M.
    + rewrite C in E. cbn [bind] in E. inversion E; subst.
      exists es, g, [], key. split; auto. split; auto.
      apply load_links_ok in L. clear -L.
      induction L as [|a b es ls A F IHF]; constructor; auto.
      pose proof (link_of_cases a) as C. destruct (missing_end a); auto.
      congruence.
    + destruct C as [l C]. rewrite C in E. discriminate.
  - cbn [bind] in E. inversion E; subst y.
    destruct (IH x eq_refl) as [pre [g' [post [key [A [B [C D]]]]]]].
    exists pre, g', (post ++ [g]), key. split; auto.
    rewrite A, <- app_assoc. reflexivity.
Qed.
End LoadFacts.

(** X4. When [load_schedule] succeeds, the dictionary it returns holds one
    task per task id named in the document, stored under that id and built
    from the last entry that names it; the tasks are fresh: no
    [actual_end] is set, and each task's [task_id] is its key. *)
Theorem X4_load_schedule_last_entry_wins :
  forall (data : loaders.schedule_json)
         (tasks : dict string ScheduledTask.t)
         (task_to_node : dict string string) (makespan : option Q),
    loaders.load_schedule data = Ok (tasks, task_to_node, makespan) ->
    fresh_schedule tasks /\
    forall k,
      dict_get k tasks
      = match find (LoadFacts.names k) (rev (loaders.s_schedule data)) with
        | Some entry =>
            match LoadFacts.entry_task entry with
            | Ok t => Some t
            | Raise _ => None
            end
        | None => None
        end.
Proof.
  intros data tasks m ms E. unfold loaders.load_schedule in E.
  destruct (loaders.load_entries (loaders.s_schedule data)) as [ts|x] eqn:L;
    [|discriminate].
  cbn [bind] in E. inversion E; subst ts m ms. clear E.
  destruct (LoadFacts.load_entries_get _ _ L) as [C [ND G]].
  assert (K : forall k,
             dict_get k tasks
             = match find (LoadFacts.names k) (rev (loaders.s_schedule data)) with
               | Some entry =>
                   match LoadFacts.entry_task entry with
                   | Ok t => Some t
                   | Raise _ => None
                   end
               | None => None
               end).
  { intros k. specialize (G k).
    destruct (find _ _) as [entry|]; auto.
    destruct G as [t [-> [_ ->]]]. reflexivity. }
  split; [|exact K]. split; [exact ND|].
  apply Forall_forall. intros [k t] I. simpl.
  apply (In_dict_get_NoDup _ _ _ ND) in I.
  specialize (G k). destruct (find _ _) as [entry|]; [|congruence].
  destruct G as [t' [Et [Id Gk]]]. rewrite I in Gk. inversion Gk; subst t'.
  split; auto.
  pose proof (LoadFacts.entry_task_cases entry) as Ec.
  destruct (LoadFacts.first_missing entry); [congruence|].
  destruct Ec as [k0 [n [s [e [d [_ [_ [_ [_ [_ Et']]]]]]]]]].
  rewrite Et in Et'. inversion Et'. reflexivity.
Qed.

Lemma X4_witness :
  fresh_schedule Scenario.schedule /\
  forall k,
    dict_get k Scenario.schedule
    = match find (LoadFacts.names k)
                 (rev (loaders.s_schedule Scenario.schedule_doc)) with
      | Some entry =>
          match LoadFacts.entry_task entry with
          | Ok t => Some t
          | Raise _ => None
          end
      | None => None
      end.
Proof.
  exact (X4_load_schedule_last_entry_wins Scenario.schedule_doc
           Scenario.schedule [("T0", "N0"); ("T1", "N1")] (Some 16) eq_refl).
Defined.

(** X5. [load_schedule] has no default for a key.  When it succeeds, every
    entry of the document has the five keys [task], [node], [start], [end]
    and [duration]; when it raises [KeyError], the entries before the
    failing one are complete and the key named is the first, in this
    order, that the failing entry lacks.  (A value that [float()] refuses
    makes the program raise another exception, on which nothing is said
    here.) *)
Theorem X5_load_schedule_missing_key :
  forall (data : loaders.schedule_json),
    match loaders.load_schedule data with
    | Ok _ =>
        Forall (fun e => LoadFacts.first_missing e = None)
               (loaders.s_schedule data)
    | Raise (KeyError key) =>
        exists pre entry post,
          loaders.s_schedule data = pre ++ entry :: post /\
          Forall (fun e => LoadFacts.first_missing e = None) pre /\
          LoadFacts.first_missing entry = Some key
    | Raise _ => True
    end.
Proof.
  intros data. unfold loaders.load_schedule.
  destruct (loaders.load_entries (loaders.s_schedule data)) as [ts|x] eqn:L;
    cbn [bind].
  - apply (LoadFacts.load_entries_get _ _ L).
  - destruct (LoadFacts.load_entries_raise _ _ L)
      as [pre [entry [post [key [A [B [C ->]]]]]]].
    exists pre, entry, post. auto.
Qed.

(** X6. When [load_topology] succeeds, the links are the edge elements of
    the document, in order, each with bandwidth 1 and type ["unknown"] where
    the element leaves them out; the nodes are stored under their ids, the
    last element with an id winning, with speed multiplier 1 and type
    ["unknown"] by default. *)
Theorem X6_load_topology_defaults :
  forall (data : loaders.topology_json)
         (nodes : dict string ComputeNode.t) (links : list NetworkLink.t),
    loaders.load_topology data = Ok (nodes, links) ->
    Forall2
      (fun g l =>
         loaders.g_source g = Some (NetworkLink.source l) /\
         loaders.g_target g = Some (NetworkLink.target l) /\
         NetworkLink.bandwidth l = loaders.get_default (loaders.g_weight g) 1 /\
         NetworkLink.link_type l
         = loaders.get_default (loaders.g_type g) "unknown")
      (loaders.t_edges data) links /\
    NoDup (keys nodes) /\
    forall k,
      match find (LoadFacts.has_id k) (rev (loaders.t_nodes data)) with
      | Some nd =>
          dict_get k nodes
          = Some {| ComputeNode.node_id := k;
                    ComputeNode.speed_multiplier :=
                      loaders.get_default (loaders.n_weight nd) 1;
                    ComputeNode.node_type :=
                      loaders.get_default (loaders.n_type nd) "unknown" |}
      | None => dict_get k nodes = None
      end.
Proof.
  intros data nodes links E. rewrite LoadFacts.load_topology_eq in E.
  destruct (LoadFacts.load_nodes (loaders.t_nodes data)) as [ns|x] eqn:N;
    [|discriminate].
  cbn [bind] in E.
  destruct (LoadFacts.load_links (loaders.t_edges data)) as [ls|x] eqn:L;
    [|discriminate].
  cbn [bind] in E. inversion E; subst ns ls. clear E.
  destruct (LoadFacts.load_nodes_get _ _ N) as [_ [ND G]].
  split; [|split; [exact ND|]].
  - apply LoadFacts.load_links_ok in L. revert L. apply Forall2_impl.
    intros g l. unfold LoadFacts.link_of.
    destruct (loaders.g_source g); [|discriminate].
    destruct (loaders.g_target g); [|discriminate].
    cbn [loaders.item bind]. intros A. inversion A. simpl. auto.
  - intros k. specialize (G k). destruct (find _ _) as [nd|] eqn:F; auto.
    destruct G as [n [A [B C]]]. rewrite C. f_equal.
    apply find_some in F. destruct F as [_ F].
    unfold LoadFacts.has_id in F. unfold LoadFacts.node_of in A.
    destruct (loaders.n_id nd) as [i|]; [|discriminate].
    apply String.eqb_eq in F. subst i.
    cbn [loaders.item bind] in A. inversion A. reflexivity.
Qed.

Lemma X6_witness :
  exists nodes links,
    loaders.load_topology Scenario.topology_doc = Ok (nodes, links) /\
    dict_get "N1" nodes
    = Some {| ComputeNode.node_id := "N1"; ComputeNode.speed_multiplier := 1;
              ComputeNode.node_type := "unknown" |} /\
    Forall2
      (fun g l =>
         loaders.g_source g = Some (NetworkLink.source l) /\
         loaders.g_target g = Some (NetworkLink.target l) /\
         NetworkLink.bandwidth l = loaders.get_default (loaders.g_weight g) 1 /\
         NetworkLink.link_type l
         = loaders.get_default (loaders.g_type g) "unknown")
      (loaders.t_edges Scenario.topology_doc) links.
Proof.
  destruct (loaders.load_topology Scenario.topology_doc) as [[nodes links]|]
    eqn:E; [|vm_compute in E; discriminate].
  exists nodes, links. split; [reflexivity|].
  destruct (X6_load_topology_defaults Scenario.topology_doc nodes links E)
    as [A [_ B]].
  split; [exact (B "N1")|exact A].
Defined.

(** X7. [load_topology] has defaults for [weight] and [type] only.  When
    it succeeds, every node element has an [id] and every edge element a
    [source] and a [target].  The nodes are read first: when it raises
    [KeyError "id"], a node element lacks [id]; when it raises the
    [KeyError] of another key, every node element has an [id], the edge
    elements before the failing one have both end points, and the key is
    [source], if the failing element lacks it, else [target].  (A value
    that [float()] refuses makes the program raise another exception, on
    which nothing is said here.) *)
Theorem X7_load_topology_missing_key :
  forall (data : loaders.topology_json),
    match loaders.load_topology data with
    | Ok _ =>
        Forall (fun nd => loaders.n_id nd <> None) (loaders.t_nodes data) /\
        Forall (fun g => LoadFacts.missing_end g = None) (loaders.t_edges data)
    | Raise (KeyError key) =>
        (key = "id" /\
         exists nd, In nd (loaders.t_nodes data) /\ loaders.n_id nd = None) \/
        (Forall (fun nd => loaders.n_id nd <> None) (loaders.t_nodes data) /\
         exists pre g post,
           loaders.t_edges data = pre ++ g :: post /\
           Forall (fun g => LoadFacts.missing_end g = None) pre /\
           LoadFacts.missing_end g = Some key)
    | Raise _ => True
    end.
Proof.
  intros data. rewrite LoadFacts.load_topology_eq.
  destruct (LoadFacts.load_nodes (loaders.t_nodes data)) as [ns|x] eqn:N;
    cbn [bind].
  2:{ destruct (LoadFacts.load_nodes_raise _ _ N) as [-> E]. left. auto. }
  destruct (LoadFacts.load_nodes_get _ _ N) as [C _].
  destruct (LoadFacts.load_links (loaders.t_edges data)) as [ls|x] eqn:L;
    cbn [bind].
  - split; auto. apply LoadFacts.load_links_ok in L. clear -L.
    induction L as [|a b es ls A F IHF]; constructor; auto.
    pose proof (LoadFacts.link_of_cases a) as K.
    destruct (LoadFacts.missing_end a); auto. congruence.
  - destruct (LoadFacts.load_links_raise _ _ L)
      as [pre [g [post [key [A [B [M ->]]]]]]].
    right. split; auto. exists pre, g, post. auto.
Qed.

(* ================================================================== *)
(** ** The DAG document: edge weights *)

Module EdgeWeightFacts.
Import loaders.

(** [key.strip("()").replace("'", "").replace(" ", "").split(",")] *)
Definition key_parts (key : string) : list string :=
  split "," (remove_char " " (remove_char "'" (strip ["("; ")"]%char key))).

(** The pair of task ids that a key of [edge_weights] is read as. *)
Definition key_pair (key : string) : option (string * string) :=
  match key_parts key with
  | [src; dst] => Some (src, dst)
  | _ => None
  end.

(** The documented form of a key: ["('src', 'dst')"]. *)
Definition tuple_key (src dst : string) : string :=
  ("('" ++ src ++ "', '" ++ dst ++ "')")%string.

Fixpoint has_char (c : ascii) (s : string) : bool :=
  match s with
  | EmptyString => false
  | String ch r => Ascii.eqb ch c || has_char c r
  end.

(** An id that the cleaning of a key leaves alone. *)
Definition plain (s : string) : bool :=
  negb (has_char "'" s) && negb (has_char " " s) && negb (has_char "," s).

Lemma remove_char_app (c : ascii) (a b : string) :
  remove_char c (a ++ b)%string = (remove_char c a ++ remove_char c b)%string.
Proof.
  induction a as [|ch a IH]; simpl; auto.
  destruct (Ascii.eqb ch c); simpl; now rewrite IH.
Qed.

Lemma remove_char_free (c : ascii) (s : string) :
  has_char c s = false -> remove_char c s = s.
Proof.
  induction s as [|ch s IH]; simpl; auto.
  destruct (Ascii.eqb ch c); simpl; [discriminate|]. intros A. now rewrite IH.
Qed.

Lemma has_char_app (c : ascii) (a b : string) :
  has_char c (a ++ b)%string = has_char c a || has_char c b.
Proof.
  induction a as [|ch a IH]; simpl; auto. rewrite IH. apply orb_assoc.
Qed.

Lemma rstrip_tail (s : string) :
  rstrip ["("; ")"]%char (s ++ "')")%string = (s ++ "'")%string.
Proof.
  induction s as [|ch s IH]; [reflexivity|].
  cbn [append rstrip]. rewrite IH.
  destruct (s ++ "'")%string eqn:E; [|reflexivity].
  destruct s; discriminate.
Qed.

Lemma split_free (s : string) : has_char "," s = false -> split "," s = [s].
Proof.
  induction s as [|ch s IH]; simpl; auto.
  destruct (Ascii.eqb ch ","); simpl; [discriminate|].
  intros A. now rewrite IH.
Qed.

Lemma split_comma (a r : string) :
  has_char "," a = false ->
  split "," (a ++ String "," r)%string = a :: split "," r.
Proof.
  induction a as [|ch a IH]; simpl; auto.
  destruct (Ascii.eqb ch ","); simpl; [discriminate|].
  intros A. now rewrite IH.
Qed.

Lemma append_assoc (a b c : string) :
  ((a ++ b) ++ c)%string = (a ++ (b ++ c))%string.
Proof. induction a; simpl; congruence. Qed.

(** A key in the documented form is read as the pair it shows. *)
Lemma key_pair_tuple_key (src dst : string) :
  plain src = true -> plain dst = true ->
  key_pair (tuple_key src dst) = Some (src, dst).
Proof.
  unfold plain. intros A B.
  apply andb_true_iff in A, B. destruct A as [A A3], B as [B B3].
  apply andb_true_iff in A, B. destruct A as [A1 A2], B as [B1 B2].
  apply negb_true_iff in A1, A2, A3, B1, B2, B3.
  unfold key_pair, key_parts, tuple_key, strip.
  change (lstrip ["("; ")"]%char ("('" ++ src ++ "', '" ++ dst ++ "')")%string)
    with ("'" ++ src ++ "', '" ++ dst ++ "')")%string.
  replace ("'" ++ src ++ "', '" ++ dst ++ "')")%string
    with (("'" ++ src ++ "', '" ++ dst) ++ "')")%string
    by (simpl; rewrite !append_assoc; reflexivity).
  rewrite rstrip_tail.
  assert (R1 : remove_char "'" (("'" ++ src ++ "', '" ++ dst) ++ "'")%string
               = (src ++ ", " ++ dst)%string).
  { rewrite !remove_char_app. simpl.
    rewrite (remove_char_free _ _ A1), (remove_char_free _ _ B1).
    rewrite append_assoc. simpl. f_equal. f_equal. f_equal.
    clear. induction dst; simpl; congruence. }
  rewrite R1.
  assert (R2 : remove_char " " (src ++ ", " ++ dst)%string
               = (src ++ String "," dst)%string).
  { rewrite !remove_char_app. simpl.
    now rewrite (remove_char_free _ _ A2), (remove_char_free _ _ B2). }
  rewrite R2, (split_comma _ _ A3), (split_free _ B3). reflexivity.
Qed.

(** *** The nested dictionary that [load_dag] fills *)

Definition pair_is (a b : string) (o : option (string * string)) : bool :=
  match o with
  | Some (s, d) => String.eqb s a && String.eqb d b
  | None => false
  end.

(** [edge_weights[a][b]], when both levels exist. *)
Definition lookup2 (a b : string) (ew : dict string (dict string Q))
  : option Q :=
  match dict_get a ew with
  | Some inner => dict_get b inner
  | None => None
  end.

Lemma parse_edge_weights_lookup (raw : dict string Q) (a b : string) :
  lookup2 a b (parse_edge_weights raw)
  = match find (fun kv => pair_is a b (key_pair (fst kv))) (rev raw) with
    | Some kv => Some (snd kv)
    | None => None
    end.
Proof.
  unfold parse_edge_weights.
  induction raw as [|kv raw IH] using rev_ind; [reflexivity|].
  rewrite fold_left_app, rev_app_distr. cbn [fold_left rev app find].
  unfold key_pair at 1, key_parts.
  match type of IH with lookup2 a b ?e = _ => set (ew := e) in * end.
  clearbody ew.
  destruct (split "," _) as [|s [|d [|x r]]]; cbn [pair_is]; auto.
  unfold lookup2 at 1. rewrite GraphFacts.sget_set.
  destruct (String.eqb_spec s a) as [->|N]; cbn [andb].
  - rewrite GraphFacts.sget_set.
    destruct (String.eqb_spec d b) as [->|M]; [reflexivity|].
    rewrite <- IH. unfold lookup2. unfold dict in *.
    destruct (dict_get a ew); reflexivity.
  - exact IH.
Qed.

Lemma load_dag_get (d : dag_json) (k : string) :
  dict_get k (load_dag d)
  = match find (fun kv => String.eqb (fst kv) k) (rev (node_weights d)) with
    | Some kv =>
        Some {| TaskDefinition.task_id := k;
                TaskDefinition.compute_cost := snd kv;
                TaskDefinition.successors := get_or k (edges d) [];
                TaskDefinition.predecessors :=
                  get_or k (build_predecessors d) [];
                TaskDefinition.edge_weights :=
                  get_or k (parse_edge_weights (edge_weights_raw d)) [] |}
    | None => None
    end.
Proof.
  unfold load_dag.
  induction (node_weights d) as [|kv nw IH] using rev_ind; [reflexivity|].
  rewrite fold_left_app, rev_app_distr. cbn [fold_left rev app find].
  rewrite GraphFacts.sget_set.
  destruct (String.eqb_spec (fst kv) k) as [->|N]; [reflexivity|exact IH].
Qed.

Lemma get_data_lookup2 (d : dag_json) (a b : string) (ta : TaskDefinition.t) :
  dict_get a (load_dag d) = Some ta ->
  TaskDefinition.get_data_to_successor ta b
  = match lookup2 a b (parse_edge_weights (edge_weights_raw d)) with
    | Some v => v
    | None => 0
    end.
Proof.
  rewrite load_dag_get. destruct (find _ _) as [kv|]; [|discriminate].
  intros E. inversion E; subst ta. clear E.
  unfold TaskDefinition.get_data_to_successor, lookup2, get_or. simpl.
  destruct (dict_get a _); reflexivity.
Qed.
End EdgeWeightFacts.

(** X8. In the tasks that [load_dag] returns, the data a task [a] owes its
    successor [b] is the value of the last entry of [edge_weights] whose key
    is read as the pair [(a, b)], and 0 when there is none.  A key in the
    documented form ["('a', 'b')"] is read as [(a, b)] whenever the two ids
    contain no quote, space or comma. *)
Theorem X8_load_dag_edge_weight_lookup :
  forall (d : loaders.dag_json) (a b : string) (ta : TaskDefinition.t),
    dict_get a (loaders.load_dag d) = Some ta ->
    TaskDefinition.get_data_to_successor ta b
    = match find (fun kv => EdgeWeightFacts.pair_is a b
                              (EdgeWeightFacts.key_pair (fst kv)))
                 (rev (loaders.edge_weights_raw d)) with
      | Some kv => snd kv
      | None => 0
      end /\
    (EdgeWeightFacts.plain a = true -> EdgeWeightFacts.plain b = true ->
     EdgeWeightFacts.key_pair (EdgeWeightFacts.tuple_key a b) = Some (a, b)).
Proof.
  intros d a b ta E. split.
  - rewrite (EdgeWeightFacts.get_data_lookup2 d a b ta E).
    rewrite EdgeWeightFacts.parse_edge_weights_lookup.
    destruct (find _ _); reflexivity.
  - apply EdgeWeightFacts.key_pair_tuple_key.
Qed.

Lemma X8_witness :
  exists ta,
    dict_get "T0" (loaders.load_dag Scenario.dag) = Some ta /\
    loaders.edge_weights_raw Scenario.dag
    = [(EdgeWeightFacts.tuple_key "T0" "T1", 1000000 # 1)] /\
    TaskDefinition.get_data_to_successor ta "T1" = 1000000 # 1.
Proof.
  destruct (dict_get "T0" (loaders.load_dag Scenario.dag)) as [ta|] eqn:E;
    [|vm_compute in E; discriminate].
  exists ta. split; [reflexivity|]. split; [reflexivity|].
  destruct (X8_load_dag_edge_weight_lookup Scenario.dag "T0" "T1" ta E)
    as [A _].
  rewrite A. reflexivity.
Defined.
(* ================================================================== *)
(** ** The replay: what it raises and when it completes *)

Module RunFacts.

Definition value_error (e : exn) : Prop := exists m, e = ValueError m.

Lemma link_time_value_error (l : NetworkLink.t) (n : Q) (e : exn) :
  NetworkLink.get_transfer_time l n = Raise e -> value_error e.
Proof.
  unfold NetworkLink.get_transfer_time.
  destruct (Qle_bool _ _); [|discriminate].
  intros E. inversion E. eexists. reflexivity.
Qed.

Lemma sum_transfer_times_value_error (ls : list NetworkLink.t) (n : Q)
      (e : exn) :
  forall acc, (acc = Raise e -> value_error e) ->
  fold_left (fun acc link =>
               a <- acc ;;
               x <- NetworkLink.get_transfer_time link n ;;
               Ok (a + x)) ls acc = Raise e ->
  value_error e.
Proof.
  induction ls as [|l ls IH]; intros acc A E; simpl in E; auto.
  refine (IH _ _ E). destruct acc as [a|e']; simpl; auto.
  destruct (NetworkLink.get_transfer_time l n) as [x|e'] eqn:G; simpl;
    [discriminate|].
  intros X. inversion X; subst e'. eapply link_time_value_error; eauto.
Qed.

(** On a built topology a transfer fails with a [ValueError] only. *)
Lemma get_transfer_time_value_error (nodes : dict string ComputeNode.t)
      (links : list NetworkLink.t) (s t : string) (n : Q) (e : exn) :
  DAGTopology.get_transfer_time (DAGTopology.init nodes links) s t n
  = Raise e ->
  value_error e.
Proof.
  unfold DAGTopology.get_transfer_time, DAGTopology.get_path_links.
  destruct (String.eqb_spec s t) as [E|N].
  - destruct (dict_get _ _); [|discriminate].
    apply link_time_value_error.
  - pose proof (TopologyFacts.get_path_spec nodes links s t N) as P.
    cbv zeta in P.
    destruct (DAGTopology.get_path _ s t) as [p|e']; simpl.
    + destruct (fold_left _ (DAGTopology.hops p) []) as [|l ls].
      * intros X. inversion X. eexists. reflexivity.
      * apply sum_transfer_times_value_error. discriminate.
    + intros X. inversion X; subst e'.
      destruct e; try contradiction. eexists. reflexivity.
Qed.

Lemma get_compute_time_value_error (topology : DAGTopology.t) (n : string)
      (c b : Q) (e : exn) :
  DAGTopology.get_compute_time topology n c b = Raise e -> value_error e.
Proof.
  unfold DAGTopology.get_compute_time.
  destruct (dict_get n _).
  - unfold ComputeNode.get_compute_time. cbv zeta.
    destruct (Qle_bool _ _); [|discriminate].
    intros X. inversion X. eexists. reflexivity.
  - intros X. inversion X. eexists. reflexivity.
Qed.

(** Whatever the replay raises on a built topology is a [ValueError]. *)
Lemma replay_value_error (nodes : dict string ComputeNode.t)
      (links : list NetworkLink.t)
      (task_definitions : dict string TaskDefinition.t)
      (base_compute_speed : Q) (tasks : dict string ScheduledTask.t)
      (e : exn) :
  fresh_schedule tasks ->
  snd (DAGScheduler.replay (DAGTopology.init nodes links) task_definitions
                           base_compute_speed tasks) = Some e ->
  value_error e.
Proof.
  intros F.
  apply (ReplayFacts.replay_vet (DAGTopology.init nodes links)
           task_definitions base_compute_speed tasks (proj1 F)
           (fresh_schedule_ids _ F) (fresh_schedule_ends _ F) value_error).
  - intros p _ _. eexists. reflexivity.
  - intros p x K U.
    destruct (ReplayFacts.uplink0_raise _ _ _ p x K U)
      as [q [tq [tp [_ [_ [_ [_ G]]]]]]].
    eapply get_transfer_time_value_error; eauto.
  - intros p t0 td x _ _ G. eapply get_compute_time_value_error; eauto.
  - intros. eexists. reflexivity.
Qed.

(** The same for [run()], whose own failure is a [ValueError] as well. *)
Lemma run_value_error (nodes : dict string ComputeNode.t)
      (links : list NetworkLink.t)
      (task_definitions : dict string TaskDefinition.t)
      (base_compute_speed : Q) (tasks : dict string ScheduledTask.t)
      (e : exn) :
  fresh_schedule tasks ->
  DAGScheduler.run (DAGTopology.init nodes links) task_definitions
                   base_compute_speed tasks = Raise e ->
  value_error e.
Proof.
  intros F R. unfold DAGScheduler.run in R.
  pose proof (replay_value_error nodes links task_definitions
                base_compute_speed tasks) as V.
  destruct (DAGScheduler.replay _ _ _ _) as [st [x|]].
  - inversion R; subst x. apply (V e F). reflexivity.
  - destruct (DAGScheduler.recorded_ends _); [|discriminate].
    inversion R. eexists. reflexivity.
Qed.
End RunFacts.

(** X9. A scheduled task whose base id has no task definition makes
    [run()] raise, whatever else is scheduled, and the task itself is left
    without an [actual_end]. *)
Theorem X9_missing_definition_raises
        (topology : DAGTopology.t)
        (task_definitions : dict string TaskDefinition.t)
        (base_compute_speed : Q) (tasks : dict string ScheduledTask.t)
        (p : string) :
  fresh_schedule tasks ->
  In p (keys tasks) ->
  dict_get (DAGScheduler.parse_base_task_id p) task_definitions = None ->
  (exists e, DAGScheduler.run topology task_definitions base_compute_speed
                              tasks = Raise e) /\
  exists t,
    dict_get p (DAGScheduler.scheduled_tasks
                  (fst (DAGScheduler.replay topology task_definitions
                                            base_compute_speed tasks)))
    = Some t /\
    ScheduledTask.actual_end t = None.
Proof.
  intros F K D.
  destruct (ReplayFacts.replay_undefined topology task_definitions
              base_compute_speed tasks (proj1 F) (fresh_schedule_ids _ F)
              (fresh_schedule_ends _ F) p K D) as [A B].
  split; [|exact B].
  unfold DAGScheduler.run.
  destruct (DAGScheduler.replay _ _ _ _) as [st [e|]]; [eauto|].
  simpl in A. congruence.
Qed.

Lemma X9_witness :
  (exists e, DAGScheduler.run (Scenario.topology 8) [] 1 Scenario.schedule
             = Raise e) /\
  exists t,
    dict_get "T1" (DAGScheduler.scheduled_tasks
                     (fst (DAGScheduler.replay (Scenario.topology 8) [] 1
                                               Scenario.schedule)))
    = Some t /\
    ScheduledTask.actual_end t = None.
Proof.
  assert (F : fresh_schedule Scenario.schedule).
  { split; repeat constructor; simpl; intuition discriminate. }
  assert (K : In "T1" (keys Scenario.schedule)) by (simpl; auto).
  exact (X9_missing_definition_raises (Scenario.topology 8) [] 1
           Scenario.schedule "T1" F K eq_refl).
Defined.

(** X10. On a topology built by [DAGTopology(nodes, links)], whatever
    [run()] raises for a fresh schedule is a [ValueError]: a missing task
    definition, an unknown node, a capacity or bandwidth that is not
    positive, a negative compute time, no path, or no task with an
    [actual_end]; never a [KeyError] or SimPy's [RuntimeError]. *)
Theorem X10_run_raises_value_errors_only
        (nodes : dict string ComputeNode.t) (links : list NetworkLink.t)
        (task_definitions : dict string TaskDefinition.t)
        (base_compute_speed : Q) (tasks : dict string ScheduledTask.t)
        (e : exn) :
  fresh_schedule tasks ->
  DAGScheduler.run (DAGTopology.init nodes links) task_definitions
                   base_compute_speed tasks = Raise e ->
  exists m, e = ValueError m.
Proof.
  intros F R.
  exact (RunFacts.run_value_error nodes links task_definitions
           base_compute_speed tasks e F R).
Qed.

Lemma X10_witness :
  DAGScheduler.run (DAGTopology.init Scenario.nodes [Scenario.link 0])
                   Scenario.task_definitions 1 Scenario.schedule
  = Raise (ValueError "Link N0->N1 has invalid bandwidth") /\
  exists m, ValueError "Link N0->N1 has invalid bandwidth" = ValueError m.
Proof.
  assert (F : fresh_schedule Scenario.schedule).
  { split; repeat constructor; simpl; intuition discriminate. }
  assert (R : DAGScheduler.run (DAGTopology.init Scenario.nodes [Scenario.link 0])
                Scenario.task_definitions 1 Scenario.schedule
              = Raise (ValueError "Link N0->N1 has invalid bandwidth"))
    by (vm_compute; reflexivity).
  split; [exact R|].
  exact (X10_run_raises_value_errors_only Scenario.nodes [Scenario.link 0]
           Scenario.task_definitions 1 Scenario.schedule _ F R).
Defined.

Module LiveFacts.
(** What [run()] returns bounds every recorded end. *)
Lemma run_bounds (topology : DAGTopology.t)
      (task_definitions : dict string TaskDefinition.t)
      (base_compute_speed : Q) (tasks : dict string ScheduledTask.t) (m : Q) :
  DAGScheduler.run topology task_definitions base_compute_speed tasks = Ok m ->
  snd (DAGScheduler.replay topology task_definitions base_compute_speed tasks)
  = None /\
  forall k t e,
    dict_get k (DAGScheduler.scheduled_tasks
                  (fst (DAGScheduler.replay topology task_definitions
                                            base_compute_speed tasks)))
    = Some t ->
    ScheduledTask.actual_end t = Some e -> e <= m.
Proof.
  unfold DAGScheduler.run.
  destruct (DAGScheduler.replay _ _ _ _) as [st [x|]]; [discriminate|].
  destruct (DAGScheduler.recorded_ends _) as [|x xs] eqn:E; [discriminate|].
  intros R. inversion R; subst m. split; [reflexivity|].
  intros k t e A B. simpl in A.
  destruct (ReplayFacts.py_max_is_max x xs) as [_ M]. apply M.
  rewrite <- E. apply In_recorded_ends. exists k, t. split; auto.
  now apply dict_get_In.
Qed.

(** A replay that raises nothing and leaves some task completed makes
    [run()] return. *)
Lemma run_returns (topology : DAGTopology.t)
      (task_definitions : dict string TaskDefinition.t)
      (base_compute_speed : Q) (tasks : dict string ScheduledTask.t)
      (k : string) (t : ScheduledTask.t) (e : Q) :
  snd (DAGScheduler.replay topology task_definitions base_compute_speed tasks)
  = None ->
  dict_get k (DAGScheduler.scheduled_tasks
                (fst (DAGScheduler.replay topology task_definitions
                                          base_compute_speed tasks)))
  = Some t ->
  ScheduledTask.actual_end t = Some e ->
  exists m, DAGScheduler.run topology task_definitions base_compute_speed
                             tasks = Ok m.
Proof.
  unfold DAGScheduler.run.
  destruct (DAGScheduler.replay _ _ _ _) as [st [x|]]; [discriminate|].
  intros _ A B. simpl in A.
  destruct (DAGScheduler.recorded_ends _) as [|x xs] eqn:E; [|eauto].
  assert (X : In e (DAGScheduler.recorded_ends (DAGScheduler.scheduled_tasks st))).
  { apply In_recorded_ends. exists k, t. split; auto. now apply dict_get_In. }
  rewrite E in X. destruct X.
Qed.
End LiveFacts.

(** X11. A fresh, non-empty schedule replays to the end when every task
    has a definition and a compute time that is defined and not negative,
    every transfer of a positive volume from a resolved predecessor is
    defined, and the resolved predecessors form no cycle: [run()] returns
    a makespan, every scheduled task has an [actual_end], and none exceeds
    the makespan. *)
Theorem X11_valid_acyclic_schedule_completes
        (topology : DAGTopology.t)
        (task_definitions : dict string TaskDefinition.t)
        (base_compute_speed : Q) (tasks : dict string ScheduledTask.t)
        (rank : string -> nat) :
  fresh_schedule tasks ->
  tasks <> [] ->
  (forall p t0, dict_get p tasks = Some t0 ->
     exists td c,
       dict_get (DAGScheduler.parse_base_task_id p) task_definitions
       = Some td /\
       DAGTopology.get_compute_time topology (ScheduledTask.node_id t0)
         (TaskDefinition.compute_cost td) base_compute_speed = Ok c /\
       0 <= c) ->
  (forall p q tp tq,
     dict_get p tasks = Some tp ->
     In q (DAGScheduler._get_predecessors task_definitions tasks p) ->
     dict_get q tasks = Some tq ->
     0 < DAGScheduler._get_data_from_predecessor task_definitions q p ->
     exists x,
       DAGTopology.get_transfer_time topology
         (ScheduledTask.node_id tq) (ScheduledTask.node_id tp)
         (DAGScheduler._get_data_from_predecessor task_definitions q p)
       = Ok x) ->
  (forall p q,
     In p (keys tasks) ->
     In q (DAGScheduler._get_predecessors task_definitions tasks p) ->
     (rank q < rank p)%nat) ->
  exists m,
    DAGScheduler.run topology task_definitions base_compute_speed tasks
    = Ok m /\
    forall p, In p (keys tasks) ->
      exists t e,
        dict_get p (DAGScheduler.scheduled_tasks
                      (fst (DAGScheduler.replay topology task_definitions
                                                base_compute_speed tasks)))
        = Some t /\
        ScheduledTask.actual_end t = Some e /\ e <= m.
Proof.
  intros F NE HC HT HR.
  assert (E : snd (DAGScheduler.replay topology task_definitions
                                       base_compute_speed tasks) = None).
  { destruct (snd (DAGScheduler.replay _ _ _ _)) as [e|] eqn:X; auto.
    exfalso. revert X.
    apply (ReplayFacts.replay_vet topology task_definitions
             base_compute_speed tasks (proj1 F) (fresh_schedule_ids _ F)
             (fresh_schedule_ends _ F) (fun _ => False)).
    - intros p K D. destruct (ReplayFacts.keys_In_get p tasks K) as [t0 T0].
      destruct (HC p t0 T0) as [td [c [A _]]].
      unfold DAGScheduler.base_task_id in D. congruence.
    - intros p x K U.
      destruct (ReplayFacts.uplink0_raise _ _ _ p x K U)
        as [q [tq [tp [A [B [C [D G]]]]]]].
      destruct (HT p q tp tq C A B D) as [y Y]. congruence.
    - intros p t0 td x T0 D G. destruct (HC p t0 T0) as [td' [c [A [B _]]]].
      unfold DAGScheduler.base_task_id in D. congruence.
    - intros p t0 td c T0 D G L. destruct (HC p t0 T0) as [td' [c' [A [B C]]]].
      unfold DAGScheduler.base_task_id in D.
      assert (c' = c) by congruence. subst c'. lra. }
  pose proof (ReplayFacts.replay_live topology task_definitions
                base_compute_speed tasks (proj1 F) (fresh_schedule_ids _ F)
                (fresh_schedule_ends _ F) rank HR E) as L.
  destruct tasks as [|[k0 t0] r] eqn:Tk; [congruence|]. rewrite <- Tk in *.
  assert (K0 : In k0 (keys tasks)) by (rewrite Tk; simpl; auto).
  destruct (L k0 K0) as [t [e [A B]]].
  destruct (LiveFacts.run_returns _ _ _ _ k0 t e E A B) as [m R].
  exists m. split; [exact R|].
  destruct (LiveFacts.run_bounds _ _ _ _ m R) as [_ Bd].
  intros p K. destruct (L p K) as [tp [ep [X Y]]].
  exists tp, ep. split; auto. split; auto. eapply Bd; eauto.
Qed.

Lemma X11_witness :
  exists m,
    DAGScheduler.run (Scenario.topology 8) Scenario.task_definitions 1
                     Scenario.schedule = Ok m /\
    forall p, In p (keys Scenario.schedule) ->
      exists t e,
        dict_get p (DAGScheduler.scheduled_tasks
                      (fst (DAGScheduler.replay (Scenario.topology 8)
                              Scenario.task_definitions 1 Scenario.schedule)))
        = Some t /\
        ScheduledTask.actual_end t = Some e /\ e <= m.
Proof.
  assert (F : fresh_schedule Scenario.schedule).
  { split; repeat constructor; simpl; intuition discriminate. }
  apply (X11_valid_acyclic_schedule_completes (Scenario.topology 8)
           Scenario.task_definitions 1 Scenario.schedule
           (fun s => if String.eqb s "T0" then O else 1%nat) F).
  - discriminate.
  - intros p t0 E. simpl in E.
    destruct (String.eqb_spec p "T0") as [->|N0].
    { inversion E; subst t0. eexists. eexists.
      split; [reflexivity|]. split; [vm_compute; reflexivity|].
      vm_compute. discriminate. }
    destruct (String.eqb_spec p "T1") as [->|N1]; [|discriminate].
    inversion E; subst t0. eexists. eexists.
    split; [reflexivity|]. split; [vm_compute; reflexivity|].
    vm_compute. discriminate.
  - intros p q tp tq Ep Iq Eq L. simpl in Ep.
    destruct (String.eqb_spec p "T0") as [->|N0].
    { vm_compute in Iq. destruct Iq. }
    destruct (String.eqb_spec p "T1") as [->|N1]; [|discriminate].
    vm_compute in Iq. destruct Iq as [<-|[]].
    inversion Ep; subst tp. simpl in Eq. inversion Eq; subst tq.
    eexists. vm_compute. reflexivity.
  - intros p q K Iq. simpl in K. destruct K as [<-|[<-|[]]].
    + vm_compute in Iq. destruct Iq.
    + vm_compute in Iq. destruct Iq as [<-|[]]. simpl. lia.
Defined.

(** X12. When [run()] returns for a fresh schedule whose resolved
    predecessors form no cycle, every scheduled task has completed: each
    has an [actual_end], none later than the makespan returned.  Only a
    cycle lets [run()] return with tasks left out. *)
Theorem X12_acyclic_run_leaves_no_task_out
        (topology : DAGTopology.t)
        (task_definitions : dict string TaskDefinition.t)
        (base_compute_speed : Q) (tasks : dict string ScheduledTask.t)
        (rank : string -> nat) (m : Q) :
  fresh_schedule tasks ->
  DAGScheduler.run topology task_definitions base_compute_speed tasks = Ok m ->
  (forall p q,
     In p (keys tasks) ->
     In q (DAGScheduler._get_predecessors task_definitions tasks p) ->
     (rank q < rank p)%nat) ->
  forall p, In p (keys tasks) ->
    exists t e,
      dict_get p (DAGScheduler.scheduled_tasks
                    (fst (DAGScheduler.replay topology task_definitions
                                              base_compute_speed tasks)))
      = Some t /\
      ScheduledTask.actual_end t = Some e /\ e <= m.
Proof.
  intros F R HR p K.
  destruct (LiveFacts.run_bounds _ _ _ _ m R) as [E Bd].
  destruct (ReplayFacts.replay_live topology task_definitions
              base_compute_speed tasks (proj1 F) (fresh_schedule_ids _ F)
              (fresh_schedule_ends _ F) rank HR E p K) as [t [e [A B]]].
  exists t, e. split; auto. split; auto. eapply Bd; eauto.
Qed.

Lemma X12_witness :
  exists m,
    DAGScheduler.run (Scenario.topology 8) Scenario.task_definitions 1
                     Scenario.late_schedule = Ok m /\
    forall p, In p (keys Scenario.late_schedule) ->
      exists t e,
        dict_get p (DAGScheduler.scheduled_tasks
                      (fst (DAGScheduler.replay (Scenario.topology 8)
                              Scenario.task_definitions 1
                              Scenario.late_schedule)))
        = Some t /\
        ScheduledTask.actual_end t = Some e /\ e <= m.
Proof.
  assert (F : fresh_schedule Scenario.late_schedule).
  { split; repeat constructor; simpl; intuition discriminate. }
  destruct (DAGScheduler.run (Scenario.topology 8) Scenario.task_definitions 1
                             Scenario.late_schedule) as [m|x] eqn:R;
    [|vm_compute in R; discriminate].
  exists m. split; [reflexivity|].
  apply (X12_acyclic_run_leaves_no_task_out (Scenario.topology 8)
           Scenario.task_definitions 1 Scenario.late_schedule
           (fun s => if String.eqb s "T0" then O else 1%nat) m F R).
  intros p q K Iq. simpl in K. destruct K as [<-|[<-|[]]].
  - vm_compute in Iq. destruct Iq.
  - vm_compute in Iq. destruct Iq as [<-|[]]. simpl. lia.
Defined.

(** X13. A completed task with resolved predecessors starts to compute
    exactly when the last of them has ended and its uplink time has
    passed: its [actual_start] is the [actual_end] of one predecessor plus
    its own [uplink_time], and no predecessor ended later than that one.
    Neither [scheduled_start] nor a busy node delays it. *)
Theorem X13_start_is_last_predecessor_end_plus_uplink
        (topology : DAGTopology.t)
        (task_definitions : dict string TaskDefinition.t)
        (base_compute_speed : Q) (tasks : dict string ScheduledTask.t)
        (p : string) (t : ScheduledTask.t) (e : Q) :
  fresh_schedule tasks ->
  dict_get p (DAGScheduler.scheduled_tasks
                (fst (DAGScheduler.replay topology task_definitions
                                          base_compute_speed tasks)))
  = Some t ->
  ScheduledTask.actual_end t = Some e ->
  DAGScheduler._get_predecessors task_definitions tasks p <> [] ->
  exists a q tq eq,
    ScheduledTask.actual_start t = Some a /\
    In q (DAGScheduler._get_predecessors task_definitions tasks p) /\
    dict_get q (DAGScheduler.scheduled_tasks
                  (fst (DAGScheduler.replay topology task_definitions
                                            base_compute_speed tasks)))
    = Some tq /\
    ScheduledTask.actual_end tq = Some eq /\
    a == eq + ScheduledTask.uplink_time t /\
    forall q',
      In q' (DAGScheduler._get_predecessors task_definitions tasks p) ->
      exists tq' eq',
        dict_get q' (DAGScheduler.scheduled_tasks
                       (fst (DAGScheduler.replay topology task_definitions
                                                 base_compute_speed tasks)))
        = Some tq' /\
        ScheduledTask.actual_end tq' = Some eq' /\ eq' <= eq.
Proof.
  intros F A B NE.
  exact (ReplayFacts.replay_began topology task_definitions
           base_compute_speed tasks (proj1 F) (fresh_schedule_ids _ F)
           (fresh_schedule_ends _ F) p t e A B NE).
Qed.

Lemma X13_witness :
  exists t,
    dict_get "T1" (DAGScheduler.scheduled_tasks
                     (fst (DAGScheduler.replay (Scenario.topology 8)
                             Scenario.task_definitions 1
                             Scenario.late_schedule)))
    = Some t /\
    ScheduledTask.scheduled_start t == 18 /\
    exists a q tq eq,
      ScheduledTask.actual_start t = Some a /\
      In q (DAGScheduler._get_predecessors Scenario.task_definitions
                                           Scenario.late_schedule "T1") /\
      dict_get q (DAGScheduler.scheduled_tasks
                    (fst (DAGScheduler.replay (Scenario.topology 8)
                            Scenario.task_definitions 1
                            Scenario.late_schedule)))
      = Some tq /\
      ScheduledTask.actual_end tq = Some eq /\
      a == eq + ScheduledTask.uplink_time t /\
      forall q',
        In q' (DAGScheduler._get_predecessors Scenario.task_definitions
                                              Scenario.late_schedule "T1") ->
        exists tq' eq',
          dict_get q' (DAGScheduler.scheduled_tasks
                         (fst (DAGScheduler.replay (Scenario.topology 8)
                                 Scenario.task_definitions 1
                                 Scenario.late_schedule)))
          = Some tq' /\
          ScheduledTask.actual_end tq' = Some eq' /\ eq' <= eq.
Proof.
  assert (F : fresh_schedule Scenario.late_schedule).
  { split; repeat constructor; simpl; intuition discriminate. }
  destruct (dict_get "T1" (DAGScheduler.scheduled_tasks
                             (fst (DAGScheduler.replay (Scenario.topology 8)
                                     Scenario.task_definitions 1
                                     Scenario.late_schedule))))
    as [t|] eqn:E; [|vm_compute in E; discriminate].
  assert (B : ScheduledTask.actual_end t = Some (128000000 # 8000000)).
  { vm_compute in E. inversion E. reflexivity. }
  assert (S : ScheduledTask.scheduled_start t == 18).
  { vm_compute in E. inversion E. reflexivity. }
  exists t. split; [reflexivity|]. split; [exact S|].
  refine (X13_start_is_last_predecessor_end_plus_uplink (Scenario.topology 8)
            Scenario.task_definitions 1 Scenario.late_schedule "T1" t
            (128000000 # 8000000) F E B _).
  vm_compute. discriminate.
Defined.

(** X14. The times recorded for a completed task are consistent: its
    [uplink_time] and [compute_time] are not negative, its [actual_start]
    is no earlier than its [uplink_time] (so not negative either), and its
    [actual_end] is [actual_start] plus [compute_time]. *)
Theorem X14_recorded_times_are_consistent
        (topology : DAGTopology.t)
        (task_definitions : dict string TaskDefinition.t)
        (base_compute_speed : Q) (tasks : dict string ScheduledTask.t)
        (p : string) (t : ScheduledTask.t) (e : Q) :
  fresh_schedule tasks ->
  dict_get p (DAGScheduler.scheduled_tasks
                (fst (DAGScheduler.replay topology task_definitions
                                          base_compute_speed tasks)))
  = Some t ->
  ScheduledTask.actual_end t = Some e ->
  exists a,
    ScheduledTask.actual_start t = Some a /\
    0 <= ScheduledTask.uplink_time t /\ 0 <= ScheduledTask.compute_time t /\
    ScheduledTask.uplink_time t <= a /\
    e == a + ScheduledTask.compute_time t.
Proof.
  intros F A B.
  exact (ReplayFacts.replay_bounds topology task_definitions
           base_compute_speed tasks (proj1 F) (fresh_schedule_ids _ F)
           (fresh_schedule_ends _ F) p t e A B).
Qed.

Lemma X14_witness :
  exists t,
    dict_get "T1" (DAGScheduler.scheduled_tasks
                     (fst (DAGScheduler.replay (Scenario.topology 8)
                             Scenario.task_definitions 1 Scenario.schedule)))
    = Some t /\
    exists a,
      ScheduledTask.actual_start t = Some a /\
      0 <= ScheduledTask.uplink_time t /\ 0 <= ScheduledTask.compute_time t /\
      ScheduledTask.uplink_time t <= a /\
      (128000000 # 8000000) == a + ScheduledTask.compute_time t.
Proof.
  assert (F : fresh_schedule Scenario.schedule).
  { split; repeat constructor; simpl; intuition discriminate. }
  destruct (dict_get "T1" (DAGScheduler.scheduled_tasks
                             (fst (DAGScheduler.replay (Scenario.topology 8)
                                     Scenario.task_definitions 1
                                     Scenario.schedule))))
    as [t|] eqn:E; [|vm_compute in E; discriminate].
  assert (B : ScheduledTask.actual_end t = Some (128000000 # 8000000)).
  { vm_compute in E. inversion E. reflexivity. }
  exists t. split; [reflexivity|].
  exact (X14_recorded_times_are_consistent (Scenario.topology 8)
           Scenario.task_definitions 1 Scenario.schedule "T1" t
           (128000000 # 8000000) F E B).
Defined.
(* ================================================================== *)
(** ** The metrics collector *)

Module MetricsFacts.
Import MetricsCollector.

Lemma dict_set_fresh {V} (k : string) (v : V) (d : dict string V) :
  ~ In k (keys d) -> dict_set k v d = d ++ [(k, v)].
Proof.
  induction d as [|[k' v'] d IH]; simpl; auto.
  destruct (String.eqb_spec k k') as [->|N]; [tauto|].
  intros A. rewrite IH; auto.
Qed.

(** The entry that one call of [record_task_completion] stores. *)
Definition entry_of (t : ScheduledTask.t) : string * TaskMetrics.t :=
  (ScheduledTask.task_id t, measure t).

Lemma collected_snoc (ms : list ScheduledTask.t) (t : ScheduledTask.t) :
  DAGSimulation.collected (ms ++ [t])
  = record_task_completion (DAGSimulation.collected ms) t.
Proof. unfold DAGSimulation.collected. now rewrite fold_left_app. Qed.

(** Tasks recorded once each are stored in the order of the calls. *)
Lemma collected_spec (ms : list ScheduledTask.t) :
  NoDup (map ScheduledTask.task_id ms) ->
  task_metrics (DAGSimulation.collected ms) = map entry_of ms /\
  _completion_order (DAGSimulation.collected ms)
  = map ScheduledTask.task_id ms.
Proof.
  induction ms as [|t ms IH] using rev_ind; intros ND; [split; reflexivity|].
  rewrite map_app in ND. simpl in ND.
  pose proof (NoDup_remove_1 _ _ _ ND) as ND'.
  pose proof (NoDup_remove_2 _ _ _ ND) as NI.
  rewrite app_nil_r in ND', NI.
  destruct (IH ND') as [A B].
  rewrite collected_snoc. unfold record_task_completion. cbn [task_metrics _completion_order].
  rewrite A, B, !map_app. simpl. split; auto.
  apply dict_set_fresh. unfold keys. rewrite map_map. exact NI.
Qed.

Lemma dict_get_entries (ms : list ScheduledTask.t) (k : string) :
  NoDup (map ScheduledTask.task_id ms) ->
  (forall t, In t ms -> ScheduledTask.task_id t = k ->
             dict_get k (map entry_of ms) = Some (measure t)) /\
  ((forall t, In t ms -> ScheduledTask.task_id t <> k) ->
   dict_get k (map entry_of ms) = None).
Proof.
  induction ms as [|t ms IH]; simpl; intros ND.
  - split; [intros t []|reflexivity].
  - inversion ND as [|x l NI ND']; subst.
    destruct (IH ND') as [A B]. split.
    + intros t' [<-|I] E.
      * now rewrite E, String.eqb_refl.
      * destruct (String.eqb_spec k (ScheduledTask.task_id t)) as [->|N].
        -- exfalso. apply NI. apply in_map_iff. exists t'. auto.
        -- auto.
    + intros H.
      destruct (String.eqb_spec k (ScheduledTask.task_id t)) as [->|N].
      * exfalso. apply (H t); auto.
      * apply B. intros t' I. apply H. auto.
Qed.

Lemma or_zero_Some (v : Q) : or_zero (Some v) == v.
Proof.
  unfold or_zero. destruct (Qeq_bool v 0) eqn:E; [|reflexivity].
  apply Qeq_bool_iff in E. symmetry. exact E.
Qed.

Lemma Forall2_In_r {A B} (R : A -> B -> Prop) (l : list A) (l' : list B)
      (y : B) :
  Forall2 R l l' -> In y l' -> exists x, In x l /\ R x y.
Proof.
  induction 1 as [|a b l l' H F IH]; simpl; [tauto|].
  intros [<-|I]; [eauto|]. destruct (IH I) as [x [X Y]]. eauto.
Qed.

Lemma ordered_Qeq (l l' : list Q) :
  Forall2 Qeq l l' -> ReplayFacts.ordered l -> ReplayFacts.ordered l'.
Proof.
  induction 1 as [|a b l l' E F IH]; simpl; auto.
  intros [A B]. split; auto. intros y I.
  destruct (Forall2_In_r _ _ _ _ F I) as [x [X Y]].
  pose proof (A x X). lra.
Qed.
End MetricsFacts.

(** X15. The replay writes [actual_start], [actual_end], [uplink_time]
    and [compute_time] only: the keys of the schedule and their order, and
    each task's id, node, three scheduled values and [downlink_time] are
    after the replay what they were before. *)
Theorem X15_replay_keeps_the_plan
        (topology : DAGTopology.t)
        (task_definitions : dict string TaskDefinition.t)
        (base_compute_speed : Q) (tasks : dict string ScheduledTask.t) :
  fresh_schedule tasks ->
  keys (DAGScheduler.scheduled_tasks
          (fst (DAGScheduler.replay topology task_definitions
                                    base_compute_speed tasks)))
  = keys tasks /\
  forall k t,
    dict_get k (DAGScheduler.scheduled_tasks
                  (fst (DAGScheduler.replay topology task_definitions
                                            base_compute_speed tasks)))
    = Some t ->
    exists t0, dict_get k tasks = Some t0 /\ ReplayFacts.same_plan t0 t.
Proof.
  intros F. split.
  - apply (ReplayFacts.s_keys _ _ _ _ _ _
             (ReplayFacts.replay_inv topology task_definitions
                base_compute_speed tasks (proj1 F) (fresh_schedule_ids _ F)
                (fresh_schedule_ends _ F))).
  - apply (ReplayFacts.l_plan _ _
             (ReplayFacts.replay_led topology task_definitions
                base_compute_speed tasks (proj1 F) (fresh_schedule_ids _ F)
                (fresh_schedule_ends _ F))).
Qed.

Lemma X15_witness :
  keys (DAGScheduler.scheduled_tasks
          (fst (DAGScheduler.replay (Scenario.topology 8)
                  Scenario.task_definitions 1 Scenario.schedule)))
  = keys Scenario.schedule /\
  forall k t,
    dict_get k (DAGScheduler.scheduled_tasks
                  (fst (DAGScheduler.replay (Scenario.topology 8)
                          Scenario.task_definitions 1 Scenario.schedule)))
    = Some t ->
    exists t0, dict_get k Scenario.schedule = Some t0 /\
               ReplayFacts.same_plan t0 t.
Proof.
  assert (F : fresh_schedule Scenario.schedule).
  { split; repeat constructor; simpl; intuition discriminate. }
  exact (X15_replay_keeps_the_plan (Scenario.topology 8)
           Scenario.task_definitions 1 Scenario.schedule F).
Defined.

Module LedgerFacts.
Import MetricsCollector.

Lemma Forall2_map_Qeq {A} (f g : A -> Q) (l : list A) :
  (forall x, In x l -> f x == g x) -> Forall2 Qeq (map f l) (map g l).
Proof.
  induction l as [|a l IH]; simpl; intros H; constructor; auto.
Qed.

(** The collector after the replay, in terms of the task objects. *)
Lemma collected_final (topology : DAGTopology.t)
      (task_definitions : dict string TaskDefinition.t)
      (base_compute_speed : Q) (tasks : dict string ScheduledTask.t) :
  fresh_schedule tasks ->
  let st := fst (DAGScheduler.replay topology task_definitions
                                     base_compute_speed tasks) in
  let mc := DAGSimulation.collected (DAGScheduler.metrics st) in
  task_metrics mc = map MetricsFacts.entry_of (DAGScheduler.metrics st) /\
  _completion_order mc
  = map ScheduledTask.task_id (DAGScheduler.metrics st) /\
  (forall k,
     dict_get k (task_metrics mc)
     = match dict_get k (DAGScheduler.scheduled_tasks st) with
       | Some t =>
           match ScheduledTask.actual_end t with
           | Some _ => Some (measure t)
           | None => None
           end
       | None => None
       end).
Proof.
  intros F st mc.
  pose proof (ReplayFacts.replay_inv topology task_definitions
                base_compute_speed tasks (proj1 F) (fresh_schedule_ids _ F)
                (fresh_schedule_ends _ F)) as I.
  pose proof (ReplayFacts.replay_led topology task_definitions
                base_compute_speed tasks (proj1 F) (fresh_schedule_ids _ F)
                (fresh_schedule_ends _ F)) as L.
  unfold ReplayFacts.final in I, L. fold st in I, L.
  pose proof (ReplayFacts.l_once _ _ L) as ND.
  destruct (MetricsFacts.collected_spec _ ND) as [A B]. fold mc in A, B.
  split; [exact A|]. split; [exact B|].
  intros k. rewrite A.
  destruct (MetricsFacts.dict_get_entries (DAGScheduler.metrics st) k ND)
    as [G1 G2].
  assert (Sn : forall m, In m (DAGScheduler.metrics st) ->
                 dict_get (ScheduledTask.task_id m)
                          (DAGScheduler.scheduled_tasks st) = Some m /\
                 ScheduledTask.actual_end m <> None)
    by (apply (ReplayFacts.l_snap _ _ L)).
  destruct (dict_get k (DAGScheduler.scheduled_tasks st)) as [t|] eqn:Tk.
  - destruct (ScheduledTask.actual_end t) as [e|] eqn:Ae.
    + apply G1.
      * apply (ReplayFacts.l_all _ _ L k t Tk). congruence.
      * apply (ReplayFacts.s_static _ _ _ _ _ _ I k t Tk).
    + apply G2. intros m Im E. destruct (Sn m Im) as [X Y].
      rewrite E, Tk in X. inversion X; subst. congruence.
  - apply G2. intros m Im E. destruct (Sn m Im) as [X Y].
    rewrite E, Tk in X. discriminate.
Qed.
End LedgerFacts.

(** X16. The metrics collector holds exactly the completed tasks: after
    the replay, [task_metrics] has an entry under a task id just when that
    scheduled task has an [actual_end], and the entry is the one computed
    from the task object as the replay leaves it.  No task is recorded
    twice, and [_completion_order] lists the keys of [task_metrics] in
    their order, which is the order of completion: the recorded ends do
    not decrease. *)
Theorem X16_collector_records_each_completed_task_once
        (topology : DAGTopology.t)
        (task_definitions : dict string TaskDefinition.t)
        (base_compute_speed : Q) (tasks : dict string ScheduledTask.t) :
  fresh_schedule tasks ->
  let st := fst (DAGScheduler.replay topology task_definitions
                                     base_compute_speed tasks) in
  let mc := DAGSimulation.collected (DAGScheduler.metrics st) in
  (forall k,
     dict_get k (MetricsCollector.task_metrics mc)
     = match dict_get k (DAGScheduler.scheduled_tasks st) with
       | Some t =>
           match ScheduledTask.actual_end t with
           | Some _ => Some (MetricsCollector.measure t)
           | None => None
           end
       | None => None
       end) /\
  MetricsCollector._completion_order mc
  = keys (MetricsCollector.task_metrics mc) /\
  NoDup (MetricsCollector._completion_order mc) /\
  ReplayFacts.ordered
    (map TaskMetrics.actual_end (values (MetricsCollector.task_metrics mc))).
Proof.
  intros F st mc.
  destruct (LedgerFacts.collected_final topology task_definitions
              base_compute_speed tasks F) as [A [B G]].
  fold st in A, B, G. fold mc in A, B, G.
  pose proof (ReplayFacts.replay_led topology task_definitions
                base_compute_speed tasks (proj1 F) (fresh_schedule_ids _ F)
                (fresh_schedule_ends _ F)) as L.
  unfold ReplayFacts.final in L. fold st in L.
  split; [exact G|]. split; [|split].
  - rewrite A, B. unfold keys. rewrite map_map. reflexivity.
  - rewrite B. apply (ReplayFacts.l_once _ _ L).
  - rewrite A. unfold values. rewrite !map_map.
    apply (MetricsFacts.ordered_Qeq
             (map ReplayFacts.end_of (DAGScheduler.metrics st)));
      [|apply (ReplayFacts.l_order _ _ L)].
    apply LedgerFacts.Forall2_map_Qeq. intros m Im. simpl.
    destruct (ReplayFacts.l_snap _ _ L m Im) as [_ Y].
    unfold ReplayFacts.end_of.
    destruct (ScheduledTask.actual_end m) as [e|]; [|congruence].
    symmetry. apply MetricsFacts.or_zero_Some.
Qed.

Lemma X16_witness :
  let st := fst (DAGScheduler.replay (Scenario.topology 8)
                   Scenario.task_definitions 1 Scenario.schedule) in
  let mc := DAGSimulation.collected (DAGScheduler.metrics st) in
  (forall k,
     dict_get k (MetricsCollector.task_metrics mc)
     = match dict_get k (DAGScheduler.scheduled_tasks st) with
       | Some t =>
           match ScheduledTask.actual_end t with
           | Some _ => Some (MetricsCollector.measure t)
           | None => None
           end
       | None => None
       end) /\
  MetricsCollector._completion_order mc
  = keys (MetricsCollector.task_metrics mc) /\
  NoDup (MetricsCollector._completion_order mc) /\
  ReplayFacts.ordered
    (map TaskMetrics.actual_end (values (MetricsCollector.task_metrics mc))).
Proof.
  assert (F : fresh_schedule Scenario.schedule).
  { split; repeat constructor; simpl; intuition discriminate. }
  exact (X16_collector_records_each_completed_task_once (Scenario.topology 8)
           Scenario.task_definitions 1 Scenario.schedule F).
Defined.
(* ================================================================== *)
(** ** The whole pipeline: [DAGSimulation.run_full] *)

Module PipelineFacts.
Import loaders.

(** What [load_schedule] returns has not been replayed. *)
Lemma load_schedule_fresh (data : schedule_json)
      (r : dict string ScheduledTask.t * dict string string * option Q) :
  load_schedule data = Ok r -> fresh_schedule (fst (fst r)).
Proof.
  unfold load_schedule.
  destruct (load_entries (s_schedule data)) as [ts|y] eqn:L; cbn [bind];
    [|discriminate].
  intros E. inversion E; subst r. cbn [fst].
  destruct (LoadFacts.load_entries_get _ _ L) as [_ [ND G]].
  split; [exact ND|].
  apply Forall_forall. intros [k t] I. simpl.
  apply (In_dict_get_NoDup _ _ _ ND) in I.
  specialize (G k). destruct (find _ _) as [entry|]; [|congruence].
  destruct G as [t' [Et [Id Gk]]]. rewrite I in Gk. inversion Gk; subst t'.
  split; auto.
  pose proof (LoadFacts.entry_task_cases entry) as Ec.
  destruct (LoadFacts.first_missing entry); [congruence|].
  destruct Ec as [k0 [n [s [e [d [_ [_ [_ [_ [_ Et']]]]]]]]]].
  rewrite Et in Et'. inversion Et'. reflexivity.
Qed.

(** Once [run()] has returned, the collector is not empty. *)
Lemma run_collects (topology : DAGTopology.t)
      (task_definitions : dict string TaskDefinition.t)
      (base_compute_speed : Q) (tasks : dict string ScheduledTask.t) (m : Q) :
  fresh_schedule tasks ->
  DAGScheduler.run topology task_definitions base_compute_speed tasks = Ok m ->
  MetricsCollector.task_metrics
    (DAGSimulation.collected
       (DAGScheduler.metrics
          (fst (DAGScheduler.replay topology task_definitions
                                    base_compute_speed tasks)))) <> [].
Proof.
  intros F R.
  destruct (LedgerFacts.collected_final topology task_definitions
              base_compute_speed tasks F) as [_ [_ G]].
  pose proof (ReplayFacts.replay_inv topology task_definitions
                base_compute_speed tasks (proj1 F) (fresh_schedule_ids _ F)
                (fresh_schedule_ends _ F)) as I.
  unfold ReplayFacts.final in I.
  unfold DAGScheduler.run in R.
  destruct (DAGScheduler.replay topology task_definitions base_compute_speed
                                tasks) as [st [x|]]; [discriminate|].
  cbn [fst] in *.
  destruct (DAGScheduler.recorded_ends _) as [|x xs] eqn:E; [discriminate|].
  assert (X : In x (DAGScheduler.recorded_ends (DAGScheduler.scheduled_tasks st)))
    by (rewrite E; simpl; auto).
  apply In_recorded_ends in X. destruct X as [k [t [A B]]].
  assert (ND : NoDup (keys (DAGScheduler.scheduled_tasks st))).
  { rewrite (ReplayFacts.s_keys _ _ _ _ _ _ I). apply F. }
  apply (In_dict_get_NoDup _ _ _ ND) in A.
  specialize (G k). rewrite A, B in G. intros Z. rewrite Z in G. discriminate.
Qed.
End PipelineFacts.

(** X17. Once [load()] has succeeded, [run_full()] follows [run()]: when
    [run()] returns the makespan, [run_full()] returns it together with
    the planned makespan that [load()] has read, and when [run()] raises,
    [run_full()] raises the same exception, a [ValueError].  Nothing else
    can fail in between: the summary is never empty when it is printed,
    so [print_summary] finds every key it reads. *)
Theorem X17_run_full_follows_run
        (base_compute_speed : Q) (dag : loaders.dag_json)
        (topo : loaders.topology_json) (sched : loaders.schedule_json)
        (l : DAGSimulation.loaded) :
  DAGSimulation.load dag topo sched = Ok l ->
  match fst (DAGSimulation.run base_compute_speed l) with
  | Ok m =>
      DAGSimulation.run_full base_compute_speed dag topo sched
      = Ok (DAGSimulation.heft_makespan l, m)
  | Raise e =>
      DAGSimulation.run_full base_compute_speed dag topo sched = Raise e /\
      exists msg, e = ValueError msg
  end.
Proof.
  intros Ld. unfold DAGSimulation.run_full. rewrite Ld. cbn [bind].
  unfold DAGSimulation.load in Ld.
  destruct (loaders.load_topology topo) as [nl|x] eqn:LT; cbn [bind] in Ld;
    [|discriminate].
  destruct (loaders.load_schedule sched) as [sm|x] eqn:LS; cbn [bind] in Ld;
    [|discriminate].
  pose proof (PipelineFacts.load_schedule_fresh _ _ LS) as F.
  inversion Ld; subst l. clear Ld.
  unfold DAGSimulation.run.
  cbn [fst snd DAGSimulation.nodes DAGSimulation.links
       DAGSimulation.task_definitions DAGSimulation.scheduled_tasks
       DAGSimulation.heft_makespan].
  destruct (DAGScheduler.run (DAGTopology.init (fst nl) (snd nl))
              (loaders.load_dag dag) base_compute_speed (fst (fst sm)))
    as [m|x] eqn:R; cbn [bind].
  2:{ split; [reflexivity|]. eapply RunFacts.run_value_error; eauto. }
  pose proof (PipelineFacts.run_collects _ _ _ _ m F R) as NE.
  unfold MetricsCollector.print_summary, MetricsCollector.get_summary.
  destruct (MetricsCollector.task_metrics _); [congruence|].
  cbn [bind]. reflexivity.
Qed.

Lemma X17_witness :
  exists l,
    DAGSimulation.load Scenario.dag Scenario.topology_doc Scenario.schedule_doc
    = Ok l /\
    match fst (DAGSimulation.run 1 l) with
    | Ok m =>
        DAGSimulation.run_full 1 Scenario.dag Scenario.topology_doc
                               Scenario.schedule_doc
        = Ok (DAGSimulation.heft_makespan l, m)
    | Raise e =>
        DAGSimulation.run_full 1 Scenario.dag Scenario.topology_doc
                               Scenario.schedule_doc = Raise e /\
        exists msg, e = ValueError msg
    end.
Proof.
  destruct (DAGSimulation.load Scenario.dag Scenario.topology_doc
                               Scenario.schedule_doc) as [l|] eqn:E;
    [|vm_compute in E; discriminate].
  exists l. split; [reflexivity|].
  exact (X17_run_full_follows_run 1 Scenario.dag Scenario.topology_doc
           Scenario.schedule_doc l E).
Defined.

Module SummaryFacts.
(** Whether a scheduled task has completed. *)
Definition completed (kv : string * ScheduledTask.t) : bool :=
  match ScheduledTask.actual_end (snd kv) with
  | Some _ => true
  | None => false
  end.

Lemma length_recorded_ends (ts : dict string ScheduledTask.t) :
  List.length (DAGScheduler.recorded_ends ts)
  = List.length (filter completed ts).
Proof.
  unfold DAGScheduler.recorded_ends, completed.
  induction ts as [|[k t] ts IH]; simpl; auto.
  destruct (ScheduledTask.actual_end t); simpl; auto.
Qed.

Lemma NoDup_keys_filter {V} (f : string * V -> bool) (d : dict string V) :
  NoDup (keys d) -> NoDup (keys (filter f d)).
Proof.
  unfold keys. induction d as [|kv d IH]; simpl; intros ND; auto.
  inversion ND as [|x l NI ND']; subst.
  destruct (f kv); simpl; auto. constructor; auto.
  intros A. apply NI. apply in_map_iff in A. destruct A as [y [A B]].
  apply filter_In in B. apply in_map_iff. exists y. tauto.
Qed.

(** The collector holds as many records as tasks have completed. *)
Lemma records_count (topology : DAGTopology.t)
      (task_definitions : dict string TaskDefinition.t)
      (base_compute_speed : Q) (tasks : dict string ScheduledTask.t) :
  fresh_schedule tasks ->
  let st := fst (DAGScheduler.replay topology task_definitions
                                     base_compute_speed tasks) in
  List.length (DAGScheduler.metrics st)
  = List.length (DAGScheduler.recorded_ends (DAGScheduler.scheduled_tasks st))
  /\ (List.length (DAGScheduler.metrics st) <= List.length tasks)%nat.
Proof.
  intros F st.
  pose proof (ReplayFacts.replay_inv topology task_definitions
                base_compute_speed tasks (proj1 F) (fresh_schedule_ids _ F)
                (fresh_schedule_ends _ F)) as I.
  pose proof (ReplayFacts.replay_led topology task_definitions
                base_compute_speed tasks (proj1 F) (fresh_schedule_ids _ F)
                (fresh_schedule_ends _ F)) as L.
  unfold ReplayFacts.final in I, L. fold st in I, L.
  assert (ND : NoDup (keys (DAGScheduler.scheduled_tasks st))).
  { rewrite (ReplayFacts.s_keys _ _ _ _ _ _ I). apply F. }
  rewrite length_recorded_ends.
  assert (P : Permutation
                (map ScheduledTask.task_id (DAGScheduler.metrics st))
                (keys (filter completed (DAGScheduler.scheduled_tasks st)))).
  { apply NoDup_Permutation.
    - apply (ReplayFacts.l_once _ _ L).
    - now apply NoDup_keys_filter.
    - intros k. split.
      + intros A. apply in_map_iff in A. destruct A as [m [A B]].
        destruct (ReplayFacts.l_snap _ _ L m B) as [X Y]. rewrite A in X.
        apply in_map_iff. exists (k, m). split; auto.
        apply filter_In. split; [now apply dict_get_In|].
        unfold completed. simpl.
        destruct (ScheduledTask.actual_end m); congruence.
      + intros A. apply in_map_iff in A. destruct A as [[k' t] [A B]].
        simpl in A. subst k'. apply filter_In in B. destruct B as [B C].
        apply (In_dict_get_NoDup _ _ _ ND) in B.
        unfold completed in C. simpl in C.
        apply in_map_iff. exists t. split.
        * apply (ReplayFacts.s_static _ _ _ _ _ _ I k t B).
        * apply (ReplayFacts.l_all _ _ L k t B).
          destruct (ScheduledTask.actual_end t); congruence. }
  apply Permutation_length in P. unfold keys in P. rewrite !length_map in P.
  split; [exact P|]. rewrite P.
  assert (Len : List.length (DAGScheduler.scheduled_tasks st)
                = List.length tasks).
  { rewrite <- (length_map fst (DAGScheduler.scheduled_tasks st)).
    rewrite <- (length_map fst tasks).
    f_equal. apply (ReplayFacts.s_keys _ _ _ _ _ _ I). }
  rewrite <- Len. apply filter_length_le.
Qed.
End SummaryFacts.

(** X18. When [run()] has returned the makespan [m], the summary the
    collector gives is not the empty dictionary, and its [num_tasks] is
    the number of scheduled tasks that have an [actual_end]: at least one,
    at most the number of scheduled tasks, and fewer when tasks were left
    out.  It carries the two makespans it was given and their
    difference. *)
Theorem X18_summary_counts_completed_tasks
        (topology : DAGTopology.t)
        (task_definitions : dict string TaskDefinition.t)
        (base_compute_speed : Q) (tasks : dict string ScheduledTask.t)
        (heft m : Q) :
  fresh_schedule tasks ->
  DAGScheduler.run topology task_definitions base_compute_speed tasks = Ok m ->
  exists s,
    MetricsCollector.get_summary
      (DAGSimulation.collected
         (DAGScheduler.metrics
            (fst (DAGScheduler.replay topology task_definitions
                                      base_compute_speed tasks))))
      heft m = Some s /\
    Summary.num_tasks s
    = List.length
        (DAGScheduler.recorded_ends
           (DAGScheduler.scheduled_tasks
              (fst (DAGScheduler.replay topology task_definitions
                                        base_compute_speed tasks)))) /\
    (1 <= Summary.num_tasks s <= List.length tasks)%nat /\
    Summary.heft_makespan s = heft /\ Summary.simulated_makespan s = m /\
    Summary.makespan_difference s = m - heft.
Proof.
  intros F R.
  pose proof (PipelineFacts.run_collects _ _ _ _ m F R) as NE.
  destruct (LedgerFacts.collected_final topology task_definitions
              base_compute_speed tasks F) as [A _]. cbv zeta in A.
  destruct (SummaryFacts.records_count topology task_definitions
              base_compute_speed tasks F) as [C1 C2]. cbv zeta in C1, C2.
  unfold MetricsCollector.get_summary.
  destruct (MetricsCollector.task_metrics _) as [|kv r] eqn:TM; [congruence|].
  eexists. split; [reflexivity|]. cbn [Summary.num_tasks Summary.heft_makespan
    Summary.simulated_makespan Summary.makespan_difference].
  assert (Len : List.length (map snd (kv :: r))
                = List.length
                    (DAGScheduler.metrics
                       (fst (DAGScheduler.replay topology task_definitions
                               base_compute_speed tasks)))).
  { rewrite A, !length_map. reflexivity. }
  rewrite Len. split; [exact C1|]. split; [|auto].
  split; [|exact C2]. rewrite <- Len. simpl. lia.
Qed.

Lemma X18_witness :
  exists s,
    MetricsCollector.get_summary
      (DAGSimulation.collected
         (DAGScheduler.metrics
            (fst (DAGScheduler.replay (Scenario.topology 8)
                    Scenario.cyclic_definitions 1 Scenario.cyclic_schedule))))
      16 1 = Some s /\
    Summary.num_tasks s
    = List.length
        (DAGScheduler.recorded_ends
           (DAGScheduler.scheduled_tasks
              (fst (DAGScheduler.replay (Scenario.topology 8)
                      Scenario.cyclic_definitions 1
                      Scenario.cyclic_schedule)))) /\
    (1 <= Summary.num_tasks s <= List.length Scenario.cyclic_schedule)%nat /\
    Summary.heft_makespan s = 16 /\ Summary.simulated_makespan s = 1 /\
    Summary.makespan_difference s = 1 - 16.
Proof.
  assert (F : fresh_schedule Scenario.cyclic_schedule).
  { split; repeat constructor; simpl; intuition discriminate. }
  apply (X18_summary_counts_completed_tasks (Scenario.topology 8)
           Scenario.cyclic_definitions 1 Scenario.cyclic_schedule 16 1 F).
  vm_compute. reflexivity.
Defined.

(** X19. What the collector holds for a task is taken from the completed
    task object: its [actual_start] and [actual_end] are the task's, and
    its [actual_duration] is their difference, where the end is the start
    plus the task's [compute_time]: the span of the compute phase alone,
    in which neither the wait for predecessors nor the uplink counts.
    The three deltas are the differences to the scheduled values. *)
Theorem X19_recorded_duration_is_compute_span
        (topology : DAGTopology.t)
        (task_definitions : dict string TaskDefinition.t)
        (base_compute_speed : Q) (tasks : dict string ScheduledTask.t)
        (k : string) (r : TaskMetrics.t) :
  fresh_schedule tasks ->
  dict_get k
    (MetricsCollector.task_metrics
       (DAGSimulation.collected
          (DAGScheduler.metrics
             (fst (DAGScheduler.replay topology task_definitions
                                       base_compute_speed tasks)))))
  = Some r ->
  exists t a e,
    dict_get k (DAGScheduler.scheduled_tasks
                  (fst (DAGScheduler.replay topology task_definitions
                                            base_compute_speed tasks)))
    = Some t /\
    ScheduledTask.actual_start t = Some a /\
    ScheduledTask.actual_end t = Some e /\
    e == a + ScheduledTask.compute_time t /\
    TaskMetrics.actual_start r == a /\ TaskMetrics.actual_end r == e /\
    TaskMetrics.actual_duration r == e - a /\
    TaskMetrics.start_delta r == a - ScheduledTask.scheduled_start t /\
    TaskMetrics.end_delta r == e - ScheduledTask.scheduled_end t /\
    TaskMetrics.duration_delta r
    == (e - a) - ScheduledTask.scheduled_duration t.
Proof.
  intros F G.
  destruct (LedgerFacts.collected_final topology task_definitions
              base_compute_speed tasks F) as [_ [_ H]]. cbv zeta in H.
  rewrite H in G.
  destruct (dict_get k (DAGScheduler.scheduled_tasks _)) as [t|] eqn:Tk;
    [|discriminate].
  destruct (ScheduledTask.actual_end t) as [e|] eqn:Ae; [|discriminate].
  inversion G; subst r. clear G.
  destruct (ReplayFacts.replay_bounds topology task_definitions
              base_compute_speed tasks (proj1 F) (fresh_schedule_ids _ F)
              (fresh_schedule_ends _ F) k t e Tk Ae) as [a [A [_ [_ [_ B]]]]].
  exists t, a, e. split; [reflexivity|]. split; [exact A|].
  split; [exact Ae|].
  unfold MetricsCollector.measure. cbv zeta.
  cbn [TaskMetrics.actual_start TaskMetrics.actual_end
       TaskMetrics.actual_duration TaskMetrics.start_delta
       TaskMetrics.end_delta TaskMetrics.duration_delta].
  unfold ScheduledTask.actual_duration. rewrite A, Ae.
  pose proof (MetricsFacts.or_zero_Some a) as Za.
  pose proof (MetricsFacts.or_zero_Some e) as Ze.
  pose proof (MetricsFacts.or_zero_Some (e - a)) as Zd.
  repeat split; try assumption; lra.
Qed.

Lemma X19_witness :
  exists r,
    dict_get "T1"
      (MetricsCollector.task_metrics
         (DAGSimulation.collected
            (DAGScheduler.metrics
               (fst (DAGScheduler.replay (Scenario.topology 8)
                       Scenario.task_definitions 1 Scenario.schedule)))))
    = Some r /\
    exists t a e,
      dict_get "T1" (DAGScheduler.scheduled_tasks
                       (fst (DAGScheduler.replay (Scenario.topology 8)
                               Scenario.task_definitions 1
                               Scenario.schedule)))
      = Some t /\
      ScheduledTask.actual_start t = Some a /\
      ScheduledTask.actual_end t = Some e /\
      e == a + ScheduledTask.compute_time t /\
      TaskMetrics.actual_start r == a /\ TaskMetrics.actual_end r == e /\
      TaskMetrics.actual_duration r == e - a /\
      TaskMetrics.start_delta r == a - ScheduledTask.scheduled_start t /\
      TaskMetrics.end_delta r == e - ScheduledTask.scheduled_end t /\
      TaskMetrics.duration_delta r
      == (e - a) - ScheduledTask.scheduled_duration t.
Proof.
  assert (F : fresh_schedule Scenario.schedule).
  { split; repeat constructor; simpl; intuition discriminate. }
  destruct (dict_get "T1"
              (MetricsCollector.task_metrics
                 (DAGSimulation.collected
                    (DAGScheduler.metrics
                       (fst (DAGScheduler.replay (Scenario.topology 8)
                               Scenario.task_definitions 1
                               Scenario.schedule))))))
    as [r|] eqn:E; [|vm_compute in E; discriminate].
  exists r. split; [reflexivity|].
  exact (X19_recorded_duration_is_compute_span (Scenario.topology 8)
           Scenario.task_definitions 1 Scenario.schedule "T1" r F E).
Defined.
(* ================================================================== *)
(** ** Base task ids *)

Module BaseIdFacts.
Import EdgeWeightFacts.

Lemma rsplit_last_free (sep : ascii) (s : string) :
  has_char sep s = false -> rsplit_last sep s = None.
Proof.
  induction s as [|ch s IH]; simpl; auto.
  destruct (Ascii.eqb ch sep); simpl; [discriminate|].
  intros A. now rewrite IH.
Qed.

(** [rsplit] cuts at the last separator. *)
Lemma rsplit_last_app (sep : ascii) (a b : string) :
  has_char sep b = false ->
  rsplit_last sep (a ++ String sep b) = Some (a, b).
Proof.
  intros F. induction a as [|ch a IH]; simpl.
  - now rewrite (rsplit_last_free sep b F), Ascii.eqb_refl.
  - now rewrite IH.
Qed.
End BaseIdFacts.

(** X20. The base id is read off the text alone.  For an id [a_b] whose
    last part [b] holds no underscore, [_get_base_task_id] returns [a] when
    [b] starts with the letter c, whatever follows it, and the whole id
    otherwise; an id without underscore is its own base id.  The cell
    suffix that [_get_predecessors] appends is [b] in the first case and
    absent in the others. *)
Theorem X20_base_id_is_read_off_the_text
        (memo : dict string string) (a b : string) :
  SchedulerFacts.memo_ok memo ->
  EdgeWeightFacts.has_char "_" b = false ->
  fst (DAGScheduler._get_base_task_id memo (a ++ "_" ++ b))
  = (if startswith b "c" then a else (a ++ "_" ++ b))%string /\
  DAGScheduler.cell_suffix (a ++ "_" ++ b)
  = (if startswith b "c" then Some b else None) /\
  fst (DAGScheduler._get_base_task_id memo b) = b /\
  DAGScheduler.cell_suffix b = None.
Proof.
  intros M F.
  rewrite (proj1 (SchedulerFacts._get_base_task_id_memo memo _ M)).
  rewrite (proj1 (SchedulerFacts._get_base_task_id_memo memo b M)).
  unfold DAGScheduler.parse_base_task_id, DAGScheduler.cell_suffix, rsplit1.
  change (a ++ "_" ++ b)%string with (a ++ String "_" b)%string.
  rewrite (BaseIdFacts.rsplit_last_app "_" a b F).
  rewrite (BaseIdFacts.rsplit_last_free "_" b F).
  repeat split; reflexivity.
Qed.

Lemma X20_witness :
  fst (DAGScheduler._get_base_task_id [] ("data" ++ "_" ++ "cleanup"))
  = (if startswith "cleanup" "c" then "data"
     else ("data" ++ "_" ++ "cleanup"))%string /\
  DAGScheduler.cell_suffix ("data" ++ "_" ++ "cleanup")
  = (if startswith "cleanup" "c" then Some "cleanup" else None) /\
  fst (DAGScheduler._get_base_task_id [] "cleanup") = "cleanup" /\
  DAGScheduler.cell_suffix "cleanup" = None.
Proof.
  apply (X20_base_id_is_read_off_the_text [] "data" "cleanup").
  - apply SchedulerFacts.memo_ok_nil.
  - reflexivity.
Defined.

(** X21. A scheduled task that lies on a cycle of resolved predecessors,
    or that depends on a task of such a cycle through a chain of resolved
    predecessors, is never completed: the replay leaves it without an
    [actual_end], whatever the topology and the compute costs are. *)
Theorem X21_tasks_behind_a_cycle_never_complete
        (topology : DAGTopology.t)
        (task_definitions : dict string TaskDefinition.t)
        (base_compute_speed : Q) (tasks : dict string ScheduledTask.t)
        (c p : string) (t : ScheduledTask.t) :
  fresh_schedule tasks ->
  ReplayFacts.depends task_definitions tasks c c ->
  p = c \/ ReplayFacts.depends task_definitions tasks c p ->
  dict_get p (DAGScheduler.scheduled_tasks
                (fst (DAGScheduler.replay topology task_definitions
                                          base_compute_speed tasks)))
  = Some t ->
  ScheduledTask.actual_end t = None.
Proof.
  intros F Cy Dp Tp.
  exact (ReplayFacts.replay_cycle topology task_definitions
           base_compute_speed tasks (proj1 F) (fresh_schedule_ids _ F)
           (fresh_schedule_ends _ F) c p t Cy Dp Tp).
Qed.

Lemma X21_witness :
  ReplayFacts.depends Scenario.cyclic_definitions Scenario.cyclic_schedule
                      "B" "B" /\
  exists t,
    dict_get "C" (DAGScheduler.scheduled_tasks
                    (fst (DAGScheduler.replay (Scenario.topology 8)
                            Scenario.cyclic_definitions 1
                            Scenario.cyclic_schedule)))
    = Some t /\
    ScheduledTask.actual_end t = None.
Proof.
  assert (F : fresh_schedule Scenario.cyclic_schedule).
  { split; repeat constructor; simpl; intuition discriminate. }
  assert (BC : ReplayFacts.depends Scenario.cyclic_definitions
                 Scenario.cyclic_schedule "B" "C").
  { apply ReplayFacts.dep_one. vm_compute. auto. }
  assert (BB : ReplayFacts.depends Scenario.cyclic_definitions
                 Scenario.cyclic_schedule "B" "B").
  { apply (ReplayFacts.dep_more _ _ "B" "C" "B" BC). vm_compute. auto. }
  split; [exact BB|].
  destruct (dict_get "C" (DAGScheduler.scheduled_tasks
                            (fst (DAGScheduler.replay (Scenario.topology 8)
                                    Scenario.cyclic_definitions 1
                                    Scenario.cyclic_schedule))))
    as [t|] eqn:E; [|vm_compute in E; discriminate].
  exists t. split; [reflexivity|].
  exact (X21_tasks_behind_a_cycle_never_complete (Scenario.topology 8)
           Scenario.cyclic_definitions 1 Scenario.cyclic_schedule "B" "C" t
           F BB (or_intror BC) E).
Defined.

(** X22. The completion order respects the dependencies: wherever a task
    id stands in [_completion_order], all resolved predecessors of that task
    stand before it. *)
Theorem X22_completion_order_respects_dependencies
        (topology : DAGTopology.t)
        (task_definitions : dict string TaskDefinition.t)
        (base_compute_speed : Q) (tasks : dict string ScheduledTask.t)
        (before after : list string) (p q : string) :
  fresh_schedule tasks ->
  MetricsCollector._completion_order
    (DAGSimulation.collected
       (DAGScheduler.metrics
          (fst (DAGScheduler.replay topology task_definitions
                                    base_compute_speed tasks))))
  = before ++ p :: after ->
  In q (DAGScheduler._get_predecessors task_definitions tasks p) ->
  In q before.
Proof.
  intros F E Iq.
  destruct (LedgerFacts.collected_final topology task_definitions
              base_compute_speed tasks F) as [_ [B _]]. cbv zeta in B.
  rewrite B in E. apply map_eq_app in E.
  destruct E as [l1 [r [E1 [E2 E3]]]].
  apply map_eq_cons in E3. destruct E3 as [m [l2 [E4 [E5 E6]]]].
  subst r before p.
  exact (ReplayFacts.replay_prec topology task_definitions
           base_compute_speed tasks (proj1 F) (fresh_schedule_ids _ F)
           (fresh_schedule_ends _ F) l1 m l2 E1 q Iq).
Qed.

Lemma X22_witness :
  MetricsCollector._completion_order
    (DAGSimulation.collected
       (DAGScheduler.metrics
          (fst (DAGScheduler.replay (Scenario.topology 8)
                  Scenario.task_definitions 1 Scenario.schedule))))
  = ["T0"] ++ "T1" :: [] /\
  In "T0" ["T0"].
Proof.
  assert (F : fresh_schedule Scenario.schedule).
  { split; repeat constructor; simpl; intuition discriminate. }
  assert (E : MetricsCollector._completion_order
                (DAGSimulation.collected
                   (DAGScheduler.metrics
                      (fst (DAGScheduler.replay (Scenario.topology 8)
                              Scenario.task_definitions 1
                              Scenario.schedule))))
              = ["T0"] ++ "T1" :: [])
    by (vm_compute; reflexivity).
  split; [exact E|].
  apply (X22_completion_order_respects_dependencies (Scenario.topology 8)
           Scenario.task_definitions 1 Scenario.schedule ["T0"] [] "T1" "T0"
           F E).
  vm_compute. auto.
Defined.
